(** * browserstack-connector: session admission and confirmation

    A shallow embedding of the connector module (class
    [BrowserStackConnector], in its version with the hub) and of [hub.js]
    (class [Hub]).

    Line numbers in the comments are those of the connector module, or of
    [hub.js] where it is named.

    - Part 1 gives the values the code handles: workers, Node-style
      callbacks, thrown values, and the effects visible from outside.
    - Part 2 embeds the sequential methods ([_getWorker], [getSessionUrl],
      [_getFreeMachineCount], [waitForFreeMachines]) in a small
      error-and-log monad, run against the answers of the remote service.
    - Part 3 embeds [Hub] (the [EventEmitter] registry and its single route)
      and the session opener ([_startBrowser], [startBrowser],
      [stopBrowser]) as a transition system driven by the events of the
      Node event loop. *)

From Stdlib Require Import ZArith String List Lia Bool.
From stdpp Require Import base list strings pretty.
From Equations Require Import Equations.

Open Scope string_scope.
Open Scope Z_scope.

(** * Part 1: values *)

(** A worker object as returned by the BrowserStack client; only the
    properties the connector reads. [browser_url] may be absent. *)
Record Worker := mkWorker {
  w_id : string;
  w_status : string;
  browser_url : option string
}.

(** Arguments of a Node callback [(err, res) => ...]: either an error and no
    result, or no error and a result. *)
Inductive Callback (A : Type) :=
| CbErr (err : string)
| CbOk (res : A).
Arguments CbErr {A} err.
Arguments CbOk {A} res.

(** [(err, res) => resolve(res)]: the error is dropped, the result is
    [undefined] when the call failed. *)
Definition resolve_res {A} (cb : Callback A) : option A :=
  match cb with
  | CbErr _ => None
  | CbOk res => Some res
  end.

(** Values that the code throws or rejects promises with. *)
Inductive JsError :=
| ClientErr (err : string)        (* the [err] handed over by the client *)
| Str (s : string)                (* a rejected string *)
| Error (message : string)        (* [new Error(message)] *)
| TypeError (message : string).   (* property read on null or undefined *)

(** String conversion of a thrown value inside a template literal. *)
Definition error_to_string (e : JsError) : string :=
  match e with
  | ClientErr err => err
  | Str s => s
  | Error m => "Error: " ++ m
  | TypeError m => "TypeError: " ++ m
  end.

(** A variable holding [null], [undefined] or a worker object. *)
Inductive WorkerVar :=
| WNull
| WUndefined
| WObj (w : Worker).

Definition of_option (o : option Worker) : WorkerVar :=
  match o with
  | None => WUndefined
  | Some w => WObj w
  end.

(** The settings object of [createWorker]; [url] is kept in its parts
    (http://[host]:[port]/[path]?url=[target]). *)
Record HubUrl := mkHubUrl {
  u_host : string;
  u_port : Z;
  u_path : string;
  u_target : string
}.

Record BrowserSettings := mkBrowserSettings {
  bs_os : option string;
  bs_osVersion : option string;
  bs_name : option string;
  bs_version : option string;
  bs_device : option string;
  bs_realMobile : option bool
}.

Record WorkerSettings := mkWorkerSettings {
  ws_os : option string;
  ws_os_version : option string;
  ws_browser : option string;
  ws_browser_version : string;
  ws_device : option string;
  ws_url : HubUrl;
  ws_timeout : Z;
  ws_name : option string;
  ws_build : option string;
  ws_localIdentifier : Z;
  ws_realMobile : option bool
}.

(** An HTTP response of the hub: the redirect of the route handler, the
    reply Express gives by itself to OPTIONS (status 200, the methods in
    the [Allow] header), or its 404. *)
Inductive Response :=
| Redirect (code : Z) (location : option string)
| Allow (methods : string)
| NotFound.

(** Effects visible from outside, tagged with the attempt ([_startBrowser]
    activation) that causes them where there is one. *)
Inductive Action :=
| AStdout (line : string)
| AGetApiStatus
| AGetWorkers
| AGetWorker (id : string)
| AWait (ms : Z)
| ASetTimeout (k : nat) (ms : Z)
| AClearTimeout (k : nat)
| AAddListener (event : string) (k : nat)
| ARemoveListener (event : string) (k : nat)
| ACreateWorker (k : nat) (settings : WorkerSettings)
| ATerminateWorker (k : nat) (workerId : string)
| AUnhandledRejection (k : nat) (e : JsError)
| ARespond (r : Response).

(** The connector as built by its constructor. *)
Record Connector := mkConnector {
  connectorLogging : bool;
  hubPort : Z;
  tunnelIdentifier : Z
}.

Definition DEFAULT_BROWSER_OPENING_MAX_ATTEMPT : Z := 3.
Definition DEFAULT_BROWSER_OPENING_TIMEOUT : Z := 60 * 1000.
Definition DEFAULT_HUB_PORT : Z := 1000.

(** [a || b] on numbers: [undefined] and [0] are falsy. *)
Definition or_default (a : option Z) (b : Z) : Z :=
  match a with
  | Some v => if v =? 0 then b else v
  | None => b
  end.

(** The constructor: [{ connectorLogging = true, servicePort = 1000 }]. *)
Definition new_connector (logging : option bool) (servicePort : option Z) (now : Z)
  : Connector :=
  {| connectorLogging := default true logging;
     hubPort := or_default (Some (default DEFAULT_HUB_PORT servicePort)) DEFAULT_HUB_PORT;
     tunnelIdentifier := now |}.

(** [worker && worker.status === 'running'] *)
Definition is_running (worker : option Worker) : bool :=
  match worker with
  | Some w => String.eqb (w_status w) "running"
  | None => false
  end.

Definition newline : string := String (Ascii.ascii_of_nat 10) "".

(** Constants of [_getWorker]. *)
Definition maxAttempts : nat := 30.
Definition requestTimeout : Z := 10000.

(** * Part 2: the sequential methods *)

(** The log is kept newest first. *)
Definition M (A : Type) : Type := list Action → (JsError + A) * list Action.

Definition ret {A} (a : A) : M A := λ log, (inr a, log).
Definition throw {A} (e : JsError) : M A := λ log, (inl e, log).
Definition bind {A B} (m : M A) (f : A → M B) : M B :=
  λ log, match m log with
         | (inl e, log') => (inl e, log')
         | (inr a, log') => f a log'
         end.
Definition act (a : Action) : M unit := λ log, (inr tt, a :: log).

Notation "'let*' x ':=' m 'in' k" := (bind m (λ x, k))
  (at level 10, x name, m at level 100, k at level 200).
Notation "'do' m 'then' k" := (bind m (λ _, k))
  (at level 10, m at level 100, k at level 200).

(** Run a computation from the empty log; the effects come out oldest
    first. *)
Definition run_M {A} (m : M A) : (JsError + A) * list Action :=
  let '(r, log) := m [] in (r, rev log).

(** The remote service during one sequential call: its answer to the
    [n]-th request of each kind. *)
Record Farm := mkFarm {
  getApiStatus : nat → Callback Z;
  getWorkers : nat → Callback (list Worker);
  getWorker : string → nat → Callback Worker
}.

Section Sequential.
Context (this : Connector) (farm : Farm).

(** [_log] (lines 30-33). *)
Definition _log (message : string) : M unit :=
  if connectorLogging this then act (AStdout (message ++ newline)) else ret tt.

(** Modelled from the spec: [wait] of [utils/wait.js], which the connector
    imports and which is not among the sources. The spec has it sleep for
    the given time; here it is the effect [AWait ms]. *)
Definition wait (ms : Z) : M unit := act (AWait ms).

(** A call that returns a promise: what it does at once (it issues its
    request) and what happens when the callback of the request runs. *)
Definition Async (A : Type) : Type := (M unit * M A)%type.

(** [await Promise.all([p, q])]: both calls are made, then the results are
    awaited; the first rejection is thrown. *)
Definition Promise_all {A B} (p : Async A) (q : Async B) : M (A * B) :=
  do fst p then
  do fst q then
  let* a := snd p in
  let* b := snd q in
  ret (a, b).

(** [_getWorkers] (lines 35-37): [(err, res) => resolve(res)], it never
    rejects. *)
Definition _getWorkers (n : nat) : Async (option (list Worker)) :=
  (act AGetWorkers, ret (resolve_res (getWorkers farm n))).

(** [_getMaxAvailableMachines] (lines 61-72): logs and rejects on [err],
    resolves with [status.sessions_limit] otherwise. *)
Definition _getMaxAvailableMachines (n : nat) : Async Z :=
  (act AGetApiStatus,
   match getApiStatus farm n with
   | CbErr err => do _log err then throw (ClientErr err)
   | CbOk sessions_limit => ret sessions_limit
   end).

(** [_getFreeMachineCount] (lines 74-78): [maxMachines - workers.length],
    where [workers] is [undefined] after a failed listing. [n] numbers the
    checks. *)
Definition _getFreeMachineCount (n : nat) : M Z :=
  let* both := Promise_all (_getMaxAvailableMachines n) (_getWorkers n) in
  let maxMachines := fst both in
  match snd both with
  | Some workers => ret (maxMachines - Z.of_nat (length workers))
  | None => throw (TypeError "Cannot read property 'length' of undefined")
  end.

Definition shortfall_message (freeMachineCount machineCount : Z) : string :=
  "The number of free machines (" ++ pretty freeMachineCount
    ++ ") is less than requested (" ++ pretty machineCount ++ ").".

(** [waitForFreeMachines] (lines 226-242), from the loop test
    [attempts < maxAttemptCount] on; [attempts] is also the number of
    checks made so far. *)
Equations? waitForFreeMachines_from
    (machineCount requestInterval maxAttemptCount : Z) (attempts : nat)
    : M unit by wf (Z.to_nat (maxAttemptCount - Z.of_nat attempts)) lt :=
  waitForFreeMachines_from machineCount requestInterval maxAttemptCount attempts
    with Z_lt_dec (Z.of_nat attempts) maxAttemptCount => {
    | left _ =>
        let* freeMachineCount := _getFreeMachineCount attempts in
        if freeMachineCount >=? machineCount then ret tt
        else
          do _log (shortfall_message freeMachineCount machineCount) then
          do wait requestInterval then
          waitForFreeMachines_from machineCount requestInterval
            maxAttemptCount (S attempts)
    | right _ => throw (Error "There are no free machines") }.
Proof. lia. Qed.

Definition waitForFreeMachines (machineCount requestInterval maxAttemptCount : Z)
  : M unit :=
  waitForFreeMachines_from machineCount requestInterval maxAttemptCount 0.

(** [_getWorker] (lines 39-59), from the loop test
    [attempts++ <= maxAttempts] on; [attempts] is the value before the
    increment, and the number of polls made so far. The callback of
    [client.getWorker] drops [err]. *)
Equations? _getWorker_from (id : string) (attempts : nat)
    : M (option Worker) by wf (S maxAttempts - attempts)%nat lt :=
  _getWorker_from id attempts with le_dec attempts maxAttempts => {
    | left _ =>
        do act (AGetWorker id) then
        let worker := resolve_res (getWorker farm id attempts) in
        if is_running worker then ret worker
        else do wait requestTimeout then _getWorker_from id (S attempts)
    | right _ => ret None }.
Proof. unfold maxAttempts in *. lia. Qed.

Definition _getWorker (id : string) : M (option Worker) := _getWorker_from id 0.

(** [getSessionUrl] (lines 80-84): [worker && worker.browser_url]; [None]
    is [undefined]. *)
Definition getSessionUrl (id : string) : M (option string) :=
  let* worker := _getWorker id in
  ret (match worker with Some w => browser_url w | None => None end).

End Sequential.

(** * Part 3: the hub and the session opener as a transition system *)

(** ** State *)

Inductive Promise :=
| Pending
| Fulfilled
| Rejected (e : JsError).

Inductive Timer :=
| Armed
| Cleared
| Fired.

(** Where the body of one [_startBrowser] activation is suspended (at the
    [await] of line 144, inside [_getWorker] called at line 146, which
    awaits at lines 52 and 57, or at the [await] of line 148), or how it
    ended. In the two [_getWorker] points, [attempts] is the counter after
    [attempts++]. *)
Inductive Body :=
| AwaitCreateWorker
| AwaitGetWorker (workerId : string) (attempts : nat)
| AwaitWait (workerId : string) (attempts : nat)
| AwaitUrlOpened
| Resolved (w : Worker)
| Failed (e : JsError).

(** The async function given to [setTimeout] (lines 133-139): not called
    yet, suspended at [await this.stopBrowser(...)], run to its end, or
    ended by an exception that nobody handles. *)
Inductive TimeoutFn :=
| NotCalled
| AwaitStopBrowser
| Completed
| Crashed (e : JsError).

(** One activation of [_startBrowser] (an attempt): its local variables and
    its promise. [owner] is the [startBrowser] call that runs it. *)
Record Attempt := mkAttempt {
  owner : nat;
  browserId : string;
  worker : WorkerVar;
  timeoutId : Timer;
  waitForUrlOpened : Promise;
  body : Body;
  timeoutFn : TimeoutFn
}.

Record JobInfo := mkJobInfo {
  jobName : option string;
  build : option string
}.

(** The last argument of [startBrowser], as the caller passes it. *)
Record StartOptions := mkStartOptions {
  maxAttepts : option Z;
  openingTimeout : option Z;
  workingTimeout : option Z
}.

(** A call of [startBrowser] waits for attempt [k] at its [await], or has
    returned, or has thrown. *)
Inductive CallState :=
| Running (k : nat)
| Returned (w : WorkerVar)
| Threw (e : JsError).

(** One call of [startBrowser]: its arguments and local variables. *)
Record StartCall := mkStartCall {
  c_browserSettings : BrowserSettings;
  c_url : string;
  c_job : JobInfo;
  c_options : StartOptions;
  c_maxAttepts : Z;
  c_openingTimeout : Z;
  c_worker : WorkerVar;
  c_attempt : nat;
  c_error : option JsError;
  c_state : CallState
}.

(** The connector with its hub: the attempts and calls made so far, the
    listener registry of the hub ([event], attempt whose [hubHandler] it
    is) in registration order, and the log of effects, newest first. *)
Record State := mkState {
  attempts : list Attempt;
  calls : list StartCall;
  listeners : list (string * nat);
  st_log : list Action
}.

Definition initial : State :=
  {| attempts := []; calls := []; listeners := []; st_log := [] |}.

Definition set_worker (v : WorkerVar) (a : Attempt) : Attempt :=
  mkAttempt (owner a) (browserId a) v (timeoutId a) (waitForUrlOpened a)
    (body a) (timeoutFn a).
Definition set_timeoutId (v : Timer) (a : Attempt) : Attempt :=
  mkAttempt (owner a) (browserId a) (worker a) v (waitForUrlOpened a)
    (body a) (timeoutFn a).
Definition set_waitForUrlOpened (v : Promise) (a : Attempt) : Attempt :=
  mkAttempt (owner a) (browserId a) (worker a) (timeoutId a) v
    (body a) (timeoutFn a).
Definition set_body (v : Body) (a : Attempt) : Attempt :=
  mkAttempt (owner a) (browserId a) (worker a) (timeoutId a)
    (waitForUrlOpened a) v (timeoutFn a).
Definition set_timeoutFn (v : TimeoutFn) (a : Attempt) : Attempt :=
  mkAttempt (owner a) (browserId a) (worker a) (timeoutId a)
    (waitForUrlOpened a) (body a) v.

Definition set_c_worker (v : WorkerVar) (c : StartCall) : StartCall :=
  mkStartCall (c_browserSettings c) (c_url c) (c_job c) (c_options c)
    (c_maxAttepts c) (c_openingTimeout c) v (c_attempt c) (c_error c) (c_state c).
Definition set_c_attempt (v : nat) (c : StartCall) : StartCall :=
  mkStartCall (c_browserSettings c) (c_url c) (c_job c) (c_options c)
    (c_maxAttepts c) (c_openingTimeout c) (c_worker c) v (c_error c) (c_state c).
Definition set_c_error (v : option JsError) (c : StartCall) : StartCall :=
  mkStartCall (c_browserSettings c) (c_url c) (c_job c) (c_options c)
    (c_maxAttepts c) (c_openingTimeout c) (c_worker c) (c_attempt c) v (c_state c).
Definition set_c_state (v : CallState) (c : StartCall) : StartCall :=
  mkStartCall (c_browserSettings c) (c_url c) (c_job c) (c_options c)
    (c_maxAttepts c) (c_openingTimeout c) (c_worker c) (c_attempt c) (c_error c) v.

Definition set_attempts (v : list Attempt) (st : State) : State :=
  mkState v (calls st) (listeners st) (st_log st).
Definition set_calls (v : list StartCall) (st : State) : State :=
  mkState (attempts st) v (listeners st) (st_log st).
Definition set_listeners (v : list (string * nat)) (st : State) : State :=
  mkState (attempts st) (calls st) v (st_log st).
Definition set_log (v : list Action) (st : State) : State :=
  mkState (attempts st) (calls st) (listeners st) v.

(** Write attempt [k], call [c]. *)
Definition put_attempt (k : nat) (a : Attempt) (st : State) : State :=
  set_attempts (<[k := a]> (attempts st)) st.
Definition put_call (c : nat) (call : StartCall) (st : State) : State :=
  set_calls (<[c := call]> (calls st)) st.

(** Perform an effect. *)
Definition emit_action (a : Action) (st : State) : State :=
  set_log (a :: st_log st) st.

(** Run a Part 2 computation that cannot fail on the log of the state. *)
Definition lift (m : M unit) (st : State) : State :=
  set_log (snd (m (st_log st))) st.

(** ** The EventEmitter part of the hub *)

Definition same_listener (x y : string * nat) : bool :=
  String.eqb (fst x) (fst y) && Nat.eqb (snd x) (snd y).

Fixpoint remove_first (x : string * nat) (l : list (string * nat))
  : list (string * nat) :=
  match l with
  | [] => []
  | y :: l' => if same_listener x y then l' else y :: remove_first x l'
  end.

(** [emitter.addListener(event, hubHandler_k)] *)
Definition addListener (event : string) (k : nat) (st : State) : State :=
  emit_action (AAddListener event k)
    (set_listeners (listeners st ++ [(event, k)]) st).

(** [emitter.removeListener(event, hubHandler_k)]: the most recently added
    instance goes. *)
Definition removeListener (event : string) (k : nat) (st : State) : State :=
  emit_action (ARemoveListener event k)
    (set_listeners (rev (remove_first (event, k) (rev (listeners st)))) st).

(** The handlers [emit(event, ...)] calls: a copy of the list registered
    for [event], taken before the first one runs. *)
Definition handlers_of (event : string) (st : State) : list nat :=
  map snd (List.filter (λ l, String.eqb (fst l) event) (listeners st)).

(** ** The session opener *)

(** A request as Express hands it to the router: the method, the path
    split at its slashes (so [/abc123] is ["abc123"] and [/abc123/] is
    ["abc123"; EmptyString]), each segment decoded, and the parsed
    (decoded) [url] query parameter. The request has no body, so that the
    body parser in front of the router passes it on. *)
Record Request := mkRequest {
  method : string;
  path : list string;
  query_url : option string
}.

(** What the Node event loop can deliver: a call of the public API, the
    callback of a pending client request, an elapsed timer, an inbound
    request on the hub's port, or a direct [emit] on the hub by whoever
    holds the connector. *)
Inductive Event :=
| StartBrowser (browserSettings : BrowserSettings) (url : string)
    (job : JobInfo) (options : StartOptions)
| CreateWorkerDone (k : nat) (cb : Callback string)
| GetWorkerDone (k : nat) (cb : Callback Worker)
| WaitDone (k : nat)
| OpeningTimeout (k : nat)
| TerminateWorkerDone (k : nat) (cb : Callback Z)
| HttpRequest (req : Request)
| Emit (event : string) (arg : string).

(** Template-literal conversion of an optional string. *)
Definition show (o : option string) : string :=
  match o with
  | Some s => s
  | None => "undefined"
  end.

(** [a || b] on strings: [undefined] and the empty string are falsy. *)
Definition or_string (a : option string) (b : option string) : option string :=
  match a with
  | Some "" => b
  | Some s => Some s
  | None => b
  end.

Definition truthy (v : WorkerVar) : bool :=
  match v with
  | WObj _ => true
  | _ => false
  end.

Section Opener.
Context (this : Connector) (hostname : string) (uid : nat → string).

(** The [settings] object built in [createWorker] (lines 93-107). *)
Definition worker_settings (call : StartCall) (browserId : string) : WorkerSettings :=
  let browserSettings := c_browserSettings call in
  {| ws_os := bs_os browserSettings;
     ws_os_version := bs_osVersion browserSettings;
     ws_browser := or_string (bs_name browserSettings) None;
     ws_browser_version := show (or_string (bs_version browserSettings) (Some "latest"));
     ws_device := or_string (bs_device browserSettings) None;
     ws_url := mkHubUrl hostname (hubPort this) browserId (c_url call);
     ws_timeout := or_default (workingTimeout (c_options call)) 1800;
     ws_name := jobName (c_job call);
     ws_build := build (c_job call);
     ws_localIdentifier := tunnelIdentifier this;
     ws_realMobile := bs_realMobile browserSettings |}.

(** [_startBrowser] up to its first suspension (lines 87-144): [uid(10)]
    gives the id, the executor of [waitForUrlOpened] arms the timer (line
    133) and registers [hubHandler] (line 141), then [createWorker()]
    issues the request (line 109). The new attempt gets the next free
    index, and [uid k] stands for the [k]-th result of [uid(10)]. *)
Definition _startBrowser_begin (c : nat) (call : StartCall) (st : State) : State :=
  let k := length (attempts st) in
  let browserId := uid k in
  let a := {| owner := c; browserId := browserId; worker := WNull;
              timeoutId := Armed; waitForUrlOpened := Pending;
              body := AwaitCreateWorker; timeoutFn := NotCalled |} in
  let st := set_attempts (attempts st ++ [a]) st in
  let st := emit_action (ASetTimeout k (c_openingTimeout call)) st in
  let st := addListener "browser-opened" k st in
  emit_action (ACreateWorker k (worker_settings call browserId)) st.

(** [startBrowser] from its loop test on (lines 163-181). *)
Definition startBrowser_loop (c : nat) (st : State) : State :=
  match calls st !! c with
  | None => st
  | Some call =>
      if (Z.of_nat (c_attempt call) <? c_maxAttepts call) && negb (truthy (c_worker call))
      then
        let call := set_c_state (Running (length (attempts st))) (set_c_error None call) in
        _startBrowser_begin c call (put_call c call st)
      else
        match c_error call with
        | Some error =>
            put_call c
              (set_c_state
                 (Threw (Error ("Unable to start browser "
                                  ++ show (bs_name (c_browserSettings call))
                                  ++ " due to: " ++ error_to_string error))) call) st
        | None => put_call c (set_c_state (Returned (c_worker call)) call) st
        end
  end.

(** The public [startBrowser] (lines 155-161): defaults, then the loop.
    [c_state] is set by the loop at once. *)
Definition startBrowser (browserSettings : BrowserSettings) (url : string)
    (job : JobInfo) (options : StartOptions) (st : State) : State :=
  let call :=
    {| c_browserSettings := browserSettings; c_url := url; c_job := job;
       c_options := options;
       c_maxAttepts := or_default (maxAttepts options) DEFAULT_BROWSER_OPENING_MAX_ATTEMPT;
       c_openingTimeout := or_default (openingTimeout options) DEFAULT_BROWSER_OPENING_TIMEOUT;
       c_worker := WNull; c_attempt := 0%nat; c_error := None;
       c_state := Returned WNull |} in
  startBrowser_loop (length (calls st)) (set_calls (calls st ++ [call]) st).

(** Attempt [k] settles: [startBrowser] resumes after its [await] (line
    166), in the [try] or in the [catch] (lines 171-175), and goes back to
    the loop test. *)
Definition settle (k : nat) (r : JsError + Worker) (st : State) : State :=
  match attempts st !! k with
  | None => st
  | Some a =>
      let st :=
        put_attempt k
          (set_body (match r with inl e => Failed e | inr w => Resolved w end) a) st in
      match calls st !! owner a with
      | None => st
      | Some call =>
          let call :=
            match r with
            | inr w => set_c_worker (WObj w) call
            | inl e => set_c_attempt (S (c_attempt call)) (set_c_error (Some e) call)
            end in
          startBrowser_loop (owner a) (put_call (owner a) call st)
      end
  end.

(** The end of [_startBrowser], after [await waitForUrlOpened] (lines
    150-152); the template literal reads [worker.browser_url] before
    [_log] is called. *)
Definition after_urlOpened (k : nat) (st : State) : State :=
  match attempts st !! k with
  | None => st
  | Some a =>
      match worker a with
      | WObj w =>
          let name :=
            match calls st !! owner a with
            | Some call => bs_name (c_browserSettings call)
            | None => None
            end in
          settle k (inr w)
            (lift (_log this (show name ++ " started. See " ++ show (browser_url w))) st)
      | WNull =>
          settle k (inl (TypeError "Cannot read property 'browser_url' of null")) st
      | WUndefined =>
          settle k (inl (TypeError "Cannot read property 'browser_url' of undefined")) st
      end
  end.

(** [await waitForUrlOpened] (line 148): go on at once if the promise is
    settled, suspend otherwise. *)
Definition await_urlOpened (k : nat) (st : State) : State :=
  match attempts st !! k with
  | None => st
  | Some a =>
      let st := put_attempt k (set_body AwaitUrlOpened a) st in
      match waitForUrlOpened a with
      | Pending => st
      | Fulfilled => after_urlOpened k st
      | Rejected e => settle k (inl e) st
      end
  end.

(** The microtask queued when [waitForUrlOpened] settles: it resumes the
    body if the body is waiting for it. *)
Definition resume_urlOpened (st : State) (k : nat) : State :=
  match attempts st !! k with
  | None => st
  | Some a =>
      match body a with
      | AwaitUrlOpened => await_urlOpened k st
      | _ => st
      end
  end.

(** [_getWorker] at its loop test (line 51), with [attempts0] the counter
    before [attempts++]; leaving the loop returns [undefined], which line
    146 assigns to [worker]. *)
Definition _getWorker_test (k : nat) (id : string) (attempts0 : nat) (st : State)
  : State :=
  match attempts st !! k with
  | None => st
  | Some a =>
      if (attempts0 <=? maxAttempts)%nat then
        emit_action (AGetWorker id)
          (put_attempt k (set_body (AwaitGetWorker id (S attempts0)) a) st)
      else
        await_urlOpened k (put_attempt k (set_worker WUndefined a) st)
  end.

(** [hubHandler] of attempt [k], called with [id] (lines 124-131). *)
Definition hubHandler (st : State) (k : nat) (id : string) : State :=
  match attempts st !! k with
  | None => st
  | Some a =>
      if String.eqb id (browserId a) then
        let st := removeListener "browser-opened" k st in
        let st := emit_action (AClearTimeout k) st in
        let a := match timeoutId a with
                 | Armed => set_timeoutId Cleared a
                 | _ => a
                 end in
        let a := match waitForUrlOpened a with
                 | Pending => set_waitForUrlOpened Fulfilled a
                 | _ => a
                 end in
        put_attempt k a st
      else st
  end.

(** [emitter.emit(event, arg)]: every handler of the copy is called in
    turn. [Hub] inherits it from [EventEmitter] ([hub.js] line 6). *)
Definition emit (event : string) (arg : string) (st : State) : State :=
  foldl (λ st k, hubHandler st k arg) st (handlers_of event st).

(** The microtasks that follow an [emit]. *)
Definition after_emit (hs : list nat) (st : State) : State :=
  foldl resume_urlOpened st hs.

(** The path pattern [/:id] as the router of Express matches it: one
    segment that is not empty, and, routing not being strict, one slash
    after it or none. *)
Definition route_id (path : list string) : option string :=
  match path with
  | [id] | [id; EmptyString] => if String.eqb id "" then None else Some id
  | _ => None
  end.

(** The route table built by [_setupRoutes] ([hub.js] lines 27-36): GET
    [/:id] only (Express answers HEAD through the GET route). *)
Definition match_route (req : Request) : option string :=
  if String.eqb (method req) "GET" || String.eqb (method req) "HEAD" then
    route_id (path req)
  else None.

(** The status of [res.redirect(url)]. *)
Definition REDIRECT_STATUS : Z := 302.

(** What Express answers when no handler of the application has taken the
    request: to OPTIONS on a path that has a route, the methods of that
    route; 404 otherwise. *)
Definition default_response (req : Request) : Response :=
  if String.eqb (method req) "OPTIONS" then
    match route_id (path req) with
    | Some _ => Allow "GET,HEAD"
    | None => NotFound
    end
  else NotFound.

(** The request handler of the hub ([hub.js] lines 28-35): it emits
    'open' with the id of the path, then redirects; the bodies that the
    handlers have resumed go on after it has returned. *)
Definition hub_request (req : Request) (st : State) : State :=
  match match_route req with
  | Some urlIdentifier =>
      let url := query_url req in
      let hs := handlers_of "open" st in
      let st := emit "open" urlIdentifier st in
      let st := emit_action (ARespond (Redirect REDIRECT_STATUS url)) st in
      after_emit hs st
  | None => emit_action (ARespond (default_response req)) st
  end.

(** The callback given to [client.createWorker] (lines 109-117), and what
    follows line 144. *)
Definition createWorker_done (k : nat) (cb : Callback string) (st : State)
  : option State :=
  match attempts st !! k with
  | Some a =>
      match body a with
      | AwaitCreateWorker =>
          match cb with
          | CbErr err => Some (settle k (inl (ClientErr err)) (lift (_log this err) st))
          | CbOk workerId => Some (_getWorker_test k workerId 0 st)
          end
      | _ => None
      end
  | None => None
  end.

(** The callback given to [client.getWorker] inside [_getWorker] (line
    42), and what follows line 52. *)
Definition getWorker_done (k : nat) (cb : Callback Worker) (st : State)
  : option State :=
  match attempts st !! k with
  | Some a =>
      match body a with
      | AwaitGetWorker id n =>
          let w := resolve_res cb in
          if is_running w then
            Some (await_urlOpened k (put_attempt k (set_worker (of_option w) a) st))
          else
            Some (emit_action (AWait requestTimeout)
                    (put_attempt k (set_body (AwaitWait id n) a) st))
      | _ => None
      end
  | None => None
  end.

(** [wait(requestTimeout)] elapsed inside [_getWorker] (line 57). *)
Definition wait_done (k : nat) (st : State) : option State :=
  match attempts st !! k with
  | Some a =>
      match body a with
      | AwaitWait id n => Some (_getWorker_test k id n st)
      | _ => None
      end
  | None => None
  end.

(** The function given to [setTimeout], up to its [await] (lines
    133-136): [stopBrowser(worker.id)] reads [worker] at that moment, and
    [stopBrowser] (lines 184-196) issues the request. *)
Definition opening_timeout (k : nat) (st : State) : option State :=
  match attempts st !! k with
  | Some a =>
      match timeoutId a with
      | Armed =>
          let st := removeListener "browser-opened" k st in
          let a := set_timeoutId Fired a in
          match worker a with
          | WObj w =>
              Some (emit_action (ATerminateWorker k (w_id w))
                      (put_attempt k (set_timeoutFn AwaitStopBrowser a) st))
          | WNull =>
              let e := TypeError "Cannot read property 'id' of null" in
              Some (emit_action (AUnhandledRejection k e)
                      (put_attempt k (set_timeoutFn (Crashed e) a) st))
          | WUndefined =>
              let e := TypeError "Cannot read property 'id' of undefined" in
              Some (emit_action (AUnhandledRejection k e)
                      (put_attempt k (set_timeoutFn (Crashed e) a) st))
          end
      | _ => None
      end
  | None => None
  end.

(** The callback given to [client.terminateWorker] by [stopBrowser]
    (lines 186-194), and the rest of the timeout function after its
    [await] (line 138). *)
Definition terminateWorker_done (k : nat) (cb : Callback Z) (st : State)
  : option State :=
  match attempts st !! k with
  | Some a =>
      match timeoutFn a with
      | AwaitStopBrowser =>
          match cb with
          | CbErr err =>
              let e := ClientErr err in
              Some (emit_action (AUnhandledRejection k e)
                      (put_attempt k (set_timeoutFn (Crashed e) a)
                         (lift (_log this err) st)))
          | CbOk time =>
              let a := set_timeoutFn Completed a in
              let a := match waitForUrlOpened a with
                       | Pending =>
                           set_waitForUrlOpened
                             (Rejected (Str "Browser starting timeout expired")) a
                       | _ => a
                       end in
              Some (resume_urlOpened (put_attempt k a st) k)
          end
      | _ => None
      end
  | None => None
  end.

(** One turn of the event loop; [None] when the event cannot occur in this
    state (no such pending request or timer). *)
Definition step (st : State) (ev : Event) : option State :=
  match ev with
  | StartBrowser browserSettings url job options =>
      Some (startBrowser browserSettings url job options st)
  | CreateWorkerDone k cb => createWorker_done k cb st
  | GetWorkerDone k cb => getWorker_done k cb st
  | WaitDone k => wait_done k st
  | OpeningTimeout k => opening_timeout k st
  | TerminateWorkerDone k cb => terminateWorker_done k cb st
  | HttpRequest req => Some (hub_request req st)
  | Emit event arg => Some (after_emit (handlers_of event st) (emit event arg st))
  end.

(** A run: the events in the order in which they occur. *)
Fixpoint run (st : State) (evs : list Event) : option State :=
  match evs with
  | [] => Some st
  | ev :: evs' =>
      match step st ev with
      | Some st' => run st' evs'
      | None => None
      end
  end.

Definition reachable (st : State) : Prop :=
  ∃ evs, run initial evs = Some st.

End Opener.

(** * Part 4: what is proved about the transition system *)

(** The body of an attempt has not ended yet. *)
Definition unsettled (b : Body) : Prop :=
  match b with
  | Resolved _ | Failed _ => False
  | _ => True
  end.

(** The number of attempts (activations of [_startBrowser]) that call [c]
    has started. *)
Definition owned (c : nat) (st : State) : nat :=
  length (List.filter (λ a, Nat.eqb (owner a) c) (attempts st)).

(** The attempts for which a [createWorker] request is in the log. *)
Fixpoint creates (log : list Action) : list nat :=
  match log with
  | [] => []
  | ACreateWorker k _ :: log' => k :: creates log'
  | _ :: log' => creates log'
  end.

(** The number of [createWorker] requests that call [c] has issued. *)
Definition create_calls (c : nat) (st : State) : nat :=
  length (List.filter
            (λ k, match attempts st !! k with
                  | Some a => Nat.eqb (owner a) c
                  | None => false
                  end)
            (creates (st_log st))).

Definition is_terminate (k : nat) (a : Action) : bool :=
  match a with
  | ATerminateWorker k' _ => Nat.eqb k' k
  | _ => false
  end.

(** The number of [terminateWorker] requests issued for attempt [k]. *)
Definition terminate_calls (k : nat) (st : State) : nat :=
  length (List.filter (is_terminate k) (st_log st)).


(** Some attempt of call [c] ended with worker [w] after its
    [waitForUrlOpened] had been fulfilled. *)
Definition confirmed (st : State) (c : nat) (w : Worker) : Prop :=
  ∃ k a, attempts st !! k = Some a ∧ owner a = c
         ∧ waitForUrlOpened a = Fulfilled ∧ body a = Resolved w.

(** The largest number of attempts a call may make. *)
Definition attempt_bound (call : StartCall) : Z := Z.max 0 (c_maxAttepts call).

(** The local variables of call [c] fit the attempts made for it. *)
Definition call_ok (st : State) (c : nat) (call : StartCall) : Prop :=
  c_maxAttepts call
    = or_default (maxAttepts (c_options call)) DEFAULT_BROWSER_OPENING_MAX_ATTEMPT
  ∧ match c_state call with
    | Running k =>
        owned c st = S (c_attempt call)
        ∧ Z.of_nat (c_attempt call) < c_maxAttepts call
        ∧ c_error call = None
        ∧ c_worker call = WNull
    | Returned v =>
        Z.of_nat (owned c st) <= attempt_bound call
        ∧ ∀ w, v = WObj w → confirmed st c w
    | Threw _ => Z.of_nat (owned c st) <= attempt_bound call
    end.

(** An attempt of call [c] whose body has not ended is the one the call is
    waiting for. *)
Definition attempt_links (st : State) (c : nat) (call : StartCall) : Prop :=
  ∀ k a, attempts st !! k = Some a → owner a = c → unsettled (body a) →
         c_state call = Running k.

Definition call_inv (st : State) (c : nat) (call : StartCall) : Prop :=
  call_ok st c call ∧ attempt_links st c call.

Definition owners_exist (st : State) : Prop :=
  ∀ k a, attempts st !! k = Some a → (owner a < length (calls st))%nat.

(** The registry of the hub holds handlers of existing attempts, under
    'browser-opened', each at most once. *)
Definition listeners_named (st : State) : Prop :=
  Forall (λ l, fst l = "browser-opened" ∧ (snd l < length (attempts st))%nat)
    (listeners st)
  ∧ NoDup (listeners st).

(** The invariant of the transition system. *)
Record Inv (st : State) : Prop := mkInv {
  inv_calls : ∀ c call, calls st !! c = Some call → call_inv st c call;
  inv_owner : owners_exist st;
  inv_listeners : listeners_named st
}.

(** Call [c] is at its loop test: its attempts have all ended, and it
    comes either from the [try] with a confirmed worker or from the
    [catch] (or from the start) without one. *)
Definition loop_ready (st : State) (c : nat) (call : StartCall) : Prop :=
  c_maxAttepts call
    = or_default (maxAttepts (c_options call)) DEFAULT_BROWSER_OPENING_MAX_ATTEMPT
  ∧ (∀ k a, attempts st !! k = Some a → owner a = c → ¬ unsettled (body a))
  ∧ ((∃ w, c_worker call = WObj w ∧ c_error call = None
           ∧ owned c st = S (c_attempt call)
           ∧ Z.of_nat (c_attempt call) < c_maxAttepts call
           ∧ confirmed st c w)
     ∨ (c_worker call = WNull ∧ owned c st = c_attempt call
        ∧ Z.of_nat (c_attempt call) <= attempt_bound call)).

(** Actions other than a [createWorker] request; among them, those other
    than a [terminateWorker] request; among them, those other than a
    response of the hub. *)
Definition calm (a : Action) : Prop :=
  match a with
  | ACreateWorker _ _ => False
  | _ => True
  end.

Definition tame (a : Action) : Prop :=
  match a with
  | ACreateWorker _ _ | ATerminateWorker _ _ => False
  | _ => True
  end.

Definition quiet (a : Action) : Prop :=
  match a with
  | ACreateWorker _ _ | ATerminateWorker _ _ | ARespond _ => False
  | _ => True
  end.

(** What a piece of execution adds to the log (newest first) when the
    attempts numbered [n] to [m - 1] are started during it: actions that
    satisfy [P], and for each new attempt the three actions of its start,
    in this order in time: timer, listener, request. *)
Inductive Delta (P : Action → Prop) : nat → nat → list Action → Prop :=
| D_nil n : Delta P n n []
| D_one n m a d : P a → Delta P n m d → Delta P n m (a :: d)
| D_begin n m d ms settings :
    Delta P n m d →
    Delta P n (S m)
      (ACreateWorker m settings :: AAddListener "browser-opened" m
         :: ASetTimeout m ms :: d).

(** The log grows by a [Delta]. *)
Definition grows (P : Action → Prop) (st st' : State) : Prop :=
  ∃ d, st_log st' = (d ++ st_log st)%list
       ∧ Delta P (length (attempts st)) (length (attempts st')) d.

(** The [createWorker] requests of the log are one per attempt, in the
    order of the attempts. *)
Definition one_request_each (st : State) : Prop :=
  creates (st_log st) = rev (seq 0 (length (attempts st))).

(** Every [createWorker] request of the log comes after the registration
    of the listener of the same attempt. *)
Definition registered_first (log : list Action) : Prop :=
  ∀ newer older k settings,
    log = (newer ++ ACreateWorker k settings :: older)%list →
    In (AAddListener "browser-opened" k) older.

(** The registry of listeners that a log of effects (newest first) leads
    to from the empty one: [addListener] appends, [removeListener] takes
    out the latest copy, as the hub's [EventEmitter] does. *)
Fixpoint registry (log : list Action) : list (string * nat) :=
  match log with
  | [] => []
  | AAddListener event k :: log' => registry log' ++ [(event, k)]
  | ARemoveListener event k :: log' =>
      rev (remove_first (event, k) (rev (registry log')))
  | _ :: log' => registry log'
  end.

(** An effect that is neither a registration nor a removal. *)
Definition off_registry (a : Action) : Prop :=
  match a with
  | AAddListener _ _ | ARemoveListener _ _ => False
  | _ => True
  end.

(** The registry of the hub is the one its logged registrations and
    removals lead to. *)
Definition synced (st : State) : Prop :=
  listeners st = registry (st_log st).

(** The continuation of a body changes the variables [worker] and the
    program point only; owner, id, waiter and timer stay. *)
Definition kept (a a' : Attempt) : Prop :=
  owner a' = owner a ∧ browserId a' = browserId a
  ∧ waitForUrlOpened a' = waitForUrlOpened a
  ∧ timeoutId a' = timeoutId a ∧ timeoutFn a' = timeoutFn a.

(** An attempt as [_startBrowser] creates it. *)
Definition fresh (uid : nat → string) (k : nat) (a : Attempt) : Prop :=
  browserId a = uid k ∧ waitForUrlOpened a = Pending
  ∧ timeoutId a = Armed ∧ timeoutFn a = NotCalled.

(** [st'] comes from [st] by continuing the bodies of the attempts in [J]
    and the calls that wait for them: the other attempts are as they were,
    the attempts started meanwhile are fresh, and the only new listeners
    are theirs. *)
Definition continues (uid : nat → string) (J : nat → Prop) (st st' : State) : Prop :=
  (∀ k a, attempts st !! k = Some a →
          ∃ a', attempts st' !! k = Some a' ∧ kept a a' ∧ (¬ J k → a' = a))
  ∧ (∀ k a', attempts st' !! k = Some a' → (length (attempts st) <= k)%nat →
             fresh uid k a')
  ∧ (∀ l, In l (listeners st') →
          In l (listeners st)
          ∨ (fst l = "browser-opened" ∧ (length (attempts st) <= snd l)%nat)).

(** The event is a notification that carries [id]. *)
Definition notifies (ev : Event) (id : string) : Prop :=
  match ev with
  | Emit _ arg => arg = id
  | HttpRequest req => match_route req = Some id
  | _ => False
  end.

(** What one turn of the event loop can do to attempt [k]: its owner and
    id stay; its waiter is fulfilled only by a notification that carries
    its id while a handler of the attempt is registered, and rejected only
    at the end of its timeout function; its timer is cleared only by such
    a notification and fires only once; its timeout function moves only
    when the timer fires and when the termination is answered. *)
Definition waiter_move (st : State) (ev : Event) (k : nat) (a a' : Attempt) : Prop :=
  waitForUrlOpened a' = waitForUrlOpened a
  ∨ (waitForUrlOpened a = Pending ∧ waitForUrlOpened a' = Fulfilled
     ∧ notifies ev (browserId a) ∧ ∃ event, In (event, k) (listeners st))
  ∨ (waitForUrlOpened a = Pending
     ∧ waitForUrlOpened a' = Rejected (Str "Browser starting timeout expired")
     ∧ timeoutFn a = AwaitStopBrowser
     ∧ ∃ time, ev = TerminateWorkerDone k (CbOk time)).

Definition timer_move (ev : Event) (k : nat) (a a' : Attempt) : Prop :=
  timeoutId a' = timeoutId a
  ∨ (timeoutId a = Armed ∧ timeoutId a' = Cleared ∧ notifies ev (browserId a))
  ∨ (timeoutId a = Armed ∧ timeoutId a' = Fired ∧ ev = OpeningTimeout k).

Definition timeoutFn_move (ev : Event) (k : nat) (a a' : Attempt) : Prop :=
  timeoutFn a' = timeoutFn a
  ∨ (timeoutId a = Armed ∧ ev = OpeningTimeout k)
  ∨ (timeoutFn a = AwaitStopBrowser ∧ ∃ cb, ev = TerminateWorkerDone k cb).

Definition moves (st : State) (ev : Event) (k : nat) (a a' : Attempt) : Prop :=
  owner a' = owner a ∧ browserId a' = browserId a
  ∧ waiter_move st ev k a a' ∧ timer_move ev k a a' ∧ timeoutFn_move ev k a a'.

(** What a call of [hubHandler] with [id] can do to an attempt. *)
Definition notified (id : string) (a a' : Attempt) : Prop :=
  owner a' = owner a ∧ browserId a' = browserId a ∧ body a' = body a
  ∧ worker a' = worker a ∧ timeoutFn a' = timeoutFn a
  ∧ (waitForUrlOpened a' = waitForUrlOpened a
     ∨ (waitForUrlOpened a = Pending ∧ waitForUrlOpened a' = Fulfilled
        ∧ browserId a = id))
  ∧ (timeoutId a' = timeoutId a
     ∨ (timeoutId a = Armed ∧ timeoutId a' = Cleared ∧ browserId a = id)).

(** The attempts an event is about: the one whose request or timer it
    answers, or the ones whose handlers a notification calls. *)
Definition subject (st : State) (ev : Event) (k : nat) : Prop :=
  match ev with
  | StartBrowser _ _ _ _ => False
  | CreateWorkerDone k0 _ | GetWorkerDone k0 _ | WaitDone k0
  | OpeningTimeout k0 | TerminateWorkerDone k0 _ => k = k0
  | HttpRequest _ => In k (handlers_of "open" st)
  | Emit event _ => In k (handlers_of event st)
  end.

(** What one turn of the event loop does to the attempts and the
    listeners: the attempts that were there move as [moves] says, and only
    the subjects of the event change at all; the new attempts are fresh,
    and the only new listeners are theirs. *)
Definition step_shape (uid : nat → string) (st : State) (ev : Event) (st' : State)
  : Prop :=
  (∀ k a, attempts st !! k = Some a →
          ∃ a', attempts st' !! k = Some a' ∧ moves st ev k a a'
                ∧ (¬ subject st ev k → a' = a))
  ∧ (∀ k a', attempts st' !! k = Some a' → (length (attempts st) <= k)%nat →
             fresh uid k a')
  ∧ (∀ l, In l (listeners st') →
          In l (listeners st)
          ∨ (fst l = "browser-opened" ∧ (length (attempts st) <= snd l)%nat)).

(** No handler of attempt [k] is registered on the hub. *)
Definition not_listening (k : nat) (st : State) : Prop :=
  ∀ event, ¬ In (event, k) (listeners st).

(** Attempt [k] after its timeout function has thrown: the timer has
    fired, the waiter is pending and nothing is left that could settle
    it. *)
Definition doomed (k : nat) (st : State) : Prop :=
  not_listening k st
  ∧ ∃ a, attempts st !! k = Some a ∧ timeoutId a = Fired
         ∧ waitForUrlOpened a = Pending ∧ ∃ e, timeoutFn a = Crashed e.

(** [terminateWorker] is requested at most once per attempt, and only by
    the timeout function of an attempt whose timer has fired. *)
Definition terminate_once (st : State) : Prop :=
  ∀ k, terminate_calls k st = 0%nat
       ∨ (terminate_calls k st = 1%nat
          ∧ ∃ a, attempts st !! k = Some a ∧ timeoutId a = Fired).

(** The correlation id of attempt [k] is the [k]-th result of [uid]. *)
Definition ids_ok (uid : nat → string) (st : State) : Prop :=
  ∀ k a, attempts st !! k = Some a → browserId a = uid k.

(** ** Inputs used in the examples *)

Definition connector0 : Connector := new_connector None None 1700000000000.

Definition chrome : BrowserSettings :=
  mkBrowserSettings (Some "Windows") (Some "10") (Some "chrome") None None None.

Definition no_job : JobInfo := mkJobInfo None None.
Definition no_options : StartOptions := mkStartOptions None None None.

Definition running_worker : Worker :=
  mkWorker "w1" "running" (Some "http://farm.example/w1").

(** A uid source that returns "abc123" first and distinct ids after. *)
Definition uid0 (n : nat) : string :=
  match n with
  | O => "abc123"
  | S _ => "id" ++ pretty (Z.of_nat n)
  end.

(** A farm with quota 5 whose number of active workers is given per
    check. *)
Definition farm_with (active : nat → nat) : Farm :=
  mkFarm (λ _, CbOk 5) (λ n, CbOk (repeat running_worker (active n)))
    (λ _ _, CbErr "ETIMEDOUT").

(** A farm whose worker listing fails. *)
Definition farm_listing_down : Farm :=
  mkFarm (λ _, CbOk 5) (λ _, CbErr "ECONNRESET") (λ _ _, CbErr "ECONNRESET").

(** A farm whose quota query fails. *)
Definition farm_quota_down : Farm :=
  mkFarm (λ _, CbErr "ECONNRESET") (λ _, CbOk []) (λ _ _, CbErr "ECONNRESET").

(** The request the remote browser makes first when its correlation id is
    [id]. *)
Definition callback_request (id : string) : Request :=
  mkRequest "GET" [id] (Some "http://localhost:3000/test").

(** The state after a run of [connector0] on host "localhost". *)
Definition after (evs : list Event) : State :=
  default initial (run connector0 "localhost" uid0 initial evs).

Definition start_chrome (options : StartOptions) : Event :=
  StartBrowser chrome "http://localhost:3000/test" no_job options.

(** One call; the worker is created and running, the listener of attempt 0
    is registered and its timer armed. *)
Definition scenario_awaiting_callback : list Event :=
  [start_chrome no_options; CreateWorkerDone 0 (CbOk "w1");
   GetWorkerDone 0 (CbOk running_worker)].

(** Attempt 0 at the end of [scenario_awaiting_callback]. *)
Definition attempt_awaiting_callback : Attempt :=
  {| owner := 0; browserId := "abc123"; worker := WObj running_worker;
     timeoutId := Armed; waitForUrlOpened := Pending; body := AwaitUrlOpened;
     timeoutFn := NotCalled |}.

(** One call with an opening timeout of one second; the timer fires while
    the worker is still being created. *)
Definition scenario_early_timeout : list Event :=
  [start_chrome (mkStartOptions None (Some 1000) None); OpeningTimeout 0;
   CreateWorkerDone 0 (CbOk "w1"); GetWorkerDone 0 (CbOk running_worker)].

(** One call with [maxAttepts = 0] whose worker creation fails each
    time. *)
Definition scenario_zero_attempts : list Event :=
  [start_chrome (mkStartOptions (Some 0) None None);
   CreateWorkerDone 0 (CbErr "quota exceeded");
   CreateWorkerDone 1 (CbErr "quota exceeded");
   CreateWorkerDone 2 (CbErr "quota exceeded")].

(** One call with [maxAttepts = 2]: the first attempt fails at creation,
    the second is confirmed by an event 'browser-opened' emitted on the
    hub. *)
Definition scenario_second_attempt : list Event :=
  [start_chrome (mkStartOptions (Some 2) None None);
   CreateWorkerDone 0 (CbErr "quota exceeded");
   CreateWorkerDone 1 (CbOk "w1");
   GetWorkerDone 1 (CbOk running_worker);
   Emit "browser-opened" (uid0 1)].

(** Two calls in flight, both attempts waiting for their callback. *)
Definition scenario_two_calls : list Event :=
  [start_chrome no_options; start_chrome no_options;
   CreateWorkerDone 0 (CbOk "w1"); CreateWorkerDone 1 (CbOk "w2");
   GetWorkerDone 1 (CbOk (mkWorker "w2" "running" None));
   GetWorkerDone 0 (CbOk running_worker)].

(** Attempt 1 at the end of [scenario_two_calls]. *)
Definition second_attempt_awaiting : Attempt :=
  {| owner := 1; browserId := "id1";
     worker := WObj (mkWorker "w2" "running" None);
     timeoutId := Armed; waitForUrlOpened := Pending; body := AwaitUrlOpened;
     timeoutFn := NotCalled |}.

(** Attempt 0 at the start of [scenario_early_timeout], when its timer
    fires. *)
Definition attempt_just_started : Attempt :=
  {| owner := 0; browserId := "abc123"; worker := WNull;
     timeoutId := Armed; waitForUrlOpened := Pending; body := AwaitCreateWorker;
     timeoutFn := NotCalled |}.

(** ** Counting effects *)

Definition is_wait (a : Action) : bool :=
  match a with
  | AWait _ => true
  | _ => false
  end.

Definition is_check (a : Action) : bool :=
  match a with
  | AGetApiStatus => true
  | _ => false
  end.

Definition is_listing (a : Action) : bool :=
  match a with
  | AGetWorkers => true
  | _ => false
  end.

Definition is_poll (a : Action) : bool :=
  match a with
  | AGetWorker _ => true
  | _ => false
  end.

Definition is_stdout (a : Action) : bool :=
  match a with
  | AStdout _ => true
  | _ => false
  end.

(** How many effects of a kind a list holds. *)
Definition count (f : Action → bool) (l : list Action) : nat :=
  length (List.filter f l).

(** A check of [waitForFreeMachines] that finds too few free machines. *)
Definition short_check (farm : Farm) (machineCount : Z) (n : nat) : Prop :=
  ∃ quota workers,
    getApiStatus farm n = CbOk quota
    ∧ getWorkers farm n = CbOk workers
    ∧ quota - Z.of_nat (length workers) < machineCount.

(** The farm of the spec's scenario: quota 5, four active workers at the
    first check and two from then on. *)
Definition farm_freeing_up : Farm :=
  farm_with (λ n, match n with O => 4%nat | S _ => 2%nat end).

(** A farm whose quota query fails at the second check. *)
Definition farm_quota_down_later : Farm :=
  mkFarm (λ n, match n with O => CbOk 5 | S _ => CbErr "ECONNRESET" end)
    (λ _, CbOk (repeat running_worker 5)) (λ _ _, CbErr "ECONNRESET").

(** A farm whose worker "w1" is reported as queued twice, then running;
    the poll in between fails. *)
Definition farm_worker_starting : Farm :=
  mkFarm (λ _, CbOk 5) (λ _, CbOk [])
    (λ _ n, match n with
            | 0%nat => CbOk (mkWorker "w1" "queue" None)
            | 1%nat => CbErr "ETIMEDOUT"
            | _ => CbOk running_worker
            end).


(** [scenario_awaiting_callback], then the opening timer fires and the
    termination of the worker is answered. *)
Definition scenario_timeout_after_worker : list Event :=
  (scenario_awaiting_callback
     ++ [OpeningTimeout 0; TerminateWorkerDone 0 (CbOk 42)])%list.

(** One call whose three attempts all fail at creation. *)
Definition scenario_all_attempts_fail : list Event :=
  [start_chrome no_options;
   CreateWorkerDone 0 (CbErr "quota exceeded");
   CreateWorkerDone 1 (CbErr "quota exceeded");
   CreateWorkerDone 2 (CbErr "no such browser")].

(** The remote browser calls back on the hub, and nothing else notifies. *)
Definition scenario_hub_callback : list Event :=
  (scenario_awaiting_callback ++ [HttpRequest (callback_request "abc123")])%list.

(** ** The outcome of a call of [startBrowser] *)

(** Attempt [k], which is [a], is the last one that call [c] has
    started. *)
Definition last_attempt (st : State) (c k : nat) (a : Attempt) : Prop :=
  attempts st !! k = Some a ∧ owner a = c
  ∧ ∀ k' a', attempts st !! k' = Some a' → owner a' = c → (k' <= k)%nat.

(** The error thrown at line 178. *)
Definition failure_message (call : StartCall) (error : JsError) : JsError :=
  Error ("Unable to start browser " ++ show (bs_name (c_browserSettings call))
           ++ " due to: " ++ error_to_string error).

(** Every attempt of call [c] but the last has failed. *)
Definition earlier_failed (st : State) (c : nat) : Prop :=
  ∀ k a, attempts st !! k = Some a → owner a = c →
         (∃ e, body a = Failed e) ∨ last_attempt st c k a.

(** How the state of call [c] fits its attempts: while it runs, its last
    attempt is the one in flight; it has returned a worker when its last
    attempt was confirmed with that worker, and no worker only when it
    made no attempt at all; it has thrown when its last attempt failed,
    the attempts being used up. *)
Definition call_story (st : State) (c : nat) (call : StartCall) : Prop :=
  earlier_failed st c
  ∧ match c_state call with
    | Running k => ∃ a, last_attempt st c k a ∧ unsettled (body a)
    | Returned (WObj w) =>
        ∃ k a, last_attempt st c k a ∧ body a = Resolved w
               ∧ waitForUrlOpened a = Fulfilled
    | Returned _ => owned c st = 0%nat ∧ c_maxAttepts call <= 0
    | Threw e =>
        ∃ k a error, last_attempt st c k a ∧ body a = Failed error
                     ∧ e = failure_message call error
                     ∧ Z.of_nat (owned c st) = c_maxAttepts call
    end.

Definition Story (st : State) : Prop :=
  ∀ c call, calls st !! c = Some call → call_story st c call.

(** Call [c] at its loop test, seen from its attempts: it comes from the
    [try] with its last attempt confirmed, from the start with no attempt
    made, or from the [catch] with its last attempt failed. *)
Definition story_ready (st : State) (c : nat) (call : StartCall) : Prop :=
  earlier_failed st c
  ∧ ((∃ w k a, c_worker call = WObj w ∧ c_error call = None
               ∧ last_attempt st c k a ∧ body a = Resolved w
               ∧ waitForUrlOpened a = Fulfilled)
     ∨ (c_worker call = WNull ∧ c_error call = None
        ∧ owned c st = 0%nat ∧ c_attempt call = 0%nat)
     ∨ (∃ error k a, c_worker call = WNull ∧ c_error call = Some error
                     ∧ last_attempt st c k a ∧ body a = Failed error
                     ∧ owned c st = c_attempt call
                     ∧ Z.of_nat (c_attempt call) <= c_maxAttepts call)).

(** A rewriting of an attempt that the outcome of its call does not
    depend on: the owner stays, a body that has not ended does not end, a
    body that has ended stays as it is, and a fulfilled waiter stays
    fulfilled. *)
Definition same_story (a a' : Attempt) : Prop :=
  owner a' = owner a
  ∧ (unsettled (body a) → unsettled (body a'))
  ∧ (¬ unsettled (body a) → body a' = body a)
  ∧ (waitForUrlOpened a = Fulfilled → waitForUrlOpened a' = Fulfilled).

(** The invariant of the transition system together with the stories of
    its calls. *)
Definition Inv2 (st : State) : Prop := Inv st ∧ Story st.

(** The attempts at the end of [scenario_second_attempt]. *)
Definition first_attempt_failed : Attempt :=
  {| owner := 0; browserId := "abc123"; worker := WNull;
     timeoutId := Armed; waitForUrlOpened := Pending;
     body := Failed (ClientErr "quota exceeded"); timeoutFn := NotCalled |}.

Definition second_attempt_confirmed : Attempt :=
  {| owner := 0; browserId := "id1"; worker := WObj running_worker;
     timeoutId := Cleared; waitForUrlOpened := Fulfilled;
     body := Resolved running_worker; timeoutFn := NotCalled |}.

(** ** What the connector writes and requests *)

(** An effect the connector may perform: a line on stdout only when
    logging is on, and a [createWorker] request for attempt [k] only with
    the settings built for one of the calls and the id of the attempt. *)
Definition sound_action (this : Connector) (hostname : string)
    (uid : nat → string) (a : Action) : Prop :=
  match a with
  | AStdout _ => connectorLogging this = true
  | ACreateWorker k settings =>
      ∃ call, settings = worker_settings this hostname call (uid k)
  | _ => True
  end.

Definition sound_log (this : Connector) (hostname : string)
    (uid : nat → string) (st : State) : Prop :=
  Forall (sound_action this hostname uid) (st_log st).

(** A connector created with [connectorLogging: false]. *)
Definition quiet_connector : Connector :=
  new_connector (Some false) None 1700000000000.

(** ** The variables of an attempt *)

(** The variables of an attempt fit its program point: [worker] holds an
    object only after a poll has reported it as running; the attempt ends
    with the worker that [worker] holds; [worker] is still [null] while
    the worker is created and polled, and the poll counter of
    [_getWorker] is at most 31. *)
Definition attempt_sane (a : Attempt) : Prop :=
  (∀ w, worker a = WObj w → w_status w = "running")
  ∧ (∀ w, body a = Resolved w → worker a = WObj w)
  ∧ match body a with
    | AwaitCreateWorker => worker a = WNull
    | AwaitGetWorker _ n | AwaitWait _ n =>
        worker a = WNull ∧ (n <= S maxAttempts)%nat
    | _ => True
    end.

Definition sane (st : State) : Prop :=
  ∀ k a, attempts st !! k = Some a → attempt_sane a.

(** What [_startBrowser] does after [await waitForUrlOpened], by the
    value of [worker]. *)
Definition outcome (v : WorkerVar) : Body :=
  match v with
  | WObj w => Resolved w
  | WNull => Failed (TypeError "Cannot read property 'browser_url' of null")
  | WUndefined => Failed (TypeError "Cannot read property 'browser_url' of undefined")
  end.

(** One call whose worker is created and then never reported as running:
    31 polls, each but the last followed by the end of its wait. *)
Definition scenario_never_running : list Event :=
  ([start_chrome no_options; CreateWorkerDone 0 (CbOk "w1")]
     ++ concat (repeat [GetWorkerDone 0 (CbOk (mkWorker "w1" "queue" None));
                        WaitDone 0] 30)
     ++ [GetWorkerDone 0 (CbOk (mkWorker "w1" "queue" None))])%list.

(** Attempt 0 at the end of [scenario_never_running]. *)
Definition attempt_after_last_poll : Attempt :=
  {| owner := 0; browserId := "abc123"; worker := WNull;
     timeoutId := Armed; waitForUrlOpened := Pending;
     body := AwaitWait "w1" 31; timeoutFn := NotCalled |}.

(** ** Timer, listener and waiter of an attempt *)

(** How the timer, the listener and the waiter of attempt [k] go
    together: the handler is registered exactly as long as the timer is
    armed, and the waiter is pending then; the waiter is fulfilled exactly
    when the timer has been cleared; it is rejected only with the timeout
    error, at the end of the timeout function; and the timeout function
    has been called exactly when the timer has fired. *)
Definition attempt_waits (st : State) (k : nat) (a : Attempt) : Prop :=
  (In ("browser-opened", k) (listeners st) ↔ timeoutId a = Armed)
  ∧ (timeoutId a = Armed → waitForUrlOpened a = Pending)
  ∧ (waitForUrlOpened a = Fulfilled ↔ timeoutId a = Cleared)
  ∧ (∀ e, waitForUrlOpened a = Rejected e →
          e = Str "Browser starting timeout expired" ∧ timeoutFn a = Completed)
  ∧ (timeoutFn a ≠ NotCalled ↔ timeoutId a = Fired).

Definition Waits (st : State) : Prop :=
  ∀ k a, attempts st !! k = Some a → attempt_waits st k a.

(** ** Calls in flight together *)

(** A piece of execution leaves the record of a call as it is, unless the
    call is waiting for one of the attempts in [J]. *)
Definition calls_kept (J : nat → Prop) (st st' : State) : Prop :=
  ∀ c call, calls st !! c = Some call →
            calls st' !! c = Some call ∨ ∃ k, J k ∧ c_state call = Running k.

(** The attempts through which an event can move a call on: the attempt
    [k] (with record [a]) whose client request the event answers, or one
    whose handler a notification calls with the id of the attempt
    itself. *)
Definition addressed (st : State) (ev : Event) (k : nat) (a : Attempt) : Prop :=
  match ev with
  | StartBrowser _ _ _ _ | OpeningTimeout _ => False
  | CreateWorkerDone k0 _ | GetWorkerDone k0 _ | WaitDone k0
  | TerminateWorkerDone k0 _ => k = k0
  | HttpRequest req =>
      In k (handlers_of "open" st) ∧ match_route req = Some (browserId a)
  | Emit event arg => In k (handlers_of event st) ∧ arg = browserId a
  end.

(** * Part 4b: the server side of the hub ([hub.js], constructor and [close]) *)

(** What the hub does to its server and its sockets. *)
Inductive HubEffect :=
| HServerClose
| HDestroy (socket : nat).

(** The hub as far as its sockets go: [this.sockets], the sockets on which
    [handler] has registered a 'close' callback (one entry per
    registration), and the effects so far, newest first. A socket is known
    by a number. *)
Record HubServer := mkHubServer {
  hs_sockets : list nat;
  hs_closers : list nat;
  hs_effects : list HubEffect
}.

(** The constructor (lines 7-25): no socket yet. *)
Definition new_Hub : HubServer := mkHubServer [] [] [].

(** [Array.prototype.indexOf]: the first index of [x], or -1. *)
Fixpoint indexOf (x : nat) (l : list nat) : Z :=
  match l with
  | [] => -1
  | y :: l' =>
      if Nat.eqb y x then 0
      else let i := indexOf x l' in if i <? 0 then -1 else i + 1
  end.

(** [array.splice(start, 1)]: a negative [start] counts from the end, and
    nothing is removed when [start] is not an index of the array. *)
Definition splice1 (start : Z) (l : list nat) : list nat :=
  let len := Z.of_nat (length l) in
  let actualStart := if start <? 0 then Z.max (len + start) 0 else Z.min start len in
  delete (Z.to_nat actualStart) l.

(** [handler] (lines 16-22): the socket is pushed and gets its 'close'
    callback. *)
Definition hub_handler (socket : nat) (hub : HubServer) : HubServer :=
  mkHubServer (hs_sockets hub ++ [socket]) (hs_closers hub ++ [socket])
    (hs_effects hub).

(** The 'close' callback of [socket] (lines 19-21). *)
Definition hub_socket_closed (socket : nat) (hub : HubServer) : HubServer :=
  mkHubServer (splice1 (indexOf socket (hs_sockets hub)) (hs_sockets hub))
    (hs_closers hub) (hs_effects hub).

(** [close] (lines 38-43). *)
Definition hub_close (hub : HubServer) : HubServer :=
  mkHubServer (hs_sockets hub) (hs_closers hub)
    (rev (map HDestroy (hs_sockets hub)) ++ HServerClose :: hs_effects hub).

(** What happens to the hub: the server reports a connection, a socket
    emits 'close' (every callback registered on it runs), [close()] is
    called. *)
Inductive HubEvent :=
| HConnection (socket : nat)
| HSocketClose (socket : nat)
| HClose.

Definition hub_step (hub : HubServer) (ev : HubEvent) : HubServer :=
  match ev with
  | HConnection s => hub_handler s hub
  | HSocketClose s =>
      Nat.iter (count_occ Nat.eq_dec (hs_closers hub) s) (hub_socket_closed s) hub
  | HClose => hub_close hub
  end.

Definition hub_run (hub : HubServer) (evs : list HubEvent) : HubServer :=
  foldl hub_step hub evs.

Definition mem (s : nat) (l : list nat) : bool := existsb (Nat.eqb s) l.

(** The sockets that connect and that close during a history. *)
Fixpoint connections (evs : list HubEvent) : list nat :=
  match evs with
  | [] => []
  | HConnection s :: evs' => s :: connections evs'
  | _ :: evs' => connections evs'
  end.

Fixpoint closes (evs : list HubEvent) : list nat :=
  match evs with
  | [] => []
  | HSocketClose s :: evs' => s :: closes evs'
  | _ :: evs' => closes evs'
  end.

(** The order in which Node reports sockets: a socket connects once, and
    emits 'close' once, after it has connected. [seen] and [closed] are
    the sockets that have connected and closed before. *)
Fixpoint node_order (seen closed : list nat) (evs : list HubEvent) : bool :=
  match evs with
  | [] => true
  | HConnection s :: evs' => negb (mem s seen) && node_order (seen ++ [s]) closed evs'
  | HSocketClose s :: evs' =>
      mem s seen && negb (mem s closed) && node_order seen (closed ++ [s]) evs'
  | HClose :: evs' => node_order seen closed evs'
  end.

(** The hub after a history in Node's order: a callback is registered for
    each socket seen, once, and the tracked sockets are those seen and not
    closed, in the order of their connection. *)
Definition tracks (hub : HubServer) (seen closed : list nat) : Prop :=
  hs_closers hub = seen
  ∧ (∀ s, (count_occ Nat.eq_dec seen s <= 1)%nat)
  ∧ (∀ s, In s closed → In s seen)
  ∧ hs_sockets hub = List.filter (λ s, negb (mem s closed)) seen.

(** Three sockets connect and the second one closes. *)
Definition three_sockets : list HubEvent :=
  [HConnection 1; HConnection 2; HConnection 3; HSocketClose 2].

(** * Part 4c: the tunnel ([connect] and [disconnect], lines 198-224) *)

(** The options handed to [BrowserStackLocal.start] (lines 199-204). *)
Record TunnelOpts := mkTunnelOpts {
  opt_key : string;
  opt_logfile : string;
  opt_enable_logging_for_api : bool;
  opt_localIdentifier : Z
}.

(** What [connect] and [disconnect] do: writes to stdout, requests to a
    tunnel (a tunnel is known by the number of its creation), and the
    settling of the promises they return. *)
Inductive TunnelEffect :=
| TStdout (line : string)
| TStart (tunnel : nat) (opts : TunnelOpts)
| TStop (tunnel : nat)
| TConnectSettled (tunnel : nat) (r : JsError + unit)
| TDisconnectSettled (r : JsError + unit).

(** The part of the connector that [connect] and [disconnect] use:
    [this.localConnection] ([None] is [null]), the number of tunnels
    created so far, [this.hub], and the effects, newest first. *)
Record Session := mkSession {
  localConnection : option nat;
  tunnels : nat;
  hub : HubServer;
  s_effects : list TunnelEffect
}.

(** After the constructor (lines 16-28). *)
Definition new_session : Session := mkSession None 0 new_Hub [].

Definition connect_opts (this : Connector) (accessKey : string) (win : bool)
  : TunnelOpts :=
  {| opt_key := accessKey;
     opt_logfile := if win then "NUL" else "/dev/null";
     opt_enable_logging_for_api := true;
     opt_localIdentifier := tunnelIdentifier this |}.

(** What happens to the session: [connect()] is called, the tunnel
    answers a [start], [disconnect()] is called, the tunnel answers a
    [stop], the hub's server reports something. *)
Inductive SessionEvent :=
| SConnect
| SStartDone (tunnel : nat) (err : option string)
| SDisconnect
| SStopDone (tunnel : nat)
| SHub (ev : HubEvent).

Section Tunnel.
Context (this : Connector) (accessKey : string) (win : bool).

(** [_log] (lines 30-33) on the effects of the session. *)
Definition session_log (message : string) (s : Session) : Session :=
  if connectorLogging this
  then mkSession (localConnection s) (tunnels s) (hub s)
         (TStdout (message ++ newline) :: s_effects s)
  else s.

Definition session_effect (e : TunnelEffect) (s : Session) : Session :=
  mkSession (localConnection s) (tunnels s) (hub s) (e :: s_effects s).

(** [connect] up to the call of [start] (lines 199-211): a new tunnel
    replaces [this.localConnection]. *)
Definition connect (s : Session) : Session :=
  let tunnel := tunnels s in
  mkSession (Some tunnel) (S tunnel) (hub s)
    (TStart tunnel (connect_opts this accessKey win) :: s_effects s).

(** The callback given to [start] (lines 211-217). *)
Definition start_done (tunnel : nat) (err : option string) (s : Session) : Session :=
  match err with
  | Some e =>
      session_effect (TConnectSettled tunnel (inl (ClientErr e))) (session_log e s)
  | None => session_effect (TConnectSettled tunnel (inr tt)) s
  end.

(** [disconnect] (lines 220-224): the hub is closed first; the executor
    of the promise then reads [this.localConnection.stop], which throws
    when [localConnection] is [null], and the promise is rejected. *)
Definition disconnect (s : Session) : Session :=
  let s := mkSession (localConnection s) (tunnels s) (hub_close (hub s))
             (s_effects s) in
  match localConnection s with
  | Some tunnel => session_effect (TStop tunnel) s
  | None =>
      session_effect
        (TDisconnectSettled (inl (TypeError "Cannot read property 'stop' of null")))
        s
  end.

Definition session_step (s : Session) (ev : SessionEvent) : Session :=
  match ev with
  | SConnect => connect s
  | SStartDone tunnel err => start_done tunnel err s
  | SDisconnect => disconnect s
  | SStopDone tunnel => session_effect (TDisconnectSettled (inr tt)) s
  | SHub ev => mkSession (localConnection s) (tunnels s) (hub_step (hub s) ev)
                 (s_effects s)
  end.

Definition session_run (s : Session) (evs : list SessionEvent) : Session :=
  foldl session_step s evs.

End Tunnel.

(** The number of calls of [connect] in a history. *)
Definition connects (evs : list SessionEvent) : nat :=
  length (List.filter (λ ev, match ev with SConnect => true | _ => false end) evs).

(** The tunnels a list of effects starts, oldest first. *)
Definition starts (l : list TunnelEffect) : list nat :=
  rev (omap (λ e, match e with TStart t _ => Some t | _ => None end) l).

(** The hub events of a history. *)
Definition hub_events (evs : list SessionEvent) : list HubEvent :=
  omap (λ ev, match ev with SHub e => Some e | SDisconnect => Some HClose | _ => None end)
    evs.

(** * Part 5: the sequential methods, proved *)

Section SequentialFacts.
Context (this : Connector) (farm : Farm).

Lemma _log_no_error (message : string) (log : list Action) :
  ∃ log', _log this message log = (inr tt, log')
          ∧ (∀ ms, In (AWait ms) log' → In (AWait ms) log).
Proof.
  unfold _log. destruct (connectorLogging this); cbn.
  - eexists; split; [reflexivity|]. intros ms [H|H]; [discriminate|assumption].
  - eexists; split; [reflexivity|]. auto.
Qed.

(** One successful check: both requests are logged and the difference is
    returned. *)
Lemma _getFreeMachineCount_ok (n : nat) (quota : Z) (workers : list Worker)
    (log : list Action) :
  getApiStatus farm n = CbOk quota →
  getWorkers farm n = CbOk workers →
  _getFreeMachineCount this farm n log
    = (inr (quota - Z.of_nat (length workers)), AGetWorkers :: AGetApiStatus :: log).
Proof.
  intros Hq Hw. unfold _getFreeMachineCount, Promise_all, _getWorkers,
    _getMaxAvailableMachines, bind, act, ret. cbn.
  rewrite Hq, Hw. reflexivity.
Qed.

(** A failed quota query rejects the check with the client's error. *)
Lemma _getFreeMachineCount_quota_error (n : nat) (err : string) (log : list Action) :
  getApiStatus farm n = CbErr err →
  fst (_getFreeMachineCount this farm n log) = inl (ClientErr err).
Proof.
  intros Hq. unfold _getFreeMachineCount, Promise_all, _getWorkers,
    _getMaxAvailableMachines, bind, act, ret, throw. cbn.
  rewrite Hq. cbn. unfold _log. destruct (connectorLogging this); reflexivity.
Qed.

(** A failed listing with a successful quota query rejects the check with
    a TypeError: [workers] is [undefined]. *)
Lemma _getFreeMachineCount_listing_error (n : nat) (err : string) (quota : Z)
    (log : list Action) :
  getApiStatus farm n = CbOk quota →
  getWorkers farm n = CbErr err →
  _getFreeMachineCount this farm n log
    = (inl (TypeError "Cannot read property 'length' of undefined"),
       AGetWorkers :: AGetApiStatus :: log).
Proof.
  intros Hq Hw. unfold _getFreeMachineCount, Promise_all, _getWorkers,
    _getMaxAvailableMachines, bind, act, ret, throw. cbn.
  rewrite Hq, Hw. reflexivity.
Qed.

(** The loop test fails: the method throws at once. *)
Lemma waitForFreeMachines_from_exhausted
    (machineCount requestInterval maxAttemptCount : Z) (attempts : nat)
    (log : list Action) :
  maxAttemptCount <= Z.of_nat attempts →
  waitForFreeMachines_from this farm machineCount requestInterval maxAttemptCount
    attempts log = (inl (Error "There are no free machines"), log).
Proof.
  intros H. simp waitForFreeMachines_from.
  destruct (Z_lt_dec (Z.of_nat attempts) maxAttemptCount); [lia|reflexivity].
Qed.

(** One turn of the loop whose check succeeds. *)
Lemma waitForFreeMachines_from_check
    (machineCount requestInterval maxAttemptCount : Z) (attempts : nat)
    (quota : Z) (workers : list Worker) (log : list Action) :
  Z.of_nat attempts < maxAttemptCount →
  getApiStatus farm attempts = CbOk quota →
  getWorkers farm attempts = CbOk workers →
  waitForFreeMachines_from this farm machineCount requestInterval maxAttemptCount
    attempts log
  = if quota - Z.of_nat (length workers) >=? machineCount
    then (inr tt, AGetWorkers :: AGetApiStatus :: log)
    else
      waitForFreeMachines_from this farm machineCount requestInterval
        maxAttemptCount (S attempts)
        (AWait requestInterval ::
           snd (_log this (shortfall_message (quota - Z.of_nat (length workers))
                             machineCount)
                  (AGetWorkers :: AGetApiStatus :: log))).
Proof.
  intros Hlt Hq Hw. rewrite waitForFreeMachines_from_equation_1.
  destruct (Z_lt_dec (Z.of_nat attempts) maxAttemptCount); [|lia].
  cbn. unfold bind at 1. rewrite (_getFreeMachineCount_ok _ _ _ _ Hq Hw).
  destruct (_ >=? _); [reflexivity|].
  unfold bind, wait, act.
  destruct (_log_no_error (shortfall_message (quota - Z.of_nat (length workers))
                             machineCount) (AGetWorkers :: AGetApiStatus :: log))
    as (log' & -> & _).
  reflexivity.
Qed.

Lemma waitForFreeMachines_from_never
    (machineCount requestInterval maxAttemptCount : Z) (r : nat) :
  ∀ (attempts : nat) (log : list Action),
    Z.to_nat (maxAttemptCount - Z.of_nat attempts) = r →
    (∀ n, (attempts <= n)%nat → Z.of_nat n < maxAttemptCount →
          ∃ quota workers,
            getApiStatus farm n = CbOk quota
            ∧ getWorkers farm n = CbOk workers
            ∧ quota - Z.of_nat (length workers) < machineCount) →
    fst (waitForFreeMachines_from this farm machineCount requestInterval
           maxAttemptCount attempts log)
    = inl (Error "There are no free machines").
Proof.
  induction r as [|r IH]; intros attempts log Hr Hnever.
  - rewrite waitForFreeMachines_from_exhausted by lia. reflexivity.
  - destruct (Hnever attempts) as (quota & workers & Hq & Hw & Hlt); [lia|lia|].
    rewrite (waitForFreeMachines_from_check _ _ _ _ quota workers) by (lia || assumption).
    destruct (Z.geb_spec (quota - Z.of_nat (length workers)) machineCount); [lia|].
    apply IH; [lia|]. intros n Hn. apply Hnever. lia.
Qed.

(** The polling loop of [_getWorker] when no poll sees a running worker:
    it makes the remaining polls, waits after each, and returns
    [undefined]. *)
Lemma _getWorker_from_never (id : string) (r : nat) :
  ∀ (attempts : nat) (log : list Action),
    (S maxAttempts - attempts)%nat = r →
    (∀ n, (n <= maxAttempts)%nat →
          is_running (resolve_res (getWorker farm id n)) = false) →
    _getWorker_from farm id attempts log
    = (inr None,
       (concat (repeat [AWait requestTimeout; AGetWorker id] r) ++ log)%list).
Proof.
  induction r as [|r IH]; intros attempts log Hr Hnever.
  - simp _getWorker_from. destruct (le_dec attempts maxAttempts); [lia|reflexivity].
  - rewrite _getWorker_from_equation_1.
    destruct (le_dec attempts maxAttempts); [|lia].
    cbn. unfold bind at 1, act. rewrite Hnever by assumption.
    unfold bind, wait, act. rewrite IH by (lia || assumption).
    cbn. f_equal. clear. induction r as [|r IHr]; cbn; [reflexivity|].
    rewrite IHr. reflexivity.
Qed.

End SequentialFacts.

(** [C4] Admission correctness. When the first check finds
    [quota - activeWorkers >= requiredCount], [waitForFreeMachines] returns
    successfully having made that one check and no sleep; when every one
    of the [maxAttempts] checks finds less than [requiredCount], it fails
    with the error 'There are no free machines'. *)
Theorem waitForFreeMachines_admission (this : Connector) (farm : Farm)
    (machineCount requestInterval maxAttemptCount : Z) :
  (∀ quota workers,
     0 < maxAttemptCount →
     getApiStatus farm 0 = CbOk quota →
     getWorkers farm 0 = CbOk workers →
     quota - Z.of_nat (length workers) >= machineCount →
     run_M (waitForFreeMachines this farm machineCount requestInterval maxAttemptCount)
     = (inr tt, [AGetApiStatus; AGetWorkers]))
  ∧ ((∀ n, Z.of_nat n < maxAttemptCount →
           ∃ quota workers,
             getApiStatus farm n = CbOk quota
             ∧ getWorkers farm n = CbOk workers
             ∧ quota - Z.of_nat (length workers) < machineCount) →
     fst (run_M (waitForFreeMachines this farm machineCount requestInterval
                   maxAttemptCount))
     = inl (Error "There are no free machines")).
Proof.
  split.
  - intros quota workers Hmax Hq Hw Hfree.
    unfold run_M, waitForFreeMachines.
    rewrite (waitForFreeMachines_from_check this farm _ _ _ _ quota workers)
      by (assumption || lia).
    destruct (Z.geb_spec (quota - Z.of_nat (length workers)) machineCount); [|lia].
    reflexivity.
  - intros Hnever. unfold run_M, waitForFreeMachines.
    pose proof (waitForFreeMachines_from_never this farm machineCount
                  requestInterval maxAttemptCount _ 0%nat [] eq_refl) as H.
    destruct (waitForFreeMachines_from _ _ _ _ _ _ _) as [res log].
    cbn in *. apply H. intros n _. apply Hnever.
Qed.

(** Both cases on farms with quota 5: three active workers and two
    machines required; five active workers at each of three checks. *)
Lemma waitForFreeMachines_admission_witness :
  run_M (waitForFreeMachines connector0 (farm_with (λ _, 3%nat)) 2 1000 5)
  = (inr tt, [AGetApiStatus; AGetWorkers])
  ∧ fst (run_M (waitForFreeMachines connector0 (farm_with (λ _, 5%nat)) 2 1000 3))
    = inl (Error "There are no free machines").
Proof.
  split.
  - apply (proj1 (waitForFreeMachines_admission connector0 (farm_with (λ _, 3%nat))
                    2 1000 5) 5 (repeat running_worker 3));
      [lia | reflexivity | reflexivity | cbn; lia].
  - apply (proj2 (waitForFreeMachines_admission connector0 (farm_with (λ _, 5%nat))
                    2 1000 3)).
    intros n _. exists 5, (repeat running_worker 5).
    split; [reflexivity | split; [reflexivity | cbn; lia]].
Defined.

(** [C5], as stated, fails: with [requiredCount = 0] the call throws when
    [maxAttempts] is 0 (no check is made), when the farm lists more active
    workers than the quota (the free count is negative at every check), and
    when the quota query fails. *)
Lemma waitForFreeMachines_zero_required_counterexample :
  run_M (waitForFreeMachines connector0 (farm_with (λ _, 0%nat)) 0 1000 0)
  = (inl (Error "There are no free machines"), [])
  ∧ fst (run_M (waitForFreeMachines connector0 (farm_with (λ _, 6%nat)) 0 1000 2))
    = inl (Error "There are no free machines")
  ∧ fst (run_M (waitForFreeMachines connector0 farm_quota_down 0 1000 2))
    = inl (ClientErr "ECONNRESET").
Proof. repeat split; vm_compute; reflexivity. Qed.

(** [C5], amended. With [requiredCount = 0] and [maxAttempts >= 1], when
    both queries of the first check succeed and the active workers do not
    exceed the quota, [waitForFreeMachines] returns successfully after that
    one check, without sleeping, for every [pollInterval]; with
    [maxAttempts <= 0] it makes no check and throws. *)
Theorem waitForFreeMachines_zero_required (this : Connector) (farm : Farm)
    (requestInterval maxAttemptCount : Z) :
  (∀ quota workers,
     0 < maxAttemptCount →
     getApiStatus farm 0 = CbOk quota →
     getWorkers farm 0 = CbOk workers →
     Z.of_nat (length workers) <= quota →
     run_M (waitForFreeMachines this farm 0 requestInterval maxAttemptCount)
     = (inr tt, [AGetApiStatus; AGetWorkers]))
  ∧ (maxAttemptCount <= 0 →
     run_M (waitForFreeMachines this farm 0 requestInterval maxAttemptCount)
     = (inl (Error "There are no free machines"), [])).
Proof.
  split.
  - intros quota workers Hmax Hq Hw Hle.
    unfold run_M, waitForFreeMachines.
    rewrite (waitForFreeMachines_from_check this farm _ _ _ _ quota workers)
      by (assumption || lia).
    destruct (Z.geb_spec (quota - Z.of_nat (length workers)) 0); [|lia].
    reflexivity.
  - intros Hmax. unfold run_M, waitForFreeMachines.
    rewrite waitForFreeMachines_from_exhausted by lia. reflexivity.
Qed.

Lemma waitForFreeMachines_zero_required_witness :
  run_M (waitForFreeMachines connector0 (farm_with (λ _, 5%nat)) 0 250 1)
  = (inr tt, [AGetApiStatus; AGetWorkers])
  ∧ run_M (waitForFreeMachines connector0 (farm_with (λ _, 5%nat)) 0 250 0)
    = (inl (Error "There are no free machines"), []).
Proof.
  split.
  - apply (proj1 (waitForFreeMachines_zero_required connector0
                    (farm_with (λ _, 5%nat)) 250 1) 5 (repeat running_worker 5));
      [lia | reflexivity | reflexivity | cbn; lia].
  - apply (proj2 (waitForFreeMachines_zero_required connector0
                    (farm_with (λ _, 5%nat)) 250 0)). lia.
Defined.

(** [C6] at its failing input. When the worker listing of the first check
    fails with [err] and the quota query succeeds, [waitForFreeMachines]
    does fail after that one check, but with a TypeError: the error of the
    listing is dropped by [_getWorkers] and is not the value thrown. *)
Theorem waitForFreeMachines_listing_failure (this : Connector) (farm : Farm)
    (machineCount requestInterval maxAttemptCount : Z) (err : string) (quota : Z) :
  0 < maxAttemptCount →
  getApiStatus farm 0 = CbOk quota →
  getWorkers farm 0 = CbErr err →
  run_M (waitForFreeMachines this farm machineCount requestInterval maxAttemptCount)
  = (inl (TypeError "Cannot read property 'length' of undefined"),
     [AGetApiStatus; AGetWorkers])
  ∧ fst (run_M (waitForFreeMachines this farm machineCount requestInterval
                  maxAttemptCount))
    ≠ inl (ClientErr err).
Proof.
  intros Hmax Hq Hw.
  assert (run_M (waitForFreeMachines this farm machineCount requestInterval
                   maxAttemptCount)
          = (inl (TypeError "Cannot read property 'length' of undefined"),
             [AGetApiStatus; AGetWorkers])) as Hrun.
  { unfold run_M, waitForFreeMachines.
    rewrite waitForFreeMachines_from_equation_1.
    destruct (Z_lt_dec (Z.of_nat 0) maxAttemptCount); [|lia].
    cbn. unfold bind at 1.
    rewrite (_getFreeMachineCount_listing_error this farm _ err quota) by assumption.
    reflexivity. }
  split; [exact Hrun|]. rewrite Hrun. cbn. discriminate.
Qed.

Lemma waitForFreeMachines_listing_failure_witness :
  run_M (waitForFreeMachines connector0 farm_listing_down 2 1000 5)
  = (inl (TypeError "Cannot read property 'length' of undefined"),
     [AGetApiStatus; AGetWorkers])
  ∧ fst (run_M (waitForFreeMachines connector0 farm_listing_down 2 1000 5))
    ≠ inl (ClientErr "ECONNRESET").
Proof.
  apply (waitForFreeMachines_listing_failure connector0 farm_listing_down 2 1000 5
           "ECONNRESET" 5); [lia | reflexivity | reflexivity].
Defined.

(** The sibling path: a failed quota query is surfaced as it is, after one
    check and without a retry. *)
Lemma waitForFreeMachines_quota_failure (this : Connector) (farm : Farm)
    (machineCount requestInterval maxAttemptCount : Z) (err : string) :
  0 < maxAttemptCount →
  getApiStatus farm 0 = CbErr err →
  fst (run_M (waitForFreeMachines this farm machineCount requestInterval
                maxAttemptCount))
  = inl (ClientErr err).
Proof.
  intros Hmax Hq. unfold run_M, waitForFreeMachines.
  rewrite waitForFreeMachines_from_equation_1.
  destruct (Z_lt_dec (Z.of_nat 0) maxAttemptCount); [|lia].
  cbn. unfold bind at 1.
  pose proof (_getFreeMachineCount_quota_error this farm 0 err [] Hq) as H.
  destruct (_getFreeMachineCount this farm 0 []) as [res log].
  cbn in H. subst res. reflexivity.
Qed.

(** [C10] When none of the 31 status polls (counter values 0 to 30) sees a
    worker with status 'running', [getSessionUrl] returns [undefined]
    without raising an error, after exactly 31 polls, each followed by a
    wait of 10 seconds. *)
Theorem getSessionUrl_poll_budget_exhausted (farm : Farm) (id : string) :
  (∀ n, (n <= 30)%nat → is_running (resolve_res (getWorker farm id n)) = false) →
  run_M (getSessionUrl farm id)
  = (inr None, concat (repeat [AGetWorker id; AWait 10000] 31)).
Proof.
  intros Hnever. unfold run_M, getSessionUrl, _getWorker, bind.
  rewrite (_getWorker_from_never farm id 31 0 []); [reflexivity | reflexivity |].
  exact Hnever.
Qed.

Lemma getSessionUrl_poll_budget_exhausted_witness :
  run_M (getSessionUrl farm_listing_down "w1")
  = (inr None, concat (repeat [AGetWorker "w1"; AWait 10000] 31)).
Proof.
  apply (getSessionUrl_poll_budget_exhausted farm_listing_down "w1").
  intros n _. reflexivity.
Defined.

(** * Part 6: the transition system, proved *)

(** ** Lists *)

Lemma filter_length_insert {A} (f : A → bool) (l : list A) (k : nat) (a a' : A) :
  l !! k = Some a → f a' = f a →
  length (List.filter f (<[k := a']> l)) = length (List.filter f l).
Proof.
  revert k. induction l as [|x l IH]; intros [|k] Hk Hf; try discriminate.
  - injection Hk as ->. cbn. rewrite Hf. destruct (f a); reflexivity.
  - specialize (IH k Hk Hf). change (<[S k := a']> (x :: l)) with (x :: <[k := a']> l).
    cbn [List.filter]. destruct (f x); cbn [length]; congruence.
Qed.

Lemma filter_length_snoc {A} (f : A → bool) (l : list A) (a : A) :
  length (List.filter f (l ++ [a])) = (length (List.filter f l) + if f a then 1 else 0)%nat.
Proof.
  rewrite List.filter_app, length_app. cbn. destruct (f a); reflexivity.
Qed.

Lemma remove_first_Forall (P : string * nat → Prop) (x : string * nat)
    (l : list (string * nat)) :
  Forall P l → Forall P (remove_first x l).
Proof.
  induction 1 as [|y l Hy Hl IH]; cbn; [constructor|].
  destruct (same_listener x y); [assumption | constructor; assumption].
Qed.

Lemma remove_first_In (x l0 : string * nat) (l : list (string * nat)) :
  In l0 (remove_first x l) → In l0 l.
Proof.
  induction l as [|y l IH]; cbn; [auto|].
  destruct (same_listener x y); [auto|]. intros [H|H]; auto.
Qed.

Lemma remove_first_NoDup (x : string * nat) (l : list (string * nat)) :
  NoDup l → NoDup (remove_first x l).
Proof.
  induction 1 as [|y l Hy Hl IH]; cbn; [constructor|].
  destruct (same_listener x y); [assumption|].
  constructor; [|exact IH]. intros Hin. apply Hy.
  apply list_elem_of_In. apply (remove_first_In x). apply list_elem_of_In. exact Hin.
Qed.

Lemma listeners_named_same (st st' : State) :
  listeners st' = listeners st → length (attempts st') = length (attempts st) →
  listeners_named st → listeners_named st'.
Proof. unfold listeners_named. intros -> ->. auto. Qed.

(** ** Frame lemmas for the invariant *)

Lemma owned_put_attempt (c k : nat) (a a' : Attempt) (st : State) :
  attempts st !! k = Some a → owner a' = owner a →
  owned c (put_attempt k a' st) = owned c st.
Proof.
  intros Hk Ho. unfold owned, put_attempt. cbn.
  apply (filter_length_insert _ _ _ a); [assumption | rewrite Ho; reflexivity].
Qed.

Lemma lookup_put_attempt (k k' : nat) (a a' x : Attempt) (st : State) :
  attempts st !! k = Some a →
  attempts (put_attempt k a' st) !! k' = Some x →
  (k' = k ∧ x = a') ∨ (k' ≠ k ∧ attempts st !! k' = Some x).
Proof.
  intros Hk Hx. unfold put_attempt in Hx. cbn in Hx.
  destruct (decide (k' = k)) as [->|Hne].
  - rewrite list_lookup_insert_eq in Hx by (eapply lookup_lt_Some; eassumption).
    left. split; congruence.
  - rewrite list_lookup_insert_ne in Hx by congruence. right. auto.
Qed.

Lemma confirmed_put_attempt (c k : nat) (a a' : Attempt) (w : Worker) (st : State) :
  attempts st !! k = Some a → owner a' = owner a →
  (∀ w', waitForUrlOpened a = Fulfilled → body a = Resolved w' →
         waitForUrlOpened a' = Fulfilled ∧ body a' = Resolved w') →
  confirmed st c w → confirmed (put_attempt k a' st) c w.
Proof.
  intros Hk Ho Hkeep (k0 & a0 & Hk0 & Hc & Hf & Hb).
  destruct (decide (k0 = k)) as [->|Hne].
  - assert (a0 = a) by congruence. subst a0.
    destruct (Hkeep w Hf Hb) as [Hf' Hb'].
    exists k, a'. unfold put_attempt; cbn.
    rewrite list_lookup_insert_eq by (eapply lookup_lt_Some; eassumption).
    repeat split; congruence.
  - exists k0, a0. unfold put_attempt; cbn.
    rewrite list_lookup_insert_ne by congruence. auto.
Qed.

Lemma call_inv_put_attempt (c k : nat) (a a' : Attempt) (call : StartCall)
    (st : State) :
  attempts st !! k = Some a → owner a' = owner a →
  (unsettled (body a') → unsettled (body a)) →
  (∀ w', waitForUrlOpened a = Fulfilled → body a = Resolved w' →
         waitForUrlOpened a' = Fulfilled ∧ body a' = Resolved w') →
  call_inv st c call → call_inv (put_attempt k a' st) c call.
Proof.
  intros Hk Ho Hu Hkeep [(Hmax & Hok) Hlinks]. split; [split; [exact Hmax|]|].
  - rewrite (owned_put_attempt c k a a' st Hk Ho).
    destruct (c_state call); try assumption.
    destruct Hok as [Hle Hconf]. split; [assumption|].
    intros w0 Hw0. eapply confirmed_put_attempt; eauto.
  - intros k' x Hx Hc Hux.
    destruct (lookup_put_attempt _ _ _ _ _ _ Hk Hx) as [[-> ->]|[_ Hx']].
    + apply (Hlinks k a Hk); [congruence | auto].
    + apply (Hlinks k' x Hx' Hc Hux).
Qed.

(** Rewriting an attempt without changing its owner, without reviving its
    body and without losing a confirmation keeps the invariant. *)
Lemma Inv_put_attempt (k : nat) (a a' : Attempt) (st : State) :
  Inv st → attempts st !! k = Some a → owner a' = owner a →
  (unsettled (body a') → unsettled (body a)) →
  (∀ w', waitForUrlOpened a = Fulfilled → body a = Resolved w' →
         waitForUrlOpened a' = Fulfilled ∧ body a' = Resolved w') →
  Inv (put_attempt k a' st).
Proof.
  intros [Hcalls Hown Hlis] Hk Ho Hu Hkeep. split.
  - intros c call Hc. cbn in Hc.
    eapply call_inv_put_attempt; eauto.
  - intros k' x Hx.
    destruct (lookup_put_attempt _ _ _ _ _ _ Hk Hx) as [[-> ->]|[_ Hx']]; cbn.
    + rewrite Ho. apply (Hown k a Hk).
    + apply (Hown k' x Hx').
  - apply (listeners_named_same st); [reflexivity | apply length_insert | exact Hlis].
Qed.

(** The invariant does not read the log. *)
Lemma Inv_set_log (log : list Action) (st : State) : Inv st → Inv (set_log log st).
Proof. intros [H1 H2 H3]. split; assumption. Qed.

Lemma Inv_emit_action (a : Action) (st : State) : Inv st → Inv (emit_action a st).
Proof. apply Inv_set_log. Qed.

Lemma Inv_lift (m : M unit) (st : State) : Inv st → Inv (lift m st).
Proof. apply Inv_set_log. Qed.

Lemma Inv_removeListener (event : string) (k : nat) (st : State) :
  Inv st → Inv (removeListener event k st).
Proof.
  intros [H1 H2 H3]. split; [exact H1 | exact H2 |].
  unfold listeners_named, removeListener in *. cbn. destruct H3 as [H3 H4]. split.
  - apply Forall_rev, remove_first_Forall, Forall_rev. exact H3.
  - apply NoDup_ListNoDup, List.NoDup_rev, NoDup_ListNoDup, remove_first_NoDup.
    apply NoDup_ListNoDup, List.NoDup_rev, NoDup_ListNoDup. exact H4.
Qed.

(** [call_inv] reads the state through its attempts only. *)
Lemma call_inv_same_attempts (c : nat) (call : StartCall) (st st' : State) :
  attempts st' = attempts st → call_inv st c call → call_inv st' c call.
Proof.
  intros Heq H. unfold call_inv, call_ok, attempt_links, owned, confirmed in *.
  rewrite Heq. exact H.
Qed.

Lemma confirmed_snoc (c : nat) (w : Worker) (a : Attempt) (st st' : State) :
  attempts st' = (attempts st ++ [a])%list → confirmed st c w → confirmed st' c w.
Proof.
  intros Heq (k0 & a0 & Hk0 & H). exists k0, a0. split; [|exact H].
  rewrite Heq. rewrite lookup_app_l by (eapply lookup_lt_Some; eassumption).
  exact Hk0.
Qed.

Lemma lookup_snoc_inv {A} (l : list A) (a x : A) (k : nat) :
  (l ++ [a])%list !! k = Some x →
  l !! k = Some x ∨ (k = length l ∧ x = a).
Proof.
  intros H. destruct (decide (k < length l)%nat) as [Hlt|Hge].
  - rewrite lookup_app_l in H by assumption. auto.
  - rewrite lookup_app_r in H by lia.
    destruct (k - length l)%nat as [|j] eqn:Hj; cbn in H; [|discriminate].
    right. split; [lia | congruence].
Qed.

(** Starting an attempt of another call leaves [call_inv] alone. *)
Lemma call_inv_snoc (c : nat) (call : StartCall) (a : Attempt) (st st' : State) :
  attempts st' = (attempts st ++ [a])%list → owner a ≠ c →
  call_inv st c call → call_inv st' c call.
Proof.
  intros Heq Hne [(Hmax & Hok) Hlinks].
  assert (owned c st' = owned c st) as Hown.
  { unfold owned. rewrite Heq, filter_length_snoc.
    destruct (Nat.eqb_spec (owner a) c); [contradiction | lia]. }
  split; [split; [exact Hmax|]|].
  - rewrite Hown. destruct (c_state call); try assumption.
    destruct Hok as [Hle Hconf]. split; [assumption|].
    intros w0 Hw0. eapply confirmed_snoc; eauto.
  - intros k x Hx Hc Hu. rewrite Heq in Hx.
    destruct (lookup_snoc_inv _ _ _ _ Hx) as [Hx'|[_ ->]].
    + eapply Hlinks; eauto.
    + contradiction.
Qed.

Section OpenerFacts.
Context (this : Connector) (hostname : string) (uid : nat → string).


(** The loop test of [startBrowser] re-establishes the invariant. *)
Lemma Inv_startBrowser_loop (c : nat) (call : StartCall) (st : State) :
  calls st !! c = Some call →
  (∀ c' call', c' ≠ c → calls st !! c' = Some call' → call_inv st c' call') →
  owners_exist st → listeners_named st →
  loop_ready st c call →
  Inv (startBrowser_loop this hostname uid c st).
Proof.
  intros Hc Hothers Hown Hlis (Hmax & Hsettled & Hcase).
  assert (c < length (calls st))%nat as Hclt by (eapply lookup_lt_Some; eassumption).
  unfold startBrowser_loop. rewrite Hc.
  destruct (_ && _) eqn:Htest.
  - apply andb_prop in Htest as [Hlt Hfalsy]. apply Z.ltb_lt in Hlt.
    destruct Hcase as [(w & Hw & _)|(Hw & Hcount & _)];
      [rewrite Hw in Hfalsy; discriminate|].
    set (call1 := set_c_state _ _).
    unfold _startBrowser_begin. cbv zeta.
    set (a1 := mkAttempt _ _ _ _ _ _ _).
    split.
    + intros c0 call0 Hc0. cbn in Hc0.
      destruct (decide (c0 = c)) as [->|Hne].
      * rewrite list_lookup_insert_eq in Hc0 by assumption.
        injection Hc0 as <-. split; [split; [exact Hmax|]|].
        -- cbn. repeat split; try assumption.
           unfold owned. cbn. rewrite filter_length_snoc. cbn.
           rewrite Nat.eqb_refl. fold (owned c st). lia.
        -- intros k x Hx Hcx Hu. cbn in Hx.
           destruct (lookup_snoc_inv _ _ _ _ Hx) as [Hx'|[-> ->]].
           ++ exfalso. eapply Hsettled; eauto.
           ++ reflexivity.
      * rewrite list_lookup_insert_ne in Hc0 by congruence.
        eapply (call_inv_snoc c0 call0 a1 st); [reflexivity | cbn; congruence |].
        apply Hothers; assumption.
    + intros k x Hx. cbn in Hx. cbn. rewrite length_insert.
      destruct (lookup_snoc_inv _ _ _ _ Hx) as [Hx'|[-> ->]].
      * apply (Hown k x Hx').
      * exact Hclt.
    + destruct Hlis as [Hnamed Hnodup]. unfold listeners_named. cbn. split.
      * apply Forall_app. split.
        -- eapply Forall_impl; [exact Hnamed|]. cbn. intros l [Hl1 Hl2].
           rewrite length_app. cbn. split; [exact Hl1 | lia].
        -- constructor; [|constructor]. cbn. rewrite length_app. cbn.
           split; [reflexivity | lia].
      * apply NoDup_app. split; [exact Hnodup|]. split; [|apply NoDup_singleton].
        intros l Hl Hl'. apply list_elem_of_In in Hl'. destruct Hl' as [<-|[]].
        rewrite Forall_forall in Hnamed. destruct (Hnamed _ Hl) as [_ Hbound].
        cbn in Hbound. lia.
  - assert (Z.of_nat (owned c st) <= attempt_bound call
            ∧ ∀ w, c_error call = None → c_worker call = WObj w → confirmed st c w)
      as [Hbound Hconf].
    { unfold attempt_bound in *.
      destruct Hcase as [(w & Hw & He & Hcount & Hlt & Hcf)|(Hw & Hcount & Hle)].
      - split; [lia|]. intros w' _ Hw'. rewrite Hw in Hw'. injection Hw' as <-.
        exact Hcf.
      - split; [lia|]. intros w' _ Hw'. rewrite Hw in Hw'. discriminate. }
    assert (∀ call2, c_maxAttepts call2 = c_maxAttepts call →
                     c_options call2 = c_options call →
                     match c_state call2 with
                     | Running _ => False
                     | Returned v => ∀ w, v = WObj w → confirmed st c w
                     | Threw _ => True
                     end →
                     Inv (put_call c call2 st)) as Hput.
    { intros call2 Hm2 Ho2 Hst2. split.
      - intros c0 call0 Hc0. cbn in Hc0.
        destruct (decide (c0 = c)) as [->|Hne].
        + rewrite list_lookup_insert_eq in Hc0 by assumption.
          injection Hc0 as <-.
          apply (call_inv_same_attempts c call2 st); [reflexivity|].
          split; [split; [congruence|]|].
          * unfold attempt_bound in *. rewrite Hm2.
            destruct (c_state call2); [contradiction | split; assumption | assumption].
          * intros k x Hx Hcx Hu. exfalso. eapply Hsettled; eauto.
        + rewrite list_lookup_insert_ne in Hc0 by congruence.
          apply (call_inv_same_attempts c0 call0 st); [reflexivity|].
          apply Hothers; assumption.
      - intros k x Hx. cbn in *. rewrite length_insert. apply (Hown k x Hx).
      - exact Hlis. }
    destruct (c_error call) as [e|] eqn:He.
    + apply Hput; [reflexivity | reflexivity | exact I].
    + apply Hput; [reflexivity | reflexivity |]. cbn. intros w Hw. apply Hconf; auto.
Qed.

(** An attempt whose body has not ended may end; with a worker only if its
    [waitForUrlOpened] is fulfilled. *)
Lemma Inv_settle (k : nat) (a : Attempt) (r : JsError + Worker) (st : State) :
  Inv st → attempts st !! k = Some a → unsettled (body a) →
  (∀ w, r = inr w → waitForUrlOpened a = Fulfilled) →
  Inv (settle this hostname uid k r st).
Proof.
  intros HInv Hk Hu Hful. pose proof HInv as [Hcalls Hown Hlis].
  unfold settle. rewrite Hk. cbv zeta.
  set (a' := set_body _ a).
  assert (owner a' = owner a) as Ho by reflexivity.
  assert (¬ unsettled (body a')) as Hsettled'.
  { subst a'. cbn. destruct r; cbn; auto. }
  destruct (lookup_lt_is_Some_2 (calls st) (owner a) (Hown k a Hk)) as [call Hcall].
  change (calls (put_attempt k a' st)) with (calls st). rewrite Hcall.
  destruct (Hcalls _ _ Hcall) as [[Hmax Hok] Hlinks].
  rewrite (Hlinks k a Hk eq_refl Hu) in Hok.
  destruct Hok as (Hcount & Hlt & Herr & Hwn).
  set (call' := match r with inl _ => _ | inr _ => _ end).
  assert (owner a < length (calls st))%nat as Hclt by (apply (Hown k a Hk)).
  apply (Inv_startBrowser_loop (owner a) call').
  - cbn. apply list_lookup_insert_eq. exact Hclt.
  - intros c' call0 Hne Hc0. cbn in Hc0.
    rewrite list_lookup_insert_ne in Hc0 by congruence.
    apply (call_inv_same_attempts c' call0 (put_attempt k a' st)); [reflexivity|].
    apply (call_inv_put_attempt c' k a a');
      [exact Hk | exact Ho | intros _; exact Hu | | apply Hcalls; exact Hc0].
    intros w' _ Hb. rewrite Hb in Hu. contradiction.
  - intros k' x Hx. cbn in Hx. cbn. rewrite length_insert.
    destruct (lookup_put_attempt k k' a a' x st Hk Hx) as [[-> ->]|[_ Hx']].
    + exact Hclt.
    + apply (Hown k' x Hx').
  - apply (listeners_named_same st); [reflexivity | apply length_insert | exact Hlis].
  - split; [|split].
    + subst call'. destruct r; exact Hmax.
    + intros k' x Hx Hcx Hux. cbn in Hx.
      destruct (lookup_put_attempt k k' a a' x st Hk Hx) as [[-> ->]|[Hne Hx']].
      * contradiction.
      * pose proof (Hlinks k' x Hx' Hcx Hux) as Hr.
        rewrite (Hlinks k a Hk eq_refl Hu) in Hr. congruence.
    + assert (owned (owner a) (put_call (owner a) call' (put_attempt k a' st))
              = S (c_attempt call)) as Hcount'.
      { rewrite <- Hcount. apply (owned_put_attempt (owner a) k a a' st Hk Ho). }
      destruct r as [e|w].
      * right. subst call'. cbn. repeat split; [exact Hwn | exact Hcount' |].
        unfold attempt_bound. cbn. lia.
      * left. exists w. subst call'. cbn.
        repeat split; try assumption.
        exists k, a'. cbn.
        rewrite list_lookup_insert_eq by (eapply lookup_lt_Some; eassumption).
        repeat split. apply (Hful w eq_refl).
Qed.

Lemma Inv_after_urlOpened (k : nat) (a : Attempt) (st : State) :
  Inv st → attempts st !! k = Some a → unsettled (body a) →
  waitForUrlOpened a = Fulfilled →
  Inv (after_urlOpened this hostname uid k st).
Proof.
  intros HInv Hk Hu Hf. unfold after_urlOpened. rewrite Hk.
  destruct (worker a) as [| |w].
  - apply (Inv_settle k a); auto.
  - apply (Inv_settle k a); auto.
  - apply (Inv_settle k a); auto. apply Inv_lift. exact HInv.
Qed.

Lemma Inv_await_urlOpened (k : nat) (a : Attempt) (st : State) :
  Inv st → attempts st !! k = Some a → unsettled (body a) →
  Inv (await_urlOpened this hostname uid k st).
Proof.
  intros HInv Hk Hu. unfold await_urlOpened. rewrite Hk. cbv zeta.
  set (a' := set_body AwaitUrlOpened a).
  assert (Inv (put_attempt k a' st)) as HInv'.
  { apply (Inv_put_attempt k a a'); auto.
    intros w' _ Hb. rewrite Hb in Hu. contradiction. }
  assert (attempts (put_attempt k a' st) !! k = Some a') as Hk'.
  { cbn. apply list_lookup_insert_eq. eapply lookup_lt_Some; eassumption. }
  destruct (waitForUrlOpened a) eqn:Hp.
  - exact HInv'.
  - apply (Inv_after_urlOpened k a'); auto. exact I.
  - apply (Inv_settle k a'); auto. exact I. discriminate.
Qed.

Lemma Inv_resume_urlOpened (st : State) (k : nat) :
  Inv st → Inv (resume_urlOpened this hostname uid st k).
Proof.
  intros HInv. unfold resume_urlOpened.
  destruct (attempts st !! k) as [a|] eqn:Hk; [|exact HInv].
  destruct (body a) eqn:Hb; try exact HInv.
  apply (Inv_await_urlOpened k a); auto. rewrite Hb. exact I.
Qed.

Lemma Inv_getWorker_test (k : nat) (id : string) (n : nat) (a : Attempt)
    (st : State) :
  Inv st → attempts st !! k = Some a → unsettled (body a) →
  Inv (_getWorker_test this hostname uid k id n st).
Proof.
  intros HInv Hk Hu. unfold _getWorker_test. rewrite Hk.
  destruct (n <=? maxAttempts)%nat.
  - apply Inv_emit_action. apply (Inv_put_attempt k a); auto.
    intros w' _ Hb. rewrite Hb in Hu. contradiction.
  - apply (Inv_await_urlOpened k (set_worker WUndefined a)).
    + apply (Inv_put_attempt k a); auto.
    + cbn. apply list_lookup_insert_eq. eapply lookup_lt_Some; eassumption.
    + exact Hu.
Qed.

Lemma Inv_hubHandler (st : State) (k : nat) (id : string) :
  Inv st → Inv (hubHandler st k id).
Proof.
  intros HInv. unfold hubHandler.
  destruct (attempts st !! k) as [a|] eqn:Hk; [|exact HInv].
  destruct (String.eqb id (browserId a)); [|exact HInv]. cbv zeta.
  apply (Inv_put_attempt k a).
  - apply Inv_emit_action, Inv_removeListener, HInv.
  - exact Hk.
  - destruct (timeoutId a); cbn; destruct (waitForUrlOpened a); reflexivity.
  - destruct (timeoutId a); cbn; destruct (waitForUrlOpened a); cbn; auto.
  - intros w' Hf Hb. destruct (timeoutId a); cbn; rewrite Hf; cbn; auto.
Qed.

Lemma Inv_foldl {A} (f : State → A → State) (l : list A) :
  (∀ st x, Inv st → Inv (f st x)) →
  ∀ st, Inv st → Inv (foldl f st l).
Proof.
  intros Hf. induction l as [|x l IH]; intros st HInv; cbn; [exact HInv|].
  apply IH, Hf, HInv.
Qed.

Lemma Inv_emit (event arg : string) (st : State) :
  Inv st → Inv (emit event arg st).
Proof.
  intros HInv. unfold emit.
  apply (Inv_foldl (λ st k, hubHandler st k arg)); [|exact HInv].
  intros st' k. apply Inv_hubHandler.
Qed.

Lemma Inv_after_emit (hs : list nat) (st : State) :
  Inv st → Inv (after_emit this hostname uid hs st).
Proof.
  intros HInv. unfold after_emit.
  apply Inv_foldl; [|exact HInv]. intros st' k. apply Inv_resume_urlOpened.
Qed.

Lemma Inv_hub_request (req : Request) (st : State) :
  Inv st → Inv (hub_request this hostname uid req st).
Proof.
  intros HInv. unfold hub_request.
  destruct (match_route req) as [id|].
  - apply Inv_after_emit, Inv_emit_action, Inv_emit, HInv.
  - apply Inv_emit_action, HInv.
Qed.

Lemma Inv_startBrowser (browserSettings : BrowserSettings) (url : string)
    (job : JobInfo) (options : StartOptions) (st : State) :
  Inv st → Inv (startBrowser this hostname uid browserSettings url job options st).
Proof.
  intros [Hcalls Hown Hlis]. unfold startBrowser. cbv zeta.
  set (call := mkStartCall _ _ _ _ _ _ _ _ _ _).
  assert (∀ k a, attempts st !! k = Some a → owner a ≠ length (calls st)) as Hfresh.
  { intros k a Hk. pose proof (Hown k a Hk). lia. }
  apply (Inv_startBrowser_loop (length (calls st)) call).
  - cbn. rewrite lookup_app_r by lia. rewrite Nat.sub_diag. reflexivity.
  - intros c' call' Hne Hc'. cbn in Hc'.
    destruct (lookup_snoc_inv _ _ _ _ Hc') as [Hc0|[-> _]]; [|contradiction].
    apply (call_inv_same_attempts c' call' st); [reflexivity|].
    apply Hcalls. exact Hc0.
  - intros k a Hk. cbn in *. rewrite length_app. cbn.
    pose proof (Hown k a Hk). lia.
  - exact Hlis.
  - split; [reflexivity|]. split.
    + intros k a Hk Ho. cbn in Hk. exfalso. apply (Hfresh k a Hk Ho).
    + right. cbn. repeat split.
      * unfold owned. cbn.
        assert (∀ l : list Attempt,
                  (∀ a, In a l → owner a ≠ length (calls st)) →
                  length (List.filter (λ a, owner a =? length (calls st))%nat l) = 0%nat)
          as Hzero.
        { induction l as [|x l IH]; intros Hl; [reflexivity|]. cbn.
          destruct (Nat.eqb_spec (owner x) (length (calls st))) as [He|_].
          - exfalso. apply (Hl x); [left; reflexivity | exact He].
          - apply IH. intros y Hy. apply Hl. right. exact Hy. }
        apply Hzero. intros a Ha.
        apply list_elem_of_In in Ha. apply list_elem_of_lookup in Ha as [k Hk].
        apply (Hfresh k a Hk).
      * unfold attempt_bound. cbn. lia.
Qed.

(** Every turn of the event loop keeps the invariant. *)
Lemma Inv_step (st st' : State) (ev : Event) :
  Inv st → step this hostname uid st ev = Some st' → Inv st'.
Proof.
  intros HInv Hstep. destruct ev as [bs url job options|k cb|k cb|k|k|k cb|req|event arg];
    cbn in Hstep.
  - injection Hstep as <-. apply Inv_startBrowser, HInv.
  - unfold createWorker_done in Hstep.
    destruct (attempts st !! k) as [a|] eqn:Hk; [|discriminate].
    destruct (body a) eqn:Hb; try discriminate.
    destruct cb as [err|workerId]; injection Hstep as <-.
    + apply (Inv_settle k a); auto.
      * apply Inv_lift, HInv.
      * rewrite Hb. exact I.
      * discriminate.
    + apply (Inv_getWorker_test k workerId 0 a); auto. rewrite Hb. exact I.
  - unfold getWorker_done in Hstep.
    destruct (attempts st !! k) as [a|] eqn:Hk; [|discriminate].
    destruct (body a) eqn:Hb; try discriminate. cbv zeta in Hstep.
    assert (unsettled (body a)) as Hu by (rewrite Hb; exact I).
    destruct (is_running (resolve_res cb)); injection Hstep as <-.
    + apply (Inv_await_urlOpened k (set_worker (of_option (resolve_res cb)) a)).
      * apply (Inv_put_attempt k a); auto.
      * cbn. apply list_lookup_insert_eq. eapply lookup_lt_Some; eassumption.
      * exact Hu.
    + apply Inv_emit_action. apply (Inv_put_attempt k a); auto.
      intros w' _ Hb'. rewrite Hb' in Hb. discriminate.
  - unfold wait_done in Hstep.
    destruct (attempts st !! k) as [a|] eqn:Hk; [|discriminate].
    destruct (body a) eqn:Hb; try discriminate. injection Hstep as <-.
    apply (Inv_getWorker_test k workerId attempts0 a); auto. rewrite Hb. exact I.
  - unfold opening_timeout in Hstep.
    destruct (attempts st !! k) as [a|] eqn:Hk; [|discriminate].
    destruct (timeoutId a) eqn:Ht; try discriminate. cbv zeta in Hstep.
    assert (∀ fn, Inv (put_attempt k (set_timeoutFn fn (set_timeoutId Fired a))
                         (removeListener "browser-opened" k st))) as Hput.
    { intros fn. apply (Inv_put_attempt k a); auto. apply Inv_removeListener, HInv. }
    cbn in Hstep. destruct (worker a); injection Hstep as <-;
      apply Inv_emit_action, Hput.
  - unfold terminateWorker_done in Hstep.
    destruct (attempts st !! k) as [a|] eqn:Hk; [|discriminate].
    destruct (timeoutFn a) eqn:Ht; try discriminate.
    destruct cb as [err|time]; injection Hstep as <-.
    + apply Inv_emit_action. apply (Inv_put_attempt k a); auto.
      apply Inv_lift, HInv.
    + apply Inv_resume_urlOpened. apply (Inv_put_attempt k a); auto.
      * cbn. destruct (waitForUrlOpened a); reflexivity.
      * cbn. destruct (waitForUrlOpened a); cbn; auto.
      * intros w' Hf Hb. cbn. rewrite Hf. cbn. auto.
  - injection Hstep as <-. apply Inv_hub_request, HInv.
  - injection Hstep as <-. apply Inv_after_emit, Inv_emit, HInv.
Qed.

Lemma Inv_initial : Inv initial.
Proof.
  split.
  - intros c call Hc. cbn in Hc. discriminate.
  - intros k a Hk. cbn in Hk. discriminate.
  - split; constructor.
Qed.

Lemma Inv_run (evs : list Event) :
  ∀ st st', Inv st → run this hostname uid st evs = Some st' → Inv st'.
Proof.
  induction evs as [|ev evs IH]; intros st st' HInv Hrun; cbn in Hrun.
  - injection Hrun as <-. exact HInv.
  - destruct (step this hostname uid st ev) as [st1|] eqn:Hstep; [|discriminate].
    apply (IH st1 st'); [|exact Hrun]. apply (Inv_step st st1 ev); assumption.
Qed.

Lemma Inv_reachable (st : State) : reachable this hostname uid st → Inv st.
Proof. intros [evs Hrun]. apply (Inv_run evs initial st Inv_initial Hrun). Qed.

End OpenerFacts.

(** ** How the log grows *)

Lemma Delta_mono (P Q : Action → Prop) (n m : nat) (d : list Action) :
  (∀ a, P a → Q a) → Delta P n m d → Delta Q n m d.
Proof.
  intros HPQ. induction 1; [apply D_nil | apply D_one; auto | apply D_begin; auto].
Qed.

Lemma Delta_app (P : Action → Prop) (n m p : nat) (d1 d2 : list Action) :
  Delta P n m d1 → Delta P m p d2 → Delta P n p (d2 ++ d1)%list.
Proof.
  intros H1 H2. induction H2; cbn.
  - exact H1.
  - apply D_one; auto.
  - apply D_begin; auto.
Qed.

Lemma Delta_le (P : Action → Prop) (n m : nat) (d : list Action) :
  Delta P n m d → (n <= m)%nat.
Proof. induction 1; lia. Qed.

Lemma grows_refl (P : Action → Prop) (st : State) : grows P st st.
Proof. exists []. split; [reflexivity | constructor]. Qed.

Lemma grows_trans (P : Action → Prop) (st1 st2 st3 : State) :
  grows P st1 st2 → grows P st2 st3 → grows P st1 st3.
Proof.
  intros (d1 & Hl1 & Hd1) (d2 & Hl2 & Hd2). exists (d2 ++ d1)%list. split.
  - rewrite Hl2, Hl1, app_assoc. reflexivity.
  - eapply Delta_app; eassumption.
Qed.

Lemma grows_mono (P Q : Action → Prop) (st st' : State) :
  (∀ a, P a → Q a) → grows P st st' → grows Q st st'.
Proof.
  intros HPQ (d & Hl & Hd). exists d. split; [exact Hl|].
  eapply Delta_mono; eassumption.
Qed.

Lemma quiet_tame (a : Action) : quiet a → tame a.
Proof. destruct a; cbn; auto. Qed.

Lemma tame_calm (a : Action) : tame a → calm a.
Proof. destruct a; cbn; auto. Qed.

Lemma quiet_calm (a : Action) : quiet a → calm a.
Proof. destruct a; cbn; auto. Qed.

(** A state change that leaves the log and the number of attempts alone. *)
Lemma grows_same (P : Action → Prop) (st st' : State) :
  st_log st' = st_log st → length (attempts st') = length (attempts st) →
  grows P st st'.
Proof.
  intros Hl Hn. exists []. split; [exact Hl|]. rewrite Hn. constructor.
Qed.

Lemma grows_put_attempt (P : Action → Prop) (k : nat) (a : Attempt) (st : State) :
  grows P st (put_attempt k a st).
Proof. apply grows_same; [reflexivity|]. cbn. apply length_insert. Qed.

Lemma grows_put_call (P : Action → Prop) (c : nat) (call : StartCall) (st : State) :
  grows P st (put_call c call st).
Proof. apply grows_same; reflexivity. Qed.

Lemma grows_emit_action (P : Action → Prop) (a : Action) (st : State) :
  P a → grows P st (emit_action a st).
Proof.
  intros Ha. exists [a]. split; [reflexivity|]. cbn. constructor; [exact Ha|constructor].
Qed.

Lemma grows_log (this : Connector) (message : string) (st : State) :
  grows quiet st (lift (_log this message) st).
Proof.
  unfold lift, _log. destruct (connectorLogging this); cbn.
  - exists [AStdout (message ++ newline)]. split; [reflexivity|].
    cbn. constructor; [exact I | constructor].
  - apply grows_same; reflexivity.
Qed.

Lemma grows_removeListener (event : string) (k : nat) (st : State) :
  grows quiet st (removeListener event k st).
Proof.
  exists [ARemoveListener event k]. split; [reflexivity|].
  cbn. constructor; [exact I | constructor].
Qed.

Section LogFacts.
Context (this : Connector) (hostname : string) (uid : nat → string).

Lemma grows_startBrowser_begin (c : nat) (call : StartCall) (st : State) :
  grows quiet st (_startBrowser_begin this hostname uid c call st).
Proof.
  unfold _startBrowser_begin. cbv zeta.
  eexists [ACreateWorker _ _; AAddListener _ _; ASetTimeout _ _].
  split; [reflexivity|]. cbn. rewrite length_app. cbn.
  replace (length (attempts st) + 1)%nat with (S (length (attempts st))) by lia.
  apply D_begin. constructor.
Qed.

Lemma grows_startBrowser_loop (c : nat) (st : State) :
  grows quiet st (startBrowser_loop this hostname uid c st).
Proof.
  unfold startBrowser_loop. destruct (calls st !! c) as [call|]; [|apply grows_refl].
  destruct (_ && _).
  - eapply grows_trans; [apply grows_put_call|].
    apply grows_startBrowser_begin.
  - destruct (c_error call); apply grows_put_call.
Qed.

Lemma grows_settle (k : nat) (r : JsError + Worker) (st : State) :
  grows quiet st (settle this hostname uid k r st).
Proof.
  unfold settle. destruct (attempts st !! k) as [a|]; [|apply grows_refl].
  cbv zeta. eapply grows_trans; [apply grows_put_attempt|].
  destruct (calls _ !! owner a) as [call|]; [|apply grows_refl].
  eapply grows_trans; [apply grows_put_call|]. apply grows_startBrowser_loop.
Qed.

Lemma grows_after_urlOpened (k : nat) (st : State) :
  grows quiet st (after_urlOpened this hostname uid k st).
Proof.
  unfold after_urlOpened. destruct (attempts st !! k) as [a|]; [|apply grows_refl].
  destruct (worker a); try apply grows_settle.
  eapply grows_trans; [apply grows_log|]. apply grows_settle.
Qed.

Lemma grows_await_urlOpened (k : nat) (st : State) :
  grows quiet st (await_urlOpened this hostname uid k st).
Proof.
  unfold await_urlOpened. destruct (attempts st !! k) as [a|]; [|apply grows_refl].
  cbv zeta. eapply grows_trans; [apply grows_put_attempt|].
  destruct (waitForUrlOpened a);
    [apply grows_refl | apply grows_after_urlOpened | apply grows_settle].
Qed.

Lemma grows_resume_urlOpened (st : State) (k : nat) :
  grows quiet st (resume_urlOpened this hostname uid st k).
Proof.
  unfold resume_urlOpened. destruct (attempts st !! k) as [a|]; [|apply grows_refl].
  destruct (body a); try apply grows_refl. apply grows_await_urlOpened.
Qed.

Lemma grows_getWorker_test (k : nat) (id : string) (n : nat) (st : State) :
  grows quiet st (_getWorker_test this hostname uid k id n st).
Proof.
  unfold _getWorker_test. destruct (attempts st !! k) as [a|]; [|apply grows_refl].
  destruct (n <=? maxAttempts)%nat.
  - eapply grows_trans; [apply grows_put_attempt|].
    apply grows_emit_action. exact I.
  - eapply grows_trans; [apply grows_put_attempt|]. apply grows_await_urlOpened.
Qed.

Lemma grows_hubHandler (st : State) (k : nat) (id : string) :
  grows quiet st (hubHandler st k id).
Proof.
  unfold hubHandler. destruct (attempts st !! k) as [a|]; [|apply grows_refl].
  destruct (String.eqb id (browserId a)); [|apply grows_refl]. cbv zeta.
  eapply grows_trans; [apply grows_removeListener|].
  eapply grows_trans; [apply (grows_emit_action quiet (AClearTimeout k)); exact I|].
  apply grows_put_attempt.
Qed.

Lemma grows_foldl {A} (P : Action → Prop) (f : State → A → State) (l : list A) :
  (∀ st x, grows P st (f st x)) → ∀ st, grows P st (foldl f st l).
Proof.
  intros Hf. induction l as [|x l IH]; intros st; cbn; [apply grows_refl|].
  eapply grows_trans; [apply Hf | apply IH].
Qed.

Lemma grows_emit (event arg : string) (st : State) :
  grows quiet st (emit event arg st).
Proof.
  unfold emit. apply (grows_foldl quiet (λ st k, hubHandler st k arg)).
  intros st' k. apply grows_hubHandler.
Qed.

Lemma grows_after_emit (hs : list nat) (st : State) :
  grows quiet st (after_emit this hostname uid hs st).
Proof.
  unfold after_emit. apply grows_foldl. intros st' k. apply grows_resume_urlOpened.
Qed.

Lemma grows_hub_request (req : Request) (st : State) :
  grows tame st (hub_request this hostname uid req st).
Proof.
  unfold hub_request. destruct (match_route req) as [id|].
  - cbv zeta.
    eapply grows_trans; [apply (grows_mono quiet tame _ _ quiet_tame), grows_emit|].
    eapply grows_trans;
      [apply (grows_emit_action tame
                (ARespond (Redirect REDIRECT_STATUS (query_url req)))); exact I|].
    apply (grows_mono quiet tame _ _ quiet_tame), grows_after_emit.
  - apply grows_emit_action. exact I.
Qed.

Lemma grows_startBrowser (browserSettings : BrowserSettings) (url : string)
    (job : JobInfo) (options : StartOptions) (st : State) :
  grows quiet st (startBrowser this hostname uid browserSettings url job options st).
Proof.
  unfold startBrowser. cbv zeta.
  eapply grows_trans; [|apply grows_startBrowser_loop].
  apply grows_same; reflexivity.
Qed.

(** The timeout function, up to its [await]: it may issue the one
    [terminateWorker] request. *)
Lemma grows_opening_timeout (k : nat) (st st' : State) :
  opening_timeout k st = Some st' → grows calm st st'.
Proof.
  unfold opening_timeout. intros Hstep.
  destruct (attempts st !! k) as [a|]; [|discriminate].
  destruct (timeoutId a); try discriminate. cbn in Hstep.
  destruct (worker a); injection Hstep as <-;
    (eapply grows_trans;
       [apply (grows_mono quiet calm _ _ quiet_calm), grows_removeListener|]);
    (eapply grows_trans; [apply grows_put_attempt|]);
    apply grows_emit_action; exact I.
Qed.

(** Every other turn of the event loop adds neither a [createWorker]
    request outside the start of an attempt nor a [terminateWorker]
    request. *)
Lemma grows_step_tame (st st' : State) (ev : Event) :
  (∀ k, ev ≠ OpeningTimeout k) →
  step this hostname uid st ev = Some st' → grows tame st st'.
Proof.
  intros Hev Hstep.
  destruct ev as [bs url job options|k cb|k cb|k|k|k cb|req|event arg]; cbn in Hstep.
  - injection Hstep as <-. apply (grows_mono quiet tame _ _ quiet_tame).
    apply grows_startBrowser.
  - apply (grows_mono quiet tame _ _ quiet_tame).
    unfold createWorker_done in Hstep.
    destruct (attempts st !! k) as [a|]; [|discriminate].
    destruct (body a); try discriminate.
    destruct cb as [err|workerId]; injection Hstep as <-.
    + eapply grows_trans; [apply grows_log | apply grows_settle].
    + apply grows_getWorker_test.
  - apply (grows_mono quiet tame _ _ quiet_tame).
    unfold getWorker_done in Hstep.
    destruct (attempts st !! k) as [a|]; [|discriminate].
    destruct (body a); try discriminate. cbv zeta in Hstep.
    destruct (is_running (resolve_res cb)); injection Hstep as <-.
    + eapply grows_trans; [apply grows_put_attempt | apply grows_await_urlOpened].
    + eapply grows_trans; [apply grows_put_attempt|].
      apply grows_emit_action. exact I.
  - apply (grows_mono quiet tame _ _ quiet_tame).
    unfold wait_done in Hstep.
    destruct (attempts st !! k) as [a|]; [|discriminate].
    destruct (body a); try discriminate. injection Hstep as <-.
    apply grows_getWorker_test.
  - exfalso. apply (Hev k). reflexivity.
  - apply (grows_mono quiet tame _ _ quiet_tame).
    unfold terminateWorker_done in Hstep.
    destruct (attempts st !! k) as [a|]; [|discriminate].
    destruct (timeoutFn a); try discriminate.
    destruct cb as [err|time]; injection Hstep as <-.
    + eapply grows_trans; [apply grows_log|].
      eapply grows_trans; [apply grows_put_attempt|].
      apply grows_emit_action. exact I.
    + eapply grows_trans; [apply grows_put_attempt | apply grows_resume_urlOpened].
  - injection Hstep as <-. apply grows_hub_request.
  - injection Hstep as <-. apply (grows_mono quiet tame _ _ quiet_tame).
    eapply grows_trans; [apply grows_emit | apply grows_after_emit].
Qed.

(** Every turn of the event loop adds a [Delta] to the log. *)
Lemma grows_step (st st' : State) (ev : Event) :
  step this hostname uid st ev = Some st' → grows calm st st'.
Proof.
  intros Hstep.
  destruct ev as [bs url job options|k cb|k cb|k|k|k cb|req|event arg];
    try (apply (grows_mono tame calm _ _ tame_calm);
         eapply (grows_step_tame st st'); [|exact Hstep]; intros k0; discriminate).
  apply (grows_opening_timeout k). exact Hstep.
Qed.

Lemma grows_run (evs : list Event) :
  ∀ st st', run this hostname uid st evs = Some st' → grows calm st st'.
Proof.
  induction evs as [|ev evs IH]; intros st st' Hrun; cbn in Hrun.
  - injection Hrun as <-. apply grows_refl.
  - destruct (step this hostname uid st ev) as [st1|] eqn:Hstep; [|discriminate].
    eapply grows_trans; [apply (grows_step st st1 ev Hstep) | apply IH, Hrun].
Qed.

End LogFacts.

(** ** What the continuation of a body touches *)

Lemma kept_refl (a : Attempt) : kept a a.
Proof. repeat split. Qed.

Lemma kept_trans (a b c : Attempt) : kept a b → kept b c → kept a c.
Proof.
  intros (H1 & H2 & H3 & H4 & H5) (G1 & G2 & G3 & G4 & G5).
  repeat split; congruence.
Qed.

Lemma kept_set_body (v : Body) (a : Attempt) : kept a (set_body v a).
Proof. repeat split. Qed.

Lemma kept_set_worker (v : WorkerVar) (a : Attempt) : kept a (set_worker v a).
Proof. repeat split. Qed.

Lemma continues_refl (uid : nat → string) (J : nat → Prop) (st : State) :
  continues uid J st st.
Proof.
  split; [|split].
  - intros k a Hk. exists a. auto using kept_refl.
  - intros k a Hk Hle. apply lookup_lt_Some in Hk. lia.
  - auto.
Qed.

Lemma continues_length (uid : nat → string) (J : nat → Prop) (st st' : State) :
  continues uid J st st' → (length (attempts st) <= length (attempts st'))%nat.
Proof.
  intros (H1 & _ & _).
  destruct (decide (length (attempts st) <= length (attempts st'))%nat) as [|Hgt];
    [assumption|].
  destruct (lookup_lt_is_Some_2 (attempts st) (length (attempts st'))) as [a Ha];
    [lia|].
  destruct (H1 _ _ Ha) as (a' & Ha' & _). apply lookup_lt_Some in Ha'. lia.
Qed.

Lemma continues_trans (uid : nat → string) (J : nat → Prop) (st1 st2 st3 : State) :
  continues uid J st1 st2 → continues uid J st2 st3 → continues uid J st1 st3.
Proof.
  intros H12 H23. pose proof (continues_length _ _ _ _ H12) as Hlen.
  destruct H12 as (A1 & A2 & A3). destruct H23 as (B1 & B2 & B3).
  split; [|split].
  - intros k a Hk. destruct (A1 k a Hk) as (a2 & Hk2 & Hkept2 & Hsame2).
    destruct (B1 k a2 Hk2) as (a3 & Hk3 & Hkept3 & Hsame3).
    exists a3. split; [exact Hk3|]. split; [eapply kept_trans; eassumption|].
    intros HJ. rewrite (Hsame3 HJ). apply (Hsame2 HJ).
  - intros k a3 Hk3 Hle.
    destruct (decide (length (attempts st2) <= k)%nat) as [Hnew|Hold].
    + apply (B2 k a3 Hk3 Hnew).
    + destruct (lookup_lt_is_Some_2 (attempts st2) k) as [a2 Hk2]; [lia|].
      destruct (B1 k a2 Hk2) as (a3' & Hk3' & (_ & Hb & Hw & Ht & Hf) & _).
      assert (a3' = a3) by congruence. subst a3'.
      destruct (A2 k a2 Hk2 Hle) as (Fb & Fw & Ft & Ff).
      repeat split; congruence.
  - intros l Hl. destruct (B3 l Hl) as [Hl2|[Hn Hle]].
    + apply (A3 l Hl2).
    + right. split; [exact Hn | lia].
Qed.

Lemma continues_mono (uid : nat → string) (J J' : nat → Prop) (st st' : State) :
  (∀ k, J k → J' k) → continues uid J st st' → continues uid J' st st'.
Proof.
  intros HJ (H1 & H2 & H3). split; [|split]; [|exact H2|exact H3].
  intros k a Hk. destruct (H1 k a Hk) as (a' & Hk' & Hkept & Hsame).
  exists a'. split; [exact Hk'|]. split; [exact Hkept|]. intros Hn. apply Hsame. auto.
Qed.

(** A state change that leaves attempts and listeners alone. *)
Lemma continues_same (uid : nat → string) (J : nat → Prop) (st st' : State) :
  attempts st' = attempts st → listeners st' = listeners st →
  continues uid J st st'.
Proof.
  intros Ha Hl. split; [|split].
  - intros k a Hk. exists a. rewrite Ha. auto using kept_refl.
  - intros k a Hk Hle. rewrite Ha in Hk. apply lookup_lt_Some in Hk. lia.
  - intros l H. rewrite Hl in H. auto.
Qed.

Lemma continues_put_attempt (uid : nat → string) (J : nat → Prop) (k : nat)
    (a a' : Attempt) (st : State) :
  attempts st !! k = Some a → kept a a' → J k →
  continues uid J st (put_attempt k a' st).
Proof.
  intros Hk Hkept HJ. split; [|split].
  - intros k0 a0 Hk0. cbn. destruct (decide (k0 = k)) as [->|Hne].
    + exists a'. rewrite list_lookup_insert_eq by (eapply lookup_lt_Some; eassumption).
      assert (a0 = a) by congruence. subst a0.
      split; [reflexivity|]. split; [exact Hkept|]. intros Hn. contradiction.
    + exists a0. rewrite list_lookup_insert_ne by congruence.
      auto using kept_refl.
  - intros k0 a0 Hk0 Hle. cbn in Hk0. apply lookup_lt_Some in Hk0.
    rewrite length_insert in Hk0. lia.
  - auto.
Qed.

Section ContinuationFacts.
Context (this : Connector) (hostname : string) (uid : nat → string).

Lemma continues_startBrowser_begin (J : nat → Prop) (c : nat) (call : StartCall)
    (st : State) :
  continues uid J st (_startBrowser_begin this hostname uid c call st).
Proof.
  unfold _startBrowser_begin. cbv zeta. split; [|split].
  - intros k a Hk. exists a. cbn. rewrite lookup_app_l by (eapply lookup_lt_Some; eassumption).
    auto using kept_refl.
  - intros k a' Hk Hle. cbn in Hk.
    destruct (lookup_snoc_inv _ _ _ _ Hk) as [Hold|[-> ->]].
    + apply lookup_lt_Some in Hold. lia.
    + repeat split.
  - intros l Hl. cbn in Hl. apply in_app_or in Hl as [Hl|[<-|[]]]; [auto|].
    right. cbn. split; [reflexivity | lia].
Qed.

Lemma continues_startBrowser_loop (J : nat → Prop) (c : nat) (st : State) :
  continues uid J st (startBrowser_loop this hostname uid c st).
Proof.
  unfold startBrowser_loop.
  destruct (calls st !! c) as [call|]; [|apply continues_refl].
  destruct (_ && _).
  - eapply continues_trans; [|apply continues_startBrowser_begin].
    apply continues_same; reflexivity.
  - destruct (c_error call); apply continues_same; reflexivity.
Qed.

Lemma continues_startBrowser (J : nat → Prop) (browserSettings : BrowserSettings)
    (url : string) (job : JobInfo) (options : StartOptions) (st : State) :
  continues uid J st
    (startBrowser this hostname uid browserSettings url job options st).
Proof.
  unfold startBrowser. cbv zeta.
  eapply continues_trans; [|apply continues_startBrowser_loop].
  apply continues_same; reflexivity.
Qed.

Lemma continues_settle (J : nat → Prop) (k : nat) (r : JsError + Worker)
    (st : State) :
  J k → continues uid J st (settle this hostname uid k r st).
Proof.
  intros HJ. unfold settle.
  destruct (attempts st !! k) as [a|] eqn:Hk; [|apply continues_refl]. cbv zeta.
  eapply continues_trans;
    [apply (continues_put_attempt uid J k a); [exact Hk | apply kept_set_body | exact HJ]|].
  destruct (calls _ !! owner a) as [call|]; [|apply continues_refl].
  eapply continues_trans; [|apply continues_startBrowser_loop].
  apply continues_same; reflexivity.
Qed.

Lemma continues_after_urlOpened (J : nat → Prop) (k : nat) (st : State) :
  J k → continues uid J st (after_urlOpened this hostname uid k st).
Proof.
  intros HJ. unfold after_urlOpened.
  destruct (attempts st !! k) as [a|]; [|apply continues_refl].
  destruct (worker a); try (apply continues_settle; exact HJ).
  eapply continues_trans; [|apply continues_settle; exact HJ].
  apply continues_same; reflexivity.
Qed.

Lemma continues_await_urlOpened (J : nat → Prop) (k : nat) (st : State) :
  J k → continues uid J st (await_urlOpened this hostname uid k st).
Proof.
  intros HJ. unfold await_urlOpened.
  destruct (attempts st !! k) as [a|] eqn:Hk; [|apply continues_refl]. cbv zeta.
  eapply continues_trans;
    [apply (continues_put_attempt uid J k a); [exact Hk | apply kept_set_body | exact HJ]|].
  destruct (waitForUrlOpened a);
    [apply continues_refl | apply continues_after_urlOpened; exact HJ
     | apply continues_settle; exact HJ].
Qed.

Lemma continues_resume_urlOpened (J : nat → Prop) (st : State) (k : nat) :
  J k → continues uid J st (resume_urlOpened this hostname uid st k).
Proof.
  intros HJ. unfold resume_urlOpened.
  destruct (attempts st !! k) as [a|]; [|apply continues_refl].
  destruct (body a); try apply continues_refl.
  apply continues_await_urlOpened. exact HJ.
Qed.

Lemma continues_getWorker_test (J : nat → Prop) (k : nat) (id : string) (n : nat)
    (st : State) :
  J k → continues uid J st (_getWorker_test this hostname uid k id n st).
Proof.
  intros HJ. unfold _getWorker_test.
  destruct (attempts st !! k) as [a|] eqn:Hk; [|apply continues_refl].
  destruct (n <=? maxAttempts)%nat.
  - eapply continues_trans;
      [apply (continues_put_attempt uid J k a);
         [exact Hk | apply kept_set_body | exact HJ]|].
    apply continues_same; reflexivity.
  - eapply continues_trans;
      [apply (continues_put_attempt uid J k a);
         [exact Hk | apply kept_set_worker | exact HJ]|].
    apply continues_await_urlOpened. exact HJ.
Qed.

Lemma continues_after_emit (J : nat → Prop) (hs : list nat) :
  (∀ k, In k hs → J k) →
  ∀ st, continues uid J st (after_emit this hostname uid hs st).
Proof.
  unfold after_emit. induction hs as [|k hs IH]; intros HJ st; cbn.
  - apply continues_refl.
  - eapply continues_trans.
    + apply continues_resume_urlOpened. apply HJ. left. reflexivity.
    + apply IH. intros k' Hk'. apply HJ. right. exact Hk'.
Qed.

End ContinuationFacts.

(** ** What a turn of the event loop does to an attempt *)

Lemma notified_refl (id : string) (a : Attempt) : notified id a a.
Proof. repeat split; auto. Qed.

Lemma notified_trans (id : string) (a b c : Attempt) :
  notified id a b → notified id b c → notified id a c.
Proof.
  intros (H1 & H2 & H3 & H4 & H5 & Hw & Ht) (G1 & G2 & G3 & G4 & G5 & Gw & Gt).
  repeat split; try congruence.
  - destruct Hw as [Hw|(Hw1 & Hw2 & Hw3)]; destruct Gw as [Gw|(Gw1 & Gw2 & Gw3)].
    + left. congruence.
    + right. repeat split; congruence.
    + right. repeat split; congruence.
    + congruence.
  - destruct Ht as [Ht|(Ht1 & Ht2 & Ht3)]; destruct Gt as [Gt|(Gt1 & Gt2 & Gt3)].
    + left. congruence.
    + right. repeat split; congruence.
    + right. repeat split; congruence.
    + congruence.
Qed.

Lemma removeListener_In (event : string) (k : nat) (l : string * nat) (st : State) :
  In l (listeners (removeListener event k st)) → In l (listeners st).
Proof.
  cbn. intros H. apply in_rev in H. apply remove_first_In in H.
  apply in_rev. exact H.
Qed.

(** One handler call: the attempt of the handler may be notified, the
    others are as they were, and no listener is added. *)
Lemma hubHandler_attempts (st : State) (k' : nat) (id : string) :
  (∀ k a, attempts st !! k = Some a →
          ∃ a', attempts (hubHandler st k' id) !! k = Some a'
                ∧ notified id a a' ∧ (k ≠ k' → a' = a))
  ∧ length (attempts (hubHandler st k' id)) = length (attempts st)
  ∧ (∀ l, In l (listeners (hubHandler st k' id)) → In l (listeners st)).
Proof.
  unfold hubHandler.
  destruct (attempts st !! k') as [a0|] eqn:Hk';
    [|split; [intros k a Hk; exists a; auto using notified_refl | auto]].
  destruct (String.eqb_spec id (browserId a0)) as [Hid|_];
    [|split; [intros k a Hk; exists a; auto using notified_refl | auto]].
  cbv zeta. split; [|split].
  - intros k a Hk. cbn. destruct (decide (k = k')) as [->|Hne].
    + rewrite list_lookup_insert_eq by (eapply lookup_lt_Some; eassumption).
      eexists. split; [reflexivity|]. split; [|intros H; contradiction].
      assert (a = a0) by congruence. subst a0. clear Hk Hk'.
      destruct a as [o b w t p bd tf]; cbn in *.
      destruct t, p; repeat split; auto.
    + exists a. rewrite list_lookup_insert_ne by congruence.
      auto using notified_refl.
  - cbn. apply length_insert.
  - intros l Hl. cbn in Hl. apply in_rev in Hl. apply remove_first_In in Hl.
    apply in_rev. exact Hl.
Qed.

(** All the handler calls of an [emit]. *)
Lemma emit_attempts (event id : string) (st : State) :
  (∀ k a, attempts st !! k = Some a →
          ∃ a', attempts (emit event id st) !! k = Some a'
                ∧ notified id a a' ∧ (¬ In k (handlers_of event st) → a' = a))
  ∧ length (attempts (emit event id st)) = length (attempts st)
  ∧ (∀ l, In l (listeners (emit event id st)) → In l (listeners st)).
Proof.
  unfold emit. generalize (handlers_of event st) as hs. intros hs. revert st.
  induction hs as [|k' hs IH]; intros st; cbn.
  - split; [intros k a Hk; exists a; auto using notified_refl | auto].
  - destruct (hubHandler_attempts st k' id) as (H1 & H2 & H3).
    destruct (IH (hubHandler st k' id)) as (I1 & I2 & I3).
    split; [|split].
    + intros k a Hk. destruct (H1 k a Hk) as (a1 & Hk1 & Hn1 & Hs1).
      destruct (I1 k a1 Hk1) as (a2 & Hk2 & Hn2 & Hs2).
      exists a2. split; [exact Hk2|]. split; [eapply notified_trans; eassumption|].
      intros Hnot. rewrite Hs2 by tauto. apply Hs1. intros ->. tauto.
    + congruence.
    + auto.
Qed.

Lemma handlers_of_In (event : string) (k : nat) (st : State) :
  In k (handlers_of event st) → In (event, k) (listeners st).
Proof.
  unfold handlers_of. intros H. apply in_map_iff in H as ([e k0] & Hk & Hin).
  cbn in Hk. subst k0. apply List.filter_In in Hin as [Hin He]. cbn in He.
  apply String.eqb_eq in He. subst e. exact Hin.
Qed.

Lemma moves_kept (st : State) (ev : Event) (k : nat) (a a' : Attempt) :
  kept a a' → moves st ev k a a'.
Proof.
  intros (H1 & H2 & H3 & H4 & H5). repeat split; auto; left; assumption.
Qed.

Lemma moves_then_kept (st : State) (ev : Event) (k : nat) (a a1 a' : Attempt) :
  moves st ev k a a1 → kept a1 a' → moves st ev k a a'.
Proof.
  intros (H1 & H2 & Hw & Ht & Hf) (G1 & G2 & G3 & G4 & G5).
  unfold moves, waiter_move, timer_move, timeoutFn_move in *.
  rewrite G1, G2, G3, G4, G5. auto.
Qed.

Lemma moves_refl (st : State) (ev : Event) (k : nat) (a : Attempt) :
  moves st ev k a a.
Proof. apply moves_kept, kept_refl. Qed.

Lemma moves_notified (st : State) (ev : Event) (k : nat) (id : string)
    (a a' : Attempt) :
  notified id a a' → notifies ev id → (∃ event, In (event, k) (listeners st)) →
  moves st ev k a a'.
Proof.
  intros (H1 & H2 & _ & _ & H5 & Hw & Ht) Hev Hlis. repeat split; auto.
  - destruct Hw as [Hw|(Hw1 & Hw2 & Hw3)]; [left; exact Hw|].
    right. left. subst id. auto.
  - destruct Ht as [Ht|(Ht1 & Ht2 & Ht3)]; [left; exact Ht|].
    right. left. subst id. auto.
  - left. exact H5.
Qed.

Section StepFacts.
Context (this : Connector) (hostname : string) (uid : nat → string).

(** A first part that moves the subjects in place, then the continuation
    of the bodies of subjects. *)
Lemma step_shape_compose (st st1 st' : State) (ev : Event) :
  (∀ k a, attempts st !! k = Some a →
          ∃ a1, attempts st1 !! k = Some a1 ∧ moves st ev k a a1
                ∧ (¬ subject st ev k → a1 = a)) →
  length (attempts st1) = length (attempts st) →
  (∀ l, In l (listeners st1) → In l (listeners st)) →
  continues uid (subject st ev) st1 st' →
  step_shape uid st ev st'.
Proof.
  intros Hmove Hlen Hlis (C1 & C2 & C3). split; [|split].
  - intros k a Hk. destruct (Hmove k a Hk) as (a1 & Hk1 & Hm & Hs1).
    destruct (C1 k a1 Hk1) as (a' & Hk' & Hkept & Hs').
    exists a'. split; [exact Hk'|]. split; [eapply moves_then_kept; eassumption|].
    intros Hn. rewrite (Hs' Hn). apply (Hs1 Hn).
  - intros k a' Hk' Hle. apply (C2 k a' Hk'). lia.
  - intros l Hl. destruct (C3 l Hl) as [H|[Hn Hle]]; [auto|]. right. split; [auto|lia].
Qed.

Lemma step_shape_continues (st st' : State) (ev : Event) :
  continues uid (subject st ev) st st' → step_shape uid st ev st'.
Proof.
  intros H. apply (step_shape_compose st st st' ev); auto.
  intros k a Hk. exists a. split; [exact Hk|]. split; [apply moves_refl | auto].
Qed.

(** The notification part of [HttpRequest] and [Emit]. *)
Lemma step_shape_emit (event id : string) (st st1 st' : State) (ev : Event) :
  notifies ev id →
  (∀ k, In k (handlers_of event st) → subject st ev k) →
  attempts st1 = attempts (emit event id st) →
  listeners st1 = listeners (emit event id st) →
  st' = after_emit this hostname uid (handlers_of event st) st1 →
  step_shape uid st ev st'.
Proof.
  intros Hev Hsub Ha Hl ->.
  destruct (emit_attempts event id st) as (E1 & E2 & E3).
  apply (step_shape_compose st st1).
  - intros k a Hk. destruct (E1 k a Hk) as (a1 & Hk1 & Hn & Hsame).
    exists a1. rewrite Ha. split; [exact Hk1|].
    destruct (in_dec Nat.eq_dec k (handlers_of event st)) as [Hin|Hnot].
    + split; [|intros Hns; exfalso; apply Hns, Hsub, Hin].
      apply (moves_notified st ev k id); auto.
      exists event. apply handlers_of_In. exact Hin.
    + rewrite (Hsame Hnot). split; [apply moves_refl | reflexivity].
  - rewrite Ha. exact E2.
  - rewrite Hl. exact E3.
  - apply continues_after_emit. exact Hsub.
Qed.

(** Every turn of the event loop has that shape. *)
Lemma step_has_shape (st st' : State) (ev : Event) :
  step this hostname uid st ev = Some st' → step_shape uid st ev st'.
Proof.
  intros Hstep.
  destruct ev as [bs url job options|k0 cb|k0 cb|k0|k0|k0 cb|req|event arg];
    cbn in Hstep.
  - injection Hstep as <-.
    apply step_shape_continues, continues_startBrowser.
  - unfold createWorker_done in Hstep.
    destruct (attempts st !! k0) as [a0|] eqn:Hk0; [|discriminate].
    destruct (body a0); try discriminate.
    apply step_shape_continues.
    destruct cb as [err|workerId]; injection Hstep as <-.
    + eapply continues_trans; [|apply continues_settle; reflexivity].
      apply continues_same; reflexivity.
    + apply continues_getWorker_test. reflexivity.
  - unfold getWorker_done in Hstep.
    destruct (attempts st !! k0) as [a0|] eqn:Hk0; [|discriminate].
    destruct (body a0); try discriminate. cbv zeta in Hstep.
    apply step_shape_continues.
    destruct (is_running (resolve_res cb)); injection Hstep as <-.
    + eapply continues_trans;
        [apply (continues_put_attempt uid _ k0 a0);
           [exact Hk0 | apply kept_set_worker | reflexivity]|].
      apply continues_await_urlOpened. reflexivity.
    + eapply continues_trans;
        [apply (continues_put_attempt uid _ k0 a0);
           [exact Hk0 | apply kept_set_body | reflexivity]|].
      apply continues_same; reflexivity.
  - unfold wait_done in Hstep.
    destruct (attempts st !! k0) as [a0|] eqn:Hk0; [|discriminate].
    destruct (body a0); try discriminate. injection Hstep as <-.
    apply step_shape_continues, continues_getWorker_test. reflexivity.
  - unfold opening_timeout in Hstep.
    destruct (attempts st !! k0) as [a0|] eqn:Hk0; [|discriminate].
    destruct (timeoutId a0) eqn:Ht0; try discriminate. cbn in Hstep.
    assert (∀ fn act,
              step_shape uid st (OpeningTimeout k0)
                (emit_action act
                   (put_attempt k0 (set_timeoutFn fn (set_timeoutId Fired a0))
                      (removeListener "browser-opened" k0 st)))) as Hshape.
    { intros fn act. set (stx := emit_action act _).
      apply (step_shape_compose st stx stx); cycle 3.
      - apply continues_refl.
      - intros k a Hk. subst stx. cbn. destruct (decide (k = k0)) as [->|Hne].
        + rewrite list_lookup_insert_eq by (eapply lookup_lt_Some; eassumption).
          eexists. split; [reflexivity|].
          assert (a = a0) by congruence. subst a0.
          split; [|intros Hn; exfalso; apply Hn; reflexivity].
          repeat split; cbn; auto.
          * left. reflexivity.
          * right. right. auto.
          * right. left. auto.
        + exists a. rewrite list_lookup_insert_ne by congruence.
          split; [exact Hk|]. split; [apply moves_refl | reflexivity].
      - subst stx. cbn. apply length_insert.
      - intros l Hl. apply (removeListener_In "browser-opened" k0). exact Hl. }
    destruct (worker a0); injection Hstep as <-; apply Hshape.
  - unfold terminateWorker_done in Hstep.
    destruct (attempts st !! k0) as [a0|] eqn:Hk0; [|discriminate].
    destruct (timeoutFn a0) eqn:Hf0; try discriminate.
    assert (∀ a1 st0,
              attempts st0 = attempts st →
              owner a1 = owner a0 → browserId a1 = browserId a0 →
              timeoutId a1 = timeoutId a0 →
              waiter_move st (TerminateWorkerDone k0 cb) k0 a0 a1 →
              ∀ k a, attempts st !! k = Some a →
                     ∃ a', attempts (put_attempt k0 a1 st0) !! k = Some a'
                           ∧ moves st (TerminateWorkerDone k0 cb) k a a'
                           ∧ (¬ subject st (TerminateWorkerDone k0 cb) k → a' = a))
      as Hput.
    { intros a1 st0 Hst0 Ho Hb Ht Hw k a Hk. cbn. rewrite Hst0.
      destruct (decide (k = k0)) as [->|Hne].
      - rewrite list_lookup_insert_eq by (eapply lookup_lt_Some; eassumption).
        eexists. split; [reflexivity|].
        assert (a = a0) by congruence. subst a0.
        split; [|intros Hn; exfalso; apply Hn; reflexivity].
        repeat split; auto.
        + left. exact Ht.
        + right. right. split; [exact Hf0 | eauto].
      - exists a. rewrite list_lookup_insert_ne by congruence.
        split; [exact Hk|]. split; [apply moves_refl | reflexivity]. }
    destruct cb as [err|time]; injection Hstep as <-.
    + set (stx := emit_action _ _).
      apply (step_shape_compose st stx stx).
      * apply (Hput _ (lift (_log this err) st)); try reflexivity.
        left. reflexivity.
      * subst stx. cbn. apply length_insert.
      * auto.
      * apply continues_refl.
    + set (a1 := match waitForUrlOpened _ with Pending => _ | _ => _ end).
      assert (owner a1 = owner a0 ∧ browserId a1 = browserId a0
              ∧ timeoutId a1 = timeoutId a0
              ∧ waiter_move st (TerminateWorkerDone k0 (CbOk time)) k0 a0 a1)
        as (Ho & Hb & Ht & Hw).
      { subst a1. clear Hput Hk0. destruct a0 as [o b w t p bd tf]; cbn in *.
        destruct p; cbn; repeat split; try (left; reflexivity).
        right. right. cbn. repeat split; eauto. }
      apply (step_shape_compose st (put_attempt k0 a1 st) _ _
               (Hput a1 st eq_refl Ho Hb Ht Hw)).
      * cbn. apply length_insert.
      * auto.
      * apply continues_resume_urlOpened. reflexivity.
  - injection Hstep as <-. unfold hub_request.
    destruct (match_route req) as [id|] eqn:Hroute.
    + cbv zeta.
      eapply (step_shape_emit "open" id st);
        [exact Hroute | auto | | | reflexivity]; reflexivity.
    + apply step_shape_continues. apply continues_same; reflexivity.
  - injection Hstep as <-.
    eapply (step_shape_emit event arg st);
      [reflexivity | auto | | | reflexivity]; reflexivity.
Qed.

End StepFacts.

(** ** What follows from the shape of the log *)

Lemma registered_first_nil : registered_first [].
Proof. intros [|x newer] older k s H; discriminate. Qed.

Lemma registered_first_cons (a : Action) (log : list Action) :
  registered_first log →
  (∀ k settings, a = ACreateWorker k settings →
                 In (AAddListener "browser-opened" k) log) →
  registered_first (a :: log).
Proof.
  intros Hlog Ha [|x newer] older k s H; cbn in H.
  - injection H as -> <-. apply (Ha k s eq_refl).
  - injection H as _ H. apply (Hlog newer older k s H).
Qed.

Lemma registered_first_Delta (n m : nat) (d log : list Action) :
  Delta calm n m d → registered_first log → registered_first (d ++ log)%list.
Proof.
  intros Hd Hlog. induction Hd as [n|n m a d Ha Hd IH|n m d ms s Hd IH]; cbn.
  - exact Hlog.
  - apply registered_first_cons; [exact IH|].
    intros k s ->. destruct Ha.
  - repeat apply registered_first_cons; try exact IH; try discriminate.
    intros k s' H. injection H as <- _. left. reflexivity.
Qed.

Lemma creates_app (l1 l2 : list Action) :
  creates (l1 ++ l2)%list = (creates l1 ++ creates l2)%list.
Proof.
  induction l1 as [|a l1 IH]; [reflexivity|].
  destruct a; cbn; rewrite ?IH; reflexivity.
Qed.

Lemma creates_Delta (n m : nat) (d : list Action) :
  Delta calm n m d → creates d = rev (seq n (m - n)).
Proof.
  induction 1 as [n|n m a d Ha Hd IH|n m d ms s Hd IH].
  - rewrite Nat.sub_diag. reflexivity.
  - destruct a; cbn in *; try exact IH. destruct Ha.
  - pose proof (Delta_le _ _ _ _ Hd) as Hle. cbn [creates]. rewrite IH.
    replace (S m - n)%nat with ((m - n) + 1)%nat by lia.
    rewrite seq_app, rev_app_distr. cbn. f_equal. f_equal. lia.
Qed.




Lemma grows_registered_first (st st' : State) :
  grows calm st st' → registered_first (st_log st) → registered_first (st_log st').
Proof.
  intros (d & Hl & Hd) H. rewrite Hl. eapply registered_first_Delta; eassumption.
Qed.

Lemma grows_one_request_each (st st' : State) :
  grows calm st st' → one_request_each st → one_request_each st'.
Proof.
  intros (d & Hl & Hd) H. unfold one_request_each in *.
  pose proof (Delta_le _ _ _ _ Hd) as Hle.
  rewrite Hl, creates_app, H, (creates_Delta _ _ _ Hd), <- rev_app_distr.
  f_equal. rewrite <- seq_app. f_equal. lia.
Qed.

(** Counting the indices of the attempts of [c] is counting its
    attempts. *)
Lemma filter_indices_length {A} (f : A → bool) (l : list A) :
  length (List.filter (λ k, match l !! k with Some a => f a | None => false end)
            (seq 0 (length l)))
  = length (List.filter f l).
Proof.
  induction l as [|x l IH] using rev_ind; [reflexivity|].
  rewrite length_app. cbn [length]. rewrite seq_app, !List.filter_app, !length_app.
  cbn [seq List.filter Nat.add]. f_equal.
  - rewrite <- IH. f_equal. apply List.filter_ext_in. intros k Hk.
    apply in_seq in Hk. rewrite lookup_app_l by lia. reflexivity.
  - rewrite lookup_app_r by lia. rewrite Nat.sub_diag. cbn.
    destruct (f x); reflexivity.
Qed.

Lemma create_calls_owned (c : nat) (st : State) :
  one_request_each st → create_calls c st = owned c st.
Proof.
  intros H. unfold create_calls, owned. rewrite H.
  rewrite <- (filter_indices_length (λ a, Nat.eqb (owner a) c) (attempts st)).
  rewrite <- (length_rev (List.filter _ (seq 0 _))).
  f_equal. apply List.filter_rev.
Qed.

(** ** Termination requests *)

Lemma terminate_calls_Delta (k n m : nat) (d : list Action) :
  Delta tame n m d → List.filter (is_terminate k) d = [].
Proof.
  induction 1 as [n|n m a d Ha Hd IH|n m d ms s Hd IH]; cbn.
  - reflexivity.
  - destruct a; cbn in *; try exact IH. destruct Ha.
  - exact IH.
Qed.

Lemma terminate_calls_grows (k : nat) (st st' : State) :
  grows tame st st' → terminate_calls k st' = terminate_calls k st.
Proof.
  intros (d & Hl & Hd). unfold terminate_calls.
  rewrite Hl, List.filter_app, (terminate_calls_Delta k _ _ _ Hd). reflexivity.
Qed.

(** The timeout function issues the request when [worker] is an object. *)
Lemma terminate_calls_opening_timeout (k k0 : nat) (a0 : Attempt) (st st' : State) :
  opening_timeout k0 st = Some st' → attempts st !! k0 = Some a0 →
  timeoutId a0 = Armed
  ∧ terminate_calls k st'
    = (terminate_calls k st
       + if Nat.eqb k0 k && truthy (worker a0) then 1 else 0)%nat
  ∧ ∃ a', attempts st' !! k0 = Some a' ∧ timeoutId a' = Fired
          ∧ waitForUrlOpened a' = waitForUrlOpened a0 ∧ body a' = body a0
          ∧ timeoutFn a'
            = match worker a0 with
              | WObj _ => AwaitStopBrowser
              | WNull => Crashed (TypeError "Cannot read property 'id' of null")
              | WUndefined =>
                  Crashed (TypeError "Cannot read property 'id' of undefined")
              end.
Proof.
  unfold opening_timeout. intros Hstep Hk0. rewrite Hk0 in Hstep.
  destruct (timeoutId a0) eqn:Ht; try discriminate. cbn in Hstep.
  split; [reflexivity|].
  assert (k0 < length (attempts st))%nat as Hlt by (eapply lookup_lt_Some; eassumption).
  destruct (worker a0) as [| |w]; injection Hstep as <-; unfold terminate_calls; cbn;
    rewrite ?andb_false_r, ?andb_true_r.
  - split; [lia|]. eexists. rewrite list_lookup_insert_eq by exact Hlt.
    split; [reflexivity|]. cbn. auto.
  - split; [lia|]. eexists. rewrite list_lookup_insert_eq by exact Hlt.
    split; [reflexivity|]. cbn. auto.
  - split; [destruct (Nat.eqb k0 k); cbn; lia|].
    eexists. rewrite list_lookup_insert_eq by exact Hlt.
    split; [reflexivity|]. cbn. auto.
Qed.

Lemma same_listener_spec (x y : string * nat) :
  same_listener x y = true ↔ x = y.
Proof.
  destruct x as [e k], y as [e' k']. unfold same_listener. cbn.
  rewrite andb_true_iff, String.eqb_eq, Nat.eqb_eq. split.
  - intros [-> ->]. reflexivity.
  - intros H. injection H as -> ->. auto.
Qed.

Lemma remove_first_gone (x : string * nat) (l : list (string * nat)) :
  NoDup l → ¬ In x (remove_first x l).
Proof.
  induction 1 as [|y l Hy Hl IH]; cbn; [auto|].
  destruct (same_listener x y) eqn:Hs.
  - apply same_listener_spec in Hs. subst y. intros Hin. apply Hy.
    apply list_elem_of_In. exact Hin.
  - intros [->|Hin]; [|exact (IH Hin)].
    assert (same_listener x x = true) as Hxx by (apply same_listener_spec; reflexivity).
    congruence.
Qed.

(** After [removeListener] on a well-formed registry, the attempt has no
    handler left on the hub. *)
Lemma removeListener_gone (k : nat) (st : State) :
  listeners_named st → not_listening k (removeListener "browser-opened" k st).
Proof.
  intros [Hnamed Hnodup] event Hin. cbn in Hin. apply in_rev in Hin.
  assert (event = "browser-opened") as ->.
  { apply remove_first_In in Hin. apply in_rev in Hin.
    rewrite Forall_forall in Hnamed. apply list_elem_of_In in Hin.
    destruct (Hnamed _ Hin) as [Hn _]. exact Hn. }
  revert Hin. apply remove_first_gone.
  apply NoDup_ListNoDup, List.NoDup_rev, NoDup_ListNoDup. exact Hnodup.
Qed.

Lemma classic_timeout (ev : Event) :
  (∃ k, ev = OpeningTimeout k) ∨ (∀ k, ev ≠ OpeningTimeout k).
Proof. destruct ev; try (right; intros k0; discriminate). left. eauto. Qed.

Section DerivedFacts.
Context (this : Connector) (hostname : string) (uid : nat → string).

(** When the callbacks and timers can occur. *)
Lemma createWorker_done_enabled (k : nat) (cb : Callback string) (a : Attempt)
    (st st' : State) :
  step this hostname uid st (CreateWorkerDone k cb) = Some st' →
  attempts st !! k = Some a → body a = AwaitCreateWorker.
Proof.
  cbn. unfold createWorker_done. intros Hstep Hk. rewrite Hk in Hstep.
  destruct (body a); try discriminate. reflexivity.
Qed.

Lemma getWorker_done_enabled (k : nat) (cb : Callback Worker) (a : Attempt)
    (st st' : State) :
  step this hostname uid st (GetWorkerDone k cb) = Some st' →
  attempts st !! k = Some a → ∃ id n, body a = AwaitGetWorker id n.
Proof.
  cbn. unfold getWorker_done. intros Hstep Hk. rewrite Hk in Hstep.
  destruct (body a); try discriminate. eauto.
Qed.

Lemma wait_done_enabled (k : nat) (a : Attempt) (st st' : State) :
  step this hostname uid st (WaitDone k) = Some st' →
  attempts st !! k = Some a → ∃ id n, body a = AwaitWait id n.
Proof.
  cbn. unfold wait_done. intros Hstep Hk. rewrite Hk in Hstep.
  destruct (body a); try discriminate. eauto.
Qed.

Lemma opening_timeout_enabled (k : nat) (a : Attempt) (st st' : State) :
  step this hostname uid st (OpeningTimeout k) = Some st' →
  attempts st !! k = Some a → timeoutId a = Armed.
Proof.
  cbn. unfold opening_timeout. intros Hstep Hk. rewrite Hk in Hstep.
  destruct (timeoutId a); try discriminate. reflexivity.
Qed.

Lemma terminateWorker_done_enabled (k : nat) (cb : Callback Z) (a : Attempt)
    (st st' : State) :
  step this hostname uid st (TerminateWorkerDone k cb) = Some st' →
  attempts st !! k = Some a → timeoutFn a = AwaitStopBrowser.
Proof.
  cbn. unfold terminateWorker_done. intros Hstep Hk. rewrite Hk in Hstep.
  destruct (timeoutFn a); try discriminate. reflexivity.
Qed.

(** At most one [terminateWorker] request per attempt, in every run. *)
Lemma terminate_once_step (st st' : State) (ev : Event) :
  step this hostname uid st ev = Some st' → terminate_once st → terminate_once st'.
Proof.
  intros Hstep Hone k.
  destruct (step_has_shape this hostname uid st st' ev Hstep) as (Hmoves & _ & _).
  assert (∀ a, attempts st !! k = Some a → timeoutId a = Fired →
               ∃ a', attempts st' !! k = Some a' ∧ timeoutId a' = Fired) as Hfired.
  { intros a Hk Hf. destruct (Hmoves k a Hk) as (a' & Hk' & (_ & _ & _ & Ht & _) & _).
    exists a'. split; [exact Hk'|].
    destruct Ht as [Ht|[(Ht & _)|(Ht & _)]]; congruence. }
  destruct (classic_timeout ev) as [[k0 ->]|Hother].
  - cbn in Hstep. destruct (attempts st !! k0) as [a0|] eqn:Hk0;
      [|unfold opening_timeout in Hstep; rewrite Hk0 in Hstep; discriminate].
    destruct (terminate_calls_opening_timeout k k0 a0 st st' Hstep Hk0)
      as (Harmed & Hcount & a' & Hk' & Hf' & _).
    destruct (Nat.eqb_spec k0 k) as [->|Hne]; cbn in Hcount.
    + destruct (Hone k) as [Hz|(_ & a & Hk & Hf)]; [|congruence].
      destruct (truthy (worker a0)).
      * right. split; [lia|]. eauto.
      * left. lia.
    + rewrite Nat.add_0_r in Hcount. rewrite Hcount.
      destruct (Hone k) as [Hz|(Hz & a & Hk & Hf)]; [left; exact Hz|].
      right. split; [exact Hz|]. apply (Hfired a Hk Hf).
  - rewrite (terminate_calls_grows k st st'
               (grows_step_tame this hostname uid st st' ev Hother Hstep)).
    destruct (Hone k) as [Hz|(Hz & a & Hk & Hf)]; [left; exact Hz|].
    right. split; [exact Hz|]. apply (Hfired a Hk Hf).
Qed.

Lemma terminate_once_reachable (st : State) :
  reachable this hostname uid st → terminate_once st.
Proof.
  intros [evs Hrun].
  assert (terminate_once initial) as Hinit by (intros k; left; reflexivity).
  revert Hinit Hrun. generalize initial as st0. intros st0. revert st0.
  induction evs as [|ev evs IH]; intros st0 H0 Hrun; cbn in Hrun.
  - injection Hrun as <-. exact H0.
  - destruct (step this hostname uid st0 ev) as [st1|] eqn:Hstep; [|discriminate].
    apply (IH st1); [|exact Hrun]. apply (terminate_once_step st0 st1 ev); assumption.
Qed.

(** Correlation ids are handed out in the order of the attempts. *)
Lemma ids_ok_step (st st' : State) (ev : Event) :
  step this hostname uid st ev = Some st' → ids_ok uid st → ids_ok uid st'.
Proof.
  intros Hstep Hids k a' Hk'.
  destruct (step_has_shape this hostname uid st st' ev Hstep) as (Hmoves & Hfresh & _).
  destruct (attempts st !! k) as [a|] eqn:Hk.
  - destruct (Hmoves k a Hk) as (a2 & Hk2 & (_ & Hb & _) & _).
    assert (a2 = a') by congruence. subst a2. rewrite Hb. apply (Hids k a Hk).
  - apply lookup_ge_None in Hk. apply (Hfresh k a' Hk' Hk).
Qed.

Lemma ids_ok_reachable (st : State) : reachable this hostname uid st → ids_ok uid st.
Proof.
  intros [evs Hrun].
  assert (ids_ok uid initial) as Hinit by (intros k a Hk; cbn in Hk; discriminate).
  revert Hinit Hrun. generalize initial as st0. intros st0. revert st0.
  induction evs as [|ev evs IH]; intros st0 H0 Hrun; cbn in Hrun.
  - injection Hrun as <-. exact H0.
  - destruct (step this hostname uid st0 ev) as [st1|] eqn:Hstep; [|discriminate].
    apply (IH st1); [|exact Hrun]. apply (ids_ok_step st0 st1 ev); assumption.
Qed.

(** A doomed attempt stays doomed, and no termination is requested for
    it. *)
Lemma doomed_step (k : nat) (st st' : State) (ev : Event) :
  step this hostname uid st ev = Some st' → doomed k st →
  doomed k st' ∧ terminate_calls k st' = terminate_calls k st.
Proof.
  intros Hstep (Hnl & a & Hk & Hfired & Hpending & e & Hcrashed).
  destruct (step_has_shape this hostname uid st st' ev Hstep) as (Hmoves & _ & Hlis).
  destruct (Hmoves k a Hk) as (a' & Hk' & (_ & _ & Hw & Ht & Hf) & _).
  split.
  - split.
    + intros event Hin. destruct (Hlis _ Hin) as [Hold|[_ Hnew]].
      * apply (Hnl event Hold).
      * cbn in Hnew. apply lookup_lt_Some in Hk. lia.
    + exists a'. split; [exact Hk'|]. repeat split.
      * destruct Ht as [Ht|[(Ht & _)|(Ht & _)]]; congruence.
      * destruct Hw as [Hw|[(_ & _ & _ & event & Hin)|(_ & _ & Hfn & _)]].
        -- congruence.
        -- exfalso. apply (Hnl event Hin).
        -- congruence.
      * exists e. destruct Hf as [Hf|[(Ht' & _)|(Hfn & _)]]; congruence.
  - destruct (classic_timeout ev) as [[k0 ->]|Hother].
    + cbn in Hstep. destruct (attempts st !! k0) as [a0|] eqn:Hk0;
        [|unfold opening_timeout in Hstep; rewrite Hk0 in Hstep; discriminate].
      destruct (terminate_calls_opening_timeout k k0 a0 st st' Hstep Hk0)
        as (Harmed & Hcount & _).
      destruct (Nat.eqb_spec k0 k) as [->|Hne]; [congruence|].
      cbn in Hcount. lia.
    + apply terminate_calls_grows.
      apply (grows_step_tame this hostname uid st st' ev Hother Hstep).
Qed.

Lemma doomed_run (k : nat) (evs : list Event) :
  ∀ st st', run this hostname uid st evs = Some st' → doomed k st →
            doomed k st' ∧ terminate_calls k st' = terminate_calls k st.
Proof.
  induction evs as [|ev evs IH]; intros st st' Hrun Hd; cbn in Hrun.
  - injection Hrun as <-. auto.
  - destruct (step this hostname uid st ev) as [st1|] eqn:Hstep; [|discriminate].
    destruct (doomed_step k st st1 ev Hstep Hd) as [Hd1 Hc1].
    destruct (IH st1 st' Hrun Hd1) as [Hd' Hc']. split; [exact Hd' | congruence].
Qed.

(** A doomed attempt whose body waits for the notification is never a
    subject of an event again: it stays as it is. *)
Lemma parked_step (k : nat) (a : Attempt) (st st' : State) (ev : Event) :
  step this hostname uid st ev = Some st' → doomed k st →
  attempts st !! k = Some a → body a = AwaitUrlOpened →
  attempts st' !! k = Some a.
Proof.
  intros Hstep (Hnl & a0 & Hk0 & Hfired & Hpending & e & Hcrashed) Hk Hbody.
  assert (a0 = a) by congruence. subst a0.
  destruct (step_has_shape this hostname uid st st' ev Hstep) as (Hmoves & _ & _).
  destruct (Hmoves k a Hk) as (a' & Hk' & _ & Hsame).
  rewrite Hk'. f_equal. apply Hsame. intros Hsub.
  destruct ev as [bs url job options|k0 cb|k0 cb|k0|k0|k0 cb|req|event arg];
    cbn in Hsub; try contradiction; subst.
  - pose proof (createWorker_done_enabled _ _ _ _ _ Hstep Hk). congruence.
  - destruct (getWorker_done_enabled _ _ _ _ _ Hstep Hk) as (id & n & H). congruence.
  - destruct (wait_done_enabled _ _ _ _ Hstep Hk) as (id & n & H). congruence.
  - pose proof (opening_timeout_enabled _ _ _ _ Hstep Hk). congruence.
  - pose proof (terminateWorker_done_enabled _ _ _ _ _ Hstep Hk). congruence.
  - apply (Hnl "open"), handlers_of_In, Hsub.
  - apply (Hnl event), handlers_of_In, Hsub.
Qed.

Lemma parked_run (k : nat) (a : Attempt) (evs : list Event) :
  ∀ st st', run this hostname uid st evs = Some st' → doomed k st →
            attempts st !! k = Some a → body a = AwaitUrlOpened →
            attempts st' !! k = Some a.
Proof.
  induction evs as [|ev evs IH]; intros st st' Hrun Hd Hk Hb; cbn in Hrun.
  - injection Hrun as <-. exact Hk.
  - destruct (step this hostname uid st ev) as [st1|] eqn:Hstep; [|discriminate].
    apply (IH st1 st' Hrun).
    + apply (doomed_step k st st1 ev Hstep Hd).
    + apply (parked_step k a st st1 ev Hstep Hd Hk Hb).
    + exact Hb.
Qed.

(** A call waits for each of its attempts whose body has not ended. *)
Lemma unsettled_call_running (k : nat) (a : Attempt) (st : State) :
  Inv st → attempts st !! k = Some a → unsettled (body a) →
  ∃ call, calls st !! owner a = Some call ∧ c_state call = Running k.
Proof.
  intros [Hcalls Hown _] Hk Hu.
  destruct (lookup_lt_is_Some_2 (calls st) (owner a) (Hown k a Hk)) as [call Hcall].
  exists call. split; [exact Hcall|].
  destruct (Hcalls _ _ Hcall) as [_ Hlinks]. apply (Hlinks k a Hk eq_refl Hu).
Qed.

(** The body of a settled attempt, and the other attempts, after
    [settle]. *)
Lemma settle_attempt (k : nat) (a : Attempt) (r : JsError + Worker) (st : State) :
  attempts st !! k = Some a →
  attempts (settle this hostname uid k r st) !! k
  = Some (set_body (match r with inl e => Failed e | inr w => Resolved w end) a).
Proof.
  intros Hk. unfold settle. rewrite Hk. cbv zeta.
  set (a' := set_body _ a).
  assert (attempts (put_attempt k a' st) !! k = Some a') as Hk'.
  { cbn. apply list_lookup_insert_eq. eapply lookup_lt_Some; eassumption. }
  destruct (calls _ !! owner a) as [call|]; [|exact Hk'].
  destruct (continues_startBrowser_loop this hostname uid (λ _, False) (owner a)
              (put_call (owner a)
                 match r with
                 | inl e => set_c_attempt (S (c_attempt call)) (set_c_error (Some e) call)
                 | inr w => set_c_worker (WObj w) call
                 end (put_attempt k a' st))) as (H1 & _ & _).
  destruct (H1 k a' Hk') as (a2 & Hk2 & _ & Hsame).
  rewrite Hk2. f_equal. apply Hsame. auto.
Qed.

End DerivedFacts.

(** ** The registry of the hub and the log *)

Section Registry.
Context (this : Connector) (hostname : string) (uid : nat → string).

Lemma synced_same (st st' : State) :
  st_log st' = st_log st → listeners st' = listeners st → synced st → synced st'.
Proof. unfold synced. intros -> ->. auto. Qed.

Lemma synced_emit_action (x : Action) (st : State) :
  off_registry x → synced st → synced (emit_action x st).
Proof. intros Hx Hs. unfold synced in *. destruct x; cbn; try exact Hs; destruct Hx. Qed.

Lemma synced_lift_log (message : string) (st : State) :
  synced st → synced (lift (_log this message) st).
Proof.
  intros Hs. unfold synced, lift, _log in *. cbn.
  destruct (connectorLogging this); cbn; exact Hs.
Qed.

Lemma synced_addListener (event : string) (k : nat) (st : State) :
  synced st → synced (addListener event k st).
Proof. intros Hs. unfold synced in *. cbn. rewrite Hs. reflexivity. Qed.

Lemma synced_removeListener (event : string) (k : nat) (st : State) :
  synced st → synced (removeListener event k st).
Proof. intros Hs. unfold synced in *. cbn. rewrite Hs. reflexivity. Qed.

Lemma synced_startBrowser_loop (c : nat) (st : State) :
  synced st → synced (startBrowser_loop this hostname uid c st).
Proof.
  intros Hs. unfold startBrowser_loop.
  destruct (calls st !! c) as [call|]; [|exact Hs].
  destruct (_ && _).
  - unfold _startBrowser_begin. cbv zeta.
    apply synced_emit_action; [exact I|].
    apply synced_addListener.
    apply (synced_same (emit_action (ASetTimeout (length (attempts st))
                                       (c_openingTimeout call)) st));
      [reflexivity | reflexivity |].
    apply synced_emit_action; [exact I | exact Hs].
  - destruct (c_error call); exact Hs.
Qed.

Lemma synced_startBrowser (browserSettings : BrowserSettings) (url : string)
    (job : JobInfo) (options : StartOptions) (st : State) :
  synced st →
  synced (startBrowser this hostname uid browserSettings url job options st).
Proof.
  intros Hs. unfold startBrowser. cbv zeta. apply synced_startBrowser_loop. exact Hs.
Qed.

Lemma synced_settle (k : nat) (r : JsError + Worker) (st : State) :
  synced st → synced (settle this hostname uid k r st).
Proof.
  intros Hs. unfold settle.
  destruct (attempts st !! k) as [a|]; [|exact Hs]. cbv zeta.
  destruct (calls _ !! owner a) as [call|]; [|exact Hs].
  apply synced_startBrowser_loop. exact Hs.
Qed.

Lemma synced_after_urlOpened (k : nat) (st : State) :
  synced st → synced (after_urlOpened this hostname uid k st).
Proof.
  intros Hs. unfold after_urlOpened.
  destruct (attempts st !! k) as [a|]; [|exact Hs].
  destruct (worker a); apply synced_settle; try exact Hs.
  apply synced_lift_log. exact Hs.
Qed.

Lemma synced_await_urlOpened (k : nat) (st : State) :
  synced st → synced (await_urlOpened this hostname uid k st).
Proof.
  intros Hs. unfold await_urlOpened.
  destruct (attempts st !! k) as [a|]; [|exact Hs]. cbv zeta.
  destruct (waitForUrlOpened a).
  - exact Hs.
  - apply synced_after_urlOpened. exact Hs.
  - apply synced_settle. exact Hs.
Qed.

Lemma synced_resume_urlOpened (st : State) (k : nat) :
  synced st → synced (resume_urlOpened this hostname uid st k).
Proof.
  intros Hs. unfold resume_urlOpened.
  destruct (attempts st !! k) as [a|]; [|exact Hs].
  destruct (body a); try exact Hs. apply synced_await_urlOpened. exact Hs.
Qed.

Lemma synced_getWorker_test (k : nat) (id : string) (n : nat) (st : State) :
  synced st → synced (_getWorker_test this hostname uid k id n st).
Proof.
  intros Hs. unfold _getWorker_test.
  destruct (attempts st !! k) as [a|]; [|exact Hs].
  destruct (n <=? maxAttempts)%nat.
  - apply synced_emit_action; [exact I | exact Hs].
  - apply synced_await_urlOpened. exact Hs.
Qed.

Lemma synced_hubHandler (st : State) (k : nat) (id : string) :
  synced st → synced (hubHandler st k id).
Proof.
  intros Hs. unfold hubHandler.
  destruct (attempts st !! k) as [a|]; [|exact Hs].
  destruct (String.eqb id (browserId a)); [|exact Hs]. cbv zeta.
  apply (synced_same (emit_action (AClearTimeout k)
                        (removeListener "browser-opened" k st)));
    [reflexivity | reflexivity |].
  apply synced_emit_action; [exact I|]. apply synced_removeListener. exact Hs.
Qed.

Lemma synced_foldl {A} (f : State → A → State) (l : list A) :
  (∀ st x, synced st → synced (f st x)) →
  ∀ st, synced st → synced (foldl f st l).
Proof.
  intros Hf. induction l as [|x l IH]; intros st Hs; cbn; [exact Hs|].
  apply IH, Hf, Hs.
Qed.

Lemma synced_notify (event arg : string) (x : Action) (hs : list nat) (st : State) :
  off_registry x → synced st →
  synced (after_emit this hostname uid hs (emit_action x (emit event arg st))).
Proof.
  intros Hx Hs. unfold after_emit.
  apply synced_foldl; [intros; apply synced_resume_urlOpened; auto|].
  apply synced_emit_action; [exact Hx|].
  unfold emit. apply (synced_foldl (λ st k, hubHandler st k arg)); [|exact Hs].
  intros; apply synced_hubHandler; auto.
Qed.

Lemma synced_hub_request (req : Request) (st : State) :
  synced st → synced (hub_request this hostname uid req st).
Proof.
  intros Hs. unfold hub_request.
  destruct (match_route req) as [id|].
  - apply synced_notify; [exact I | exact Hs].
  - apply synced_emit_action; [exact I | exact Hs].
Qed.

Lemma synced_step (st st' : State) (ev : Event) :
  synced st → step this hostname uid st ev = Some st' → synced st'.
Proof.
  intros Hs Hstep.
  destruct ev as [bs url job options|k cb|k cb|k|k|k cb|req|event arg];
    cbn in Hstep.
  - injection Hstep as <-. apply synced_startBrowser, Hs.
  - unfold createWorker_done in Hstep.
    destruct (attempts st !! k) as [a|]; [|discriminate].
    destruct (body a); try discriminate.
    destruct cb as [err|workerId]; injection Hstep as <-.
    + apply synced_settle, synced_lift_log, Hs.
    + apply synced_getWorker_test, Hs.
  - unfold getWorker_done in Hstep.
    destruct (attempts st !! k) as [a|]; [|discriminate].
    destruct (body a); try discriminate. cbv zeta in Hstep.
    destruct (is_running (resolve_res cb)); injection Hstep as <-.
    + apply synced_await_urlOpened, Hs.
    + apply synced_emit_action; [exact I | exact Hs].
  - unfold wait_done in Hstep.
    destruct (attempts st !! k) as [a|]; [|discriminate].
    destruct (body a); try discriminate. injection Hstep as <-.
    apply synced_getWorker_test, Hs.
  - unfold opening_timeout in Hstep.
    destruct (attempts st !! k) as [a|]; [|discriminate].
    destruct (timeoutId a); try discriminate. cbn in Hstep.
    destruct (worker a); injection Hstep as <-;
      (apply synced_emit_action; [exact I|]);
      apply (synced_same (removeListener "browser-opened" k st));
      try reflexivity; apply synced_removeListener, Hs.
  - unfold terminateWorker_done in Hstep.
    destruct (attempts st !! k) as [a|]; [|discriminate].
    destruct (timeoutFn a); try discriminate.
    destruct cb as [err|time]; injection Hstep as <-.
    + apply synced_emit_action; [exact I|].
      apply (synced_same (lift (_log this err) st)); [reflexivity|reflexivity|].
      apply synced_lift_log, Hs.
    + apply synced_resume_urlOpened. exact Hs.
  - injection Hstep as <-. apply synced_hub_request, Hs.
  - injection Hstep as <-.
    unfold after_emit.
    apply synced_foldl; [intros; apply synced_resume_urlOpened; auto|].
    unfold emit. apply (synced_foldl (λ st k, hubHandler st k arg)); [|exact Hs].
    intros; apply synced_hubHandler; auto.
Qed.

Lemma synced_run (evs : list Event) :
  ∀ st st', synced st → run this hostname uid st evs = Some st' → synced st'.
Proof.
  induction evs as [|ev evs IH]; intros st st' Hs Hrun; cbn in Hrun.
  - injection Hrun as <-. exact Hs.
  - destruct (step this hostname uid st ev) as [st1|] eqn:Hstep; [|discriminate].
    apply (IH st1 st'); [|exact Hrun]. apply (synced_step st st1 ev); assumption.
Qed.

End Registry.

(** At each [createWorker] request of a log that grows by [Delta]s, the
    handler of the attempt is in the registry the log has led to. *)
Lemma listening_at_request_Delta (n m : nat) (d log : list Action) :
  Delta calm n m d →
  (∀ newer older k settings,
     log = (newer ++ ACreateWorker k settings :: older)%list →
     In ("browser-opened", k) (registry older)) →
  ∀ newer older k settings,
    (d ++ log)%list = (newer ++ ACreateWorker k settings :: older)%list →
    In ("browser-opened", k) (registry older).
Proof.
  intros Hd Hlog. induction Hd as [n|n m a d Ha Hd IH|n m d ms s Hd IH]; cbn.
  - exact Hlog.
  - intros [|x newer] older k s H; cbn in H.
    + injection H as -> _. destruct Ha.
    + injection H as _ H. apply (IH newer older k s H).
  - intros [|x newer] older k s' H; cbn in H.
    + injection H as <- _ <-. cbn. apply in_or_app. right. left. reflexivity.
    + injection H as _ H. destruct newer as [|y newer]; cbn in H; [discriminate|].
      injection H as _ H. destruct newer as [|z newer]; cbn in H; [discriminate|].
      injection H as _ H. apply (IH newer older k s' H).
Qed.

(** * Part 7: the claims about the hub and the session opener *)

Section OpenerClaims.
Context (this : Connector) (hostname : string) (uid : nat → string).

(** A handler called with another id does nothing. *)
Lemma hubHandler_other_id (st : State) (k : nat) (a : Attempt) (id : string) :
  attempts st !! k = Some a → browserId a ≠ id → hubHandler st k id = st.
Proof.
  intros Hk Hne. unfold hubHandler. rewrite Hk.
  destruct (String.eqb_spec id (browserId a)) as [->|_]; [contradiction|reflexivity].
Qed.

(** A handler writes its own attempt only. *)
Lemma hubHandler_other_attempt (st : State) (k k' : nat) (id : string) :
  k ≠ k' → attempts (hubHandler st k' id) !! k = attempts st !! k.
Proof.
  intros Hne. unfold hubHandler.
  destruct (attempts st !! k') as [a|]; [|reflexivity].
  destruct (String.eqb id (browserId a)); [|reflexivity]. cbn.
  apply list_lookup_insert_ne. congruence.
Qed.

Lemma emit_nobody (event arg : string) (st : State) :
  handlers_of event st = [] → emit event arg st = st.
Proof. intros H. unfold emit. rewrite H. reflexivity. Qed.

Lemma handlers_of_other_event (event : string) (st : State) :
  listeners_named st → event ≠ "browser-opened" → handlers_of event st = [].
Proof.
  unfold listeners_named, handlers_of. intros [Hl _] Hne.
  induction Hl as [|[e k] l [He _] Hl IH]; [reflexivity|]. cbn in *. subst e.
  destruct (String.eqb_spec "browser-opened" event) as [<-|_]; [contradiction|].
  exact IH.
Qed.

End OpenerClaims.

(** The handler calls of a notification for [A] leave an attempt with
    another id as it is. *)
Lemma emit_other_id (event A : string) (st : State) (k : nat) (b : Attempt) :
  attempts st !! k = Some b → browserId b ≠ A →
  attempts (emit event A st) !! k = Some b.
Proof.
  intros Hk Hne. unfold emit. generalize (handlers_of event st) as hs. intros hs.
  revert st Hk. induction hs as [|k' hs IH]; intros st Hk; cbn; [exact Hk|].
  apply IH. destruct (decide (k = k')) as [<-|Hkk].
  - rewrite (hubHandler_other_id st k b A Hk Hne). exact Hk.
  - rewrite hubHandler_other_attempt by exact Hkk. exact Hk.
Qed.

(** [C7] Correlation isolation. For every event name and every id [A], the
    handler calls of a notification that carries [A] leave the attempt
    registered with another id [B] as it is, waiter and timer included
    ([hubHandler] returns at [id === browserId]); and in every turn of the
    event loop, the waiter of an attempt becomes fulfilled only if the
    event is a notification that carries the id of that attempt. *)
Theorem notification_isolation (this : Connector) (hostname : string)
    (uid : nat → string) (st : State) (k : nat) (b : Attempt) :
  attempts st !! k = Some b →
  (∀ event A, browserId b ≠ A → attempts (emit event A st) !! k = Some b)
  ∧ (∀ ev st',
       step this hostname uid st ev = Some st' →
       ∃ b', attempts st' !! k = Some b'
             ∧ browserId b' = browserId b
             ∧ (waitForUrlOpened b' = Fulfilled →
                waitForUrlOpened b = Fulfilled ∨ notifies ev (browserId b))).
Proof.
  intros Hk. split.
  - intros event A Hne. apply emit_other_id; assumption.
  - intros ev st' Hstep.
    destruct (step_has_shape this hostname uid st st' ev Hstep) as (Hmoves & _ & _).
    destruct (Hmoves k b Hk) as (b' & Hk' & (_ & Hb & Hw & _) & _).
    exists b'. split; [exact Hk'|]. split; [exact Hb|]. intros Hf.
    destruct Hw as [Hw|[(_ & _ & Hn & _)|(_ & Hr & _)]].
    + left. congruence.
    + right. exact Hn.
    + congruence.
Qed.

(** In [scenario_two_calls], a notification for "abc123" leaves the
    attempt registered with "id1" as it is, through the handler calls and
    through the whole turn. *)
Lemma notification_isolation_witness :
  attempts (emit "browser-opened" "abc123" (after scenario_two_calls)) !! 1%nat
  = Some second_attempt_awaiting
  ∧ ∃ b', attempts (after (scenario_two_calls ++ [Emit "browser-opened" "abc123"]))
            !! 1%nat = Some b'
          ∧ browserId b' = "id1"
          ∧ (waitForUrlOpened b' = Fulfilled →
             Pending = Fulfilled ∨ "abc123" = "id1").
Proof.
  destruct (notification_isolation connector0 "localhost" uid0
              (after scenario_two_calls) 1 second_attempt_awaiting)
    as [Hemit Hstep]; [vm_compute; reflexivity|].
  split.
  - apply Hemit. vm_compute. discriminate.
  - apply (Hstep (Emit "browser-opened" "abc123")
             (after (scenario_two_calls ++ [Emit "browser-opened" "abc123"]))).
    vm_compute. reflexivity.
Defined.

(** The other half of the design: a notification that carries the id of a
    pending attempt, on an event its handler is registered for, fulfils
    its waiter. *)
Lemma notification_own_id (event : string) (st : State) (k : nat) (a : Attempt) :
  attempts st !! k = Some a → waitForUrlOpened a = Pending →
  In k (handlers_of event st) →
  ∃ a', attempts (emit event (browserId a) st) !! k = Some a'
        ∧ waitForUrlOpened a' = Fulfilled.
Proof.
  intros Hk Hp Hin. unfold emit.
  assert (waitForUrlOpened a = Fulfilled
          ∨ (waitForUrlOpened a = Pending ∧ In k (handlers_of event st))) as Hcase
    by auto.
  clear Hp Hin. revert Hcase. generalize (handlers_of event st) as hs. intros hs.
  remember (browserId a) as id eqn:Hid.
  revert st a Hk Hid. induction hs as [|k' hs IH]; intros st a Hk Hid Hcase; cbn.
  - destruct Hcase as [Hf|[_ []]]. eauto.
  - destruct (decide (k = k')) as [<-|Hne].
    + unfold hubHandler at 2. rewrite Hk, <- Hid, String.eqb_refl. cbv zeta.
      set (a' := match waitForUrlOpened _ with Pending => _ | _ => _ end).
      apply (IH _ a').
      * cbn. apply list_lookup_insert_eq. eapply lookup_lt_Some; eassumption.
      * subst a'. destruct (timeoutId a); cbn; destruct (waitForUrlOpened a);
          exact Hid.
      * left. subst a'. clear IH Hk.
        destruct a as [o b w t p bd tf]; cbn in *.
        destruct Hcase as [Hf|[Hp _]]; subst p; destruct t; reflexivity.
    + apply (IH _ a).
      * rewrite hubHandler_other_attempt by exact Hne. exact Hk.
      * exact Hid.
      * destruct Hcase as [Hf|[Hp [Hin|Hin]]]; auto. congruence.
Qed.





(** The first turn of [_startBrowser]: the new attempt is registered with
    a fresh id, and its three effects are the timer, the listener and the
    request, in this order. *)
Lemma _startBrowser_begin_effects (this : Connector) (hostname : string)
    (uid : nat → string) (c : nat) (call : StartCall) (st : State) :
  let k := length (attempts st) in
  let st' := _startBrowser_begin this hostname uid c call st in
  st_log st'
  = ACreateWorker k (worker_settings this hostname call (uid k))
      :: AAddListener "browser-opened" k
      :: ASetTimeout k (c_openingTimeout call) :: st_log st
  ∧ listeners st' = (listeners st ++ [("browser-opened", k)])%list
  ∧ ∃ a, attempts st' !! k = Some a ∧ browserId a = uid k
         ∧ waitForUrlOpened a = Pending ∧ timeoutId a = Armed.
Proof.
  cbv zeta. repeat split. eexists. split.
  - cbn. rewrite lookup_app_r by lia. rewrite Nat.sub_diag. reflexivity.
  - repeat split.
Qed.

(** [C8] In every run, the registry of the hub is the one that the
    registrations and removals written to the log of effects lead to, and
    each worker-creation request in the log comes after the registration,
    on the hub, of the listener of the same attempt: the registration is
    in the part of the log before the request ([older]), and the handler
    of the attempt is in the registry when the request is issued. *)
Theorem listener_registered_before_createWorker (this : Connector)
    (hostname : string) (uid : nat → string) (evs : list Event) (st : State) :
  run this hostname uid initial evs = Some st →
  listeners st = registry (st_log st)
  ∧ ∀ newer older k settings,
      st_log st = (newer ++ ACreateWorker k settings :: older)%list →
      In (AAddListener "browser-opened" k) older
      ∧ In ("browser-opened", k) (registry older).
Proof.
  intros Hrun. split.
  - apply (synced_run this hostname uid evs initial st); [reflexivity|exact Hrun].
  - intros newer older k settings Hlog.
    pose proof (grows_run this hostname uid evs _ _ Hrun) as Hgrows. split.
    + apply (grows_registered_first initial st Hgrows registered_first_nil
               newer older k settings Hlog).
    + destruct Hgrows as (d & Hl & Hd). rewrite Hl in Hlog.
      apply (listening_at_request_Delta _ _ d (st_log initial) Hd)
        with (newer := newer) (settings := settings); [|exact Hlog].
      intros [|x n'] o k' s' H; discriminate H.
Qed.

(** In [scenario_two_calls], the registry at the end is the one of the
    log, and the handler of attempt 1 is registered when its request is
    issued. *)
Lemma listener_registered_before_createWorker_witness :
  listeners (after scenario_two_calls) = [("browser-opened", 0%nat); ("browser-opened", 1%nat)]
  ∧ In (AAddListener "browser-opened" 1)
      [AAddListener "browser-opened" 1; ASetTimeout 1 60000;
       ACreateWorker 0
         (worker_settings connector0 "localhost"
            (mkStartCall chrome "http://localhost:3000/test" no_job no_options
               3 60000 WNull 0 None (Running 0)) "abc123");
       AAddListener "browser-opened" 0; ASetTimeout 0 60000]
  ∧ In ("browser-opened", 1%nat)
      [("browser-opened", 0%nat); ("browser-opened", 1%nat)].
Proof.
  destruct (listener_registered_before_createWorker connector0 "localhost" uid0
              scenario_two_calls (after scenario_two_calls))
    as [Hsync Hreq]; [vm_compute; reflexivity|].
  split; [exact Hsync|].
  apply (Hreq [AGetWorker "w2"; AGetWorker "w1"]
           [AAddListener "browser-opened" 1; ASetTimeout 1 60000;
            ACreateWorker 0
              (worker_settings connector0 "localhost"
                 (mkStartCall chrome "http://localhost:3000/test" no_job
                    no_options 3 60000 WNull 0 None (Running 0)) "abc123");
            AAddListener "browser-opened" 0; ASetTimeout 0 60000]
           1%nat
           (worker_settings connector0 "localhost"
              (mkStartCall chrome "http://localhost:3000/test" no_job
                 no_options 3 60000 WNull 0 None (Running 1)) "id1")).
  vm_compute. reflexivity.
Defined.

(** [C3], as stated, fails for [N = 0]: the option is replaced by the
    default ([maxAttepts || 3]), and a call whose worker creation keeps
    failing issues three [createWorker] requests. *)
Lemma startBrowser_zero_attempts_counterexample :
  run connector0 "localhost" uid0 initial scenario_zero_attempts
  = Some (after scenario_zero_attempts)
  ∧ create_calls 0 (after scenario_zero_attempts) = 3%nat
  ∧ ¬ (Z.of_nat (create_calls 0 (after scenario_zero_attempts)) <= 0).
Proof.
  assert (create_calls 0 (after scenario_zero_attempts) = 3%nat) as Hthree
    by (vm_compute; reflexivity).
  split; [vm_compute; reflexivity|]. split; [exact Hthree|].
  rewrite Hthree. lia.
Qed.

(** [C3], amended. In every run, a call of [startBrowser] issues one
    [createWorker] request per attempt; with [maxAttepts = N] and [N >= 1]
    it makes at most [N] attempts, with the option absent or 0 at most the
    default 3, and in general at most [max 0 (maxAttepts || 3)]. It returns
    a worker only if one of its attempts ended with that worker after its
    [waitForUrlOpened] had been fulfilled. *)
Theorem startBrowser_retry_bound (this : Connector) (hostname : string)
    (uid : nat → string) (evs : list Event) (st : State) (c : nat)
    (call : StartCall) :
  run this hostname uid initial evs = Some st →
  calls st !! c = Some call →
  create_calls c st = owned c st
  ∧ Z.of_nat (create_calls c st)
    <= Z.max 0 (or_default (maxAttepts (c_options call))
                  DEFAULT_BROWSER_OPENING_MAX_ATTEMPT)
  ∧ (∀ N, maxAttepts (c_options call) = Some N → 1 <= N →
          Z.of_nat (create_calls c st) <= N)
  ∧ (maxAttepts (c_options call) = None ∨ maxAttepts (c_options call) = Some 0 →
     Z.of_nat (create_calls c st) <= 3)
  ∧ (∀ w, c_state call = Returned (WObj w) → confirmed st c w).
Proof.
  intros Hrun Hc.
  assert (Inv st) as HInv by (apply (Inv_reachable this hostname uid); eexists; eauto).
  assert (create_calls c st = owned c st) as Hcreate.
  { apply create_calls_owned.
    apply (grows_one_request_each initial st
             (grows_run this hostname uid evs _ _ Hrun)).
    reflexivity. }
  destruct (inv_calls st HInv c call Hc) as [[Hmax Hok] _].
  assert (Z.of_nat (owned c st) <= attempt_bound call
          ∧ ∀ w, c_state call = Returned (WObj w) → confirmed st c w)
    as [Hbound Hconf].
  { unfold attempt_bound. destruct (c_state call) as [k|v|e].
    - destruct Hok as (Hn & Hlt & _). split; [lia | discriminate].
    - destruct Hok as [Hle Hcf]. split; [exact Hle|].
      intros w Hw. injection Hw as ->. apply Hcf. reflexivity.
    - split; [exact Hok | discriminate]. }
  unfold attempt_bound in Hbound. rewrite Hmax in Hbound. rewrite Hcreate.
  repeat split; try assumption.
  - intros N HN Hpos. rewrite HN in Hbound. cbn in Hbound.
    destruct (Z.eqb_spec N 0); lia.
  - intros [HN|HN]; rewrite HN in Hbound; cbn in Hbound;
      unfold DEFAULT_BROWSER_OPENING_MAX_ATTEMPT in Hbound; lia.
Qed.

(** [scenario_second_attempt]: two attempts with [maxAttepts = 2], the
    second one confirmed. *)
Lemma startBrowser_retry_bound_witness :
  Z.of_nat (create_calls 0 (after scenario_second_attempt)) <= 2
  ∧ confirmed (after scenario_second_attempt) 0 running_worker.
Proof.
  assert (run connector0 "localhost" uid0 initial scenario_second_attempt
          = Some (after scenario_second_attempt)) as Hrun
    by (vm_compute; reflexivity).
  assert (calls (after scenario_second_attempt) !! 0%nat
          = Some (mkStartCall chrome "http://localhost:3000/test" no_job
                    (mkStartOptions (Some 2) None None) 2 60000
                    (WObj running_worker) 1 None (Returned (WObj running_worker))))
    as Hcall by (vm_compute; reflexivity).
  destruct (startBrowser_retry_bound connector0 "localhost" uid0
              scenario_second_attempt (after scenario_second_attempt) 0 _
              Hrun Hcall) as (_ & _ & Hbound & _ & Hconf).
  split.
  - apply (Hbound 2); [reflexivity | lia].
  - apply Hconf. reflexivity.
Defined.

(** [C1] at its failing input. In every run, when the callback that
    carries the id of an attempt reaches the hub while the listener of the
    attempt is registered, its timer armed and its waiter pending, the
    request is answered by the redirect and nothing else happens: the hub
    emits 'open', no handler is registered under that name ([_startBrowser]
    registers under 'browser-opened'), and the attempt is left as it was,
    waiter pending and timer running; the call goes on waiting. *)
Theorem hub_callback_does_not_resolve (this : Connector) (hostname : string)
    (uid : nat → string) (evs : list Event) (st : State) (k : nat) (a : Attempt)
    (req : Request) :
  run this hostname uid initial evs = Some st →
  attempts st !! k = Some a →
  In ("browser-opened", k) (listeners st) →
  timeoutId a = Armed → waitForUrlOpened a = Pending →
  match_route req = Some (browserId a) →
  step this hostname uid st (HttpRequest req)
  = Some (emit_action (ARespond (Redirect REDIRECT_STATUS (query_url req))) st)
  ∧ ∀ st', step this hostname uid st (HttpRequest req) = Some st' →
           attempts st' !! k = Some a ∧ calls st' = calls st.
Proof.
  intros Hrun Hk _ _ _ Hroute.
  assert (Inv st) as HInv by (apply (Inv_reachable this hostname uid); eexists; eauto).
  assert (step this hostname uid st (HttpRequest req)
          = Some (emit_action (ARespond (Redirect REDIRECT_STATUS (query_url req))) st))
    as Hstep.
  { cbn. unfold hub_request. rewrite Hroute. cbv zeta.
    rewrite (handlers_of_other_event "open" st (inv_listeners st HInv))
      by discriminate.
    rewrite emit_nobody
      by (apply (handlers_of_other_event "open" st (inv_listeners st HInv));
          discriminate).
    reflexivity. }
  split; [exact Hstep|]. intros st' Hst'. rewrite Hstep in Hst'.
  injection Hst' as <-. split; [exact Hk | reflexivity].
Qed.

(** [scenario_awaiting_callback], then the callback for "abc123". *)
Lemma hub_callback_does_not_resolve_witness :
  step connector0 "localhost" uid0 (after scenario_awaiting_callback)
    (HttpRequest (callback_request "abc123"))
  = Some (emit_action
            (ARespond (Redirect REDIRECT_STATUS (Some "http://localhost:3000/test")))
            (after scenario_awaiting_callback)).
Proof.
  apply (hub_callback_does_not_resolve connector0 "localhost" uid0
           scenario_awaiting_callback (after scenario_awaiting_callback) 0
           attempt_awaiting_callback (callback_request "abc123"));
    [vm_compute; reflexivity | vm_compute; reflexivity
     | left; vm_compute; reflexivity | reflexivity | reflexivity
     | vm_compute; reflexivity].
Defined.

(** What the mismatch of the event names amounts to: as long as the
    notifications come from the hub's route alone (nobody emits on the hub
    directly), no waiter is ever fulfilled and no call of [startBrowser]
    ever returns a worker. *)
Lemma hub_alone_never_confirms (this : Connector) (hostname : string)
    (uid : nat → string) (evs : list Event) (st : State) :
  run this hostname uid initial evs = Some st →
  Forall (λ ev, ∀ event arg, ev ≠ Emit event arg) evs →
  (∀ k a, attempts st !! k = Some a → waitForUrlOpened a ≠ Fulfilled)
  ∧ (∀ c call w, calls st !! c = Some call → c_state call ≠ Returned (WObj w)).
Proof.
  intros Hrun Hevs.
  assert (Inv st ∧ ∀ k a, attempts st !! k = Some a → waitForUrlOpened a ≠ Fulfilled)
    as [HInv Hnone].
  { assert (Inv initial
            ∧ ∀ k a, attempts initial !! k = Some a → waitForUrlOpened a ≠ Fulfilled)
      as Hinit by (split; [apply Inv_initial | intros k a Hk; discriminate]).
    revert Hinit Hrun. generalize initial as st0. intros st0. revert st0.
    induction Hevs as [|ev evs Hev Hevs IH]; intros st0 [HInv0 H0] Hrun; cbn in Hrun.
    - injection Hrun as <-. auto.
    - destruct (step this hostname uid st0 ev) as [st1|] eqn:Hstep; [|discriminate].
      apply (IH st1); [|exact Hrun].
      split; [apply (Inv_step this hostname uid st0 st1 ev HInv0 Hstep)|].
      destruct (step_has_shape this hostname uid st0 st1 ev Hstep)
        as (Hmoves & Hfresh & _).
      intros k a' Hk'. destruct (attempts st0 !! k) as [a|] eqn:Hk.
      + destruct (Hmoves k a Hk) as (a2 & Hk2 & (_ & _ & Hw & _) & Hsame).
        assert (a2 = a') by congruence. subst a2. specialize (H0 k a Hk).
        destruct Hw as [Hw|[(_ & _ & Hn & _)|(_ & Hr & _)]]; try congruence.
        destruct ev as [| | | | | |req|event arg]; cbn in Hn; try contradiction.
        * rewrite Hsame; [exact H0|]. cbn.
          rewrite (handlers_of_other_event "open" st0 (inv_listeners st0 HInv0))
            by discriminate. auto.
        * exfalso. apply (Hev event arg). reflexivity.
      + apply lookup_ge_None in Hk. destruct (Hfresh k a' Hk' Hk) as (_ & Hp & _).
        congruence. }
  split; [exact Hnone|]. intros c call w Hc Hret.
  destruct (inv_calls st HInv c call Hc) as [[_ Hok] _]. rewrite Hret in Hok.
  destruct Hok as [_ Hconf]. destruct (Hconf w eq_refl) as (k & a & Hk & _ & Hf & _).
  apply (Hnone k a Hk Hf).
Qed.

(** What the handler does when it is reached: a notification under
    'browser-opened' (or any name the handler is registered for) with the
    id of an attempt that waits with its worker ends the attempt with
    that worker. *)
Lemma registered_notification_confirms (this : Connector) (hostname : string)
    (uid : nat → string) (event : string) (st : State) (k : nat) (a : Attempt)
    (w : Worker) :
  attempts st !! k = Some a →
  In k (handlers_of event st) →
  waitForUrlOpened a = Pending → body a = AwaitUrlOpened → worker a = WObj w →
  ∃ st' a',
    step this hostname uid st (Emit event (browserId a)) = Some st'
    ∧ attempts st' !! k = Some a'
    ∧ waitForUrlOpened a' = Fulfilled ∧ body a' = Resolved w.
Proof.
  intros Hk Hin Hp Hb Hw. eexists. cbn.
  destruct (notification_own_id event st k a Hk Hp Hin) as (a1 & Hk1 & Hf1).
  destruct (emit_attempts event (browserId a) st) as (Hemit & _ & _).
  destruct (Hemit k a Hk) as (a1' & Hk1' & (_ & _ & Hb1 & Hw1 & _) & _).
  assert (a1' = a1) by congruence. subst a1'.
  rewrite Hb in Hb1. rewrite Hw in Hw1.
  assert (∃ a', attempts (after_emit this hostname uid (handlers_of event st)
                            (emit event (browserId a) st)) !! k = Some a'
                ∧ waitForUrlOpened a' = Fulfilled ∧ body a' = Resolved w)
    as (a' & Hk' & Hf' & Hb'); [|exists a'; auto].
  assert (waitForUrlOpened a1 = Fulfilled
          ∧ ((body a1 = AwaitUrlOpened ∧ worker a1 = WObj w
              ∧ In k (handlers_of event st))
             ∨ body a1 = Resolved w)) as Hcase by auto.
  clear Hk Hp Hb Hw Hemit Hin Hb1 Hw1 Hf1 Hk1'.
  revert Hk1 Hcase. generalize (emit event (browserId a) st) as st1.
  generalize (handlers_of event st) as hs. unfold after_emit.
  intros hs. revert a1.
  induction hs as [|k' hs IH]; intros a1 st1 Hk1 [Hf1 Hcase]; cbn.
  - destruct Hcase as [(_ & _ & [])|Hdone]. eauto.
  - destruct (decide (k' = k)) as [->|Hne].
    + destruct Hcase as [(Hb1 & Hw1 & _)|Hdone].
      * assert (attempts (resume_urlOpened this hostname uid st1 k) !! k
                = Some (set_body (Resolved w) (set_body AwaitUrlOpened a1))) as Hres.
        { unfold resume_urlOpened. rewrite Hk1, Hb1.
          unfold await_urlOpened. rewrite Hk1, Hf1. cbv zeta.
          unfold after_urlOpened. cbn [attempts put_attempt set_attempts].
          rewrite list_lookup_insert_eq by (eapply lookup_lt_Some; eassumption).
          cbn [worker set_body]. rewrite Hw1.
          apply (settle_attempt this hostname uid k _ (inr w)).
          cbn. apply list_lookup_insert_eq. eapply lookup_lt_Some; eassumption. }
        apply (IH _ _ Hres). cbn. auto.
      * apply (IH a1); [|auto].
        unfold resume_urlOpened. rewrite Hk1, Hdone. exact Hk1.
    + destruct (continues_resume_urlOpened this hostname uid (eq k') st1 k' eq_refl)
        as (Hcont & _ & _).
      destruct (Hcont k a1 Hk1) as (a2 & Hk2 & _ & Hsame).
      rewrite (Hsame Hne) in Hk2. apply (IH a1 _ Hk2). split; [exact Hf1|].
      destruct Hcase as [(Hb1 & Hw1 & [Hin|Hin])|Hdone]; auto. contradiction.
Qed.

(** The path the timeout function is written for: the timer fires when
    the worker is known and the body waits for the notification. One
    [terminateWorker] request is issued, and when it is answered the waiter
    is rejected and the attempt fails with the timeout error. *)
Lemma opening_timeout_after_worker (this : Connector) (hostname : string)
    (uid : nat → string) (st : State) (k : nat) (a : Attempt) (w : Worker)
    (time : Z) :
  attempts st !! k = Some a →
  timeoutId a = Armed → waitForUrlOpened a = Pending →
  worker a = WObj w → body a = AwaitUrlOpened →
  ∃ st1 st2 a2,
    step this hostname uid st (OpeningTimeout k) = Some st1
    ∧ terminate_calls k st1 = S (terminate_calls k st)
    ∧ step this hostname uid st1 (TerminateWorkerDone k (CbOk time)) = Some st2
    ∧ terminate_calls k st2 = S (terminate_calls k st)
    ∧ attempts st2 !! k = Some a2
    ∧ waitForUrlOpened a2 = Rejected (Str "Browser starting timeout expired")
    ∧ body a2 = Failed (Str "Browser starting timeout expired").
Proof.
  intros Hk Ht Hp Hw Hb.
  assert (k < length (attempts st))%nat as Hlt by (eapply lookup_lt_Some; eassumption).
  destruct (step this hostname uid st (OpeningTimeout k)) as [st1|] eqn:Hstep1;
    [|cbn in Hstep1; unfold opening_timeout in Hstep1;
      rewrite Hk, Ht in Hstep1; cbn in Hstep1; rewrite Hw in Hstep1; discriminate].
  destruct (terminate_calls_opening_timeout k k a st st1 Hstep1 Hk)
    as (_ & Hcount & a1 & Hk1 & Ht1 & Hp1 & Hb1 & Hf1).
  rewrite Nat.eqb_refl, Hw in Hcount. cbn in Hcount. rewrite Hw in Hf1.
  set (a1' := set_waitForUrlOpened (Rejected (Str "Browser starting timeout expired"))
                (set_timeoutFn Completed a1)).
  assert (step this hostname uid st1 (TerminateWorkerDone k (CbOk time))
          = Some (settle this hostname uid k
                    (inl (Str "Browser starting timeout expired"))
                    (put_attempt k (set_body AwaitUrlOpened a1')
                       (put_attempt k a1' st1)))) as Hstep2.
  { cbn. unfold terminateWorker_done. rewrite Hk1, Hf1.
    assert (waitForUrlOpened (set_timeoutFn Completed a1) = Pending) as Hp1'
      by (cbn; congruence).
    rewrite Hp1'. fold a1'.
    assert (attempts (put_attempt k a1' st1) !! k = Some a1') as Hk1'.
    { cbn. apply list_lookup_insert_eq. eapply lookup_lt_Some; eassumption. }
    unfold resume_urlOpened. rewrite Hk1'.
    assert (body a1' = AwaitUrlOpened) as Hb1' by (cbn; congruence).
    rewrite Hb1'. unfold await_urlOpened. rewrite Hk1'. reflexivity. }
  eexists st1, _, _. split; [reflexivity|]. split; [lia|].
  split; [exact Hstep2|]. split.
  - rewrite (terminate_calls_grows k st1).
    + lia.
    + eapply (grows_step_tame this hostname uid st1); [|exact Hstep2].
      intros k0. discriminate.
  - split.
    + apply settle_attempt. cbn.
      apply list_lookup_insert_eq. rewrite length_insert.
      eapply lookup_lt_Some; eassumption.
    + split; reflexivity.
Qed.

(** [C2] at its failing input. In every run, when the opening timer of an
    attempt fires while its [worker] variable is not yet a worker object
    (the creation or the status polling is still going on), the timeout
    function throws at [worker.id] after it has removed the listener. From
    then on, whatever happens: no [terminateWorker] request is ever issued
    for the attempt, its waiter stays pending (it is never rejected with
    the timeout error), and once its body waits for the notification, the
    attempt and the call that runs it never end. *)
Theorem opening_timeout_before_worker (this : Connector) (hostname : string)
    (uid : nat → string) (evs0 : list Event) (st : State) (k : nat) (a : Attempt) :
  run this hostname uid initial evs0 = Some st →
  attempts st !! k = Some a →
  timeoutId a = Armed → waitForUrlOpened a = Pending →
  truthy (worker a) = false →
  ∃ st1,
    step this hostname uid st (OpeningTimeout k) = Some st1
    ∧ ∀ evs st2,
        run this hostname uid st1 evs = Some st2 →
        terminate_calls k st2 = 0%nat
        ∧ ∃ a2, attempts st2 !! k = Some a2
                ∧ waitForUrlOpened a2 = Pending ∧ timeoutId a2 = Fired
                ∧ (body a2 = AwaitUrlOpened →
                   ∀ evs' st3,
                     run this hostname uid st2 evs' = Some st3 →
                     attempts st3 !! k = Some a2
                     ∧ ∃ call, calls st3 !! owner a2 = Some call
                               ∧ c_state call = Running k).
Proof.
  intros Hrun0 Hk Ht Hp Hw.
  assert (reachable this hostname uid st) as Hreach by (exists evs0; exact Hrun0).
  pose proof (Inv_reachable this hostname uid st Hreach) as HInv.
  destruct (step this hostname uid st (OpeningTimeout k)) as [st1|] eqn:Hstep1;
    [|cbn in Hstep1; unfold opening_timeout in Hstep1;
      rewrite Hk, Ht in Hstep1; cbn in Hstep1;
      destruct (worker a); discriminate].
  exists st1. split; [reflexivity|].
  destruct (terminate_calls_opening_timeout k k a st st1 Hstep1 Hk)
    as (_ & Hcount & a1 & Hk1 & Ht1 & Hp1 & _ & Hf1).
  rewrite Hw, andb_false_r, Nat.add_0_r in Hcount.
  assert (terminate_calls k st = 0%nat) as Hzero.
  { destruct (terminate_once_reachable this hostname uid st Hreach k)
      as [Hz|(_ & a' & Hk' & Hf')]; [exact Hz | congruence]. }
  assert (doomed k st1) as Hdoomed.
  { split.
    - cbn in Hstep1. unfold opening_timeout in Hstep1. rewrite Hk, Ht in Hstep1.
      cbn in Hstep1. intros event Hin.
      apply (removeListener_gone k st (inv_listeners st HInv) event).
      destruct (worker a); injection Hstep1 as <-; exact Hin.
    - exists a1. split; [exact Hk1|]. split; [exact Ht1|]. split; [congruence|].
      destruct (worker a); try discriminate; eauto. }
  assert (Inv st1) as HInv1 by (apply (Inv_step this hostname uid st st1 _ HInv Hstep1)).
  intros evs st2 Hrun.
  destruct (doomed_run this hostname uid k evs st1 st2 Hrun Hdoomed)
    as [Hdoomed2 Hcount2].
  split; [lia|].
  destruct Hdoomed2 as (Hnl2 & a2 & Hk2 & Ht2 & Hp2 & e2 & Hf2).
  exists a2. split; [exact Hk2|]. split; [exact Hp2|]. split; [exact Ht2|].
  intros Hb2 evs' st3 Hrun3.
  pose proof (parked_run this hostname uid k a2 evs' st2 st3 Hrun3
                (conj Hnl2 (ex_intro _ a2 (conj Hk2 (conj Ht2 (conj Hp2
                   (ex_intro _ e2 Hf2)))))) Hk2 Hb2) as Hk3.
  split; [exact Hk3|].
  apply unsettled_call_running; [|exact Hk3|rewrite Hb2; exact I].
  apply (Inv_run this hostname uid evs' st2 st3); [|exact Hrun3].
  apply (Inv_run this hostname uid evs st1 st2); [exact HInv1 | exact Hrun].
Qed.

(** [scenario_early_timeout]: the timer of one second fires right after
    the start; the worker is then created and runs, and the attempt waits
    for a notification with no timer and no listener left, the worker never
    terminated. *)
Lemma opening_timeout_before_worker_witness :
  ∃ st1,
    step connector0 "localhost" uid0
      (after [start_chrome (mkStartOptions None (Some 1000) None)])
      (OpeningTimeout 0) = Some st1
    ∧ ∀ evs st2,
        run connector0 "localhost" uid0 st1 evs = Some st2 →
        terminate_calls 0 st2 = 0%nat
        ∧ ∃ a2, attempts st2 !! 0%nat = Some a2
                ∧ waitForUrlOpened a2 = Pending ∧ timeoutId a2 = Fired
                ∧ (body a2 = AwaitUrlOpened →
                   ∀ evs' st3,
                     run connector0 "localhost" uid0 st2 evs' = Some st3 →
                     attempts st3 !! 0%nat = Some a2
                     ∧ ∃ call, calls st3 !! owner a2 = Some call
                               ∧ c_state call = Running 0).
Proof.
  apply (opening_timeout_before_worker connector0 "localhost" uid0
           [start_chrome (mkStartOptions None (Some 1000) None)]
           (after [start_chrome (mkStartOptions None (Some 1000) None)]) 0
           attempt_just_started); vm_compute; reflexivity.
Defined.

(** The same scenario, evaluated to its end. *)
Example early_timeout_outcome :
  terminate_calls 0 (after scenario_early_timeout) = 0%nat
  ∧ map c_state (calls (after scenario_early_timeout)) = [Running 0]
  ∧ map body (attempts (after scenario_early_timeout)) = [AwaitUrlOpened]
  ∧ map waitForUrlOpened (attempts (after scenario_early_timeout)) = [Pending]
  ∧ map timeoutFn (attempts (after scenario_early_timeout))
    = [Crashed (TypeError "Cannot read property 'id' of null")]
  ∧ listeners (after scenario_early_timeout) = [].
Proof. vm_compute. repeat split. Qed.

(** * Part 8: more about the sequential methods *)

Lemma count_app (f : Action → bool) (l1 l2 : list Action) :
  count f (l1 ++ l2)%list = (count f l1 + count f l2)%nat.
Proof. unfold count. rewrite List.filter_app, length_app. reflexivity. Qed.

Lemma count_rev (f : Action → bool) (l : list Action) :
  count f (rev l) = count f l.
Proof. unfold count. rewrite List.filter_rev, length_rev. reflexivity. Qed.

Lemma count_cons (f : Action → bool) (a : Action) (l : list Action) :
  count f (a :: l) = ((if f a then 1 else 0) + count f l)%nat.
Proof. unfold count. cbn. destruct (f a); reflexivity. Qed.

Section MoreSequentialFacts.
Context (this : Connector) (farm : Farm).

(** What [_log] adds to the log. *)
Lemma _log_adds (message : string) (log : list Action) :
  ∃ d, _log this message log = (inr tt, (d ++ log)%list)
       ∧ count is_check d = 0%nat ∧ count is_wait d = 0%nat
       ∧ count is_listing d = 0%nat
       ∧ count is_stdout d = (if connectorLogging this then 1 else 0)%nat
       ∧ ∀ ms, ¬ In (AWait ms) d.
Proof.
  unfold _log. destruct (connectorLogging this).
  - exists [AStdout (message ++ newline)]. cbn. repeat split; auto.
    intros ms [H|[]]. discriminate.
  - exists []. cbn. repeat split; auto.
Qed.

(** What a run of [n] short checks from check [a] on adds to the log, and
    where the loop is then. *)
Lemma waitForFreeMachines_from_short_checks
    (machineCount requestInterval maxAttemptCount : Z) (n : nat) :
  ∀ (a : nat) (log : list Action),
    Z.of_nat (a + n) <= maxAttemptCount →
    (∀ i, (a <= i < a + n)%nat → short_check farm machineCount i) →
    ∃ d,
      waitForFreeMachines_from this farm machineCount requestInterval
        maxAttemptCount a log
      = waitForFreeMachines_from this farm machineCount requestInterval
          maxAttemptCount (a + n) (d ++ log)%list
      ∧ count is_check d = n ∧ count is_listing d = n ∧ count is_wait d = n
      ∧ count is_stdout d = (if connectorLogging this then n else 0%nat)
      ∧ ∀ ms, In (AWait ms) d → ms = requestInterval.
Proof.
  induction n as [|n IH]; intros a log Hle Hshort.
  - exists []. rewrite Nat.add_0_r. cbn. repeat split; auto.
    + destruct (connectorLogging this); reflexivity.
    + intros ms [].
  - destruct (Hshort a) as (quota & workers & Hq & Hw & Hlt); [lia|].
    rewrite (waitForFreeMachines_from_check this farm _ _ _ _ quota workers)
      by (lia || assumption).
    destruct (Z.geb_spec (quota - Z.of_nat (length workers)) machineCount); [lia|].
    destruct (_log_adds (shortfall_message (quota - Z.of_nat (length workers))
                           machineCount) (AGetWorkers :: AGetApiStatus :: log))
      as (dl & Hlog & Hc & Hwt & Hli & Hso & Hnw).
    rewrite Hlog. cbn [snd].
    destruct (IH (S a) (AWait requestInterval
                          :: (dl ++ AGetWorkers :: AGetApiStatus :: log)%list))
      as (d & Heq & Hdc & Hdl & Hdw & Hds & Hdm).
    { lia. }
    { intros i Hi. apply Hshort. lia. }
    exists (d ++ AWait requestInterval :: dl ++ [AGetWorkers; AGetApiStatus])%list.
    split.
    { rewrite Heq. replace (S a + n)%nat with (a + S n)%nat by lia.
      f_equal. rewrite <- !app_assoc. cbn. rewrite <- app_assoc. reflexivity. }
    rewrite !count_app, !count_cons, !count_app, Hdc, Hdl, Hdw, Hds, Hc, Hwt, Hli, Hso.
    cbn. repeat split; try lia.
    + destruct (connectorLogging this); lia.
    + intros ms Hin. apply in_app_or in Hin as [Hin|[Hin|Hin]].
      * apply Hdm. exact Hin.
      * congruence.
      * apply in_app_or in Hin as [Hin|[Hin|[Hin|[]]]];
          [exfalso; apply (Hnw ms Hin) | discriminate | discriminate].
Qed.

(** One check, whatever the farm answers: one quota query, one listing,
    no sleep, and never the error of the exhausted loop. *)
Lemma _getFreeMachineCount_adds (n : nat) (log : list Action) :
  ∃ r d, _getFreeMachineCount this farm n log = (r, (d ++ log)%list)
         ∧ count is_check d = 1%nat ∧ count is_listing d = 1%nat
         ∧ count is_wait d = 0%nat
         ∧ (∀ ms, ¬ In (AWait ms) d)
         ∧ (∀ m, r ≠ inl (Error m)).
Proof.
  unfold _getFreeMachineCount, Promise_all, _getWorkers,
    _getMaxAvailableMachines, bind, act, ret, throw. cbn.
  destruct (getApiStatus farm n) as [err|quota].
  - destruct (_log_adds err (AGetWorkers :: AGetApiStatus :: log))
      as (dl & Hlog & Hc & Hw & Hl & _ & Hnw).
    rewrite Hlog. cbn.
    exists (inl (ClientErr err)), (dl ++ [AGetWorkers; AGetApiStatus])%list.
    rewrite <- app_assoc, !count_app, Hc, Hw, Hl. cbn.
    repeat split; try reflexivity; try discriminate.
    intros ms Hin. apply in_app_or in Hin as [Hin|[Hin|[Hin|[]]]];
      [apply (Hnw ms Hin) | discriminate | discriminate].
  - cbn. destruct (getWorkers farm n) as [err|workers]; cbn.
    + exists (inl (TypeError "Cannot read property 'length' of undefined")),
        [AGetWorkers; AGetApiStatus].
      cbn. repeat split; try reflexivity; try discriminate.
      intros ms [H|[H|[]]]; discriminate.
    + exists (inr (quota - Z.of_nat (length workers))), [AGetWorkers; AGetApiStatus].
      cbn. repeat split; try reflexivity; try discriminate.
      intros ms [H|[H|[]]]; discriminate.
Qed.

(** A failed quota query: the check rejects with the client's error after
    logging it. *)
Lemma _getFreeMachineCount_quota_error_adds (n : nat) (err : string)
    (log : list Action) :
  getApiStatus farm n = CbErr err →
  ∃ d, _getFreeMachineCount this farm n log = (inl (ClientErr err), (d ++ log)%list)
       ∧ count is_check d = 1%nat ∧ count is_listing d = 1%nat
       ∧ count is_wait d = 0%nat
       ∧ count is_stdout d = (if connectorLogging this then 1 else 0)%nat.
Proof.
  intros Hq.
  unfold _getFreeMachineCount, Promise_all, _getWorkers,
    _getMaxAvailableMachines, bind, act, ret, throw. cbn.
  rewrite Hq.
  destruct (_log_adds err (AGetWorkers :: AGetApiStatus :: log))
    as (dl & Hlog & Hc & Hw & Hl & Hs & _).
  rewrite Hlog. cbn.
  exists (dl ++ [AGetWorkers; AGetApiStatus])%list.
  rewrite <- app_assoc, !count_app, Hc, Hw, Hl, Hs. cbn.
  repeat split; try reflexivity. destruct (connectorLogging this); reflexivity.
Qed.

(** The loop from check [attempts] on, whatever the farm answers: it ends
    either exhausted, with as many checks and sleeps as were left, or
    otherwise, after at most that many checks with a sleep between any
    two. *)
Lemma waitForFreeMachines_from_budget
    (machineCount requestInterval maxAttemptCount : Z) (r : nat) :
  ∀ (attempts : nat) (log : list Action),
    Z.to_nat (maxAttemptCount - Z.of_nat attempts) = r →
    ∃ res d,
      waitForFreeMachines_from this farm machineCount requestInterval
        maxAttemptCount attempts log = (res, (d ++ log)%list)
      ∧ ((res = inl (Error "There are no free machines")
          ∧ count is_check d = r ∧ count is_wait d = r)
         ∨ (res ≠ inl (Error "There are no free machines")
            ∧ count is_check d = S (count is_wait d)
            ∧ (count is_check d <= r)%nat)).
Proof.
  induction r as [|r IH]; intros attempts log Hr.
  - rewrite waitForFreeMachines_from_exhausted by lia.
    exists (inl (Error "There are no free machines")), []. split; [reflexivity|].
    left. repeat split.
  - rewrite waitForFreeMachines_from_equation_1.
    destruct (Z_lt_dec (Z.of_nat attempts) maxAttemptCount); [|lia].
    cbn. unfold bind at 1.
    destruct (_getFreeMachineCount_adds attempts log)
      as (res & d & Heq & Hc & _ & Hw & _ & Hne).
    rewrite Heq. destruct res as [e|free].
    + exists (inl e), d. split; [reflexivity|]. right.
      rewrite Hc, Hw. repeat split; [|lia].
      intros H. apply (Hne "There are no free machines"). congruence.
    + destruct (free >=? machineCount).
      * exists (inr tt), d. split; [reflexivity|]. right.
        rewrite Hc, Hw. repeat split; [discriminate|lia].
      * unfold bind at 1.
        destruct (_log_adds (shortfall_message free machineCount) (d ++ log)%list)
          as (dl & Hlog & Hlc & Hlw & _).
        rewrite Hlog. unfold bind at 1, wait, act.
        destruct (IH (S attempts) (AWait requestInterval :: (dl ++ d ++ log)%list))
          as (res & d' & Heq' & Hcases); [lia|].
        rewrite Heq'. exists res, (d' ++ AWait requestInterval :: dl ++ d)%list.
        split.
        { f_equal. rewrite <- !app_assoc. cbn. rewrite <- app_assoc. reflexivity. }
        rewrite !count_app, !count_cons, !count_app, Hc, Hw, Hlc, Hlw. cbn.
        destruct Hcases as [(Hres & Hc' & Hw')|(Hres & Hc' & Hle)].
        -- left. repeat split; [exact Hres|lia|lia].
        -- right. repeat split; [exact Hres|lia|lia].
Qed.

End MoreSequentialFacts.

(** [X1] [waitForFreeMachines] succeeds at the first check that finds
    enough free machines: when the checks before check [n] all find too
    few and check [n], still within the budget, finds enough, the call
    returns after exactly [n + 1] quota queries and listings and [n]
    sleeps, each of [requestInterval] milliseconds, and writes one line
    per short check when logging is on. *)
Theorem waitForFreeMachines_first_sufficient_check (this : Connector)
    (farm : Farm) (machineCount requestInterval maxAttemptCount : Z) (n : nat) :
  Z.of_nat n < maxAttemptCount →
  (∀ i, (i < n)%nat → short_check farm machineCount i) →
  (∃ quota workers,
     getApiStatus farm n = CbOk quota
     ∧ getWorkers farm n = CbOk workers
     ∧ quota - Z.of_nat (length workers) >= machineCount) →
  ∃ effects,
    run_M (waitForFreeMachines this farm machineCount requestInterval
             maxAttemptCount) = (inr tt, effects)
    ∧ count is_check effects = S n
    ∧ count is_listing effects = S n
    ∧ count is_wait effects = n
    ∧ (∀ ms, In (AWait ms) effects → ms = requestInterval)
    ∧ count is_stdout effects = (if connectorLogging this then n else 0%nat).
Proof.
  intros Hn Hshort (quota & workers & Hq & Hw & Hge).
  destruct (waitForFreeMachines_from_short_checks this farm machineCount
              requestInterval maxAttemptCount n 0 [])
    as (d & Heq & Hc & Hl & Hwt & Hs & Hms).
  { cbn. lia. }
  { intros i Hi. apply Hshort. lia. }
  unfold run_M, waitForFreeMachines. rewrite Heq. cbn [Nat.add].
  rewrite (waitForFreeMachines_from_check this farm _ _ _ _ quota workers)
    by (assumption || lia).
  destruct (Z.geb_spec (quota - Z.of_nat (length workers)) machineCount); [|lia].
  eexists. split; [reflexivity|].
  rewrite !count_rev, !count_cons, !count_app, Hc, Hl, Hwt, Hs. cbn.
  repeat split; try lia.
  - intros ms Hin. apply List.in_rev in Hin.
    rewrite !rev_app_distr, rev_involutive in Hin. cbn in Hin.
    destruct Hin as [Hin|[Hin|Hin]];
      [discriminate | discriminate |].
    apply Hms. rewrite app_nil_r in Hin. exact Hin.
Qed.

(** The spec's scenario: quota 5, two machines required, four active
    workers at the first check and two at the second. *)
Lemma waitForFreeMachines_first_sufficient_check_witness :
  ∃ effects,
    run_M (waitForFreeMachines connector0 farm_freeing_up 2 250 3)
    = (inr tt, effects)
    ∧ count is_check effects = 2%nat
    ∧ count is_listing effects = 2%nat
    ∧ count is_wait effects = 1%nat
    ∧ (∀ ms, In (AWait ms) effects → ms = 250)
    ∧ count is_stdout effects = 1%nat.
Proof.
  apply (waitForFreeMachines_first_sufficient_check connector0 farm_freeing_up
           2 250 3 1).
  - lia.
  - intros i Hi. exists 5, (repeat running_worker 4).
    destruct i as [|i]; [|lia]. repeat split.
  - exists 5, (repeat running_worker 2). repeat split. cbn. lia.
Defined.

(** [X2] A quota query that fails ends [waitForFreeMachines] at once:
    when the checks before check [n] all find too few machines and the
    quota query of check [n] fails, the call rejects with the client's
    error, having made [n + 1] checks and [n] sleeps; the checks left in
    the budget are not made. *)
Theorem waitForFreeMachines_quota_failure_stops (this : Connector)
    (farm : Farm) (machineCount requestInterval maxAttemptCount : Z) (n : nat)
    (err : string) :
  Z.of_nat n < maxAttemptCount →
  (∀ i, (i < n)%nat → short_check farm machineCount i) →
  getApiStatus farm n = CbErr err →
  ∃ effects,
    run_M (waitForFreeMachines this farm machineCount requestInterval
             maxAttemptCount) = (inl (ClientErr err), effects)
    ∧ count is_check effects = S n
    ∧ count is_wait effects = n
    ∧ count is_stdout effects = (if connectorLogging this then S n else 0%nat).
Proof.
  intros Hn Hshort Hq.
  destruct (waitForFreeMachines_from_short_checks this farm machineCount
              requestInterval maxAttemptCount n 0 [])
    as (d & Heq & Hc & Hl & Hwt & Hs & Hms).
  { cbn. lia. }
  { intros i Hi. apply Hshort. lia. }
  unfold run_M, waitForFreeMachines. rewrite Heq. cbn [Nat.add].
  rewrite waitForFreeMachines_from_equation_1.
  destruct (Z_lt_dec (Z.of_nat n) maxAttemptCount); [|lia].
  cbn. unfold bind at 1.
  destruct (_getFreeMachineCount_quota_error_adds this farm n err (d ++ [])%list Hq)
    as (dq & Hcheck & Hqc & _ & Hqw & Hqs).
  rewrite Hcheck. eexists. split; [reflexivity|].
  rewrite !count_rev, !count_app, Hc, Hwt, Hs, Hqc, Hqw, Hqs. cbn.
  repeat split; try lia. destruct (connectorLogging this); lia.
Qed.

Lemma waitForFreeMachines_quota_failure_stops_witness :
  ∃ effects,
    run_M (waitForFreeMachines connector0 farm_quota_down_later 2 250 5)
    = (inl (ClientErr "ECONNRESET"), effects)
    ∧ count is_check effects = 2%nat
    ∧ count is_wait effects = 1%nat
    ∧ count is_stdout effects = 2%nat.
Proof.
  apply (waitForFreeMachines_quota_failure_stops connector0 farm_quota_down_later
           2 250 5 1 "ECONNRESET").
  - lia.
  - intros i Hi. exists 5, (repeat running_worker 5).
    destruct i as [|i]; [|lia]. repeat split.
  - reflexivity.
Defined.

(** [X3] The check budget of [waitForFreeMachines], for every farm: the
    call never makes more than [max 0 maxAttemptCount] checks. It rejects
    with 'There are no free machines' only after that many checks, each
    followed by a sleep, the last one included; every other outcome comes
    straight after a check, with one sleep between any two checks. *)
Theorem waitForFreeMachines_check_budget (this : Connector) (farm : Farm)
    (machineCount requestInterval maxAttemptCount : Z) :
  ∃ res effects,
    run_M (waitForFreeMachines this farm machineCount requestInterval
             maxAttemptCount) = (res, effects)
    ∧ (count is_check effects <= Z.to_nat maxAttemptCount)%nat
    ∧ ((res = inl (Error "There are no free machines")
        ∧ count is_check effects = Z.to_nat maxAttemptCount
        ∧ count is_wait effects = Z.to_nat maxAttemptCount)
       ∨ (res ≠ inl (Error "There are no free machines")
          ∧ count is_check effects = S (count is_wait effects))).
Proof.
  destruct (waitForFreeMachines_from_budget this farm machineCount
              requestInterval maxAttemptCount
              (Z.to_nat maxAttemptCount) 0 [])
    as (res & d & Heq & Hcases).
  { f_equal. cbn. lia. }
  unfold run_M, waitForFreeMachines. rewrite Heq.
  exists res, (rev (d ++ [])%list). split; [reflexivity|].
  rewrite !count_rev, app_nil_r.
  destruct Hcases as [(Hres & Hc & Hw)|(Hres & Hc & Hle)].
  - split; [lia|]. left. repeat split; assumption.
  - split; [lia|]. right. split; assumption.
Qed.

Section MorePollingFacts.
Context (farm : Farm) (id : string).

(** [n] polls that do not see a running worker, from poll [a] on. *)
Lemma _getWorker_from_not_running (n : nat) :
  ∀ (a : nat) (log : list Action),
    (a + n <= S maxAttempts)%nat →
    (∀ i, (a <= i < a + n)%nat →
          is_running (resolve_res (getWorker farm id i)) = false) →
    _getWorker_from farm id a log
    = _getWorker_from farm id (a + n)
        (concat (repeat [AWait requestTimeout; AGetWorker id] n) ++ log)%list.
Proof.
  induction n as [|n IH]; intros a log Hle Hnot.
  - rewrite Nat.add_0_r. reflexivity.
  - rewrite _getWorker_from_equation_1.
    destruct (le_dec a maxAttempts); [|lia].
    cbn. unfold bind at 1, act. rewrite Hnot by lia.
    unfold bind, wait, act. rewrite IH; [|lia|intros i Hi; apply Hnot; lia].
    replace (S a + n)%nat with (a + S n)%nat by lia. f_equal.
    clear. induction n as [|n IHn]; [reflexivity|].
    cbn in *. rewrite IHn. reflexivity.
Qed.

(** The polling loop, whatever the farm answers: it returns, after no more
    polls than were left, and a worker it returns is one that a poll
    reported as running. *)
Lemma _getWorker_from_budget (r : nat) :
  ∀ (attempts : nat) (log : list Action),
    (S maxAttempts - attempts)%nat = r →
    ∃ res d,
      _getWorker_from farm id attempts log = (inr res, (d ++ log)%list)
      ∧ (count is_poll d <= r)%nat
      ∧ (count is_wait d <= count is_poll d)%nat
      ∧ Forall (λ a, a = AGetWorker id ∨ a = AWait requestTimeout) d
      ∧ (∀ w, res = Some w →
              w_status w = "running"
              ∧ ∃ k, (k <= maxAttempts)%nat ∧ getWorker farm id k = CbOk w).
Proof.
  induction r as [|r IH]; intros attempts log Hr.
  - rewrite _getWorker_from_equation_1.
    destruct (le_dec attempts maxAttempts); [lia|].
    exists None, []. cbn. split; [reflexivity|]. split; [lia|]. split; [lia|].
    split; [constructor|]. intros w H. discriminate.
  - rewrite _getWorker_from_equation_1.
    destruct (le_dec attempts maxAttempts) as [Hle|]; [|lia].
    cbn. unfold bind at 1, act.
    destruct (is_running (resolve_res (getWorker farm id attempts))) eqn:Hrun.
    + exists (resolve_res (getWorker farm id attempts)), [AGetWorker id].
      split; [reflexivity|]. cbn. split; [lia|]. split; [lia|].
      split; [repeat constructor; auto|]. intros w H.
      destruct (getWorker farm id attempts) as [e|w0] eqn:Hget; [discriminate|].
      cbn in *. injection H as <-. split; [apply String.eqb_eq; exact Hrun|].
      exists attempts. split; [exact Hle|exact Hget].
    + unfold bind, wait, act.
      destruct (IH (S attempts) (AWait requestTimeout :: AGetWorker id :: log))
        as (res & d & Heq & Hp & Hw & Hall & Hres); [lia|].
      rewrite Heq. exists res, (d ++ [AWait requestTimeout; AGetWorker id])%list.
      split; [rewrite <- app_assoc; reflexivity|].
      rewrite !count_app. cbn. split; [lia|]. split; [lia|].
      split; [|exact Hres].
      apply Forall_app. split; [exact Hall|].
      constructor; [right; reflexivity|].
      constructor; [left; reflexivity|constructor].
Qed.

End MorePollingFacts.

(** [X4] [getSessionUrl] returns at the first poll that reports the worker
    as running: when the polls before poll [n] do not (the worker is not
    running yet, or the request failed) and poll [n], one of the 31,
    does, the call resolves with that worker's [browser_url] after
    [n + 1] polls with a wait of 10 seconds between any two, and no wait
    after the last. *)
Theorem getSessionUrl_first_running_poll (farm : Farm) (id : string) (n : nat)
    (w : Worker) :
  (n <= 30)%nat →
  (∀ i, (i < n)%nat → is_running (resolve_res (getWorker farm id i)) = false) →
  getWorker farm id n = CbOk w →
  w_status w = "running" →
  run_M (getSessionUrl farm id)
  = (inr (browser_url w),
     (concat (repeat [AGetWorker id; AWait 10000] n) ++ [AGetWorker id])%list).
Proof.
  intros Hn Hnot Hw Hrun. unfold run_M, getSessionUrl, _getWorker, bind.
  rewrite (_getWorker_from_not_running farm id n 0 []);
    [|unfold maxAttempts; cbn; lia|intros i Hi; apply Hnot; lia].
  cbn [Nat.add]. rewrite _getWorker_from_equation_1.
  destruct (le_dec n maxAttempts); [|unfold maxAttempts in *; lia].
  cbn. unfold bind at 1, act. rewrite Hw. cbn. rewrite Hrun. cbn.
  f_equal. rewrite app_nil_r. clear.
  induction n as [|n IH]; [reflexivity|].
  cbn [repeat concat]. rewrite rev_app_distr. cbn.
  change (rev (concat (repeat [AWait requestTimeout; AGetWorker id] n)) ++ [AGetWorker id])%list
    with (rev (AGetWorker id :: concat (repeat [AWait requestTimeout; AGetWorker id] n))) in IH.
  cbn in IH. rewrite <- app_assoc. cbn.
  assert (Hshift : ∀ m (tl : list Action),
             (rev (concat (repeat [AWait requestTimeout; AGetWorker id] m))
                ++ tl)%list
             = (concat (repeat [AGetWorker id; AWait 10000] m) ++ tl)%list).
  { clear. induction m as [|m IHm]; intros tl; [reflexivity|].
    cbn [repeat concat]. rewrite rev_app_distr, <- app_assoc. cbn.
    rewrite IHm. clear. revert tl. induction m as [|m IHm]; intros tl.
    - reflexivity.
    - cbn. f_equal. f_equal. apply IHm. }
  rewrite Hshift. clear. induction n as [|n IHn]; [reflexivity|].
  cbn. f_equal. f_equal. exact IHn.
Qed.

(** A worker reported as queued, then a failed poll, then running. *)
Lemma getSessionUrl_first_running_poll_witness :
  run_M (getSessionUrl farm_worker_starting "w1")
  = (inr (Some "http://farm.example/w1"),
     [AGetWorker "w1"; AWait 10000; AGetWorker "w1"; AWait 10000;
      AGetWorker "w1"]).
Proof.
  apply (getSessionUrl_first_running_poll farm_worker_starting "w1" 2
           running_worker).
  - lia.
  - intros i Hi. destruct i as [|[|i]]; [reflexivity|reflexivity|lia].
  - reflexivity.
  - reflexivity.
Defined.

(** [X5] [getSessionUrl] never rejects, whatever the farm answers: failed
    polls are taken as 'not running yet'. It makes at most 31 polls, all
    for the given worker id, with waits of 10 seconds only, and a url it
    resolves with is the [browser_url] of a worker that one of the polls
    reported as running. *)
Theorem getSessionUrl_never_rejects (farm : Farm) (id : string) :
  ∃ url effects,
    run_M (getSessionUrl farm id) = (inr url, effects)
    ∧ (count is_poll effects <= 31)%nat
    ∧ (count is_wait effects <= count is_poll effects)%nat
    ∧ Forall (λ a, a = AGetWorker id ∨ a = AWait 10000) effects
    ∧ (∀ u, url = Some u →
            ∃ k w, (k <= 30)%nat ∧ getWorker farm id k = CbOk w
                   ∧ w_status w = "running" ∧ browser_url w = Some u).
Proof.
  destruct (_getWorker_from_budget farm id 31 0 [] eq_refl)
    as (res & d & Heq & Hp & Hw & Hall & Hres).
  unfold run_M, getSessionUrl, _getWorker, bind. rewrite Heq. cbn.
  eexists _, _. split; [reflexivity|].
  rewrite !count_rev, app_nil_r. repeat split; [exact Hp|exact Hw| |].
  - apply Forall_rev. exact Hall.
  - intros u Hu. destruct res as [w|]; [|discriminate].
    destruct (Hres w eq_refl) as (Hrun & k & Hk & Hget).
    exists k, w. repeat split; assumption.
Qed.

(** * Part 9: more about the session opener *)

(** [X6] At most one [terminateWorker] request per attempt, in every run
    of the event loop, whatever the order of callbacks, timers and
    notifications; and a request is only made for an attempt whose opening
    timer has fired. *)
Theorem terminateWorker_once_per_attempt (this : Connector) (hostname : string)
    (uid : nat → string) (evs : list Event) (st : State) (k : nat) :
  run this hostname uid initial evs = Some st →
  (terminate_calls k st <= 1)%nat
  ∧ (terminate_calls k st = 1%nat →
     ∃ a, attempts st !! k = Some a ∧ timeoutId a = Fired).
Proof.
  intros Hrun.
  assert (reachable this hostname uid st) as Hreach by (exists evs; exact Hrun).
  destruct (terminate_once_reachable this hostname uid st Hreach k)
    as [Hz|(Hone & Hfired)].
  - split; [lia|]. intros H. lia.
  - split; [lia|]. intros _. exact Hfired.
Qed.

Lemma terminateWorker_once_per_attempt_witness :
  (terminate_calls 0 (after scenario_timeout_after_worker) <= 1)%nat
  ∧ (terminate_calls 0 (after scenario_timeout_after_worker) = 1%nat →
     ∃ a, attempts (after scenario_timeout_after_worker) !! 0%nat = Some a
          ∧ timeoutId a = Fired).
Proof.
  apply (terminateWorker_once_per_attempt connector0 "localhost" uid0
           scenario_timeout_after_worker (after scenario_timeout_after_worker) 0).
  vm_compute. reflexivity.
Defined.

(** [X7] The timeout path as it is written: when the opening timer of an
    attempt fires while the worker is known and the body waits for the
    notification, the listener is removed, then one [terminateWorker]
    request is issued, for that worker's id; when it is answered, the
    waiter is rejected and the attempt fails with 'Browser starting
    timeout expired'. *)
Theorem opening_timeout_stops_worker (this : Connector) (hostname : string)
    (uid : nat → string) (st : State) (k : nat) (a : Attempt) (w : Worker)
    (time : Z) :
  attempts st !! k = Some a →
  timeoutId a = Armed → waitForUrlOpened a = Pending →
  worker a = WObj w → body a = AwaitUrlOpened →
  ∃ st1 st2 a2,
    step this hostname uid st (OpeningTimeout k) = Some st1
    ∧ st_log st1
      = ATerminateWorker k (w_id w) :: ARemoveListener "browser-opened" k :: st_log st
    ∧ step this hostname uid st1 (TerminateWorkerDone k (CbOk time)) = Some st2
    ∧ terminate_calls k st2 = S (terminate_calls k st)
    ∧ attempts st2 !! k = Some a2
    ∧ timeoutId a2 = Fired
    ∧ waitForUrlOpened a2 = Rejected (Str "Browser starting timeout expired")
    ∧ body a2 = Failed (Str "Browser starting timeout expired").
Proof.
  intros Hk Ht Hp Hw Hb.
  destruct (opening_timeout_after_worker this hostname uid st k a w time
              Hk Ht Hp Hw Hb)
    as (st1 & st2 & a2 & Hstep1 & _ & Hstep2 & Hcount & Hk2 & Hw2 & Hb2).
  exists st1, st2, a2. split; [exact Hstep1|].
  assert (st_log st1
          = ATerminateWorker k (w_id w) :: ARemoveListener "browser-opened" k
              :: st_log st) as Hlog.
  { cbn in Hstep1. unfold opening_timeout in Hstep1. rewrite Hk, Ht in Hstep1.
    cbn in Hstep1. rewrite Hw in Hstep1. injection Hstep1 as <-. reflexivity. }
  split; [exact Hlog|]. split; [exact Hstep2|]. split; [exact Hcount|].
  split; [exact Hk2|]. split; [|split; assumption].
  destruct (terminate_calls_opening_timeout k k a st st1 Hstep1 Hk)
    as (_ & _ & a1 & Hk1 & Ht1 & _).
  destruct (step_has_shape this hostname uid st1 st2 _ Hstep2) as (Hmoves & _ & _).
  destruct (Hmoves k a1 Hk1) as (a2' & Hk2' & (_ & _ & _ & Htm & _) & _).
  assert (a2' = a2) by congruence. subst a2'.
  destruct Htm as [Htm|[(Htm & _)|(Htm & _)]]; congruence.
Qed.

Lemma opening_timeout_stops_worker_witness :
  ∃ st1 st2 a2,
    step connector0 "localhost" uid0 (after scenario_awaiting_callback)
      (OpeningTimeout 0) = Some st1
    ∧ st_log st1
      = ATerminateWorker 0 "w1" :: ARemoveListener "browser-opened" 0
          :: st_log (after scenario_awaiting_callback)
    ∧ step connector0 "localhost" uid0 st1 (TerminateWorkerDone 0 (CbOk 42))
      = Some st2
    ∧ terminate_calls 0 st2
      = S (terminate_calls 0 (after scenario_awaiting_callback))
    ∧ attempts st2 !! 0%nat = Some a2
    ∧ timeoutId a2 = Fired
    ∧ waitForUrlOpened a2 = Rejected (Str "Browser starting timeout expired")
    ∧ body a2 = Failed (Str "Browser starting timeout expired").
Proof.
  apply (opening_timeout_stops_worker connector0 "localhost" uid0
           (after scenario_awaiting_callback) 0 attempt_awaiting_callback
           running_worker 42);
    [vm_compute; reflexivity | reflexivity | reflexivity | reflexivity
     | reflexivity].
Defined.

(** [X8] When the termination requested by the timeout function fails,
    [stopBrowser] rejects and the timeout function ends with an unhandled
    rejection before it rejects the waiter. The listener and the timer
    are gone by then, so from then on, whatever happens, the waiter
    stays pending, no second termination is requested, and the attempt
    and the call of [startBrowser] that runs it never end. *)
Theorem stop_failure_leaves_attempt_pending (this : Connector)
    (hostname : string) (uid : nat → string) (evs0 : list Event) (st : State)
    (k : nat) (a : Attempt) (w : Worker) (err : string) :
  run this hostname uid initial evs0 = Some st →
  attempts st !! k = Some a →
  timeoutId a = Armed → waitForUrlOpened a = Pending →
  worker a = WObj w → body a = AwaitUrlOpened →
  ∃ st1 st2,
    step this hostname uid st (OpeningTimeout k) = Some st1
    ∧ step this hostname uid st1 (TerminateWorkerDone k (CbErr err)) = Some st2
    ∧ In (AUnhandledRejection k (ClientErr err)) (st_log st2)
    ∧ ∀ evs st3,
        run this hostname uid st2 evs = Some st3 →
        terminate_calls k st3 = 1%nat
        ∧ ∃ a3, attempts st3 !! k = Some a3
                ∧ waitForUrlOpened a3 = Pending ∧ body a3 = AwaitUrlOpened
                ∧ ∃ call, calls st3 !! owner a3 = Some call
                          ∧ c_state call = Running k.
Proof.
  intros Hrun0 Hk Ht Hp Hw Hb.
  assert (reachable this hostname uid st) as Hreach by (exists evs0; exact Hrun0).
  pose proof (Inv_reachable this hostname uid st Hreach) as HInv.
  assert (k < length (attempts st))%nat as Hlt by (eapply lookup_lt_Some; eassumption).
  set (a1 := set_timeoutFn AwaitStopBrowser (set_timeoutId Fired a)).
  set (st1 := emit_action (ATerminateWorker k (w_id w))
                (put_attempt k a1 (removeListener "browser-opened" k st))).
  assert (step this hostname uid st (OpeningTimeout k) = Some st1) as Hstep1.
  { cbn. unfold opening_timeout. rewrite Hk, Ht. cbn. rewrite Hw. reflexivity. }
  assert (attempts st1 !! k = Some a1) as Hk1.
  { cbn. apply list_lookup_insert_eq. exact Hlt. }
  set (a2 := set_timeoutFn (Crashed (ClientErr err)) a1).
  set (st2 := emit_action (AUnhandledRejection k (ClientErr err))
                (put_attempt k a2 (lift (_log this err) st1))).
  assert (step this hostname uid st1 (TerminateWorkerDone k (CbErr err)) = Some st2)
    as Hstep2.
  { cbn -[st1]. unfold terminateWorker_done. rewrite Hk1. reflexivity. }
  assert (attempts st2 !! k = Some a2) as Hk2.
  { cbn. rewrite list_lookup_insert_eq; [reflexivity|].
    rewrite length_insert. exact Hlt. }
  exists st1, st2. split; [exact Hstep1|]. split; [exact Hstep2|].
  split; [left; reflexivity|].
  assert (terminate_calls k st = 0%nat) as Hzero.
  { destruct (terminate_once_reachable this hostname uid st Hreach k)
      as [Hz|(_ & a' & Hk' & Hf')]; [exact Hz | congruence]. }
  assert (terminate_calls k st2 = 1%nat) as Hone.
  { rewrite (terminate_calls_grows k st1 st2).
    - destruct (terminate_calls_opening_timeout k k a st st1 Hstep1 Hk)
        as (_ & Hcount & _).
      rewrite Nat.eqb_refl, Hw in Hcount. cbn [andb truthy] in Hcount. lia.
    - eapply (grows_step_tame this hostname uid st1); [|exact Hstep2].
      intros k0. discriminate. }
  assert (doomed k st2) as Hdoomed.
  { split.
    - intros event Hin.
      apply (removeListener_gone k st (inv_listeners st HInv) event). exact Hin.
    - exists a2. split; [exact Hk2|]. cbn. repeat split; [exact Hp|]. eauto. }
  assert (Inv st2) as HInv2.
  { eapply (Inv_step this hostname uid st1 st2); [|exact Hstep2].
    eapply (Inv_step this hostname uid st st1); [exact HInv|exact Hstep1]. }
  intros evs st3 Hrun.
  destruct (doomed_run this hostname uid k evs st2 st3 Hrun Hdoomed) as [_ Hcount3].
  split; [lia|].
  assert (body a2 = AwaitUrlOpened) as Hb2 by exact Hb.
  pose proof (parked_run this hostname uid k a2 evs st2 st3 Hrun Hdoomed Hk2 Hb2)
    as Hk3.
  exists a2. split; [exact Hk3|]. split; [exact Hp|]. split; [exact Hb2|].
  apply unsettled_call_running; [|exact Hk3|rewrite Hb2; exact I].
  apply (Inv_run this hostname uid evs st2 st3 HInv2 Hrun).
Qed.

Lemma stop_failure_leaves_attempt_pending_witness :
  ∃ st1 st2,
    step connector0 "localhost" uid0 (after scenario_awaiting_callback)
      (OpeningTimeout 0) = Some st1
    ∧ step connector0 "localhost" uid0 st1
        (TerminateWorkerDone 0 (CbErr "ECONNRESET")) = Some st2
    ∧ In (AUnhandledRejection 0 (ClientErr "ECONNRESET")) (st_log st2)
    ∧ ∀ evs st3,
        run connector0 "localhost" uid0 st2 evs = Some st3 →
        terminate_calls 0 st3 = 1%nat
        ∧ ∃ a3, attempts st3 !! 0%nat = Some a3
                ∧ waitForUrlOpened a3 = Pending ∧ body a3 = AwaitUrlOpened
                ∧ ∃ call, calls st3 !! owner a3 = Some call
                          ∧ c_state call = Running 0.
Proof.
  apply (stop_failure_leaves_attempt_pending connector0 "localhost" uid0
           scenario_awaiting_callback (after scenario_awaiting_callback) 0
           attempt_awaiting_callback running_worker "ECONNRESET");
    [vm_compute; reflexivity | vm_compute; reflexivity | reflexivity
     | reflexivity | reflexivity | reflexivity].
Defined.

(** * Part 10: the outcome of [startBrowser] *)

Lemma last_attempt_unique (st : State) (c k1 k2 : nat) (a1 a2 : Attempt) :
  last_attempt st c k1 a1 → last_attempt st c k2 a2 → k1 = k2 ∧ a1 = a2.
Proof.
  intros (H1 & Ho1 & Hl1) (H2 & Ho2 & Hl2).
  pose proof (Hl1 k2 a2 H2 Ho2). pose proof (Hl2 k1 a1 H1 Ho1).
  assert (k1 = k2) by lia. subst k2. split; [reflexivity | congruence].
Qed.

Lemma owned_zero (st : State) (c k : nat) (a : Attempt) :
  owned c st = 0%nat → attempts st !! k = Some a → owner a ≠ c.
Proof.
  unfold owned. intros Hz Hk Ho.
  assert (In a (List.filter (λ a, Nat.eqb (owner a) c) (attempts st))) as Hin.
  { apply List.filter_In. split.
    - apply list_elem_of_In. eapply list_elem_of_lookup_2. exact Hk.
    - apply Nat.eqb_eq. exact Ho. }
  destruct (List.filter _ _); [destruct Hin | discriminate].
Qed.

(** ** Frame lemmas *)

Lemma last_attempt_put (c k k0 : nat) (a a' x : Attempt) (st : State) :
  attempts st !! k = Some a → owner a' = owner a →
  last_attempt st c k0 x →
  ∃ x', last_attempt (put_attempt k a' st) c k0 x'
        ∧ ((k0 = k ∧ x = a ∧ x' = a') ∨ (k0 ≠ k ∧ x' = x)).
Proof.
  intros Hk Ho (Hx & Hc & Hlast).
  assert (k < length (attempts st))%nat as Hlt by (eapply lookup_lt_Some; eassumption).
  assert (∀ k' y, attempts (put_attempt k a' st) !! k' = Some y → owner y = c →
                  (k' <= k0)%nat) as Hlast'.
  { intros k' y Hy Hcy.
    destruct (lookup_put_attempt k k' a a' y st Hk Hy) as [[-> ->]|[_ Hy']].
    - apply (Hlast k a Hk). congruence.
    - apply (Hlast k' y Hy' Hcy). }
  destruct (decide (k0 = k)) as [->|Hne].
  - assert (x = a) by congruence. subst x. exists a'. split; [|left; auto].
    split; [|split; [congruence | exact Hlast']].
    cbn. apply list_lookup_insert_eq. exact Hlt.
  - exists x. split; [|right; auto].
    split; [|split; [exact Hc | exact Hlast']].
    cbn. rewrite list_lookup_insert_ne by congruence. exact Hx.
Qed.

Lemma call_story_put_attempt (c k : nat) (a a' : Attempt) (call : StartCall)
    (st : State) :
  attempts st !! k = Some a → owner a' = owner a →
  (owner a = c → same_story a a') →
  call_story st c call → call_story (put_attempt k a' st) c call.
Proof.
  intros Hk Ho Hsame [Hearlier Hstate].
  assert (∀ k0 x, last_attempt st c k0 x → k0 = k → same_story a a') as Hat.
  { intros k0 x (Hx & Hcx & _) ->. apply Hsame. congruence. }
  assert (∀ k0 x, last_attempt st c k0 x →
                  ∃ x', last_attempt (put_attempt k a' st) c k0 x'
                        ∧ ((k0 = k ∧ x = a ∧ x' = a') ∨ (k0 ≠ k ∧ x' = x)))
    as Hput by (intros k0 x; apply last_attempt_put; assumption).
  split.
  - intros k' y Hy Hcy.
    destruct (lookup_put_attempt k k' a a' y st Hk Hy) as [[-> ->]|[Hne Hy']].
    + destruct (Hsame ltac:(congruence)) as (_ & Hu & Hs & Hf).
      destruct (Hearlier k a Hk) as [[e He]|Hlast]; [congruence| |].
      * left. exists e. rewrite Hs; [exact He|]. rewrite He. auto.
      * right. destruct (Hput k a Hlast) as (x' & Hl' & [(_ & _ & ->)|(Hne & _)]);
          [exact Hl' | contradiction].
    + destruct (Hearlier k' y Hy' Hcy) as [Hfailed|Hlast]; [left; exact Hfailed|].
      right. destruct (Hput k' y Hlast) as (x' & Hl' & [(-> & _)|(_ & ->)]);
        [contradiction | exact Hl'].
  - rewrite (owned_put_attempt c k a a' st Hk Ho).
    destruct (c_state call) as [k0|v|e].
    + destruct Hstate as (x & Hlast & Hux).
      destruct (Hput k0 x Hlast) as (x' & Hl' & [(Hk0 & -> & ->)|(_ & ->)]).
      * destruct (Hat k0 a Hlast Hk0) as (_ & Hu & Hs & Hf). exists a'. auto.
      * exists x. auto.
    + destruct v as [| |w]; try exact Hstate.
      destruct Hstate as (k0 & x & Hlast & Hb & Hfx).
      destruct (Hput k0 x Hlast) as (x' & Hl' & [(Hk0 & -> & ->)|(_ & ->)]).
      * destruct (Hat k0 a Hlast Hk0) as (_ & Hu & Hs & Hf).
        exists k0, a'. split; [exact Hl'|]. split; [|auto].
        rewrite Hs; [exact Hb|]. rewrite Hb. auto.
      * exists k0, x. auto.
    + destruct Hstate as (k0 & x & error & Hlast & Hb & He & Hcount).
      destruct (Hput k0 x Hlast) as (x' & Hl' & [(Hk0 & -> & ->)|(_ & ->)]).
      * destruct (Hat k0 a Hlast Hk0) as (_ & Hu & Hs & Hf).
        exists k0, a', error. split; [exact Hl'|]. split; [|auto].
        rewrite Hs; [exact Hb|]. rewrite Hb. auto.
      * exists k0, x, error. auto.
Qed.

Lemma Story_put_attempt (k : nat) (a a' : Attempt) (st : State) :
  attempts st !! k = Some a → same_story a a' →
  Story st → Story (put_attempt k a' st).
Proof.
  intros Hk Hsame HS c call Hc. cbn in Hc.
  apply (call_story_put_attempt c k a a'); auto. apply Hsame.
Qed.

(** The story reads the attempts and the calls only. *)
Lemma call_story_same_attempts (c : nat) (call : StartCall) (st st' : State) :
  attempts st' = attempts st → call_story st c call → call_story st' c call.
Proof.
  intros Heq H. unfold call_story, earlier_failed, last_attempt, owned in *.
  rewrite Heq. exact H.
Qed.

Lemma Story_same (st st' : State) :
  attempts st' = attempts st → calls st' = calls st → Story st → Story st'.
Proof.
  intros Ha Hc HS c call Hcall. rewrite Hc in Hcall.
  apply (call_story_same_attempts c call st st' Ha). apply HS. exact Hcall.
Qed.

(** Starting an attempt of another call leaves the story of a call
    alone. *)
Lemma call_story_snoc (c : nat) (call : StartCall) (a : Attempt) (st st' : State) :
  attempts st' = (attempts st ++ [a])%list → owner a ≠ c →
  call_story st c call → call_story st' c call.
Proof.
  intros Heq Hne [Hearlier Hstate].
  assert (owned c st' = owned c st) as Hown.
  { unfold owned. rewrite Heq, filter_length_snoc.
    destruct (Nat.eqb_spec (owner a) c); [contradiction | lia]. }
  assert (∀ k x, last_attempt st c k x → last_attempt st' c k x) as Hlast.
  { intros k x (Hx & Hc & Hl). split; [|split; [exact Hc|]].
    - rewrite Heq. rewrite lookup_app_l by (eapply lookup_lt_Some; eassumption).
      exact Hx.
    - intros k' y Hy Hcy. rewrite Heq in Hy.
      destruct (lookup_snoc_inv _ _ _ _ Hy) as [Hy'|[_ ->]]; [|contradiction].
      apply (Hl k' y Hy' Hcy). }
  split.
  - intros k x Hx Hcx. rewrite Heq in Hx.
    destruct (lookup_snoc_inv _ _ _ _ Hx) as [Hx'|[_ ->]]; [|contradiction].
    destruct (Hearlier k x Hx' Hcx) as [Hf|Hl]; [left; exact Hf | right; auto].
  - rewrite Hown. destruct (c_state call) as [k0|v|e].
    + destruct Hstate as (x & Hl & Hu). exists x. auto.
    + destruct v as [| |w]; try exact Hstate.
      destruct Hstate as (k0 & x & Hl & H). exists k0, x. auto.
    + destruct Hstate as (k0 & x & error & Hl & H). exists k0, x, error. auto.
Qed.

(** ** Rewritings of an attempt that keep the stories *)

Lemma same_story_fields (a a' : Attempt) :
  owner a' = owner a → body a' = body a →
  (waitForUrlOpened a = Fulfilled → waitForUrlOpened a' = Fulfilled) →
  same_story a a'.
Proof.
  intros Ho Hb Hf. split; [exact Ho|]. rewrite Hb. auto.
Qed.

Lemma same_story_body (a : Attempt) (b : Body) :
  unsettled (body a) → unsettled b → same_story a (set_body b a).
Proof.
  intros Hu Hb. split; [reflexivity|]. cbn. split; [auto|]. split; [|auto].
  intros Hn. contradiction.
Qed.

Lemma same_story_Inv (a a' : Attempt) :
  same_story a a' →
  (unsettled (body a') → unsettled (body a))
  ∧ (∀ w', waitForUrlOpened a = Fulfilled → body a = Resolved w' →
           waitForUrlOpened a' = Fulfilled ∧ body a' = Resolved w').
Proof.
  intros (_ & Hu & Hs & Hf). split.
  - intros Hu'. destruct (body a) eqn:Hb; cbn; auto.
    + rewrite Hs in Hu' by (cbn; auto). exact Hu'.
    + rewrite Hs in Hu' by (cbn; auto). exact Hu'.
  - intros w' Hw Hb. split; [auto|]. rewrite Hs; [exact Hb|]. rewrite Hb. auto.
Qed.

Lemma Inv2_put_attempt (k : nat) (a a' : Attempt) (st : State) :
  Inv2 st → attempts st !! k = Some a → same_story a a' →
  Inv2 (put_attempt k a' st).
Proof.
  intros [HInv HS] Hk Hsame. destruct (same_story_Inv a a' Hsame) as [Hu Hkeep].
  split.
  - apply (Inv_put_attempt k a a'); auto. apply Hsame.
  - apply (Story_put_attempt k a a'); auto.
Qed.

Lemma Inv2_emit_action (x : Action) (st : State) : Inv2 st → Inv2 (emit_action x st).
Proof.
  intros [HInv HS]. split; [apply Inv_emit_action, HInv|].
  apply (Story_same st); auto.
Qed.

Lemma Inv2_lift (m : M unit) (st : State) : Inv2 st → Inv2 (lift m st).
Proof.
  intros [HInv HS]. split; [apply Inv_lift, HInv|].
  apply (Story_same st); auto.
Qed.

Lemma Inv2_removeListener (event : string) (k : nat) (st : State) :
  Inv2 st → Inv2 (removeListener event k st).
Proof.
  intros [HInv HS]. split; [apply Inv_removeListener, HInv|].
  apply (Story_same st); auto.
Qed.

Section StoryFacts.
Context (this : Connector) (hostname : string) (uid : nat → string).

(** The loop test of [startBrowser] re-establishes the stories. *)
Lemma Story_startBrowser_loop (c : nat) (call : StartCall) (st : State) :
  calls st !! c = Some call →
  (∀ c' call', c' ≠ c → calls st !! c' = Some call' → call_story st c' call') →
  story_ready st c call →
  Story (startBrowser_loop this hostname uid c st).
Proof.
  intros Hc Hothers (Hearlier & Hcase).
  assert (c < length (calls st))%nat as Hclt by (eapply lookup_lt_Some; eassumption).
  unfold startBrowser_loop. rewrite Hc.
  destruct (_ && _) eqn:Htest.
  - apply andb_prop in Htest as [Hlt Hfalsy].
    set (call1 := set_c_state _ _).
    unfold _startBrowser_begin. cbv zeta.
    set (a1 := mkAttempt _ _ _ _ _ _ _).
    assert (∀ k x, attempts st !! k = Some x → owner x = c → ∃ e, body x = Failed e)
      as Hfailed.
    { intros k x Hx Hcx.
      destruct Hcase as [(w & _ & _ & Hw & _)|[(_ & _ & Hzero & _)|
                         (error & kl & al & _ & _ & Hl & Hb & _)]].
      - rewrite Hw in Hfalsy. discriminate.
      - exfalso. apply (owned_zero st c k x Hzero Hx Hcx).
      - destruct (Hearlier k x Hx Hcx) as [Hf|Hl']; [exact Hf|].
        destruct (last_attempt_unique st c k kl x al Hl' Hl) as [_ ->]. eauto. }
    assert (last_attempt
              (emit_action (ACreateWorker (length (attempts (put_call c call1 st)))
                              (worker_settings this hostname call1
                                 (uid (length (attempts (put_call c call1 st))))))
                 (addListener "browser-opened" (length (attempts (put_call c call1 st)))
                    (emit_action (ASetTimeout (length (attempts (put_call c call1 st)))
                                    (c_openingTimeout call1))
                       (set_attempts (attempts (put_call c call1 st) ++ [a1])
                          (put_call c call1 st)))))
              c (length (attempts st)) a1) as Hlast1.
    { split; [|split; [reflexivity|]].
      - cbn. rewrite lookup_app_r by lia. rewrite Nat.sub_diag. reflexivity.
      - intros k' y Hy _. cbn in Hy. apply lookup_lt_Some in Hy.
        rewrite length_app in Hy. cbn in Hy. lia. }
    intros c0 call0 Hc0. cbn in Hc0.
    destruct (decide (c0 = c)) as [->|Hne].
    + rewrite list_lookup_insert_eq in Hc0 by assumption.
      injection Hc0 as <-. split.
      * intros k x Hx Hcx. cbn in Hx.
        destruct (lookup_snoc_inv _ _ _ _ Hx) as [Hx'|[-> ->]].
        -- left. apply (Hfailed k x Hx' Hcx).
        -- right. exact Hlast1.
      * cbn [c_state call1 set_c_state]. exists a1. split; [exact Hlast1 | exact I].
    + rewrite list_lookup_insert_ne in Hc0 by congruence.
      apply (call_story_snoc c0 call0 a1 st); [reflexivity | cbn; congruence |].
      apply Hothers; assumption.
  - assert (∀ call2, (∀ c0 call0, c0 ≠ c → calls (put_call c call2 st) !! c0 = Some call0 →
                                  call_story (put_call c call2 st) c0 call0)) as Hrest.
    { intros call2 c0 call0 Hne Hc0. cbn in Hc0.
      rewrite list_lookup_insert_ne in Hc0 by congruence.
      apply (call_story_same_attempts c0 call0 st); [reflexivity|].
      apply Hothers; assumption. }
    assert (∀ call2, call_story st c call2 → Story (put_call c call2 st)) as Hput.
    { intros call2 Hstory c0 call0 Hc0.
      destruct (decide (c0 = c)) as [->|Hne]; [|apply (Hrest call2); assumption].
      cbn in Hc0. rewrite list_lookup_insert_eq in Hc0 by assumption.
      injection Hc0 as <-.
      apply (call_story_same_attempts c call2 st); [reflexivity | exact Hstory]. }
    destruct (c_error call) as [e|] eqn:He.
    + apply Hput. split; [exact Hearlier|]. cbn.
      destruct Hcase as [(w & kl & al & _ & Hnone & _)|[(_ & Hnone & _)|
                         (error & kl & al & Hw & Herr & Hl & Hb & Hcount & Hle)]];
        try congruence.
      assert (error = e) by congruence. subst error.
      exists kl, al, e. repeat split; try apply Hl; [exact Hb|].
      rewrite Hw in Htest. cbn in Htest. rewrite andb_true_r in Htest.
      apply Z.ltb_ge in Htest. lia.
    + apply Hput. split; [exact Hearlier|]. cbn.
      destruct Hcase as [(w & kl & al & Hw & _ & Hl & Hb & Hf)|[(Hw & _ & Hzero & Hatt)|
                         (error & kl & al & _ & Herr & _)]]; try congruence.
      * rewrite Hw. exists kl, al. auto.
      * rewrite Hw. split; [exact Hzero|].
        rewrite Hw, Hatt in Htest. cbn in Htest. rewrite andb_true_r in Htest.
        apply Z.ltb_ge in Htest. lia.
Qed.

(** An attempt whose body has not ended may end; with a worker only if its
    waiter is fulfilled. *)
Lemma Inv2_settle (k : nat) (a : Attempt) (r : JsError + Worker) (st : State) :
  Inv2 st → attempts st !! k = Some a → unsettled (body a) →
  (∀ w, r = inr w → waitForUrlOpened a = Fulfilled) →
  Inv2 (settle this hostname uid k r st).
Proof.
  intros [HInv HS] Hk Hu Hful.
  split; [apply (Inv_settle this hostname uid k a); assumption|].
  pose proof HInv as [Hcalls Hown Hlis].
  unfold settle. rewrite Hk. cbv zeta.
  set (a' := set_body _ a).
  assert (owner a' = owner a) as Ho by reflexivity.
  destruct (lookup_lt_is_Some_2 (calls st) (owner a) (Hown k a Hk)) as [call Hcall].
  change (calls (put_attempt k a' st)) with (calls st). rewrite Hcall.
  destruct (Hcalls _ _ Hcall) as [[Hmax Hok] Hlinks].
  pose proof (Hlinks k a Hk eq_refl Hu) as Hrunning.
  rewrite Hrunning in Hok. destruct Hok as (Hcount & Hlt & Herr & Hwn).
  destruct (HS _ _ Hcall) as [Hearlier Hstate]. rewrite Hrunning in Hstate.
  destruct Hstate as (a0 & Hlast & _).
  assert (a0 = a) by (destruct Hlast as [H _]; congruence). subst a0.
  set (call' := match r with inl _ => _ | inr _ => _ end).
  assert (owner a < length (calls st))%nat as Hclt by (apply (Hown k a Hk)).
  destruct (last_attempt_put (owner a) k k a a' a st Hk Ho Hlast)
    as (x' & Hlast' & [(_ & _ & ->)|(Hne & _)]); [|contradiction].
  apply (Story_startBrowser_loop (owner a) call').
  - cbn. apply list_lookup_insert_eq. exact Hclt.
  - intros c' call0 Hne Hc0. cbn in Hc0.
    rewrite list_lookup_insert_ne in Hc0 by congruence.
    apply (call_story_same_attempts c' call0 (put_attempt k a' st)); [reflexivity|].
    apply (call_story_put_attempt c' k a a'); [exact Hk | exact Ho | | apply HS; exact Hc0].
    intros Hc'. congruence.
  - assert (earlier_failed (put_call (owner a) call' (put_attempt k a' st)) (owner a))
      as Hearlier'.
    { intros k' x Hx Hcx. cbn in Hx.
      destruct (lookup_put_attempt k k' a a' x st Hk Hx) as [[-> ->]|[Hne Hx']].
      - right. exact Hlast'.
      - destruct (Hearlier k' x Hx' Hcx) as [Hf|Hl]; [left; exact Hf|].
        destruct (last_attempt_unique st (owner a) k' k x a Hl Hlast) as [-> _].
        contradiction. }
    split; [exact Hearlier'|].
    assert (owned (owner a) (put_call (owner a) call' (put_attempt k a' st))
            = S (c_attempt call)) as Hcount'.
    { rewrite <- Hcount. apply (owned_put_attempt (owner a) k a a' st Hk Ho). }
    destruct r as [e|w].
    + right. right. exists e, k, a'. subst call'. cbn.
      repeat split; try apply Hlast'; [exact Hwn | exact Hcount' | lia].
    + left. exists w, k, a'. subst call'. cbn.
      repeat split; try apply Hlast'; [exact Herr|]. apply (Hful w eq_refl).
Qed.

Lemma Inv2_after_urlOpened (k : nat) (a : Attempt) (st : State) :
  Inv2 st → attempts st !! k = Some a → unsettled (body a) →
  waitForUrlOpened a = Fulfilled →
  Inv2 (after_urlOpened this hostname uid k st).
Proof.
  intros HI Hk Hu Hf. unfold after_urlOpened. rewrite Hk.
  destruct (worker a) as [| |w].
  - apply (Inv2_settle k a); auto.
  - apply (Inv2_settle k a); auto.
  - apply (Inv2_settle k a); auto. apply Inv2_lift. exact HI.
Qed.

Lemma Inv2_await_urlOpened (k : nat) (a : Attempt) (st : State) :
  Inv2 st → attempts st !! k = Some a → unsettled (body a) →
  Inv2 (await_urlOpened this hostname uid k st).
Proof.
  intros HI Hk Hu. unfold await_urlOpened. rewrite Hk. cbv zeta.
  set (a' := set_body AwaitUrlOpened a).
  assert (Inv2 (put_attempt k a' st)) as HI'.
  { apply (Inv2_put_attempt k a a'); auto. apply same_story_body; [exact Hu | exact I]. }
  assert (attempts (put_attempt k a' st) !! k = Some a') as Hk'.
  { cbn. apply list_lookup_insert_eq. eapply lookup_lt_Some; eassumption. }
  destruct (waitForUrlOpened a) eqn:Hp.
  - exact HI'.
  - apply (Inv2_after_urlOpened k a'); auto. exact I.
  - apply (Inv2_settle k a'); auto. exact I. discriminate.
Qed.

Lemma Inv2_resume_urlOpened (st : State) (k : nat) :
  Inv2 st → Inv2 (resume_urlOpened this hostname uid st k).
Proof.
  intros HI. unfold resume_urlOpened.
  destruct (attempts st !! k) as [a|] eqn:Hk; [|exact HI].
  destruct (body a) eqn:Hb; try exact HI.
  apply (Inv2_await_urlOpened k a); auto. rewrite Hb. exact I.
Qed.

Lemma Inv2_getWorker_test (k : nat) (id : string) (n : nat) (a : Attempt)
    (st : State) :
  Inv2 st → attempts st !! k = Some a → unsettled (body a) →
  Inv2 (_getWorker_test this hostname uid k id n st).
Proof.
  intros HI Hk Hu. unfold _getWorker_test. rewrite Hk.
  destruct (n <=? maxAttempts)%nat.
  - apply Inv2_emit_action. apply (Inv2_put_attempt k a); auto.
    apply same_story_body; [exact Hu | exact I].
  - apply (Inv2_await_urlOpened k (set_worker WUndefined a)).
    + apply (Inv2_put_attempt k a); auto. apply same_story_fields; auto.
    + cbn. apply list_lookup_insert_eq. eapply lookup_lt_Some; eassumption.
    + exact Hu.
Qed.

Lemma Inv2_hubHandler (st : State) (k : nat) (id : string) :
  Inv2 st → Inv2 (hubHandler st k id).
Proof.
  intros HI. unfold hubHandler.
  destruct (attempts st !! k) as [a|] eqn:Hk; [|exact HI].
  destruct (String.eqb id (browserId a)); [|exact HI]. cbv zeta.
  apply (Inv2_put_attempt k a).
  - apply Inv2_emit_action, Inv2_removeListener, HI.
  - exact Hk.
  - apply same_story_fields.
    + destruct (timeoutId a); cbn; destruct (waitForUrlOpened a); reflexivity.
    + destruct (timeoutId a); cbn; destruct (waitForUrlOpened a); reflexivity.
    + intros Hf. destruct (timeoutId a); cbn; rewrite Hf; cbn; exact Hf.
Qed.

Lemma Inv2_foldl {A} (f : State → A → State) (l : list A) :
  (∀ st x, Inv2 st → Inv2 (f st x)) →
  ∀ st, Inv2 st → Inv2 (foldl f st l).
Proof.
  intros Hf. induction l as [|x l IH]; intros st HI; cbn; [exact HI|].
  apply IH, Hf, HI.
Qed.

Lemma Inv2_emit (event arg : string) (st : State) :
  Inv2 st → Inv2 (emit event arg st).
Proof.
  intros HI. unfold emit.
  apply (Inv2_foldl (λ st k, hubHandler st k arg)); [|exact HI].
  intros st' k. apply Inv2_hubHandler.
Qed.

Lemma Inv2_after_emit (hs : list nat) (st : State) :
  Inv2 st → Inv2 (after_emit this hostname uid hs st).
Proof.
  intros HI. unfold after_emit.
  apply Inv2_foldl; [|exact HI]. intros st' k. apply Inv2_resume_urlOpened.
Qed.

Lemma Inv2_hub_request (req : Request) (st : State) :
  Inv2 st → Inv2 (hub_request this hostname uid req st).
Proof.
  intros HI. unfold hub_request.
  destruct (match_route req) as [id|].
  - apply Inv2_after_emit, Inv2_emit_action, Inv2_emit, HI.
  - apply Inv2_emit_action, HI.
Qed.

Lemma owned_fresh (c : nat) (st : State) :
  (∀ k a, attempts st !! k = Some a → owner a ≠ c) → owned c st = 0%nat.
Proof.
  intros Hfresh. unfold owned.
  assert (∀ l : list Attempt,
            (∀ a, In a l → owner a ≠ c) →
            length (List.filter (λ a, owner a =? c)%nat l) = 0%nat) as Hzero.
  { induction l as [|x l IH]; intros Hl; [reflexivity|]. cbn.
    destruct (Nat.eqb_spec (owner x) c) as [He|_].
    - exfalso. apply (Hl x); [left; reflexivity | exact He].
    - apply IH. intros y Hy. apply Hl. right. exact Hy. }
  apply Hzero. intros a Ha.
  apply list_elem_of_In in Ha. apply list_elem_of_lookup in Ha as [k Hk].
  apply (Hfresh k a Hk).
Qed.

Lemma Inv2_startBrowser (browserSettings : BrowserSettings) (url : string)
    (job : JobInfo) (options : StartOptions) (st : State) :
  Inv2 st → Inv2 (startBrowser this hostname uid browserSettings url job options st).
Proof.
  intros [HInv HS]. split; [apply Inv_startBrowser, HInv|].
  pose proof HInv as [Hcalls Hown Hlis]. unfold startBrowser. cbv zeta.
  set (call := mkStartCall _ _ _ _ _ _ _ _ _ _).
  assert (∀ k a, attempts st !! k = Some a → owner a ≠ length (calls st)) as Hfresh.
  { intros k a Hk. pose proof (Hown k a Hk). lia. }
  apply (Story_startBrowser_loop (length (calls st)) call).
  - cbn. rewrite lookup_app_r by lia. rewrite Nat.sub_diag. reflexivity.
  - intros c' call' Hne Hc'. cbn in Hc'.
    destruct (lookup_snoc_inv _ _ _ _ Hc') as [Hc0|[-> _]]; [|contradiction].
    apply (call_story_same_attempts c' call' st); [reflexivity|].
    apply HS. exact Hc0.
  - split.
    + intros k a Hk Ho. cbn in Hk. exfalso. apply (Hfresh k a Hk Ho).
    + right. left. cbn. repeat split.
      apply (owned_fresh (length (calls st)) (set_calls (calls st ++ [call]) st)).
      exact Hfresh.
Qed.

(** Every turn of the event loop keeps the invariant and the stories. *)
Lemma Inv2_step (st st' : State) (ev : Event) :
  Inv2 st → step this hostname uid st ev = Some st' → Inv2 st'.
Proof.
  intros HI Hstep. destruct ev as [bs url job options|k cb|k cb|k|k|k cb|req|event arg];
    cbn in Hstep.
  - injection Hstep as <-. apply Inv2_startBrowser, HI.
  - unfold createWorker_done in Hstep.
    destruct (attempts st !! k) as [a|] eqn:Hk; [|discriminate].
    destruct (body a) eqn:Hb; try discriminate.
    destruct cb as [err|workerId]; injection Hstep as <-.
    + apply (Inv2_settle k a); auto.
      * apply Inv2_lift, HI.
      * rewrite Hb. exact I.
      * discriminate.
    + apply (Inv2_getWorker_test k workerId 0 a); auto. rewrite Hb. exact I.
  - unfold getWorker_done in Hstep.
    destruct (attempts st !! k) as [a|] eqn:Hk; [|discriminate].
    destruct (body a) eqn:Hb; try discriminate. cbv zeta in Hstep.
    assert (unsettled (body a)) as Hu by (rewrite Hb; exact I).
    destruct (is_running (resolve_res cb)); injection Hstep as <-.
    + apply (Inv2_await_urlOpened k (set_worker (of_option (resolve_res cb)) a)).
      * apply (Inv2_put_attempt k a); auto. apply same_story_fields; auto.
      * cbn. apply list_lookup_insert_eq. eapply lookup_lt_Some; eassumption.
      * exact Hu.
    + apply Inv2_emit_action. apply (Inv2_put_attempt k a); auto.
      apply same_story_body; [exact Hu | exact I].
  - unfold wait_done in Hstep.
    destruct (attempts st !! k) as [a|] eqn:Hk; [|discriminate].
    destruct (body a) eqn:Hb; try discriminate. injection Hstep as <-.
    apply (Inv2_getWorker_test k workerId attempts0 a); auto. rewrite Hb. exact I.
  - unfold opening_timeout in Hstep.
    destruct (attempts st !! k) as [a|] eqn:Hk; [|discriminate].
    destruct (timeoutId a) eqn:Ht; try discriminate. cbv zeta in Hstep.
    assert (∀ fn, Inv2 (put_attempt k (set_timeoutFn fn (set_timeoutId Fired a))
                          (removeListener "browser-opened" k st))) as Hput.
    { intros fn. apply (Inv2_put_attempt k a); auto.
      - apply Inv2_removeListener, HI.
      - apply same_story_fields; auto. }
    cbn in Hstep. destruct (worker a); injection Hstep as <-;
      apply Inv2_emit_action, Hput.
  - unfold terminateWorker_done in Hstep.
    destruct (attempts st !! k) as [a|] eqn:Hk; [|discriminate].
    destruct (timeoutFn a) eqn:Ht; try discriminate.
    destruct cb as [err|time]; injection Hstep as <-.
    + apply Inv2_emit_action. apply (Inv2_put_attempt k a); auto.
      * apply Inv2_lift, HI.
      * apply same_story_fields; auto.
    + apply Inv2_resume_urlOpened. apply (Inv2_put_attempt k a); auto.
      apply same_story_fields.
      * cbn. destruct (waitForUrlOpened a); reflexivity.
      * cbn. destruct (waitForUrlOpened a); reflexivity.
      * intros Hf. cbn. rewrite Hf. cbn. exact Hf.
  - injection Hstep as <-. apply Inv2_hub_request, HI.
  - injection Hstep as <-. apply Inv2_after_emit, Inv2_emit, HI.
Qed.

Lemma Inv2_initial : Inv2 initial.
Proof.
  split; [apply Inv_initial|]. intros c call Hc. cbn in Hc. discriminate.
Qed.

Lemma Inv2_run (evs : list Event) :
  ∀ st st', Inv2 st → run this hostname uid st evs = Some st' → Inv2 st'.
Proof.
  induction evs as [|ev evs IH]; intros st st' HI Hrun; cbn in Hrun.
  - injection Hrun as <-. exact HI.
  - destruct (step this hostname uid st ev) as [st1|] eqn:Hstep; [|discriminate].
    apply (IH st1 st'); [|exact Hrun]. apply (Inv2_step st st1 ev); assumption.
Qed.

End StoryFacts.

(** ** What the stories say about every run *)

Lemma Story_run (this : Connector) (hostname : string) (uid : nat → string)
    (evs : list Event) (st : State) :
  run this hostname uid initial evs = Some st → Inv st ∧ Story st.
Proof. intros Hrun. apply (Inv2_run this hostname uid evs initial st Inv2_initial Hrun). Qed.

Lemma one_request_each_run (this : Connector) (hostname : string)
    (uid : nat → string) (evs : list Event) (st : State) :
  run this hostname uid initial evs = Some st → one_request_each st.
Proof.
  intros Hrun.
  apply (grows_one_request_each initial st (grows_run this hostname uid evs _ _ Hrun)).
  reflexivity.
Qed.

(** [X9] The outcome of a call of [startBrowser] is that of its last
    attempt, in every run: the call is waiting while its last attempt is
    in flight; it has returned the worker its last attempt ended with; and
    when its last attempt has failed without a new one being started, it
    has thrown 'Unable to start browser <name> due to: <error of that
    attempt>', having issued exactly [maxAttepts] [createWorker]
    requests. *)
Theorem startBrowser_outcome_by_last_attempt (this : Connector)
    (hostname : string) (uid : nat → string) (evs : list Event) (st : State)
    (c : nat) (call : StartCall) (k : nat) (a : Attempt) :
  run this hostname uid initial evs = Some st →
  calls st !! c = Some call →
  last_attempt st c k a →
  match body a with
  | Resolved w => c_state call = Returned (WObj w)
  | Failed e =>
      c_state call
      = Threw (Error ("Unable to start browser "
                        ++ show (bs_name (c_browserSettings call))
                        ++ " due to: " ++ error_to_string e))
      ∧ Z.of_nat (create_calls c st) = c_maxAttepts call
  | _ => c_state call = Running k
  end.
Proof.
  intros Hrun Hc Hlast.
  destruct (Story_run this hostname uid evs st Hrun) as [HInv HS].
  rewrite (create_calls_owned c st (one_request_each_run this hostname uid evs st Hrun)).
  destruct (HS c call Hc) as [_ Hstate].
  destruct (c_state call) as [k0|v|e].
  - destruct Hstate as (a0 & Hl0 & Hu).
    destruct (last_attempt_unique st c k0 k a0 a Hl0 Hlast) as [-> ->].
    destruct (body a); try reflexivity; contradiction.
  - destruct v as [| |w].
    + destruct Hstate as [Hzero _]. destruct Hlast as (Hk & Ho & _).
      exfalso. apply (owned_zero st c k a Hzero Hk Ho).
    + destruct Hstate as [Hzero _]. destruct Hlast as (Hk & Ho & _).
      exfalso. apply (owned_zero st c k a Hzero Hk Ho).
    + destruct Hstate as (k0 & a0 & Hl0 & Hb & _).
      destruct (last_attempt_unique st c k0 k a0 a Hl0 Hlast) as [-> ->].
      rewrite Hb. reflexivity.
  - destruct Hstate as (k0 & a0 & error & Hl0 & Hb & -> & Hcount).
    destruct (last_attempt_unique st c k0 k a0 a Hl0 Hlast) as [-> ->].
    rewrite Hb. split; [reflexivity | exact Hcount].
Qed.

(** [scenario_second_attempt]: the second attempt is the last one and is
    confirmed, and the call has returned its worker. *)
Lemma startBrowser_outcome_by_last_attempt_witness :
  ∃ call, calls (after scenario_second_attempt) !! 0%nat = Some call
          ∧ c_state call = Returned (WObj running_worker).
Proof.
  eexists. split; [vm_compute; reflexivity|].
  apply (startBrowser_outcome_by_last_attempt connector0 "localhost" uid0
           scenario_second_attempt (after scenario_second_attempt) 0 _ 1
           second_attempt_confirmed).
  - vm_compute. reflexivity.
  - vm_compute. reflexivity.
  - split; [vm_compute; reflexivity|]. split; [reflexivity|].
    intros k' a' Hk' _. apply lookup_lt_Some in Hk'. vm_compute in Hk'. lia.
Defined.

(** [X10] A call of [startBrowser] throws only when its attempts are used
    up: in every run, a call that has thrown has issued exactly
    [maxAttepts] [createWorker] requests, every one of its attempts has
    failed, and the error it throws is built from the browser name and
    the error of its last attempt. *)
Theorem startBrowser_throws_after_all_attempts (this : Connector)
    (hostname : string) (uid : nat → string) (evs : list Event) (st : State)
    (c : nat) (call : StartCall) (e : JsError) :
  run this hostname uid initial evs = Some st →
  calls st !! c = Some call →
  c_state call = Threw e →
  Z.of_nat (create_calls c st) = c_maxAttepts call
  ∧ (∀ k a, attempts st !! k = Some a → owner a = c → ∃ e', body a = Failed e')
  ∧ ∃ k a error,
      last_attempt st c k a ∧ body a = Failed error
      ∧ e = Error ("Unable to start browser "
                     ++ show (bs_name (c_browserSettings call))
                     ++ " due to: " ++ error_to_string error).
Proof.
  intros Hrun Hc He.
  destruct (Story_run this hostname uid evs st Hrun) as [HInv HS].
  rewrite (create_calls_owned c st (one_request_each_run this hostname uid evs st Hrun)).
  destruct (HS c call Hc) as [Hearlier Hstate]. rewrite He in Hstate.
  destruct Hstate as (k0 & a0 & error & Hl0 & Hb & -> & Hcount).
  split; [exact Hcount|]. split.
  - intros k a Hk Ho. destruct (Hearlier k a Hk Ho) as [Hf|Hl]; [exact Hf|].
    destruct (last_attempt_unique st c k k0 a a0 Hl Hl0) as [_ ->]. eauto.
  - exists k0, a0, error. auto.
Qed.

(** [scenario_all_attempts_fail]: three attempts with the default budget,
    the last one failing with another error than the first two. *)
Lemma startBrowser_throws_after_all_attempts_witness :
  ∃ call,
    calls (after scenario_all_attempts_fail) !! 0%nat = Some call
    ∧ Z.of_nat (create_calls 0 (after scenario_all_attempts_fail))
      = c_maxAttepts call
    ∧ (∀ k a, attempts (after scenario_all_attempts_fail) !! k = Some a →
              owner a = 0%nat → ∃ e', body a = Failed e')
    ∧ ∃ k a error,
        last_attempt (after scenario_all_attempts_fail) 0 k a
        ∧ body a = Failed error
        ∧ Error "Unable to start browser chrome due to: no such browser"
          = Error ("Unable to start browser "
                     ++ show (bs_name (c_browserSettings call))
                     ++ " due to: " ++ error_to_string error).
Proof.
  eexists. split; [vm_compute; reflexivity|].
  apply (startBrowser_throws_after_all_attempts connector0 "localhost" uid0
           scenario_all_attempts_fail (after scenario_all_attempts_fail) 0 _
           (Error "Unable to start browser chrome due to: no such browser")).
  - vm_compute. reflexivity.
  - vm_compute. reflexivity.
  - vm_compute. reflexivity.
Defined.

(** [X11] The attempts of a call are made one after the other: in every
    run, when a call has started a later attempt, each of its earlier
    attempts has failed; so at most one attempt of a call is in flight,
    and none is started after one that was confirmed. *)
Theorem startBrowser_attempts_sequential (this : Connector) (hostname : string)
    (uid : nat → string) (evs : list Event) (st : State) (k1 k2 : nat)
    (a1 a2 : Attempt) :
  run this hostname uid initial evs = Some st →
  attempts st !! k1 = Some a1 → attempts st !! k2 = Some a2 →
  owner a1 = owner a2 → (k1 < k2)%nat →
  ∃ e, body a1 = Failed e.
Proof.
  intros Hrun Hk1 Hk2 Ho Hlt.
  destruct (Story_run this hostname uid evs st Hrun) as [HInv HS].
  destruct (lookup_lt_is_Some_2 (calls st) (owner a1) (inv_owner st HInv k1 a1 Hk1))
    as [call Hcall].
  destruct (HS _ _ Hcall) as [Hearlier _].
  destruct (Hearlier k1 a1 Hk1 eq_refl) as [Hf|(_ & _ & Hlast)]; [exact Hf|].
  pose proof (Hlast k2 a2 Hk2 (eq_sym Ho)). lia.
Qed.

Lemma startBrowser_attempts_sequential_witness :
  ∃ e, body first_attempt_failed = Failed e.
Proof.
  apply (startBrowser_attempts_sequential connector0 "localhost" uid0
           scenario_second_attempt (after scenario_second_attempt) 0 1
           first_attempt_failed second_attempt_confirmed).
  - vm_compute. reflexivity.
  - vm_compute. reflexivity.
  - vm_compute. reflexivity.
  - reflexivity.
  - lia.
Defined.

(** ** The notification path *)

(** The handler calls of a notification that carries the id of a waiting
    attempt, on an event its handler is registered for: the waiter is
    fulfilled and the timer cleared; body and worker are not touched. *)
Lemma emit_own_id_clears (event : string) (st : State) (k : nat) (a : Attempt) :
  attempts st !! k = Some a →
  waitForUrlOpened a = Pending → timeoutId a = Armed →
  In k (handlers_of event st) →
  ∃ a', attempts (emit event (browserId a) st) !! k = Some a'
        ∧ waitForUrlOpened a' = Fulfilled ∧ timeoutId a' = Cleared
        ∧ body a' = body a ∧ worker a' = worker a ∧ owner a' = owner a.
Proof.
  intros Hk Hp Ht Hin. unfold emit.
  assert ((waitForUrlOpened a = Fulfilled ∧ timeoutId a = Cleared)
          ∨ (waitForUrlOpened a = Pending ∧ timeoutId a = Armed
             ∧ In k (handlers_of event st))) as Hcase by auto.
  clear Hp Ht Hin. revert Hcase. generalize (handlers_of event st) as hs. intros hs.
  remember (browserId a) as id eqn:Hid.
  remember (body a) as bd eqn:Hbd. remember (worker a) as wk eqn:Hwk.
  remember (owner a) as ow eqn:How.
  revert st a Hk Hid Hbd Hwk How.
  induction hs as [|k' hs IH]; intros st a Hk Hid Hbd Hwk How Hcase; cbn.
  - destruct Hcase as [[Hf Hc]|(_ & _ & [])]. exists a.
    repeat split; congruence.
  - destruct (decide (k = k')) as [<-|Hne].
    + unfold hubHandler at 2. rewrite Hk, <- Hid, String.eqb_refl. cbv zeta.
      set (a' := match waitForUrlOpened _ with Pending => _ | _ => _ end).
      apply (IH _ a').
      * cbn. apply list_lookup_insert_eq. eapply lookup_lt_Some; eassumption.
      * subst a'. destruct (timeoutId a); cbn; destruct (waitForUrlOpened a);
          exact Hid.
      * subst a'. destruct (timeoutId a); cbn; destruct (waitForUrlOpened a);
          exact Hbd.
      * subst a'. destruct (timeoutId a); cbn; destruct (waitForUrlOpened a);
          exact Hwk.
      * subst a'. destruct (timeoutId a); cbn; destruct (waitForUrlOpened a);
          exact How.
      * left. subst a'. clear IH Hk Hid Hbd Hwk How.
        destruct a as [o b w t p bd0 tf]; cbn in *.
        destruct Hcase as [[Hf Hc]|(Hp & Ht & _)]; subst p t; auto.
    + apply (IH _ a); try assumption.
      * rewrite hubHandler_other_attempt by exact Hne. exact Hk.
      * destruct Hcase as [Hf|(Hp & Ht & [Hin|Hin])]; auto. congruence.
Qed.

Section NotificationFacts.
Context (this : Connector) (hostname : string) (uid : nat → string).

(** A cleared timer stays cleared. *)
Lemma cleared_run (k : nat) (evs : list Event) :
  ∀ st st' a,
    run this hostname uid st evs = Some st' →
    attempts st !! k = Some a → timeoutId a = Cleared →
    ∃ a', attempts st' !! k = Some a' ∧ timeoutId a' = Cleared.
Proof.
  induction evs as [|ev evs IH]; intros st st' a Hrun Hk Hc; cbn in Hrun.
  - injection Hrun as <-. eauto.
  - destruct (step this hostname uid st ev) as [st1|] eqn:Hstep; [|discriminate].
    destruct (step_has_shape this hostname uid st st1 ev Hstep) as (Hmoves & _ & _).
    destruct (Hmoves k a Hk) as (a1 & Hk1 & (_ & _ & _ & Ht & _) & _).
    apply (IH st1 st' a1 Hrun Hk1).
    destruct Ht as [Ht|[(Ht & _)|(Ht & _)]]; congruence.
Qed.

Lemma terminate_once_run (evs : list Event) :
  ∀ st st', run this hostname uid st evs = Some st' →
            terminate_once st → terminate_once st'.
Proof.
  induction evs as [|ev evs IH]; intros st st' Hrun Hone; cbn in Hrun.
  - injection Hrun as <-. exact Hone.
  - destruct (step this hostname uid st ev) as [st1|] eqn:Hstep; [|discriminate].
    apply (IH st1 st' Hrun).
    apply (terminate_once_step this hostname uid st st1 ev Hstep Hone).
Qed.

(** A call whose attempt has ended with a worker has returned it. *)
Lemma resolved_attempt_returned (st : State) (k : nat) (a : Attempt) (w : Worker) :
  Inv st → Story st → attempts st !! k = Some a → body a = Resolved w →
  ∃ call, calls st !! owner a = Some call ∧ c_state call = Returned (WObj w).
Proof.
  intros HInv HS Hk Hb.
  destruct (lookup_lt_is_Some_2 (calls st) (owner a) (inv_owner st HInv k a Hk))
    as [call Hcall].
  exists call. split; [exact Hcall|].
  destruct (HS _ _ Hcall) as [Hearlier Hstate].
  destruct (Hearlier k a Hk eq_refl) as [[e He]|Hlast]; [congruence|].
  destruct (c_state call) as [k0|v|e].
  - destruct Hstate as (a0 & Hl0 & Hu).
    destruct (last_attempt_unique st _ k0 k a0 a Hl0 Hlast) as [-> ->].
    rewrite Hb in Hu. contradiction.
  - destruct v as [| |w'].
    + destruct Hstate as [Hzero _]. exfalso. apply (owned_zero st _ k a Hzero Hk eq_refl).
    + destruct Hstate as [Hzero _]. exfalso. apply (owned_zero st _ k a Hzero Hk eq_refl).
    + destruct Hstate as (k0 & a0 & Hl0 & Hb0 & _).
      destruct (last_attempt_unique st _ k0 k a0 a Hl0 Hlast) as [-> ->].
      congruence.
  - destruct Hstate as (k0 & a0 & error & Hl0 & Hb0 & _).
    destruct (last_attempt_unique st _ k0 k a0 a Hl0 Hlast) as [-> ->].
    congruence.
Qed.

End NotificationFacts.

(** [X12] The confirmation path of [hubHandler]. In every run, when the
    hub emits 'browser-opened' with the correlation id of an attempt that
    waits for it (handler registered, timer armed, worker known), the
    handler clears the timer and fulfils the waiter, the attempt ends with
    its worker, and the call of [startBrowser] returns that worker; from
    then on no [terminateWorker] request is ever issued for the
    attempt. *)
Theorem browser_opened_confirms_attempt (this : Connector) (hostname : string)
    (uid : nat → string) (evs0 : list Event) (st : State) (k : nat)
    (a : Attempt) (w : Worker) :
  run this hostname uid initial evs0 = Some st →
  attempts st !! k = Some a →
  In k (handlers_of "browser-opened" st) →
  timeoutId a = Armed → waitForUrlOpened a = Pending →
  body a = AwaitUrlOpened → worker a = WObj w →
  ∃ st' a' call,
    step this hostname uid st (Emit "browser-opened" (browserId a)) = Some st'
    ∧ attempts st' !! k = Some a'
    ∧ waitForUrlOpened a' = Fulfilled ∧ timeoutId a' = Cleared
    ∧ body a' = Resolved w
    ∧ calls st' !! owner a = Some call ∧ c_state call = Returned (WObj w)
    ∧ ∀ evs st'',
        run this hostname uid st' evs = Some st'' →
        terminate_calls k st'' = 0%nat.
Proof.
  intros Hrun0 Hk Hin Ht Hp Hb Hw.
  assert (reachable this hostname uid st) as Hreach by (exists evs0; exact Hrun0).
  destruct (Inv2_run this hostname uid evs0 initial st Inv2_initial Hrun0) as [HInv HS].
  destruct (registered_notification_confirms this hostname uid "browser-opened"
              st k a w Hk Hin Hp Hb Hw) as (st' & a' & Hstep & Hk' & Hf' & Hb').
  destruct (emit_own_id_clears "browser-opened" st k a Hk Hp Ht Hin)
    as (a1 & Hk1 & _ & Hc1 & _ & _ & Ho1).
  assert (timeoutId a' = Cleared ∧ owner a' = owner a) as [Hc' Ho'].
  { cbn in Hstep. injection Hstep as <-.
    destruct (continues_after_emit this hostname uid (λ _, True)
                (handlers_of "browser-opened" st) (λ _ _, I)
                (emit "browser-opened" (browserId a) st)) as (Hcont & _ & _).
    destruct (Hcont k a1 Hk1) as (a2 & Hk2 & (Ho2 & _ & _ & Ht2 & _) & _).
    assert (a2 = a') by congruence. subst a2. split; congruence. }
  destruct (Inv2_step this hostname uid st st' _ (conj HInv HS) Hstep) as [HInv' HS'].
  destruct (resolved_attempt_returned st' k a' w HInv' HS' Hk' Hb')
    as (call & Hcall & Hret).
  rewrite Ho' in Hcall.
  exists st', a', call. repeat split; try assumption.
  intros evs st'' Hrun.
  pose proof (terminate_once_reachable this hostname uid st Hreach) as Honce.
  pose proof (terminate_once_step this hostname uid st st' _ Hstep Honce) as Honce'.
  destruct (cleared_run this hostname uid k evs st' st'' a' Hrun Hk' Hc')
    as (a'' & Hk'' & Hc'').
  destruct (terminate_once_run this hostname uid evs st' st'' Hrun Honce' k)
    as [Hz|(_ & x & Hx & Hfired)]; [exact Hz | congruence].
Qed.

Lemma browser_opened_confirms_attempt_witness :
  ∃ st' a' call,
    step connector0 "localhost" uid0 (after scenario_awaiting_callback)
      (Emit "browser-opened" "abc123") = Some st'
    ∧ attempts st' !! 0%nat = Some a'
    ∧ waitForUrlOpened a' = Fulfilled ∧ timeoutId a' = Cleared
    ∧ body a' = Resolved running_worker
    ∧ calls st' !! 0%nat = Some call
    ∧ c_state call = Returned (WObj running_worker)
    ∧ ∀ evs st'',
        run connector0 "localhost" uid0 st' evs = Some st'' →
        terminate_calls 0 st'' = 0%nat.
Proof.
  apply (browser_opened_confirms_attempt connector0 "localhost" uid0
           scenario_awaiting_callback (after scenario_awaiting_callback) 0
           attempt_awaiting_callback running_worker);
    [vm_compute; reflexivity | vm_compute; reflexivity
     | left; vm_compute; reflexivity | reflexivity | reflexivity | reflexivity
     | reflexivity].
Defined.

(** [X13] What the hub's own route amounts to for the waiting attempts:
    the route emits 'open', a name no handler is registered under. So in
    every run in which nobody else emits on the hub, the requests of the
    remote browsers reach no handler: no attempt ever has its waiter
    fulfilled or its timer cleared, and no call of [startBrowser] ever
    returns a worker. *)
Theorem hub_route_notifies_nobody (this : Connector) (hostname : string)
    (uid : nat → string) (evs : list Event) (st : State) :
  run this hostname uid initial evs = Some st →
  Forall (λ ev, ∀ event arg, ev ≠ Emit event arg) evs →
  (∀ k a, attempts st !! k = Some a →
          waitForUrlOpened a ≠ Fulfilled ∧ timeoutId a ≠ Cleared)
  ∧ (∀ c call w, calls st !! c = Some call → c_state call ≠ Returned (WObj w)).
Proof.
  intros Hrun Hevs.
  destruct (hub_alone_never_confirms this hostname uid evs st Hrun Hevs)
    as [Hwaiters Hcalls].
  split; [|exact Hcalls].
  intros k a Hk. split; [apply (Hwaiters k a Hk)|].
  assert (Inv st ∧ ∀ k a, attempts st !! k = Some a → timeoutId a ≠ Cleared)
    as [_ Hnone]; [|apply (Hnone k a Hk)].
  clear k a Hk Hwaiters Hcalls.
  assert (Inv initial ∧ ∀ k a, attempts initial !! k = Some a → timeoutId a ≠ Cleared)
    as Hinit by (split; [apply Inv_initial | intros k a Hk; discriminate]).
  revert Hinit Hrun. generalize initial as st0. intros st0. revert st0.
  induction Hevs as [|ev evs Hev Hevs IH]; intros st0 [HInv0 H0] Hrun; cbn in Hrun.
  - injection Hrun as <-. auto.
  - destruct (step this hostname uid st0 ev) as [st1|] eqn:Hstep; [|discriminate].
    apply (IH st1); [|exact Hrun].
    split; [apply (Inv_step this hostname uid st0 st1 ev HInv0 Hstep)|].
    destruct (step_has_shape this hostname uid st0 st1 ev Hstep)
      as (Hmoves & Hfresh & _).
    intros k a' Hk'. destruct (attempts st0 !! k) as [a|] eqn:Hk.
    + destruct (Hmoves k a Hk) as (a2 & Hk2 & (_ & _ & _ & Ht & _) & Hsame).
      assert (a2 = a') by congruence. subst a2. specialize (H0 k a Hk).
      destruct Ht as [Ht|[(_ & _ & Hn)|(_ & Hf & _)]]; try congruence.
      destruct ev as [| | | | | |req|event arg]; cbn in Hn; try contradiction.
      * rewrite Hsame; [exact H0|]. cbn.
        rewrite (handlers_of_other_event "open" st0 (inv_listeners st0 HInv0))
          by discriminate. auto.
      * exfalso. apply (Hev event arg). reflexivity.
    + apply lookup_ge_None in Hk. destruct (Hfresh k a' Hk' Hk) as (_ & _ & Ht & _).
      congruence.
Qed.

(** [scenario_hub_callback]: the remote browser calls the hub with the id
    of the waiting attempt. *)
Lemma hub_route_notifies_nobody_witness :
  (∀ k a, attempts (after scenario_hub_callback) !! k = Some a →
          waitForUrlOpened a ≠ Fulfilled ∧ timeoutId a ≠ Cleared)
  ∧ (∀ c call w, calls (after scenario_hub_callback) !! c = Some call →
                 c_state call ≠ Returned (WObj w)).
Proof.
  apply (hub_route_notifies_nobody connector0 "localhost" uid0
           scenario_hub_callback (after scenario_hub_callback)).
  - vm_compute. reflexivity.
  - repeat constructor; intros event arg; discriminate.
Defined.

Section LateNotification.
Context (this : Connector) (hostname : string) (uid : nat → string).

(** A removed listener is not registered again. *)
Lemma not_listening_run (k : nat) (evs : list Event) :
  ∀ st st', run this hostname uid st evs = Some st' →
            (k < length (attempts st))%nat →
            not_listening k st → not_listening k st'.
Proof.
  induction evs as [|ev evs IH]; intros st st' Hrun Hlt Hnl; cbn in Hrun.
  - injection Hrun as <-. exact Hnl.
  - destruct (step this hostname uid st ev) as [st1|] eqn:Hstep; [|discriminate].
    destruct (step_has_shape this hostname uid st st1 ev Hstep) as (Hmoves & _ & Hlis).
    apply (IH st1 st' Hrun).
    + destruct (lookup_lt_is_Some_2 _ _ Hlt) as [a Ha].
      destruct (Hmoves k a Ha) as (a' & Ha' & _). eapply lookup_lt_Some. exact Ha'.
    + intros event Hin. destruct (Hlis _ Hin) as [Hold|[_ Hnew]].
      * apply (Hnl event Hold).
      * cbn in Hnew. lia.
Qed.

End LateNotification.

(** [X14] A callback that comes after the opening timeout is ignored. The
    timeout function removes the listener of its attempt before anything
    else, and the listener is not registered again; so in every run,
    once the timer of an attempt has fired, no notification, whether a
    request on the hub or an event emitted on it, under any name and with
    any id, changes that attempt any more. *)
Theorem notification_after_timeout_is_ignored (this : Connector)
    (hostname : string) (uid : nat → string) (evs0 : list Event) (st : State)
    (k : nat) (a : Attempt) :
  run this hostname uid initial evs0 = Some st →
  attempts st !! k = Some a → timeoutId a = Armed →
  ∃ st1,
    step this hostname uid st (OpeningTimeout k) = Some st1
    ∧ not_listening k st1
    ∧ ∀ evs st2 ev st3,
        run this hostname uid st1 evs = Some st2 →
        (∃ id, notifies ev id) →
        step this hostname uid st2 ev = Some st3 →
        attempts st3 !! k = attempts st2 !! k.
Proof.
  intros Hrun0 Hk Ht.
  assert (Inv st) as HInv by (apply (Inv_reachable this hostname uid); eexists; eauto).
  assert (k < length (attempts st))%nat as Hlt by (eapply lookup_lt_Some; eassumption).
  destruct (step this hostname uid st (OpeningTimeout k)) as [st1|] eqn:Hstep1;
    [|cbn in Hstep1; unfold opening_timeout in Hstep1;
      rewrite Hk, Ht in Hstep1; cbn in Hstep1;
      destruct (worker a); discriminate].
  exists st1. split; [reflexivity|].
  assert (not_listening k st1) as Hnl.
  { cbn in Hstep1. unfold opening_timeout in Hstep1. rewrite Hk, Ht in Hstep1.
    cbn in Hstep1. intros event Hin.
    apply (removeListener_gone k st (inv_listeners st HInv) event).
    destruct (worker a); injection Hstep1 as <-; exact Hin. }
  split; [exact Hnl|].
  assert (k < length (attempts st1))%nat as Hlt1.
  { destruct (step_has_shape this hostname uid st st1 _ Hstep1) as (Hmoves & _ & _).
    destruct (Hmoves k a Hk) as (a' & Ha' & _). eapply lookup_lt_Some. exact Ha'. }
  intros evs st2 ev st3 Hrun [id Hnot] Hstep.
  pose proof (not_listening_run this hostname uid k evs st1 st2 Hrun Hlt1 Hnl) as Hnl2.
  destruct (step_has_shape this hostname uid st2 st3 ev Hstep) as (Hmoves & Hfresh & _).
  destruct (attempts st2 !! k) as [a2|] eqn:Hk2.
  - destruct (Hmoves k a2 Hk2) as (a3 & Hk3 & _ & Hsame).
    rewrite Hk3. f_equal. apply Hsame. intros Hsub.
    destruct ev as [bs url job options|k0 cb|k0 cb|k0|k0|k0 cb|req|event arg];
      cbn in Hnot; try contradiction; cbn in Hsub.
    + apply (Hnl2 "open"), handlers_of_In, Hsub.
    + apply (Hnl2 event), handlers_of_In, Hsub.
  - apply lookup_ge_None in Hk2. exfalso.
    assert (k < length (attempts st2))%nat; [|lia].
    clear -Hrun Hlt1. revert st1 Hrun Hlt1.
    induction evs as [|e evs IH]; intros st1 Hrun Hlt1; cbn in Hrun.
    + injection Hrun as <-. exact Hlt1.
    + destruct (step this hostname uid st1 e) as [sx|] eqn:Hs; [|discriminate].
      apply (IH sx Hrun).
      destruct (step_has_shape this hostname uid st1 sx e Hs) as (Hm & _ & _).
      destruct (lookup_lt_is_Some_2 _ _ Hlt1) as [x Hx].
      destruct (Hm k x Hx) as (x' & Hx' & _). eapply lookup_lt_Some. exact Hx'.
Qed.

(** [scenario_awaiting_callback]: the timer of attempt 0 fires while it
    waits for its callback. *)
Lemma notification_after_timeout_is_ignored_witness :
  ∃ st1,
    step connector0 "localhost" uid0 (after scenario_awaiting_callback)
      (OpeningTimeout 0) = Some st1
    ∧ not_listening 0 st1
    ∧ ∀ evs st2 ev st3,
        run connector0 "localhost" uid0 st1 evs = Some st2 →
        (∃ id, notifies ev id) →
        step connector0 "localhost" uid0 st2 ev = Some st3 →
        attempts st3 !! 0%nat = attempts st2 !! 0%nat.
Proof.
  apply (notification_after_timeout_is_ignored connector0 "localhost" uid0
           scenario_awaiting_callback (after scenario_awaiting_callback) 0
           attempt_awaiting_callback);
    [vm_compute; reflexivity | vm_compute; reflexivity | reflexivity].
Defined.

(** * Part 11: what the connector writes and requests *)

Section SoundLog.
Context (this : Connector) (hostname : string) (uid : nat → string).

Lemma sound_same (st st' : State) : st_log st' = st_log st → sound_log this hostname uid st → sound_log this hostname uid st'.
Proof. unfold sound_log. intros ->. auto. Qed.

Lemma sound_emit_action (x : Action) (st : State) :
  sound_action this hostname uid x → sound_log this hostname uid st → sound_log this hostname uid (emit_action x st).
Proof. intros Hx Hs. unfold sound_log. cbn. constructor; assumption. Qed.

Lemma sound_lift_log (message : string) (st : State) :
  sound_log this hostname uid st → sound_log this hostname uid (lift (_log this message) st).
Proof.
  intros Hs. unfold sound_log, lift, _log. cbn.
  destruct (connectorLogging this) eqn:Hlog; cbn; [|exact Hs].
  constructor; [exact Hlog | exact Hs].
Qed.

Lemma sound_removeListener (event : string) (k : nat) (st : State) :
  sound_log this hostname uid st → sound_log this hostname uid (removeListener event k st).
Proof. intros Hs. unfold removeListener. apply sound_emit_action; [exact I | exact Hs]. Qed.

Lemma sound_startBrowser_loop (c : nat) (st : State) :
  sound_log this hostname uid st → sound_log this hostname uid (startBrowser_loop this hostname uid c st).
Proof.
  intros Hs. unfold startBrowser_loop.
  destruct (calls st !! c) as [call|]; [|exact Hs].
  destruct (_ && _).
  - unfold _startBrowser_begin. cbv zeta.
    apply sound_emit_action; [eexists; reflexivity|].
    unfold addListener. apply sound_emit_action; [exact I|].
    apply (sound_same (emit_action (ASetTimeout (length (attempts st))
                                      (c_openingTimeout call)) st));
      [reflexivity|].
    apply sound_emit_action; [exact I | exact Hs].
  - destruct (c_error call); exact Hs.
Qed.

Lemma sound_startBrowser (browserSettings : BrowserSettings) (url : string)
    (job : JobInfo) (options : StartOptions) (st : State) :
  sound_log this hostname uid st → sound_log this hostname uid (startBrowser this hostname uid browserSettings url job options st).
Proof.
  intros Hs. unfold startBrowser. cbv zeta. apply sound_startBrowser_loop. exact Hs.
Qed.

Lemma sound_settle (k : nat) (r : JsError + Worker) (st : State) :
  sound_log this hostname uid st → sound_log this hostname uid (settle this hostname uid k r st).
Proof.
  intros Hs. unfold settle.
  destruct (attempts st !! k) as [a|]; [|exact Hs]. cbv zeta.
  destruct (calls _ !! owner a) as [call|]; [|exact Hs].
  apply sound_startBrowser_loop. exact Hs.
Qed.

Lemma sound_after_urlOpened (k : nat) (st : State) :
  sound_log this hostname uid st → sound_log this hostname uid (after_urlOpened this hostname uid k st).
Proof.
  intros Hs. unfold after_urlOpened.
  destruct (attempts st !! k) as [a|]; [|exact Hs].
  destruct (worker a); apply sound_settle; try exact Hs.
  apply sound_lift_log. exact Hs.
Qed.

Lemma sound_await_urlOpened (k : nat) (st : State) :
  sound_log this hostname uid st → sound_log this hostname uid (await_urlOpened this hostname uid k st).
Proof.
  intros Hs. unfold await_urlOpened.
  destruct (attempts st !! k) as [a|]; [|exact Hs]. cbv zeta.
  destruct (waitForUrlOpened a).
  - exact Hs.
  - apply sound_after_urlOpened. exact Hs.
  - apply sound_settle. exact Hs.
Qed.

Lemma sound_resume_urlOpened (st : State) (k : nat) :
  sound_log this hostname uid st → sound_log this hostname uid (resume_urlOpened this hostname uid st k).
Proof.
  intros Hs. unfold resume_urlOpened.
  destruct (attempts st !! k) as [a|]; [|exact Hs].
  destruct (body a); try exact Hs. apply sound_await_urlOpened. exact Hs.
Qed.

Lemma sound_getWorker_test (k : nat) (id : string) (n : nat) (st : State) :
  sound_log this hostname uid st → sound_log this hostname uid (_getWorker_test this hostname uid k id n st).
Proof.
  intros Hs. unfold _getWorker_test.
  destruct (attempts st !! k) as [a|]; [|exact Hs].
  destruct (n <=? maxAttempts)%nat.
  - apply sound_emit_action; [exact I | exact Hs].
  - apply sound_await_urlOpened. exact Hs.
Qed.

Lemma sound_hubHandler (st : State) (k : nat) (id : string) :
  sound_log this hostname uid st → sound_log this hostname uid (hubHandler st k id).
Proof.
  intros Hs. unfold hubHandler.
  destruct (attempts st !! k) as [a|]; [|exact Hs].
  destruct (String.eqb id (browserId a)); [|exact Hs]. cbv zeta.
  apply (sound_same (emit_action (AClearTimeout k)
                       (removeListener "browser-opened" k st))); [reflexivity|].
  apply sound_emit_action; [exact I|]. apply sound_removeListener. exact Hs.
Qed.

Lemma sound_foldl {A} (f : State → A → State) (l : list A) :
  (∀ st x, sound_log this hostname uid st → sound_log this hostname uid (f st x)) →
  ∀ st, sound_log this hostname uid st → sound_log this hostname uid (foldl f st l).
Proof.
  intros Hf. induction l as [|x l IH]; intros st Hs; cbn; [exact Hs|].
  apply IH, Hf, Hs.
Qed.

Lemma sound_hub_request (req : Request) (st : State) :
  sound_log this hostname uid st → sound_log this hostname uid (hub_request this hostname uid req st).
Proof.
  intros Hs. unfold hub_request.
  destruct (match_route req) as [id|].
  - unfold after_emit. apply sound_foldl; [intros; apply sound_resume_urlOpened; auto|].
    apply sound_emit_action; [exact I|].
    unfold emit. apply (sound_foldl (λ st k, hubHandler st k id)); [|exact Hs].
    intros; apply sound_hubHandler; auto.
  - apply sound_emit_action; [exact I | exact Hs].
Qed.

Lemma sound_step (st st' : State) (ev : Event) :
  sound_log this hostname uid st → step this hostname uid st ev = Some st' → sound_log this hostname uid st'.
Proof.
  intros Hs Hstep.
  destruct ev as [bs url job options|k cb|k cb|k|k|k cb|req|event arg];
    cbn in Hstep.
  - injection Hstep as <-. apply sound_startBrowser, Hs.
  - unfold createWorker_done in Hstep.
    destruct (attempts st !! k) as [a|]; [|discriminate].
    destruct (body a); try discriminate.
    destruct cb as [err|workerId]; injection Hstep as <-.
    + apply sound_settle, sound_lift_log, Hs.
    + apply sound_getWorker_test, Hs.
  - unfold getWorker_done in Hstep.
    destruct (attempts st !! k) as [a|]; [|discriminate].
    destruct (body a); try discriminate. cbv zeta in Hstep.
    destruct (is_running (resolve_res cb)); injection Hstep as <-.
    + apply sound_await_urlOpened, Hs.
    + apply sound_emit_action; [exact I | exact Hs].
  - unfold wait_done in Hstep.
    destruct (attempts st !! k) as [a|]; [|discriminate].
    destruct (body a); try discriminate. injection Hstep as <-.
    apply sound_getWorker_test, Hs.
  - unfold opening_timeout in Hstep.
    destruct (attempts st !! k) as [a|]; [|discriminate].
    destruct (timeoutId a); try discriminate. cbn in Hstep.
    destruct (worker a); injection Hstep as <-;
      (apply sound_emit_action; [exact I|]);
      apply (sound_same (removeListener "browser-opened" k st));
      try reflexivity; apply sound_removeListener, Hs.
  - unfold terminateWorker_done in Hstep.
    destruct (attempts st !! k) as [a|]; [|discriminate].
    destruct (timeoutFn a); try discriminate.
    destruct cb as [err|time]; injection Hstep as <-.
    + apply sound_emit_action; [exact I|].
      apply (sound_same (lift (_log this err) st)); [reflexivity|].
      apply sound_lift_log, Hs.
    + apply sound_resume_urlOpened. exact Hs.
  - injection Hstep as <-. apply sound_hub_request, Hs.
  - injection Hstep as <-. unfold after_emit.
    apply sound_foldl; [intros; apply sound_resume_urlOpened; auto|].
    unfold emit. apply (sound_foldl (λ st k, hubHandler st k arg)); [|exact Hs].
    intros; apply sound_hubHandler; auto.
Qed.

Lemma sound_run (evs : list Event) :
  ∀ st st', sound_log this hostname uid st → run this hostname uid st evs = Some st' → sound_log this hostname uid st'.
Proof.
  induction evs as [|ev evs IH]; intros st st' Hs Hrun; cbn in Hrun.
  - injection Hrun as <-. exact Hs.
  - destruct (step this hostname uid st ev) as [st1|] eqn:Hstep; [|discriminate].
    apply (IH st1 st'); [|exact Hrun]. apply (sound_step st st1 ev); assumption.
Qed.

End SoundLog.

Lemma creates_In (k : nat) (settings : WorkerSettings) (log : list Action) :
  In (ACreateWorker k settings) log → In k (creates log).
Proof.
  induction log as [|x log IH]; intros Hin; [destruct Hin|].
  destruct Hin as [->|Hin].
  - left. reflexivity.
  - destruct x; cbn; auto.
Qed.

(** [X15] Every [createWorker] request of every run sends the remote
    browser to the hub of this connector: the url in its settings has the
    host and the port of the hub and, as its path, the correlation id that
    the handler of the same attempt compares notifications with; the
    request carries the tunnel identifier of the connector as
    [localIdentifier], a non-zero [timeout] and a non-empty
    [browser_version]. *)
Theorem createWorker_requests_point_at_hub (this : Connector)
    (hostname : string) (uid : nat → string) (evs : list Event) (st : State)
    (k : nat) (settings : WorkerSettings) :
  run this hostname uid initial evs = Some st →
  In (ACreateWorker k settings) (st_log st) →
  u_host (ws_url settings) = hostname
  ∧ u_port (ws_url settings) = hubPort this
  ∧ ws_localIdentifier settings = tunnelIdentifier this
  ∧ ws_timeout settings ≠ 0
  ∧ ws_browser_version settings ≠ ""
  ∧ ∃ a, attempts st !! k = Some a ∧ u_path (ws_url settings) = browserId a.
Proof.
  intros Hrun Hin.
  assert (sound_log this hostname uid st) as Hsound.
  { apply (sound_run this hostname uid evs initial st); [constructor | exact Hrun]. }
  unfold sound_log in Hsound. rewrite Forall_forall in Hsound.
  apply list_elem_of_In in Hin as Hin'.
  destruct (Hsound _ Hin') as [call ->]. cbn.
  split; [reflexivity|]. split; [reflexivity|]. split; [reflexivity|].
  split.
  { unfold or_default. destruct (workingTimeout (c_options call)) as [v|]; [|discriminate].
    destruct (Z.eqb_spec v 0); [discriminate | assumption]. }
  split.
  { destruct (bs_version (c_browserSettings call)) as [[|ch s]|]; cbn; discriminate. }
  assert (k < length (attempts st))%nat as Hlt.
  { pose proof (one_request_each_run this hostname uid evs st Hrun) as Hone.
    pose proof (creates_In k _ _ Hin) as Hk. rewrite Hone in Hk.
    apply List.in_rev in Hk. apply in_seq in Hk. lia. }
  destruct (lookup_lt_is_Some_2 _ _ Hlt) as [a Ha].
  exists a. split; [exact Ha|]. symmetry.
  apply (ids_ok_reachable this hostname uid st); [exists evs; exact Hrun | exact Ha].
Qed.

Lemma createWorker_requests_point_at_hub_witness :
  u_host (ws_url (worker_settings connector0 "localhost"
                    (mkStartCall chrome "http://localhost:3000/test" no_job
                       no_options 3 60000 WNull 0 None (Running 1)) "id1"))
  = "localhost"
  ∧ u_port (ws_url (worker_settings connector0 "localhost"
                      (mkStartCall chrome "http://localhost:3000/test" no_job
                         no_options 3 60000 WNull 0 None (Running 1)) "id1"))
    = hubPort connector0
  ∧ ws_localIdentifier (worker_settings connector0 "localhost"
                          (mkStartCall chrome "http://localhost:3000/test" no_job
                             no_options 3 60000 WNull 0 None (Running 1)) "id1")
    = tunnelIdentifier connector0
  ∧ ws_timeout (worker_settings connector0 "localhost"
                  (mkStartCall chrome "http://localhost:3000/test" no_job
                     no_options 3 60000 WNull 0 None (Running 1)) "id1") ≠ 0
  ∧ ws_browser_version (worker_settings connector0 "localhost"
                          (mkStartCall chrome "http://localhost:3000/test" no_job
                             no_options 3 60000 WNull 0 None (Running 1)) "id1")
    ≠ ""
  ∧ ∃ a, attempts (after scenario_two_calls) !! 1%nat = Some a
         ∧ u_path (ws_url (worker_settings connector0 "localhost"
                            (mkStartCall chrome "http://localhost:3000/test"
                               no_job no_options 3 60000 WNull 0 None (Running 1))
                            "id1"))
           = browserId a.
Proof.
  apply (createWorker_requests_point_at_hub connector0 "localhost" uid0
           scenario_two_calls (after scenario_two_calls) 1).
  - vm_compute. reflexivity.
  - vm_compute. repeat (first [left; reflexivity | right]).
Defined.

Lemma count_sound_stdout (this : Connector) (hostname : string)
    (uid : nat → string) (log : list Action) :
  connectorLogging this = false →
  Forall (sound_action this hostname uid) log → count is_stdout log = 0%nat.
Proof.
  intros Hoff. induction 1 as [|x log Hx Hlog IH]; [reflexivity|].
  rewrite count_cons, IH. destruct x; cbn in *; try reflexivity. congruence.
Qed.

(** [X16] A connector created with [connectorLogging: false] writes
    nothing to stdout, in any run of the session opener: every message
    goes through [_log]. *)
Theorem logging_off_is_silent (this : Connector) (hostname : string)
    (uid : nat → string) (evs : list Event) (st : State) :
  connectorLogging this = false →
  run this hostname uid initial evs = Some st →
  count is_stdout (st_log st) = 0%nat.
Proof.
  intros Hoff Hrun. apply (count_sound_stdout this hostname uid); [exact Hoff|].
  apply (sound_run this hostname uid evs initial st); [constructor | exact Hrun].
Qed.

(** [scenario_all_attempts_fail] on a connector with logging off: the
    three errors of [createWorker] are not written. *)
Lemma logging_off_is_silent_witness :
  count is_stdout
    (st_log (default initial
               (run quiet_connector "localhost" uid0 initial
                  scenario_all_attempts_fail))) = 0%nat.
Proof.
  apply (logging_off_is_silent quiet_connector "localhost" uid0
           scenario_all_attempts_fail).
  - reflexivity.
  - vm_compute. reflexivity.
Defined.

(** * Part 12: the sockets of the hub *)

Lemma mem_In (s : nat) (l : list nat) : mem s l = true ↔ In s l.
Proof.
  unfold mem. rewrite existsb_exists. split.
  - intros (x & Hx & He). apply Nat.eqb_eq in He. subst x. exact Hx.
  - intros H. exists s. split; [exact H | apply Nat.eqb_refl].
Qed.

Lemma mem_app (s : nat) (l1 l2 : list nat) :
  mem s (l1 ++ l2)%list = mem s l1 || mem s l2.
Proof. unfold mem. apply existsb_app. Qed.

Lemma indexOf_absent (x : nat) (l : list nat) : ¬ In x l → indexOf x l = -1.
Proof.
  induction l as [|y l IH]; intros Hx; [reflexivity|]. cbn.
  destruct (Nat.eqb_spec y x) as [->|_]; [exfalso; apply Hx; left; reflexivity|].
  rewrite IH by (intros H; apply Hx; right; exact H). reflexivity.
Qed.

Lemma indexOf_bounds (x : nat) (l : list nat) :
  -1 <= indexOf x l < Z.of_nat (length l) ∨ (l = [] ∧ indexOf x l = -1).
Proof.
  induction l as [|y l IH]; [right; auto|]. left. cbn [indexOf length].
  destruct (Nat.eqb y x); [lia|].
  destruct (Z.ltb_spec (indexOf x l) 0); [lia|].
  destruct IH as [IH|[-> IH]]; [lia|]. cbn in *. lia.
Qed.

(** Where [x] is in the list, [splice] removes its first occurrence. *)
Lemma splice1_indexOf_present (x : nat) (l : list nat) :
  In x l → (∀ y, (count_occ Nat.eq_dec l y <= 1)%nat) →
  splice1 (indexOf x l) l = List.filter (λ y, negb (Nat.eqb y x)) l.
Proof.
  unfold splice1. induction l as [|y l IH]; intros Hin Hnodup; [destruct Hin|].
  assert (∀ z, (count_occ Nat.eq_dec l z <= 1)%nat) as Hnodup'.
  { intros z. specialize (Hnodup z). cbn in Hnodup.
    destruct (Nat.eq_dec y z); lia. }
  cbn [indexOf List.filter].
  destruct (Nat.eqb_spec y x) as [->|Hne]; cbn [negb].
  - assert (¬ In x l) as Hnot.
    { intros H. apply (count_occ_In Nat.eq_dec) in H. specialize (Hnodup x).
      cbn in Hnodup. destruct (Nat.eq_dec x x); [lia | contradiction]. }
    cbn [Z.ltb Z.compare]. rewrite Z.min_l by lia.
    change (l = List.filter (λ y, negb (Nat.eqb y x)) l).
    clear -Hnot. induction l as [|z l IH]; [reflexivity|]. cbn.
    destruct (Nat.eqb_spec z x) as [->|_]; [exfalso; apply Hnot; left; reflexivity|].
    cbn. f_equal. apply IH. intros H. apply Hnot. right. exact H.
  - destruct Hin as [Hin|Hin]; [contradiction|].
    specialize (IH Hin Hnodup').
    assert (0 <= indexOf x l) as Hpos.
    { destruct (Z.ltb_spec (indexOf x l) 0) as [Hneg|]; [|assumption].
      exfalso. clear -Hin Hneg. induction l as [|z l IHl]; [destruct Hin|].
      cbn in Hneg. destruct (Nat.eqb_spec z x) as [->|Hzx]; [lia|].
      destruct Hin as [->|Hin]; [contradiction|].
      destruct (Z.ltb_spec (indexOf x l) 0); [auto | lia]. }
    destruct (Z.ltb_spec (indexOf x l) 0) as [|_]; [lia|].
    destruct (Z.ltb_spec (indexOf x l + 1) 0) as [|_]; [lia|].
    destruct (Z.ltb_spec (indexOf x l) 0) as [|_] in IH; [lia|].
    pose proof (indexOf_bounds x l) as [Hb|[-> _]]; [|destruct Hin].
    cbn [length]. rewrite Z.min_l by lia. rewrite Z.min_l in IH by lia.
    replace (Z.to_nat (indexOf x l + 1)) with (S (Z.to_nat (indexOf x l))) by lia.
    cbn. f_equal. exact IH.
Qed.

Lemma count_occ_filter_le (f : nat → bool) (l : list nat) (s : nat) :
  (count_occ Nat.eq_dec (List.filter f l) s <= count_occ Nat.eq_dec l s)%nat.
Proof.
  induction l as [|y l IH]; [reflexivity|]. cbn.
  destruct (f y); cbn; destruct (Nat.eq_dec y s); lia.
Qed.

Lemma filter_ext_bool (f g : nat → bool) (l : list nat) :
  (∀ x, f x = g x) → List.filter f l = List.filter g l.
Proof.
  intros H. induction l as [|y l IH]; [reflexivity|]. cbn. rewrite H, IH. reflexivity.
Qed.

Lemma filter_filter_and (f g : nat → bool) (l : list nat) :
  List.filter f (List.filter g l) = List.filter (λ x, g x && f x) l.
Proof.
  induction l as [|y l IH]; [reflexivity|]. cbn.
  destruct (g y); cbn; [destruct (f y)|]; rewrite IH; reflexivity.
Qed.

Lemma tracks_step (hub : HubServer) (seen closed : list nat) (ev : HubEvent)
    (evs : list HubEvent) :
  tracks hub seen closed → node_order seen closed (ev :: evs) = true →
  ∃ seen' closed',
    tracks (hub_step hub ev) seen' closed'
    ∧ node_order seen' closed' evs = true
    ∧ (seen' ++ connections evs = seen ++ connections (ev :: evs))%list
    ∧ (closed' ++ closes evs = closed ++ closes (ev :: evs))%list.
Proof.
  intros (Hclosers & Honce & Hsub & Hsockets) Horder.
  destruct ev as [s|s|]; cbn in Horder.
  - apply andb_prop in Horder as [Hnew Horder]. apply negb_true_iff in Hnew.
    assert (¬ In s seen) as Hns by (rewrite <- mem_In; congruence).
    exists (seen ++ [s])%list, closed. split; [|split; [exact Horder|]].
    + split; [cbn; congruence|]. split; [|split].
      * intros z. rewrite count_occ_app. cbn. specialize (Honce z).
        destruct (Nat.eq_dec s z) as [<-|_]; [|lia].
        rewrite (proj1 (count_occ_not_In Nat.eq_dec seen s) Hns). lia.
      * intros z Hz. apply in_or_app. left. apply Hsub, Hz.
      * cbn. rewrite Hsockets, List.filter_app. cbn.
        assert (mem s closed = false) as ->; [|reflexivity].
        destruct (mem s closed) eqn:Hm; [|reflexivity].
        exfalso. apply Hns, Hsub, mem_In, Hm.
    + cbn. rewrite <- !app_assoc. auto.
  - apply andb_prop in Horder as [Hs Horder]. apply andb_prop in Hs as [Hseen Hopen].
    apply negb_true_iff in Hopen. apply mem_In in Hseen.
    exists seen, (closed ++ [s])%list. split; [|split; [exact Horder|]].
    + assert (count_occ Nat.eq_dec (hs_closers hub) s = 1%nat) as Hone.
      { rewrite Hclosers. specialize (Honce s).
        apply (count_occ_In Nat.eq_dec) in Hseen. lia. }
      cbn. rewrite Hone. cbn.
      split; [exact Hclosers|]. split; [exact Honce|]. split.
      * intros z Hz. apply in_app_or in Hz as [Hz|[<-|[]]]; [apply Hsub, Hz | exact Hseen].
      * cbn. rewrite splice1_indexOf_present.
        -- rewrite Hsockets, filter_filter_and. apply filter_ext_bool.
           intros x. rewrite mem_app. cbn. unfold mem at 2. cbn.
           rewrite orb_false_r, negb_orb. reflexivity.
        -- rewrite Hsockets. apply List.filter_In. split; [exact Hseen|].
           rewrite Hopen. reflexivity.
        -- intros z. rewrite Hsockets.
           etransitivity; [apply count_occ_filter_le | apply Honce].
    + cbn. rewrite <- !app_assoc. auto.
  - exists seen, closed. split; [|split; [exact Horder|split; reflexivity]].
    split; [exact Hclosers|]. split; [exact Honce|]. split; [exact Hsub | exact Hsockets].
Qed.

Lemma tracks_run (evs : list HubEvent) :
  ∀ hub seen closed,
    tracks hub seen closed → node_order seen closed evs = true →
    tracks (hub_run hub evs) (seen ++ connections evs) (closed ++ closes evs).
Proof.
  induction evs as [|ev evs IH]; intros hub seen closed Ht Horder.
  - cbn. rewrite !app_nil_r. exact Ht.
  - destruct (tracks_step hub seen closed ev evs Ht Horder)
      as (seen' & closed' & Ht' & Horder' & Hs & Hc).
    rewrite <- Hs, <- Hc. apply (IH (hub_step hub ev) seen' closed' Ht' Horder').
Qed.

Lemma tracks_new_Hub : tracks new_Hub [] [].
Proof.
  split; [reflexivity|]. split; [intros s; cbn; lia|].
  split; [intros s []|reflexivity].
Qed.

(** [X17] The hub tracks its open sockets: after any history in which
    each socket connects once and closes once, after it has connected,
    [this.sockets] holds the sockets that have connected and not closed,
    in the order of their connection. *)
Theorem hub_tracks_open_sockets (evs : list HubEvent) :
  node_order [] [] evs = true →
  hs_sockets (hub_run new_Hub evs)
  = List.filter (λ s, negb (mem s (closes evs))) (connections evs).
Proof.
  intros Horder.
  destruct (tracks_run evs new_Hub [] [] tracks_new_Hub Horder) as (_ & _ & _ & H).
  exact H.
Qed.

Lemma hub_tracks_open_sockets_witness :
  hs_sockets (hub_run new_Hub three_sockets)
  = List.filter (λ s, negb (mem s (closes three_sockets)))
      (connections three_sockets).
Proof. apply (hub_tracks_open_sockets three_sockets). reflexivity. Defined.

Lemma node_order_closes (order seen closed : list nat) :
  (∀ s, (count_occ Nat.eq_dec order s <= 1)%nat) →
  (∀ s, In s order → In s seen ∧ ¬ In s closed) →
  node_order seen closed (map HSocketClose order) = true.
Proof.
  revert closed. induction order as [|s order IH]; intros closed Honce Hopen;
    [reflexivity|].
  cbn. destruct (Hopen s (or_introl eq_refl)) as [Hseen Hnot].
  assert (mem s seen = true) as -> by (apply mem_In; exact Hseen).
  assert (mem s closed = false) as ->.
  { destruct (mem s closed) eqn:Hm; [|reflexivity]. exfalso. apply Hnot, mem_In, Hm. }
  cbn. apply IH.
  - intros z. specialize (Honce z). cbn in Honce. destruct (Nat.eq_dec s z); lia.
  - intros z Hz. destruct (Hopen z (or_intror Hz)) as [Hzs Hzc]. split; [exact Hzs|].
    intros Hin. apply in_app_or in Hin as [Hin|[<-|[]]]; [exact (Hzc Hin)|].
    specialize (Honce s). cbn in Honce.
    apply (count_occ_In Nat.eq_dec) in Hz.
    destruct (Nat.eq_dec s s); [lia | contradiction].
Qed.

Lemma connections_closes (order : list nat) :
  connections (map HSocketClose order) = [] ∧ closes (map HSocketClose order) = order.
Proof.
  induction order as [|s order [IH1 IH2]]; [auto|]. cbn. rewrite IH1, IH2. auto.
Qed.

(** [X18] [close] shuts the hub down: after a history in Node's order it
    closes the server and then destroys exactly the sockets that are
    open, in the order of their connection; and once each of them has
    emitted 'close', in whatever order, no socket is tracked any more. *)
Theorem hub_close_destroys_open_sockets (evs : list HubEvent) (order : list nat) :
  node_order [] [] evs = true →
  (∀ s, (count_occ Nat.eq_dec order s <= 1)%nat) →
  (∀ s, In s order ↔ In s (hs_sockets (hub_run new_Hub evs))) →
  hs_effects (hub_run new_Hub (evs ++ [HClose]))
  = (rev (map HDestroy
            (List.filter (λ s, negb (mem s (closes evs))) (connections evs)))
       ++ HServerClose :: hs_effects (hub_run new_Hub evs))%list
  ∧ hs_sockets (hub_run new_Hub (evs ++ HClose :: map HSocketClose order)) = [].
Proof.
  intros Horder Honce Hall.
  pose proof (tracks_run evs new_Hub [] [] tracks_new_Hub Horder) as Ht.
  cbn [app] in Ht. destruct Ht as (Hclosers & Hseen1 & Hsub & Hsockets).
  split.
  - unfold hub_run at 1. rewrite foldl_app. cbn [foldl hub_step].
    fold (hub_run new_Hub evs). cbn [hub_close hs_effects].
    rewrite Hsockets. reflexivity.
  - unfold hub_run at 1. rewrite foldl_app. cbn [foldl hub_step].
    fold (hub_run new_Hub evs). fold (hub_run (hub_close (hub_run new_Hub evs))
                                        (map HSocketClose order)).
    assert (tracks (hub_close (hub_run new_Hub evs)) (connections evs) (closes evs))
      as Ht' by (split; [exact Hclosers|]; split; [exact Hseen1|]; split; assumption).
    assert (node_order (connections evs) (closes evs) (map HSocketClose order) = true)
      as Horder'.
    { apply node_order_closes; [exact Honce|]. intros s Hs.
      apply Hall in Hs. rewrite Hsockets in Hs. apply List.filter_In in Hs as [Hs Hm].
      split; [exact Hs|]. intros Hc. apply mem_In in Hc. rewrite Hc in Hm. discriminate. }
    destruct (tracks_run _ _ _ _ Ht' Horder') as (_ & _ & _ & Hfinal).
    rewrite Hfinal. destruct (connections_closes order) as [-> ->].
    rewrite app_nil_r.
    assert (∀ l, (∀ s, In s l → In s (connections evs)) →
                 List.filter (λ s, negb (mem s (closes evs ++ order))) l = []) as Hnone.
    { induction l as [|s l IH]; intros Hl; [reflexivity|]. cbn.
      rewrite IH by (intros z Hz; apply Hl; right; exact Hz).
      assert (mem s (closes evs ++ order) = true) as ->; [|reflexivity].
      rewrite mem_app. destruct (mem s (closes evs)) eqn:Hm; [reflexivity|]. cbn.
      apply mem_In, Hall. rewrite Hsockets. apply List.filter_In.
      split; [apply Hl; left; reflexivity|]. rewrite Hm. reflexivity. }
    apply Hnone. auto.
Qed.

(** [three_sockets]: sockets 1 and 3 are open when the hub is closed;
    socket 3 reports its end first. *)
Lemma hub_close_destroys_open_sockets_witness :
  hs_effects (hub_run new_Hub (three_sockets ++ [HClose]))
  = (rev (map HDestroy
            (List.filter (λ s, negb (mem s (closes three_sockets)))
               (connections three_sockets)))
       ++ HServerClose :: hs_effects (hub_run new_Hub three_sockets))%list
  ∧ hs_sockets (hub_run new_Hub
                  (three_sockets ++ HClose :: map HSocketClose [3; 1]%nat)) = [].
Proof.
  apply (hub_close_destroys_open_sockets three_sockets [3; 1]%nat).
  - reflexivity.
  - intros s. do 4 (destruct s as [|s]; [vm_compute; lia|]). vm_compute. lia.
  - intros s. vm_compute. tauto.
Defined.

(** * Part 13: the variables of an attempt *)

Lemma sane_put_attempt (k : nat) (a' : Attempt) (st : State) :
  attempt_sane a' → sane st → sane (put_attempt k a' st).
Proof.
  intros Ha' Hs k' x Hx. cbn in Hx.
  destruct (decide (k' = k)) as [->|Hne].
  - destruct (attempts st !! k) as [a|] eqn:Hk.
    + rewrite list_lookup_insert_eq in Hx by (eapply lookup_lt_Some; eassumption).
      injection Hx as <-. exact Ha'.
    + congruence || (apply lookup_ge_None in Hk; rewrite list_insert_ge in Hx by lia;
                     apply lookup_lt_Some in Hx; lia).
  - rewrite list_lookup_insert_ne in Hx by congruence. apply (Hs k' x Hx).
Qed.

Lemma sane_same (st st' : State) : attempts st' = attempts st → sane st → sane st'.
Proof. unfold sane. intros ->. auto. Qed.

Lemma attempt_sane_body (a : Attempt) (b : Body) :
  attempt_sane a →
  match b with
  | Resolved w => worker a = WObj w
  | AwaitCreateWorker => worker a = WNull
  | AwaitGetWorker _ n | AwaitWait _ n => worker a = WNull ∧ (n <= S maxAttempts)%nat
  | _ => True
  end →
  attempt_sane (set_body b a).
Proof.
  intros (H1 & _ & _) Hb. split; [exact H1|]. cbn. split.
  - intros w ->. exact Hb.
  - destruct b; auto.
Qed.

Lemma attempt_sane_fields (a a' : Attempt) :
  worker a' = worker a → body a' = body a → attempt_sane a → attempt_sane a'.
Proof. unfold attempt_sane. intros -> ->. auto. Qed.

Section SaneFacts.
Context (this : Connector) (hostname : string) (uid : nat → string).

Lemma sane_startBrowser_loop (c : nat) (st : State) :
  sane st → sane (startBrowser_loop this hostname uid c st).
Proof.
  intros Hs. unfold startBrowser_loop.
  destruct (calls st !! c) as [call|]; [|exact Hs].
  destruct (_ && _).
  - unfold _startBrowser_begin. cbv zeta. intros k a Hk. cbn in Hk.
    destruct (lookup_snoc_inv _ _ _ _ Hk) as [Hk'|[_ ->]].
    + apply (Hs k a Hk').
    + split; [intros w H; discriminate|]. split; [intros w H; discriminate|].
      reflexivity.
  - destruct (c_error call); exact Hs.
Qed.

Lemma sane_settle (k : nat) (r : JsError + Worker) (st : State) :
  sane st →
  (∀ a w, attempts st !! k = Some a → r = inr w → worker a = WObj w) →
  sane (settle this hostname uid k r st).
Proof.
  intros Hs Hr. unfold settle.
  destruct (attempts st !! k) as [a|] eqn:Hk; [|exact Hs]. cbv zeta.
  assert (sane (put_attempt k
                  (set_body match r with inl e => Failed e | inr w => Resolved w end a)
                  st)) as Hs'.
  { apply sane_put_attempt; [|exact Hs]. apply attempt_sane_body; [apply (Hs k a Hk)|].
    destruct r as [e|w]; [exact I|]. apply (Hr a w eq_refl eq_refl). }
  destruct (calls _ !! owner a) as [call|]; [|exact Hs'].
  apply sane_startBrowser_loop. exact Hs'.
Qed.

Lemma sane_after_urlOpened (k : nat) (st : State) :
  sane st → sane (after_urlOpened this hostname uid k st).
Proof.
  intros Hs. unfold after_urlOpened.
  destruct (attempts st !! k) as [a|] eqn:Hk; [|exact Hs].
  destruct (worker a) as [| |w] eqn:Hw; apply sane_settle; try exact Hs;
    try (intros a0 w0 _ H; discriminate).
  intros a0 w0 Hk0 Hr. cbn in Hk0. assert (a0 = a) by congruence. subst a0.
  injection Hr as <-. exact Hw.
Qed.

(** [await waitForUrlOpened] makes attempt [k] sane again after [worker]
    has been assigned. *)
Lemma sane_await_urlOpened_at (k : nat) (a : Attempt) (st : State) :
  attempts st !! k = Some a →
  (∀ w, worker a = WObj w → w_status w = "running") →
  (∀ k' x, k' ≠ k → attempts st !! k' = Some x → attempt_sane x) →
  sane (await_urlOpened this hostname uid k st).
Proof.
  intros Hk Hw Hothers. unfold await_urlOpened. rewrite Hk. cbv zeta.
  assert (sane (put_attempt k (set_body AwaitUrlOpened a) st)) as Hs'.
  { intros k' x Hx.
    destruct (lookup_put_attempt k k' a _ x st Hk Hx) as [[-> ->]|[Hne Hx']].
    - split; [exact Hw|]. split; [intros w H; discriminate | exact I].
    - apply (Hothers k' x Hne Hx'). }
  destruct (waitForUrlOpened a).
  - exact Hs'.
  - apply sane_after_urlOpened. exact Hs'.
  - apply sane_settle; [exact Hs'|]. intros a0 w0 _ H. discriminate.
Qed.

Lemma sane_await_urlOpened (k : nat) (st : State) :
  sane st → sane (await_urlOpened this hostname uid k st).
Proof.
  intros Hs. destruct (attempts st !! k) as [a|] eqn:Hk.
  - apply (sane_await_urlOpened_at k a); [exact Hk | apply (Hs k a Hk) |].
    intros k' x _ Hx. apply (Hs k' x Hx).
  - unfold await_urlOpened. rewrite Hk. exact Hs.
Qed.

(** [worker] is assigned and the body goes on to wait for the
    notification. *)
Lemma sane_assign_worker (k : nat) (a : Attempt) (v : WorkerVar) (st : State) :
  sane st → attempts st !! k = Some a →
  (∀ w, v = WObj w → w_status w = "running") →
  sane (await_urlOpened this hostname uid k (put_attempt k (set_worker v a) st)).
Proof.
  intros Hs Hk Hv.
  apply (sane_await_urlOpened_at k (set_worker v a)).
  - cbn. apply list_lookup_insert_eq. eapply lookup_lt_Some; eassumption.
  - exact Hv.
  - intros k' x Hne Hx. cbn in Hx. rewrite list_lookup_insert_ne in Hx by congruence.
    apply (Hs k' x Hx).
Qed.

Lemma sane_resume_urlOpened (st : State) (k : nat) :
  sane st → sane (resume_urlOpened this hostname uid st k).
Proof.
  intros Hs. unfold resume_urlOpened.
  destruct (attempts st !! k) as [a|]; [|exact Hs].
  destruct (body a); try exact Hs. apply sane_await_urlOpened. exact Hs.
Qed.

Lemma sane_getWorker_test (k : nat) (id : string) (n : nat) (a : Attempt)
    (st : State) :
  sane st → attempts st !! k = Some a → worker a = WNull →
  sane (_getWorker_test this hostname uid k id n st).
Proof.
  intros Hs Hk Hw. unfold _getWorker_test. rewrite Hk.
  destruct (Nat.leb_spec n maxAttempts) as [Hle|_].
  - apply (sane_same (put_attempt k (set_body (AwaitGetWorker id (S n)) a) st));
      [reflexivity|].
    apply sane_put_attempt; [|exact Hs].
    apply attempt_sane_body; [apply (Hs k a Hk)|]. split; [exact Hw | lia].
  - apply (sane_assign_worker k a WUndefined); [exact Hs | exact Hk |].
    intros w H. discriminate.
Qed.

Lemma sane_hubHandler (st : State) (k : nat) (id : string) :
  sane st → sane (hubHandler st k id).
Proof.
  intros Hs. unfold hubHandler.
  destruct (attempts st !! k) as [a|] eqn:Hk; [|exact Hs].
  destruct (String.eqb id (browserId a)); [|exact Hs]. cbv zeta.
  apply sane_put_attempt; [|exact Hs].
  apply (attempt_sane_fields a); [| |apply (Hs k a Hk)];
    destruct (timeoutId a); cbn; destruct (waitForUrlOpened a); reflexivity.
Qed.

Lemma sane_foldl {A} (f : State → A → State) (l : list A) :
  (∀ st x, sane st → sane (f st x)) →
  ∀ st, sane st → sane (foldl f st l).
Proof.
  intros Hf. induction l as [|x l IH]; intros st Hs; cbn; [exact Hs|].
  apply IH, Hf, Hs.
Qed.

Lemma sane_emit (event arg : string) (st : State) :
  sane st → sane (emit event arg st).
Proof.
  intros Hs. unfold emit.
  apply (sane_foldl (λ st k, hubHandler st k arg)); [|exact Hs].
  intros; apply sane_hubHandler; auto.
Qed.

Lemma sane_after_emit (hs : list nat) (st : State) :
  sane st → sane (after_emit this hostname uid hs st).
Proof.
  intros Hs. unfold after_emit.
  apply sane_foldl; [intros; apply sane_resume_urlOpened; auto | exact Hs].
Qed.

Lemma sane_step (st st' : State) (ev : Event) :
  sane st → step this hostname uid st ev = Some st' → sane st'.
Proof.
  intros Hs Hstep.
  destruct ev as [bs url job options|k cb|k cb|k|k|k cb|req|event arg];
    cbn in Hstep.
  - injection Hstep as <-. unfold startBrowser. cbv zeta.
    apply sane_startBrowser_loop. exact Hs.
  - unfold createWorker_done in Hstep.
    destruct (attempts st !! k) as [a|] eqn:Hk; [|discriminate].
    destruct (body a) eqn:Hb; try discriminate.
    destruct cb as [err|workerId]; injection Hstep as <-.
    + apply sane_settle; [exact Hs|]. intros a0 w0 _ H. discriminate.
    + apply (sane_getWorker_test k workerId 0 a); [exact Hs | exact Hk |].
      destruct (Hs k a Hk) as (_ & _ & H3). rewrite Hb in H3. exact H3.
  - unfold getWorker_done in Hstep.
    destruct (attempts st !! k) as [a|] eqn:Hk; [|discriminate].
    destruct (body a) eqn:Hb; try discriminate. cbv zeta in Hstep.
    destruct (Hs k a Hk) as (_ & _ & H3). rewrite Hb in H3. destruct H3 as [Hw Hn].
    destruct (is_running (resolve_res cb)) eqn:Hrun; injection Hstep as <-.
    + apply sane_assign_worker; [exact Hs | exact Hk |].
      intros w Hw'. destruct cb as [err|w0]; [discriminate|]. cbn in *.
      injection Hw' as <-. apply String.eqb_eq. exact Hrun.
    + apply (sane_same (put_attempt k (set_body (AwaitWait workerId attempts0) a) st));
        [reflexivity|].
      apply sane_put_attempt; [|exact Hs].
      apply attempt_sane_body; [apply (Hs k a Hk)|]. auto.
  - unfold wait_done in Hstep.
    destruct (attempts st !! k) as [a|] eqn:Hk; [|discriminate].
    destruct (body a) eqn:Hb; try discriminate. injection Hstep as <-.
    apply (sane_getWorker_test k workerId attempts0 a); [exact Hs | exact Hk |].
    destruct (Hs k a Hk) as (_ & _ & H3). rewrite Hb in H3. apply H3.
  - unfold opening_timeout in Hstep.
    destruct (attempts st !! k) as [a|] eqn:Hk; [|discriminate].
    destruct (timeoutId a); try discriminate. cbn in Hstep.
    assert (∀ fn, attempt_sane (set_timeoutFn fn (set_timeoutId Fired a))) as Ha.
    { intros fn. apply (attempt_sane_fields a); [reflexivity | reflexivity |].
      apply (Hs k a Hk). }
    destruct (worker a); injection Hstep as <-;
      apply (sane_put_attempt k _ (removeListener "browser-opened" k st) (Ha _) Hs).
  - unfold terminateWorker_done in Hstep.
    destruct (attempts st !! k) as [a|] eqn:Hk; [|discriminate].
    destruct (timeoutFn a); try discriminate.
    destruct cb as [err|time]; injection Hstep as <-.
    + apply (sane_put_attempt k _ (lift (_log this err) st)); [|exact Hs].
      apply (attempt_sane_fields a); [reflexivity | reflexivity | apply (Hs k a Hk)].
    + apply sane_resume_urlOpened. apply sane_put_attempt; [|exact Hs].
      apply (attempt_sane_fields a); [| |apply (Hs k a Hk)];
        cbn; destruct (waitForUrlOpened a); reflexivity.
  - injection Hstep as <-. unfold hub_request.
    destruct (match_route req) as [id|]; [|exact Hs].
    apply sane_after_emit.
    apply (sane_same (emit "open" id st)); [reflexivity|]. apply sane_emit, Hs.
  - injection Hstep as <-. apply sane_after_emit, sane_emit, Hs.
Qed.

Lemma sane_run (evs : list Event) :
  ∀ st st', sane st → run this hostname uid st evs = Some st' → sane st'.
Proof.
  induction evs as [|ev evs IH]; intros st st' Hs Hrun; cbn in Hrun.
  - injection Hrun as <-. exact Hs.
  - destruct (step this hostname uid st ev) as [st1|] eqn:Hstep; [|discriminate].
    apply (IH st1 st'); [|exact Hrun]. apply (sane_step st st1 ev); assumption.
Qed.

End SaneFacts.

(** [X20] A worker that [startBrowser] returns is one that a status poll
    reported as running and whose callback notification arrived: in every
    run, a call that has returned worker [w] has an attempt whose
    [worker] variable holds [w], with [w.status = 'running'], whose
    waiter is fulfilled and which ended with [w]. *)
Theorem returned_worker_was_running (this : Connector) (hostname : string)
    (uid : nat → string) (evs : list Event) (st : State) (c : nat)
    (call : StartCall) (w : Worker) :
  run this hostname uid initial evs = Some st →
  calls st !! c = Some call →
  c_state call = Returned (WObj w) →
  w_status w = "running"
  ∧ ∃ k a, attempts st !! k = Some a ∧ owner a = c ∧ worker a = WObj w
           ∧ waitForUrlOpened a = Fulfilled ∧ body a = Resolved w.
Proof.
  intros Hrun Hc Hret.
  assert (Inv st) as HInv by (apply (Inv_reachable this hostname uid); eexists; eauto).
  assert (sane st) as Hsane.
  { apply (sane_run this hostname uid evs initial st); [|exact Hrun].
    intros k a Hk. discriminate. }
  destruct (inv_calls st HInv c call Hc) as [[_ Hok] _]. rewrite Hret in Hok.
  destruct Hok as [_ Hconf]. destruct (Hconf w eq_refl) as (k & a & Hk & Ho & Hf & Hb).
  destruct (Hsane k a Hk) as (H1 & H2 & _). pose proof (H2 w Hb) as Hw.
  split; [apply (H1 w Hw)|]. exists k, a. auto.
Qed.

Lemma returned_worker_was_running_witness :
  w_status running_worker = "running"
  ∧ ∃ k a, attempts (after scenario_second_attempt) !! k = Some a
           ∧ owner a = 0%nat ∧ worker a = WObj running_worker
           ∧ waitForUrlOpened a = Fulfilled ∧ body a = Resolved running_worker.
Proof.
  refine (returned_worker_was_running connector0 "localhost" uid0
            scenario_second_attempt (after scenario_second_attempt) 0
            (default (mkStartCall chrome "" no_job no_options 0 0 WNull 0 None
                        (Returned WNull))
               (calls (after scenario_second_attempt) !! 0%nat))
            running_worker _ _ _);
    vm_compute; reflexivity.
Defined.

(** What a registered handler does when it is reached, whatever [worker]
    holds: the attempt ends as line 150 decides. *)
Lemma registered_notification_settles (this : Connector) (hostname : string)
    (uid : nat → string) (event : string) (st : State) (k : nat) (a : Attempt) :
  attempts st !! k = Some a →
  In k (handlers_of event st) →
  waitForUrlOpened a = Pending → body a = AwaitUrlOpened →
  ∃ st' a',
    step this hostname uid st (Emit event (browserId a)) = Some st'
    ∧ attempts st' !! k = Some a'
    ∧ waitForUrlOpened a' = Fulfilled ∧ body a' = outcome (worker a).
Proof.
  intros Hk Hin Hp Hb. eexists. cbn.
  destruct (notification_own_id event st k a Hk Hp Hin) as (a1 & Hk1 & Hf1).
  destruct (emit_attempts event (browserId a) st) as (Hemit & _ & _).
  destruct (Hemit k a Hk) as (a1' & Hk1' & (_ & _ & Hb1 & Hw1 & _) & _).
  assert (a1' = a1) by congruence. subst a1'.
  rewrite Hb in Hb1.
  assert (∃ a', attempts (after_emit this hostname uid (handlers_of event st)
                            (emit event (browserId a) st)) !! k = Some a'
                ∧ waitForUrlOpened a' = Fulfilled ∧ body a' = outcome (worker a))
    as (a' & Hk' & Hf' & Hb'); [|exists a'; auto].
  assert (waitForUrlOpened a1 = Fulfilled
          ∧ ((body a1 = AwaitUrlOpened ∧ worker a1 = worker a
              ∧ In k (handlers_of event st))
             ∨ body a1 = outcome (worker a))) as Hcase by auto.
  clear Hk Hp Hb Hemit Hin Hb1 Hw1 Hf1 Hk1'.
  revert Hk1 Hcase. generalize (emit event (browserId a) st) as st1.
  generalize (handlers_of event st) as hs. unfold after_emit.
  intros hs. revert a1.
  induction hs as [|k' hs IH]; intros a1 st1 Hk1 [Hf1 Hcase]; cbn.
  - destruct Hcase as [(_ & _ & [])|Hdone]. eauto.
  - destruct (decide (k' = k)) as [->|Hne].
    + destruct Hcase as [(Hb1 & Hw1 & _)|Hdone].
      * assert (attempts (resume_urlOpened this hostname uid st1 k) !! k
                = Some (set_body (outcome (worker a)) (set_body AwaitUrlOpened a1)))
          as Hres.
        { unfold resume_urlOpened. rewrite Hk1, Hb1.
          unfold await_urlOpened. rewrite Hk1, Hf1. cbv zeta.
          unfold after_urlOpened. cbn [attempts put_attempt set_attempts].
          rewrite list_lookup_insert_eq by (eapply lookup_lt_Some; eassumption).
          cbn [worker set_body]. rewrite Hw1.
          destruct (worker a) as [| |w]; cbn [outcome].
          - apply (settle_attempt this hostname uid k _ (inl _)).
            cbn. apply list_lookup_insert_eq. eapply lookup_lt_Some; eassumption.
          - apply (settle_attempt this hostname uid k _ (inl _)).
            cbn. apply list_lookup_insert_eq. eapply lookup_lt_Some; eassumption.
          - apply (settle_attempt this hostname uid k _ (inr w)).
            cbn. apply list_lookup_insert_eq. eapply lookup_lt_Some; eassumption. }
        apply (IH _ _ Hres). cbn. auto.
      * apply (IH a1); [|auto].
        unfold resume_urlOpened. rewrite Hk1, Hdone.
        destruct (worker a); exact Hk1.
    + destruct (continues_resume_urlOpened this hostname uid (eq k') st1 k' eq_refl)
        as (Hcont & _ & _).
      destruct (Hcont k a1 Hk1) as (a2 & Hk2 & _ & Hsame).
      rewrite (Hsame Hne) in Hk2. apply (IH a1 _ Hk2). split; [exact Hf1|].
      destruct Hcase as [(Hb1 & Hw1 & [Hin|Hin])|Hdone]; auto. contradiction.
Qed.

(** [X21] When the polls of [_getWorker] are used up, the attempt cannot
    succeed any more. After the wait that follows the 31st poll,
    [_getWorker] makes no further request and returns [undefined], which
    is assigned to [worker]; the body then waits for the notification,
    and when the notification arrives, line 150 reads
    [worker.browser_url] and the attempt fails with a TypeError instead
    of ending with a worker. *)
Theorem polling_exhausted_attempt_fails (this : Connector) (hostname : string)
    (uid : nat → string) (st : State) (k : nat) (a : Attempt) (id : string) :
  attempts st !! k = Some a →
  body a = AwaitWait id 31 →
  waitForUrlOpened a = Pending →
  In k (handlers_of "browser-opened" st) →
  ∃ st1 a1 st2 a2,
    step this hostname uid st (WaitDone k) = Some st1
    ∧ st_log st1 = st_log st
    ∧ attempts st1 !! k = Some a1
    ∧ worker a1 = WUndefined ∧ body a1 = AwaitUrlOpened
    ∧ step this hostname uid st1 (Emit "browser-opened" (browserId a)) = Some st2
    ∧ attempts st2 !! k = Some a2
    ∧ body a2
      = Failed (TypeError "Cannot read property 'browser_url' of undefined").
Proof.
  intros Hk Hb Hp Hin.
  assert (k < length (attempts st))%nat as Hlt by (eapply lookup_lt_Some; eassumption).
  set (a1 := set_body AwaitUrlOpened (set_worker WUndefined a)).
  set (st1 := put_attempt k a1 (put_attempt k (set_worker WUndefined a) st)).
  assert (step this hostname uid st (WaitDone k) = Some st1) as Hstep1.
  { cbn. unfold wait_done. rewrite Hk, Hb. unfold _getWorker_test. rewrite Hk.
    cbn [Nat.leb maxAttempts]. unfold await_urlOpened.
    cbn [attempts put_attempt set_attempts].
    rewrite list_lookup_insert_eq by exact Hlt. cbv zeta.
    cbn [waitForUrlOpened set_worker]. rewrite Hp. reflexivity. }
  assert (attempts st1 !! k = Some a1) as Hk1.
  { cbn. apply list_lookup_insert_eq. rewrite length_insert. exact Hlt. }
  destruct (registered_notification_settles this hostname uid "browser-opened"
              st1 k a1 Hk1 Hin Hp eq_refl) as (st2 & a2 & Hstep2 & Hk2 & _ & Hb2).
  exists st1, a1, st2, a2. repeat split; assumption.
Qed.

(** [scenario_never_running]: 31 polls find the worker queued. *)
Lemma polling_exhausted_attempt_fails_witness :
  ∃ st1 a1 st2 a2,
    step connector0 "localhost" uid0 (after scenario_never_running) (WaitDone 0)
    = Some st1
    ∧ st_log st1 = st_log (after scenario_never_running)
    ∧ attempts st1 !! 0%nat = Some a1
    ∧ worker a1 = WUndefined ∧ body a1 = AwaitUrlOpened
    ∧ step connector0 "localhost" uid0 st1 (Emit "browser-opened" "abc123")
      = Some st2
    ∧ attempts st2 !! 0%nat = Some a2
    ∧ body a2
      = Failed (TypeError "Cannot read property 'browser_url' of undefined").
Proof.
  apply (polling_exhausted_attempt_fails connector0 "localhost" uid0
           (after scenario_never_running) 0 attempt_after_last_poll "w1").
  - vm_compute. reflexivity.
  - reflexivity.
  - reflexivity.
  - vm_compute. left. reflexivity.
Defined.

(** * Part 14: timer, listener and waiter *)

Lemma remove_first_other (x y : string * nat) (l : list (string * nat)) :
  x ≠ y → In x l → In x (remove_first y l).
Proof.
  intros Hne. induction l as [|z l IH]; cbn; [auto|].
  destruct (same_listener y z) eqn:Hs.
  - apply same_listener_spec in Hs. subst z. intros [H|H]; [congruence | exact H].
  - intros [H|H]; [left; exact H | right; exact (IH H)].
Qed.

Lemma In_removeListener_other (event : string) (k k' : nat) (st : State) :
  k' ≠ k →
  In ("browser-opened", k') (listeners (removeListener event k st))
  ↔ In ("browser-opened", k') (listeners st).
Proof.
  intros Hne. cbn. rewrite <- List.in_rev. split.
  - intros H. apply remove_first_In in H. apply List.in_rev. exact H.
  - intros H. apply remove_first_other; [congruence|]. apply List.in_rev in H. exact H.
Qed.

Lemma Waits_same (st st' : State) :
  attempts st' = attempts st → listeners st' = listeners st → Waits st → Waits st'.
Proof.
  intros Ha Hl HW k a Hk. rewrite Ha in Hk. unfold attempt_waits. rewrite Hl.
  apply (HW k a Hk).
Qed.

(** Rewriting an attempt without touching its timer, its waiter and its
    timeout function. *)
Lemma Waits_put_attempt (k : nat) (a a' : Attempt) (st : State) :
  attempts st !! k = Some a →
  timeoutId a' = timeoutId a → waitForUrlOpened a' = waitForUrlOpened a →
  timeoutFn a' = timeoutFn a →
  Waits st → Waits (put_attempt k a' st).
Proof.
  intros Hk Ht Hw Hf HW k' x Hx.
  destruct (lookup_put_attempt k k' a a' x st Hk Hx) as [[-> ->]|[_ Hx']].
  - unfold attempt_waits. rewrite Ht, Hw, Hf. apply (HW k a Hk).
  - apply (HW k' x Hx').
Qed.

(** The handler of attempt [k] is removed and the attempt rewritten so
    that its timer is not armed any more. *)
Lemma Waits_unregister (k : nat) (a a' : Attempt) (st : State) :
  listeners_named st → Waits st → attempts st !! k = Some a →
  timeoutId a' ≠ Armed →
  (waitForUrlOpened a' = Fulfilled ↔ timeoutId a' = Cleared) →
  (∀ e, waitForUrlOpened a' = Rejected e →
        e = Str "Browser starting timeout expired" ∧ timeoutFn a' = Completed) →
  (timeoutFn a' ≠ NotCalled ↔ timeoutId a' = Fired) →
  Waits (put_attempt k a' (removeListener "browser-opened" k st)).
Proof.
  intros Hnamed HW Hk Hna H3 H4 H5 k' x Hx.
  destruct (lookup_put_attempt k k' a a' x _ Hk Hx) as [[-> ->]|[Hne Hx']].
  - split; [|split; [intros H; contradiction | auto]].
    split; [|intros H; contradiction].
    intros Hin. exfalso. apply (removeListener_gone k st Hnamed "browser-opened").
    exact Hin.
  - destruct (HW k' x Hx') as (H1 & Hrest). split; [|exact Hrest].
    change (listeners (put_attempt k a' (removeListener "browser-opened" k st)))
      with (listeners (removeListener "browser-opened" k st)).
    rewrite (In_removeListener_other "browser-opened" k k' st Hne). exact H1.
Qed.

Section WaitsFacts.
Context (this : Connector) (hostname : string) (uid : nat → string).

Lemma Waits_startBrowser_loop (c : nat) (st : State) :
  Waits st → Waits (startBrowser_loop this hostname uid c st).
Proof.
  intros HW. unfold startBrowser_loop.
  destruct (calls st !! c) as [call|]; [|exact HW].
  destruct (_ && _).
  - unfold _startBrowser_begin. cbv zeta. intros k a Hk. cbn in Hk.
    unfold attempt_waits. cbn [listeners emit_action addListener set_log
                                 set_listeners set_attempts put_call set_calls].
    destruct (lookup_snoc_inv _ _ _ _ Hk) as [Hk'|[-> ->]].
    + destruct (HW k a Hk') as (H1 & Hrest). split; [|exact Hrest].
      rewrite <- H1. rewrite in_app_iff. cbn. split; [|auto].
      intros [H|[H|[]]]; [exact H|]. apply lookup_lt_Some in Hk'.
      injection H as H. lia.
    + cbn. split; [|split; [auto|split; [|split]]].
      * split; [reflexivity|]. intros _. apply in_or_app. right. left. reflexivity.
      * split; discriminate.
      * intros e H. discriminate.
      * split; [intros H; contradiction | discriminate].
  - destruct (c_error call); exact HW.
Qed.

Lemma Waits_settle (k : nat) (r : JsError + Worker) (st : State) :
  Waits st → Waits (settle this hostname uid k r st).
Proof.
  intros HW. unfold settle.
  destruct (attempts st !! k) as [a|] eqn:Hk; [|exact HW]. cbv zeta.
  assert (Waits (put_attempt k
                   (set_body match r with inl e => Failed e | inr w => Resolved w end a)
                   st)) as HW'
    by (apply (Waits_put_attempt k a); auto).
  destruct (calls _ !! owner a) as [call|]; [|exact HW'].
  apply Waits_startBrowser_loop. exact HW'.
Qed.

Lemma Waits_after_urlOpened (k : nat) (st : State) :
  Waits st → Waits (after_urlOpened this hostname uid k st).
Proof.
  intros HW. unfold after_urlOpened.
  destruct (attempts st !! k) as [a|]; [|exact HW].
  destruct (worker a); apply Waits_settle; exact HW.
Qed.

Lemma Waits_await_urlOpened (k : nat) (st : State) :
  Waits st → Waits (await_urlOpened this hostname uid k st).
Proof.
  intros HW. unfold await_urlOpened.
  destruct (attempts st !! k) as [a|] eqn:Hk; [|exact HW]. cbv zeta.
  assert (Waits (put_attempt k (set_body AwaitUrlOpened a) st)) as HW'
    by (apply (Waits_put_attempt k a); auto).
  destruct (waitForUrlOpened a).
  - exact HW'.
  - apply Waits_after_urlOpened. exact HW'.
  - apply Waits_settle. exact HW'.
Qed.

Lemma Waits_resume_urlOpened (st : State) (k : nat) :
  Waits st → Waits (resume_urlOpened this hostname uid st k).
Proof.
  intros HW. unfold resume_urlOpened.
  destruct (attempts st !! k) as [a|]; [|exact HW].
  destruct (body a); try exact HW. apply Waits_await_urlOpened. exact HW.
Qed.

Lemma Waits_getWorker_test (k : nat) (id : string) (n : nat) (st : State) :
  Waits st → Waits (_getWorker_test this hostname uid k id n st).
Proof.
  intros HW. unfold _getWorker_test.
  destruct (attempts st !! k) as [a|] eqn:Hk; [|exact HW].
  destruct (n <=? maxAttempts)%nat.
  - apply (Waits_same (put_attempt k (set_body (AwaitGetWorker id (S n)) a) st));
      [reflexivity | reflexivity|].
    apply (Waits_put_attempt k a); auto.
  - apply Waits_await_urlOpened. apply (Waits_put_attempt k a); auto.
Qed.

(** A handler that is called while it is registered. *)
Lemma Waits_hubHandler (st : State) (k : nat) (id : string) :
  listeners_named st → Waits st →
  In ("browser-opened", k) (listeners st) →
  Waits (hubHandler st k id).
Proof.
  intros Hnamed HW Hin. unfold hubHandler.
  destruct (attempts st !! k) as [a|] eqn:Hk; [|exact HW].
  destruct (String.eqb id (browserId a)); [|exact HW]. cbv zeta.
  destruct (HW k a Hk) as (H1 & H2 & H3 & H4 & H5).
  pose proof (proj1 H1 Hin) as Harmed. pose proof (H2 Harmed) as Hpending.
  rewrite Harmed. cbn [waitForUrlOpened set_timeoutId]. rewrite Hpending.
  set (a' := set_waitForUrlOpened Fulfilled (set_timeoutId Cleared a)).
  apply (Waits_same (put_attempt k a' (removeListener "browser-opened" k st)));
    [reflexivity | reflexivity|].
  apply (Waits_unregister k a a' st Hnamed HW Hk).
  - cbn. discriminate.
  - cbn. split; reflexivity.
  - cbn. intros e H. discriminate.
  - cbn. split; [|discriminate]. intros Hfn. exfalso.
    apply H5 in Hfn. congruence.
Qed.

Lemma hubHandler_listeners_other (st : State) (k k' : nat) (id : string) :
  k' ≠ k → In ("browser-opened", k') (listeners st) →
  In ("browser-opened", k') (listeners (hubHandler st k id)).
Proof.
  intros Hne Hin. unfold hubHandler.
  destruct (attempts st !! k) as [a|]; [|exact Hin].
  destruct (String.eqb id (browserId a)); [|exact Hin]. cbv zeta.
  change (In ("browser-opened", k') (listeners (removeListener "browser-opened" k st))).
  apply In_removeListener_other; assumption.
Qed.

(** The handler calls of an [emit], each handler being registered when it
    is called. *)
Lemma Waits_handlers (id : string) (hs : list nat) :
  ∀ st, Inv st → Waits st → List.NoDup hs →
        (∀ k, In k hs → In ("browser-opened", k) (listeners st)) →
        Waits (foldl (λ st k, hubHandler st k id) st hs).
Proof.
  induction hs as [|k hs IH]; intros st HInv HW Hnd Hreg; cbn; [exact HW|].
  apply List.NoDup_cons_iff in Hnd as [Hk Hnd].
  apply IH.
  - apply Inv_hubHandler. exact HInv.
  - apply Waits_hubHandler; [apply (inv_listeners st HInv) | exact HW |].
    apply Hreg. left. reflexivity.
  - exact Hnd.
  - intros k' Hk'. apply hubHandler_listeners_other.
    + intros ->. contradiction.
    + apply Hreg. right. exact Hk'.
Qed.

Lemma handlers_of_NoDup (event : string) (st : State) :
  listeners_named st → List.NoDup (handlers_of event st).
Proof.
  unfold listeners_named, handlers_of. intros [Hnamed Hnd].
  induction Hnd as [|[e k] l Hnot Hnd IH]; [constructor|].
  apply Forall_cons in Hnamed as [[He _] Hnamed]. cbn in He. subst e.
  specialize (IH Hnamed). cbn -[String.eqb].
  destruct (String.eqb_spec "browser-opened" event) as [<-|_]; [|exact IH].
  cbn -[String.eqb]. constructor; [|exact IH].
  intros Hin. apply Hnot. apply in_map_iff in Hin as ([e' k'] & Hk' & Hin).
  cbn in Hk'. subst k'. apply List.filter_In in Hin as [Hin _].
  apply list_elem_of_In in Hin.
  rewrite Forall_forall in Hnamed. destruct (Hnamed _ Hin) as [He' _].
  cbn in He'. subst e'. exact Hin.
Qed.

Lemma handlers_of_registered (event : string) (st : State) (k : nat) :
  listeners_named st → In k (handlers_of event st) →
  In ("browser-opened", k) (listeners st).
Proof.
  intros [Hnamed _] Hin. apply handlers_of_In in Hin.
  rewrite Forall_forall in Hnamed. apply list_elem_of_In in Hin as Hin'.
  destruct (Hnamed _ Hin') as [He _]. cbn in He. subst event. exact Hin.
Qed.

Lemma Waits_notify (event arg : string) (st : State) :
  Inv st → Waits st →
  Waits (emit event arg st)
  ∧ ∀ x, Waits (after_emit this hostname uid (handlers_of event st)
                  (emit_action x (emit event arg st)))
         ∧ Waits (after_emit this hostname uid (handlers_of event st)
                    (emit event arg st)).
Proof.
  intros HInv HW.
  assert (Waits (emit event arg st)) as HW1.
  { unfold emit. apply Waits_handlers; [exact HInv | exact HW | |].
    - apply handlers_of_NoDup, (inv_listeners st HInv).
    - intros k. apply handlers_of_registered, (inv_listeners st HInv). }
  assert (∀ hs s, Waits s → Waits (after_emit this hostname uid hs s)) as Hafter.
  { unfold after_emit. induction hs as [|k hs IH]; intros s Hs; cbn; [exact Hs|].
    apply IH, Waits_resume_urlOpened, Hs. }
  split; [exact HW1|]. intros x. split; apply Hafter; [|exact HW1].
  apply (Waits_same (emit event arg st)); [reflexivity | reflexivity | exact HW1].
Qed.

Lemma Waits_put (k : nat) (a a' : Attempt) (st : State) :
  attempts st !! k = Some a → attempt_waits st k a' →
  Waits st → Waits (put_attempt k a' st).
Proof.
  intros Hk Ha' HW k' x Hx.
  destruct (lookup_put_attempt k k' a a' x st Hk Hx) as [[-> ->]|[_ Hx']].
  - exact Ha'.
  - apply (HW k' x Hx').
Qed.

Lemma Waits_step (st st' : State) (ev : Event) :
  Inv st → Waits st → step this hostname uid st ev = Some st' → Waits st'.
Proof.
  intros HInv HW Hstep.
  destruct ev as [bs url job options|k cb|k cb|k|k|k cb|req|event arg];
    cbn in Hstep.
  - injection Hstep as <-. unfold startBrowser. cbv zeta.
    apply Waits_startBrowser_loop.
    apply (Waits_same st); [reflexivity | reflexivity | exact HW].
  - unfold createWorker_done in Hstep.
    destruct (attempts st !! k) as [a|] eqn:Hk; [|discriminate].
    destruct (body a); try discriminate.
    destruct cb as [err|workerId]; injection Hstep as <-.
    + apply Waits_settle.
      apply (Waits_same st); [reflexivity | reflexivity | exact HW].
    + apply Waits_getWorker_test, HW.
  - unfold getWorker_done in Hstep.
    destruct (attempts st !! k) as [a|] eqn:Hk; [|discriminate].
    destruct (body a); try discriminate. cbv zeta in Hstep.
    destruct (is_running (resolve_res cb)); injection Hstep as <-.
    + apply Waits_await_urlOpened. apply (Waits_put_attempt k a); auto.
    + apply (Waits_same (put_attempt k (set_body (AwaitWait workerId attempts0) a) st));
        [reflexivity | reflexivity|].
      apply (Waits_put_attempt k a); auto.
  - unfold wait_done in Hstep.
    destruct (attempts st !! k) as [a|] eqn:Hk; [|discriminate].
    destruct (body a); try discriminate. injection Hstep as <-.
    apply Waits_getWorker_test, HW.
  - unfold opening_timeout in Hstep.
    destruct (attempts st !! k) as [a|] eqn:Hk; [|discriminate].
    destruct (timeoutId a) eqn:Ht; try discriminate. cbn in Hstep.
    destruct (HW k a Hk) as (H1 & H2 & H3 & H4 & H5).
    rewrite Ht in *. pose proof (H2 eq_refl) as Hp.
    assert (∀ fn, fn ≠ NotCalled →
                  Waits (put_attempt k (set_timeoutFn fn (set_timeoutId Fired a))
                           (removeListener "browser-opened" k st))) as Hput.
    { intros fn Hfn.
      apply (Waits_unregister k a _ st (inv_listeners st HInv) HW Hk).
      - cbn. discriminate.
      - cbn. rewrite Hp. split; discriminate.
      - cbn. rewrite Hp. intros e H. discriminate.
      - cbn. split; auto. }
    destruct (worker a); injection Hstep as <-;
      (eapply Waits_same; [| |apply Hput]; [reflexivity | reflexivity | discriminate]).
  - unfold terminateWorker_done in Hstep.
    destruct (attempts st !! k) as [a|] eqn:Hk; [|discriminate].
    destruct (timeoutFn a) eqn:Hf; try discriminate.
    destruct (HW k a Hk) as (H1 & H2 & H3 & H4 & H5).
    assert (timeoutId a = Fired) as Hfired by (apply H5; rewrite Hf; discriminate).
    assert (waitForUrlOpened a = Pending) as Hp.
    { destruct (waitForUrlOpened a) as [| |e] eqn:Hw; [reflexivity | |].
      - pose proof (proj1 H3 eq_refl). congruence.
      - destruct (H4 e eq_refl) as [_ H]. congruence. }
    destruct cb as [err|time]; injection Hstep as <-.
    + apply (Waits_same (put_attempt k (set_timeoutFn (Crashed (ClientErr err)) a) st));
        [reflexivity | reflexivity|].
      apply (Waits_put k a); [exact Hk | | exact HW].
      unfold attempt_waits. cbn. rewrite Hfired, Hp in *.
      split; [exact H1|]. split; [discriminate|]. split; [split; discriminate|].
      split; [intros e H; discriminate|]. split; [reflexivity | discriminate].
    + apply Waits_resume_urlOpened. cbn. rewrite Hp.
      apply (Waits_put k a); [exact Hk | | exact HW].
      unfold attempt_waits. cbn. rewrite Hfired in *.
      split; [exact H1|]. split; [discriminate|]. split; [split; discriminate|].
      split; [|split; [reflexivity | discriminate]].
      intros e H. injection H as <-. auto.
  - injection Hstep as <-. unfold hub_request.
    destruct (match_route req) as [id|].
    + destruct (Waits_notify "open" id st HInv HW) as [_ H].
      apply (H (ARespond (Redirect REDIRECT_STATUS (query_url req)))).
    + apply (Waits_same st); [reflexivity | reflexivity | exact HW].
  - injection Hstep as <-.
    destruct (Waits_notify event arg st HInv HW) as [_ H]. apply (H AGetWorkers).
Qed.

Lemma Waits_run (evs : list Event) :
  ∀ st st', Inv st → Waits st → run this hostname uid st evs = Some st' → Waits st'.
Proof.
  induction evs as [|ev evs IH]; intros st st' HInv HW Hrun; cbn in Hrun.
  - injection Hrun as <-. exact HW.
  - destruct (step this hostname uid st ev) as [st1|] eqn:Hstep; [|discriminate].
    apply (IH st1 st'); [| |exact Hrun].
    + apply (Inv_step this hostname uid st st1 ev HInv Hstep).
    + apply (Waits_step st st1 ev HInv HW Hstep).
Qed.

End WaitsFacts.

Lemma Waits_reachable (this : Connector) (hostname : string) (uid : nat → string)
    (evs : list Event) (st : State) :
  run this hostname uid initial evs = Some st → Waits st.
Proof.
  intros Hrun.
  apply (Waits_run this hostname uid evs initial st Inv_initial); [|exact Hrun].
  intros k a Hk. discriminate.
Qed.

Lemma In_handlers_of (event : string) (k : nat) (st : State) :
  In (event, k) (listeners st) → In k (handlers_of event st).
Proof.
  intros Hin. unfold handlers_of. apply in_map_iff. exists (event, k).
  split; [reflexivity|]. apply List.filter_In. split; [exact Hin|].
  cbn. apply String.eqb_refl.
Qed.

(** [X22] No lost wakeup while the timer is armed. In every run, an
    attempt whose opening timer is armed has its handler registered on
    the hub under 'browser-opened', its waiter is pending, its timeout
    function has not been called and no termination has been requested
    for it; and an event 'browser-opened' emitted on the hub with its
    correlation id then fulfils its waiter and clears its timer, whatever
    its body is doing and whatever else is in flight. *)
Theorem armed_attempt_is_listening (this : Connector) (hostname : string)
    (uid : nat → string) (evs : list Event) (st : State) (k : nat) (a : Attempt) :
  run this hostname uid initial evs = Some st →
  attempts st !! k = Some a →
  timeoutId a = Armed →
  In k (handlers_of "browser-opened" st)
  ∧ waitForUrlOpened a = Pending
  ∧ timeoutFn a = NotCalled
  ∧ terminate_calls k st = 0%nat
  ∧ ∃ st' a',
      step this hostname uid st (Emit "browser-opened" (browserId a)) = Some st'
      ∧ attempts st' !! k = Some a'
      ∧ waitForUrlOpened a' = Fulfilled ∧ timeoutId a' = Cleared.
Proof.
  intros Hrun Hk Ht.
  destruct (Waits_reachable this hostname uid evs st Hrun k a Hk)
    as (H1 & H2 & _ & _ & H5).
  assert (In k (handlers_of "browser-opened" st)) as Hin
    by (apply In_handlers_of, H1, Ht).
  pose proof (H2 Ht) as Hp.
  split; [exact Hin|]. split; [exact Hp|]. split; [|split].
  - destruct (timeoutFn a) eqn:Hf; [reflexivity| | |];
      (assert (timeoutId a = Fired) by (apply H5; discriminate); congruence).
  - destruct (terminate_once_reachable this hostname uid st (ex_intro _ evs Hrun) k)
      as [Hz|(_ & x & Hx & Hfired)]; [exact Hz | congruence].
  - destruct (emit_own_id_clears "browser-opened" st k a Hk Hp Ht Hin)
      as (a1 & Hk1 & Hf1 & Hc1 & _).
    destruct (continues_after_emit this hostname uid (λ _, True)
                (handlers_of "browser-opened" st) (λ _ _, I)
                (emit "browser-opened" (browserId a) st)) as (Hcont & _ & _).
    destruct (Hcont k a1 Hk1) as (a2 & Hk2 & (_ & _ & Hw2 & Ht2 & _) & _).
    exists (after_emit this hostname uid (handlers_of "browser-opened" st)
              (emit "browser-opened" (browserId a) st)), a2.
    split; [reflexivity|]. split; [exact Hk2|]. split; congruence.
Qed.

(** [attempt_just_started]: the worker of attempt 0 is still being
    created when the notification comes. *)
Lemma armed_attempt_is_listening_witness :
  In 0%nat (handlers_of "browser-opened" (after [start_chrome no_options]))
  ∧ waitForUrlOpened attempt_just_started = Pending
  ∧ timeoutFn attempt_just_started = NotCalled
  ∧ terminate_calls 0 (after [start_chrome no_options]) = 0%nat
  ∧ ∃ st' a',
      step connector0 "localhost" uid0 (after [start_chrome no_options])
        (Emit "browser-opened" (browserId attempt_just_started)) = Some st'
      ∧ attempts st' !! 0%nat = Some a'
      ∧ waitForUrlOpened a' = Fulfilled ∧ timeoutId a' = Cleared.
Proof.
  apply (armed_attempt_is_listening connector0 "localhost" uid0
           [start_chrome no_options] (after [start_chrome no_options]) 0
           attempt_just_started);
    [vm_compute; reflexivity | vm_compute; reflexivity | reflexivity].
Defined.

(** [X23] Confirmation and timeout exclude each other. In every run and
    for every attempt: the waiter is fulfilled exactly when the timer has
    been cleared, and then the timeout function has never been called
    and no termination has been requested for the attempt; the waiter is
    rejected only with 'Browser starting timeout expired', after the
    timer has fired and the timeout function has run to its end; and the
    timeout function has been called exactly when the timer has
    fired. *)
Theorem confirmation_excludes_timeout (this : Connector) (hostname : string)
    (uid : nat → string) (evs : list Event) (st : State) (k : nat) (a : Attempt) :
  run this hostname uid initial evs = Some st →
  attempts st !! k = Some a →
  (waitForUrlOpened a = Fulfilled ↔ timeoutId a = Cleared)
  ∧ (waitForUrlOpened a = Fulfilled →
     timeoutFn a = NotCalled ∧ terminate_calls k st = 0%nat)
  ∧ (∀ e, waitForUrlOpened a = Rejected e →
          e = Str "Browser starting timeout expired"
          ∧ timeoutId a = Fired ∧ timeoutFn a = Completed)
  ∧ (timeoutFn a ≠ NotCalled ↔ timeoutId a = Fired).
Proof.
  intros Hrun Hk.
  destruct (Waits_reachable this hostname uid evs st Hrun k a Hk)
    as (_ & _ & H3 & H4 & H5).
  split; [exact H3|]. split; [|split; [|exact H5]].
  - intros Hf. apply H3 in Hf. split.
    + destruct (timeoutFn a) eqn:Hfn; [reflexivity| | |];
        (assert (timeoutId a = Fired) by (apply H5; discriminate); congruence).
    + destruct (terminate_once_reachable this hostname uid st (ex_intro _ evs Hrun) k)
        as [Hz|(_ & x & Hx & Hfired)]; [exact Hz | congruence].
  - intros e He. destruct (H4 e He) as [-> Hfn]. split; [reflexivity|].
    split; [|exact Hfn]. apply H5. rewrite Hfn. discriminate.
Qed.

Lemma confirmation_excludes_timeout_witness :
  (waitForUrlOpened second_attempt_confirmed = Fulfilled
   ↔ timeoutId second_attempt_confirmed = Cleared)
  ∧ (waitForUrlOpened second_attempt_confirmed = Fulfilled →
     timeoutFn second_attempt_confirmed = NotCalled
     ∧ terminate_calls 1 (after scenario_second_attempt) = 0%nat)
  ∧ (∀ e, waitForUrlOpened second_attempt_confirmed = Rejected e →
          e = Str "Browser starting timeout expired"
          ∧ timeoutId second_attempt_confirmed = Fired
          ∧ timeoutFn second_attempt_confirmed = Completed)
  ∧ (timeoutFn second_attempt_confirmed ≠ NotCalled
     ↔ timeoutId second_attempt_confirmed = Fired).
Proof.
  apply (confirmation_excludes_timeout connector0 "localhost" uid0
           scenario_second_attempt (after scenario_second_attempt) 1
           second_attempt_confirmed);
    vm_compute; reflexivity.
Defined.

(** * Part 15: the tunnel *)

Section TunnelFacts.
Context (this : Connector) (accessKey : string) (win : bool).

Lemma session_run_snoc (s : Session) (evs : list SessionEvent) (ev : SessionEvent) :
  session_run this accessKey win s (evs ++ [ev])
  = session_step this accessKey win (session_run this accessKey win s evs) ev.
Proof. unfold session_run. rewrite foldl_app. reflexivity. Qed.

Lemma connects_snoc (evs : list SessionEvent) (ev : SessionEvent) :
  connects (evs ++ [ev])
  = (connects evs + match ev with SConnect => 1 | _ => 0 end)%nat.
Proof.
  unfold connects. rewrite List.filter_app, length_app. destruct ev; reflexivity.
Qed.

(** The handle and the tunnels started, after any history. *)
Lemma session_tunnels (evs : list SessionEvent) :
  let s := session_run this accessKey win new_session evs in
  tunnels s = connects evs
  ∧ localConnection s = match connects evs with O => None | S n => Some n end
  ∧ starts (s_effects s) = seq 0 (connects evs)
  ∧ ∀ t opts, In (TStart t opts) (s_effects s) → opts = connect_opts this accessKey win.
Proof.
  cbv zeta. induction evs as [|ev evs IH] using rev_ind.
  - cbn. repeat split. intros t opts [].
  - rewrite session_run_snoc, connects_snoc.
    destruct IH as (Ht & Hl & Hs & Ho).
    set (s := session_run this accessKey win new_session evs) in *.
    destruct ev as [|t err| |t|e]; cbn [session_step].
    + split; [cbn; lia|]. split; [|split].
      * cbn. rewrite Ht. replace (connects evs + 1)%nat with (S (connects evs)) by lia.
        reflexivity.
      * unfold starts in *. cbn. rewrite Hs, Ht.
        replace (connects evs + 1)%nat with (S (connects evs)) by lia.
        rewrite seq_S. reflexivity.
      * intros t opts [H|H]; [congruence | eauto].
    + rewrite Nat.add_0_r. unfold start_done, session_log, session_effect.
      destruct err as [e|]; [destruct (connectorLogging this)|]; cbn;
        (split; [exact Ht|]; split; [exact Hl|]; split; [exact Hs|]);
        intros t' opts Hin; repeat (destruct Hin as [Hin|Hin]; [discriminate|]);
        eauto.
    + rewrite Nat.add_0_r. unfold disconnect, session_effect. cbn.
      destruct (localConnection s); cbn;
        (split; [exact Ht|]; split; [exact Hl|]; split; [exact Hs|]);
        intros t' opts [Hin|Hin]; try discriminate; eauto.
    + rewrite Nat.add_0_r. unfold session_effect. cbn.
      split; [exact Ht|]. split; [exact Hl|]. split; [exact Hs|].
      intros t' opts [Hin|Hin]; [discriminate | eauto].
    + rewrite Nat.add_0_r. cbn. auto.
Qed.

(** The hub of the session sees the hub events of the history, a
    [disconnect] being a [close]. *)
Lemma session_hub (evs : list SessionEvent) :
  hub (session_run this accessKey win new_session evs)
  = hub_run new_Hub (hub_events evs).
Proof.
  induction evs as [|ev evs IH] using rev_ind; [reflexivity|].
  rewrite session_run_snoc. unfold hub_events. rewrite omap_app.
  unfold hub_run. rewrite foldl_app. fold (hub_events evs).
  fold (hub_run new_Hub (hub_events evs)). rewrite <- IH.
  set (s := session_run this accessKey win new_session evs).
  destruct ev as [|t err| |t|e]; cbn; try reflexivity.
  - unfold start_done, session_log, session_effect.
    destruct err; [destruct (connectorLogging this)|]; reflexivity.
  - unfold disconnect, session_effect. cbn. destruct (localConnection s); reflexivity.
Qed.

End TunnelFacts.

(** [X24] [disconnect] stops the tunnel of the latest [connect], and only
    that one: after any history of calls and answers, it closes the hub
    and then, if [connect] has been called [n + 1] times, asks tunnel [n]
    to stop, whether its start has succeeded, failed or not been answered
    yet; the tunnels of earlier calls are left running. If [connect] has
    never been called, the hub is closed all the same and the promise is
    rejected with a TypeError, [localConnection] being [null]. *)
Theorem disconnect_stops_latest_tunnel (this : Connector) (accessKey : string)
    (win : bool) (evs : list SessionEvent) :
  let s := session_run this accessKey win new_session evs in
  starts (s_effects s) = seq 0 (connects evs)
  ∧ (connects evs = 0%nat →
     s_effects (disconnect s)
     = TDisconnectSettled (inl (TypeError "Cannot read property 'stop' of null"))
         :: s_effects s)
  ∧ (∀ n, connects evs = S n → s_effects (disconnect s) = TStop n :: s_effects s)
  ∧ hs_effects (hub (disconnect s))
    = (rev (map HDestroy (hs_sockets (hub s))) ++ HServerClose :: hs_effects (hub s))%list.
Proof.
  cbv zeta. destruct (session_tunnels this accessKey win evs) as (_ & Hl & Hs & _).
  split; [exact Hs|]. unfold disconnect, session_effect. cbn. rewrite Hl.
  split; [|split].
  - intros ->. reflexivity.
  - intros n ->. reflexivity.
  - destruct (connects evs); reflexivity.
Qed.

(** [X25] The tunnel and the workers carry the same identifier: every
    [start] request that [connect] makes passes the [tunnelIdentifier] of
    the connector as [localIdentifier], together with the access key,
    and every [createWorker] request of every run of the session opener
    passes that same identifier, so the remote browsers reach the hub
    through the tunnel of this connector. *)
Theorem tunnel_and_workers_share_identifier (this : Connector)
    (accessKey : string) (win : bool) (hostname : string) (uid : nat → string)
    (sevs : list SessionEvent) (evs : list Event) (st : State) (t : nat)
    (opts : TunnelOpts) (k : nat) (settings : WorkerSettings) :
  In (TStart t opts) (s_effects (session_run this accessKey win new_session sevs)) →
  run this hostname uid initial evs = Some st →
  In (ACreateWorker k settings) (st_log st) →
  ws_localIdentifier settings = opt_localIdentifier opts
  ∧ opt_localIdentifier opts = tunnelIdentifier this
  ∧ opt_key opts = accessKey.
Proof.
  intros Hstart Hrun Hcreate.
  destruct (session_tunnels this accessKey win sevs) as (_ & _ & _ & Hopts).
  rewrite (Hopts t opts Hstart). cbn.
  assert (sound_log this hostname uid st) as Hsound.
  { apply (sound_run this hostname uid evs initial st); [constructor | exact Hrun]. }
  unfold sound_log in Hsound. rewrite Forall_forall in Hsound.
  apply list_elem_of_In in Hcreate.
  destruct (Hsound _ Hcreate) as [call ->]. cbn. auto.
Qed.

Lemma tunnel_and_workers_share_identifier_witness :
  ws_localIdentifier
    (worker_settings connector0 "localhost"
       (mkStartCall chrome "http://localhost:3000/test" no_job no_options
          3 60000 WNull 0 None (Running 0)) "abc123")
  = opt_localIdentifier (connect_opts connector0 "secret" false)
  ∧ opt_localIdentifier (connect_opts connector0 "secret" false)
    = tunnelIdentifier connector0
  ∧ opt_key (connect_opts connector0 "secret" false) = "secret".
Proof.
  apply (tunnel_and_workers_share_identifier connector0 "secret" false
           "localhost" uid0 [SConnect; SStartDone 0 None]
           scenario_awaiting_callback (after scenario_awaiting_callback) 0
           (connect_opts connector0 "secret" false) 0
           (worker_settings connector0 "localhost"
              (mkStartCall chrome "http://localhost:3000/test" no_job no_options
                 3 60000 WNull 0 None (Running 0)) "abc123")).
  - vm_compute. repeat (first [left; reflexivity | right]).
  - vm_compute. reflexivity.
  - vm_compute. repeat (first [left; reflexivity | right]).
Defined.

(** * Part 16: calls in flight together *)

Lemma calls_kept_refl (J : nat → Prop) (st : State) : calls_kept J st st.
Proof. intros c call Hc. left. exact Hc. Qed.

Lemma calls_kept_trans (J : nat → Prop) (st1 st2 st3 : State) :
  calls_kept J st1 st2 → calls_kept J st2 st3 → calls_kept J st1 st3.
Proof.
  intros H12 H23 c call Hc. destruct (H12 c call Hc) as [Hc2|Hr]; [|right; exact Hr].
  apply (H23 c call Hc2).
Qed.

Lemma calls_kept_mono (J J' : nat → Prop) (st st' : State) :
  (∀ k, J k → J' k) → calls_kept J st st' → calls_kept J' st st'.
Proof.
  intros HJ H c call Hc. destruct (H c call Hc) as [Hc'|(k & Hk & Hr)]; [left; exact Hc'|].
  right. exists k. auto.
Qed.

Lemma calls_kept_same (J : nat → Prop) (st st' : State) :
  calls st' = calls st → calls_kept J st st'.
Proof. intros Heq c call Hc. left. rewrite Heq. exact Hc. Qed.

Section CallsFacts.
Context (this : Connector) (hostname : string) (uid : nat → string).

(** The loop of call [c] writes the record of call [c] only. *)
Lemma startBrowser_loop_calls_other (c c0 : nat) (st : State) :
  c0 ≠ c →
  calls (startBrowser_loop this hostname uid c st) !! c0 = calls st !! c0.
Proof.
  intros Hne. unfold startBrowser_loop.
  destruct (calls st !! c) as [call|]; [|reflexivity].
  destruct (_ && _).
  - unfold _startBrowser_begin. cbv zeta. cbn. apply list_lookup_insert_ne. congruence.
  - destruct (c_error call); cbn; apply list_lookup_insert_ne; congruence.
Qed.

Lemma calls_kept_settle (J : nat → Prop) (k : nat) (a : Attempt)
    (r : JsError + Worker) (st : State) :
  Inv st → attempts st !! k = Some a → unsettled (body a) → J k →
  calls_kept J st (settle this hostname uid k r st).
Proof.
  intros HInv Hk Hu HJ c call Hc.
  destruct (unsettled_call_running k a st HInv Hk Hu) as (call0 & Hc0 & Hr0).
  destruct (decide (c = owner a)) as [->|Hne].
  - right. exists k. split; [exact HJ|]. congruence.
  - left. unfold settle. rewrite Hk. cbv zeta.
    change (calls (put_attempt k
                     (set_body match r with inl e => Failed e | inr w => Resolved w end a)
                     st)) with (calls st).
    rewrite Hc0. rewrite startBrowser_loop_calls_other by exact Hne.
    cbn. rewrite list_lookup_insert_ne by congruence. exact Hc.
Qed.

Lemma calls_kept_after_urlOpened (J : nat → Prop) (k : nat) (a : Attempt)
    (st : State) :
  Inv st → attempts st !! k = Some a → unsettled (body a) → J k →
  calls_kept J st (after_urlOpened this hostname uid k st).
Proof.
  intros HInv Hk Hu HJ. unfold after_urlOpened. rewrite Hk.
  destruct (worker a) as [| |w].
  - apply (calls_kept_settle J k a); assumption.
  - apply (calls_kept_settle J k a); assumption.
  - apply (calls_kept_trans J st (lift (_log this
                                         (show match calls st !! owner a with
                                               | Some call => bs_name (c_browserSettings call)
                                               | None => None
                                               end ++ " started. See "
                                            ++ show (browser_url w))) st)).
    + apply calls_kept_same. reflexivity.
    + apply (calls_kept_settle J k a); [apply Inv_lift, HInv | exact Hk | exact Hu | exact HJ].
Qed.

Lemma calls_kept_await_urlOpened (J : nat → Prop) (k : nat) (a : Attempt)
    (st : State) :
  Inv st → attempts st !! k = Some a → unsettled (body a) → J k →
  calls_kept J st (await_urlOpened this hostname uid k st).
Proof.
  intros HInv Hk Hu HJ. unfold await_urlOpened. rewrite Hk. cbv zeta.
  set (a' := set_body AwaitUrlOpened a).
  assert (Inv (put_attempt k a' st)) as HInv'.
  { apply (Inv_put_attempt k a a'); auto.
    intros w' _ Hb. rewrite Hb in Hu. contradiction. }
  assert (attempts (put_attempt k a' st) !! k = Some a') as Hk'.
  { cbn. apply list_lookup_insert_eq. eapply lookup_lt_Some; eassumption. }
  apply (calls_kept_trans J st (put_attempt k a' st));
    [apply calls_kept_same; reflexivity|].
  destruct (waitForUrlOpened a).
  - apply calls_kept_refl.
  - apply (calls_kept_after_urlOpened J k a'); auto. exact I.
  - apply (calls_kept_settle J k a'); auto. exact I.
Qed.

Lemma calls_kept_resume_urlOpened (J : nat → Prop) (st : State) (k : nat) :
  Inv st → J k → calls_kept J st (resume_urlOpened this hostname uid st k).
Proof.
  intros HInv HJ. unfold resume_urlOpened.
  destruct (attempts st !! k) as [a|] eqn:Hk; [|apply calls_kept_refl].
  destruct (body a) eqn:Hb; try apply calls_kept_refl.
  apply (calls_kept_await_urlOpened J k a); auto. rewrite Hb. exact I.
Qed.

Lemma calls_kept_getWorker_test (J : nat → Prop) (k : nat) (id : string) (n : nat)
    (a : Attempt) (st : State) :
  Inv st → attempts st !! k = Some a → unsettled (body a) → J k →
  calls_kept J st (_getWorker_test this hostname uid k id n st).
Proof.
  intros HInv Hk Hu HJ. unfold _getWorker_test. rewrite Hk.
  destruct (n <=? maxAttempts)%nat.
  - apply calls_kept_same. reflexivity.
  - apply (calls_kept_trans J st (put_attempt k (set_worker WUndefined a) st));
      [apply calls_kept_same; reflexivity|].
    apply (calls_kept_await_urlOpened J k (set_worker WUndefined a)).
    + apply (Inv_put_attempt k a); auto.
    + cbn. apply list_lookup_insert_eq. eapply lookup_lt_Some; eassumption.
    + exact Hu.
    + exact HJ.
Qed.

Lemma emit_calls (event arg : string) (st : State) :
  calls (emit event arg st) = calls st.
Proof.
  unfold emit. generalize (handlers_of event st) as hs. intros hs. revert st.
  induction hs as [|k hs IH]; intros st; cbn; [reflexivity|].
  rewrite IH. unfold hubHandler.
  destruct (attempts st !! k) as [a|]; [|reflexivity].
  destruct (String.eqb arg (browserId a)); reflexivity.
Qed.

Lemma calls_kept_after_emit (J : nat → Prop) (hs : list nat) :
  (∀ k, In k hs → J k) →
  ∀ st, Inv st → calls_kept J st (after_emit this hostname uid hs st).
Proof.
  unfold after_emit. induction hs as [|k hs IH]; intros HJ st HInv; cbn.
  - apply calls_kept_refl.
  - eapply calls_kept_trans.
    + apply calls_kept_resume_urlOpened; [exact HInv | apply HJ; left; reflexivity].
    + apply IH.
      * intros k' Hk'. apply HJ. right. exact Hk'.
      * apply Inv_resume_urlOpened. exact HInv.
Qed.

(** A turn of the event loop changes the record of a call only if the
    call is waiting for an attempt the event is about. *)
Lemma calls_kept_step (st st' : State) (ev : Event) :
  Inv st → step this hostname uid st ev = Some st' →
  calls_kept (subject st ev) st st'.
Proof.
  intros HInv Hstep.
  destruct ev as [bs url job options|k cb|k cb|k|k|k cb|req|event arg];
    cbn in Hstep; cbn [subject].
  - injection Hstep as <-. intros c call Hc. left.
    unfold startBrowser. cbv zeta.
    assert (c < length (calls st))%nat as Hlt by (eapply lookup_lt_Some; eassumption).
    rewrite startBrowser_loop_calls_other by lia.
    cbn. rewrite lookup_app_l by exact Hlt. exact Hc.
  - unfold createWorker_done in Hstep.
    destruct (attempts st !! k) as [a|] eqn:Hk; [|discriminate].
    destruct (body a) eqn:Hb; try discriminate.
    destruct cb as [err|workerId]; injection Hstep as <-.
    + apply (calls_kept_trans _ st (lift (_log this err) st));
        [apply calls_kept_same; reflexivity|].
      apply (calls_kept_settle _ k a); [apply Inv_lift, HInv | exact Hk | | reflexivity].
      rewrite Hb. exact I.
    + apply (calls_kept_getWorker_test _ k workerId 0 a);
        [exact HInv | exact Hk | rewrite Hb; exact I | reflexivity].
  - unfold getWorker_done in Hstep.
    destruct (attempts st !! k) as [a|] eqn:Hk; [|discriminate].
    destruct (body a) eqn:Hb; try discriminate. cbv zeta in Hstep.
    assert (unsettled (body a)) as Hu by (rewrite Hb; exact I).
    destruct (is_running (resolve_res cb)); injection Hstep as <-.
    + apply (calls_kept_trans _ st
               (put_attempt k (set_worker (of_option (resolve_res cb)) a) st));
        [apply calls_kept_same; reflexivity|].
      apply (calls_kept_await_urlOpened _ k (set_worker (of_option (resolve_res cb)) a)).
      * apply (Inv_put_attempt k a); auto.
      * cbn. apply list_lookup_insert_eq. eapply lookup_lt_Some; eassumption.
      * exact Hu.
      * reflexivity.
    + apply calls_kept_same. reflexivity.
  - unfold wait_done in Hstep.
    destruct (attempts st !! k) as [a|] eqn:Hk; [|discriminate].
    destruct (body a) eqn:Hb; try discriminate. injection Hstep as <-.
    apply (calls_kept_getWorker_test _ k workerId attempts0 a);
      [exact HInv | exact Hk | rewrite Hb; exact I | reflexivity].
  - unfold opening_timeout in Hstep.
    destruct (attempts st !! k) as [a|] eqn:Hk; [|discriminate].
    destruct (timeoutId a); try discriminate. cbn in Hstep.
    destruct (worker a); injection Hstep as <-; apply calls_kept_same; reflexivity.
  - unfold terminateWorker_done in Hstep.
    destruct (attempts st !! k) as [a|] eqn:Hk; [|discriminate].
    destruct (timeoutFn a) eqn:Ht; try discriminate.
    destruct cb as [err|time]; injection Hstep as <-.
    + apply calls_kept_same. reflexivity.
    + eapply calls_kept_trans; [|apply calls_kept_resume_urlOpened; [|reflexivity]].
      * apply calls_kept_same. reflexivity.
      * apply (Inv_put_attempt k a); auto.
        -- cbn. destruct (waitForUrlOpened a); reflexivity.
        -- cbn. destruct (waitForUrlOpened a); cbn; auto.
        -- intros w' Hf Hb. cbn. rewrite Hf. cbn. auto.
  - injection Hstep as <-. unfold hub_request.
    destruct (match_route req) as [id|]; [|apply calls_kept_same; reflexivity].
    apply (calls_kept_trans _ st
             (emit_action (ARespond (Redirect REDIRECT_STATUS (query_url req)))
                (emit "open" id st))).
    + apply calls_kept_same. cbn. apply emit_calls.
    + apply calls_kept_after_emit; [auto|]. apply Inv_emit_action, Inv_emit, HInv.
  - injection Hstep as <-.
    apply (calls_kept_trans _ st (emit event arg st)).
    + apply calls_kept_same. apply emit_calls.
    + apply calls_kept_after_emit; [auto|]. apply Inv_emit, HInv.
Qed.

(** Resuming a body that waits for a pending promise suspends it again. *)
Lemma resume_urlOpened_pending (st : State) (k : nat) :
  (∀ a, attempts st !! k = Some a → body a = AwaitUrlOpened →
        waitForUrlOpened a = Pending) →
  calls (resume_urlOpened this hostname uid st k) = calls st
  ∧ ∀ a', attempts (resume_urlOpened this hostname uid st k) !! k = Some a' →
          body a' = AwaitUrlOpened → waitForUrlOpened a' = Pending.
Proof.
  intros Hidle. unfold resume_urlOpened.
  destruct (attempts st !! k) as [a|] eqn:Hk.
  - destruct (body a) eqn:Hb; try (split; [reflexivity|rewrite Hk; exact Hidle]).
    unfold await_urlOpened. rewrite Hk. cbv zeta.
    rewrite (Hidle a eq_refl Hb). split; [reflexivity|].
    intros a' Ha' _. cbn in Ha'.
    rewrite list_lookup_insert_eq in Ha' by (eapply lookup_lt_Some; eassumption).
    injection Ha' as <-. cbn. apply (Hidle a eq_refl Hb).
  - split; [reflexivity|]. rewrite Hk. exact Hidle.
Qed.

(** The bodies resumed after a notification: those that still wait for a
    pending promise stay where they are, and so do the calls that wait
    for them. *)
Lemma calls_kept_after_emit_pending (J : nat → Prop) (hs : list nat) :
  ∀ st, Inv st →
        (∀ k, In k hs →
              J k ∨ ∀ a, attempts st !! k = Some a → body a = AwaitUrlOpened →
                         waitForUrlOpened a = Pending) →
        calls_kept J st (after_emit this hostname uid hs st).
Proof.
  unfold after_emit. induction hs as [|k hs IH]; intros st HInv HJ; cbn.
  - apply calls_kept_refl.
  - assert (∀ k', k' ≠ k →
              (∀ a, attempts st !! k' = Some a → body a = AwaitUrlOpened →
                    waitForUrlOpened a = Pending) →
              ∀ a', attempts (resume_urlOpened this hostname uid st k) !! k' = Some a' →
                    body a' = AwaitUrlOpened → waitForUrlOpened a' = Pending)
      as Hother.
    { intros k' Hne Hidle' a' Ha' Hb'.
      destruct (continues_resume_urlOpened this hostname uid (λ x, x = k) st k
                  eq_refl) as (Hold & Hnew & _).
      destruct (attempts st !! k') as [a|] eqn:Hk'.
      - destruct (Hold k' a Hk') as (a2 & Ha2 & _ & Hsame).
        rewrite (Hsame Hne) in Ha2.
        assert (a' = a) as -> by congruence. apply (Hidle' a eq_refl Hb').
      - apply lookup_ge_None in Hk'.
        destruct (Hnew k' a' Ha' Hk') as (_ & Hp & _). exact Hp. }
    eapply calls_kept_trans.
    + destruct (HJ k (or_introl eq_refl)) as [HJk|Hidle].
      * apply calls_kept_resume_urlOpened; [exact HInv | exact HJk].
      * apply calls_kept_same. apply (resume_urlOpened_pending st k Hidle).
    + apply IH; [apply Inv_resume_urlOpened; exact HInv|].
      intros k' Hk'. destruct (HJ k' (or_intror Hk')) as [HJk'|Hidle'];
        [left; exact HJk'|].
      destruct (decide (k' = k)) as [->|Hne].
      * destruct (HJ k (or_introl eq_refl)) as [HJk|Hidle]; [left; exact HJk|].
        right. apply (resume_urlOpened_pending st k Hidle).
      * right. apply (Hother k' Hne Hidle').
Qed.

(** The turn of a notification: the handlers are called, the response is
    sent where there is one, and the bodies are resumed. Only a call that
    waits for an attempt with the id of the notification can change. *)
Lemma calls_kept_notification (J : nat → Prop) (event arg : string)
    (st st1 : State) :
  Inv st → Waits st →
  attempts st1 = attempts (emit event arg st) → calls st1 = calls st → Inv st1 →
  (∀ k a, In k (handlers_of event st) → attempts st !! k = Some a →
          browserId a = arg → J k) →
  calls_kept J st (after_emit this hostname uid (handlers_of event st) st1).
Proof.
  intros HInv HW Hatt Hcalls HInv1 HJ.
  apply (calls_kept_trans J st st1); [apply calls_kept_same; exact Hcalls|].
  apply calls_kept_after_emit_pending; [exact HInv1|].
  intros k Hin. destruct (attempts st !! k) as [a|] eqn:Hk.
  - destruct (String.eqb_spec (browserId a) arg) as [Heq|Hne].
    + left. apply (HJ k a Hin Hk Heq).
    + right. intros a1 Ha1 _. rewrite Hatt in Ha1.
      rewrite (emit_other_id event arg st k a Hk Hne) in Ha1.
      injection Ha1 as <-.
      destruct (HW k a Hk) as (Harmed & Hpending & _).
      apply Hpending, Harmed.
      pose proof (handlers_of_In event k st Hin) as Hl.
      destruct (inv_listeners st HInv) as [Hnamed _].
      rewrite List.Forall_forall in Hnamed.
      destruct (Hnamed _ Hl) as [He _]. cbn in He. subst event. exact Hl.
  - right. intros a1 Ha1. exfalso.
    apply lookup_ge_None in Hk. apply lookup_lt_Some in Ha1.
    rewrite Hatt in Ha1.
    destruct (emit_attempts event arg st) as (_ & Hlen & _). lia.
Qed.

End CallsFacts.

(** [X26] Calls in flight together do not interfere. In every run, a turn
    of the event loop changes the record of a call of [startBrowser]
    (its local variables and its outcome) only if that call is waiting
    for an attempt of its own that the event addresses: the attempt whose
    client request the event answers, or an attempt whose handler a
    notification calls and whose correlation id the notification
    carries. So the answers to the requests of one call, and every
    notification that carries another id than the one of the attempt a
    call is waiting for, leave that call as it is; so does the firing of
    an opening timer; and a call that has returned or thrown never
    changes again. *)
Theorem calls_do_not_interfere (this : Connector) (hostname : string)
    (uid : nat → string) (evs : list Event) (st st' : State) (ev : Event)
    (c : nat) (call : StartCall) :
  run this hostname uid initial evs = Some st →
  step this hostname uid st ev = Some st' →
  calls st !! c = Some call →
  calls st' !! c = Some call
  ∨ ∃ k a, attempts st !! k = Some a ∧ owner a = c
           ∧ c_state call = Running k ∧ addressed st ev k a.
Proof.
  intros Hrun Hstep Hc.
  destruct (Inv2_run this hostname uid evs initial st Inv2_initial Hrun) as [HInv HS].
  pose proof (Waits_reachable this hostname uid evs st Hrun) as HW.
  assert (∀ k, c_state call = Running k →
               ∃ a, attempts st !! k = Some a ∧ owner a = c) as Hown.
  { intros k Hr. destruct (HS c call Hc) as [_ Hstate]. rewrite Hr in Hstate.
    destruct Hstate as (a & (Hk & Ho & _) & _). exists a. auto. }
  assert (∀ J : nat → Prop,
            calls_kept J st st' →
            (∀ k a, J k → attempts st !! k = Some a → addressed st ev k a) →
            calls st' !! c = Some call
            ∨ ∃ k a, attempts st !! k = Some a ∧ owner a = c
                     ∧ c_state call = Running k ∧ addressed st ev k a) as Hfrom.
  { intros J Hkept HJ. destruct (Hkept c call Hc) as [Hsame|(k & HJk & Hr)];
      [left; exact Hsame|].
    right. destruct (Hown k Hr) as (a & Hk & Ho). exists k, a.
    split; [exact Hk|]. split; [exact Ho|]. split; [exact Hr|].
    apply (HJ k a HJk Hk). }
  pose proof (calls_kept_step this hostname uid st st' ev HInv Hstep) as Hstd.
  destruct ev as [bs url job options|k0 cb|k0 cb|k0|k0|k0 cb|req|event arg].
  - apply (Hfrom _ Hstd). intros k a [].
  - apply (Hfrom _ Hstd). intros k a Hk _. exact Hk.
  - apply (Hfrom _ Hstd). intros k a Hk _. exact Hk.
  - apply (Hfrom _ Hstd). intros k a Hk _. exact Hk.
  - left. cbn in Hstep. unfold opening_timeout in Hstep.
    destruct (attempts st !! k0) as [a|]; [|discriminate].
    destruct (timeoutId a); try discriminate. cbn in Hstep.
    destruct (worker a); injection Hstep as <-; exact Hc.
  - apply (Hfrom _ Hstd). intros k a Hk _. exact Hk.
  - cbn in Hstep. injection Hstep as <-.
    destruct (match_route req) as [id|] eqn:Hroute;
      [|left; unfold hub_request; rewrite Hroute; exact Hc].
    apply (Hfrom (λ k, ∃ a, attempts st !! k = Some a
                            ∧ In k (handlers_of "open" st) ∧ browserId a = id)).
    + unfold hub_request. rewrite Hroute.
      apply (calls_kept_notification this hostname uid _ "open" id st);
        [exact HInv | exact HW | reflexivity | cbn; apply emit_calls
        | apply Inv_emit_action, Inv_emit, HInv |].
      intros k a Hin Hk Hid. exists a. auto.
    + intros k a (a0 & Hk0 & Hin & Hid) Hk. cbn.
      assert (a0 = a) as -> by congruence. rewrite Hid. auto.
  - cbn in Hstep. injection Hstep as <-.
    apply (Hfrom (λ k, ∃ a, attempts st !! k = Some a
                            ∧ In k (handlers_of event st) ∧ browserId a = arg)).
    + apply (calls_kept_notification this hostname uid _ event arg st);
        [exact HInv | exact HW | reflexivity | apply emit_calls
        | apply Inv_emit, HInv |].
      intros k a Hin Hk Hid. exists a. auto.
    + intros k a (a0 & Hk0 & Hin & Hid) Hk. cbn.
      assert (a0 = a) as -> by congruence. auto.
Qed.

(** [scenario_two_calls]: a notification with the id of the attempt of
    the first call, under the name both handlers are registered for,
    leaves the second call, which waits for an attempt with another id,
    as it was. *)
Lemma calls_do_not_interfere_witness :
  ∃ call,
    calls (after scenario_two_calls) !! 1%nat = Some call
    ∧ c_state call = Running 1
    ∧ In 1%nat (handlers_of "browser-opened" (after scenario_two_calls))
    ∧ calls (after (scenario_two_calls ++ [Emit "browser-opened" "abc123"]))
        !! 1%nat = Some call.
Proof.
  eexists. split; [vm_compute; reflexivity|].
  split; [reflexivity|]. split; [vm_compute; right; left; reflexivity|].
  destruct (calls_do_not_interfere connector0 "localhost" uid0 scenario_two_calls
              (after scenario_two_calls)
              (after (scenario_two_calls ++ [Emit "browser-opened" "abc123"]))
              (Emit "browser-opened" "abc123") 1
              (mkStartCall chrome "http://localhost:3000/test" no_job no_options
                 3 60000 WNull 0 None (Running 1)))
    as [Hsame|(k & a & Hk & Ho & Hr & _ & Hid)].
  - vm_compute. reflexivity.
  - vm_compute. reflexivity.
  - vm_compute. reflexivity.
  - exact Hsame.
  - exfalso. injection Hr as <-. vm_compute in Hk. injection Hk as <-.
    discriminate Hid.
Defined.
